(* ===== verification/_CoqProject ===== *)
-Q . S2P
Prelude.v
Bytes.v
Float64.v
Hostname.v
Sniff.v
Tls.v
TlsHello.v
TlsRecords.v
Http.v
Quic.v
QuicReassembly.v
QuicPackets.v
QuicKeys.v
QuicEncode.v
QuicSession.v
Config.v
Cli.v
ConfigKeys.v
TcpSniff.v
Socks5.v
Ordered.v
Domains.v
Routes.v
Rules.v
State.v
Scores.v
Stats.v
Picks.v
Probes.v
Monitors.v
HealthTask.v
Atomics.v
AtomicsAlone.v
AtomicsSafe.v
Udp.v
Pending.v
UdpFlow.v
Sessions.v
SessionLife.v
UdpTasks.v
UdpTasksSafe.v
UdpTasksFlow.v
UdpTasksOrder.v
UdpTasksLive.v
UdpTasksRuns.v
SocketCalls.v
Listen.v
TcpInfo.v
Fake.v
Relay.v
Replies.v
Helpers.v
Tcp.v
TcpFlow.v
UdpSession.v
Lifecycle.v
Process.v
