(* ===== verification/Prelude.v ===== *)
(** * A verification library for xtp-rs

    xtp-rs (crate sources under [src/src/]) is a transparent proxy: it accepts
    TPROXY TCP connections and UDP datagrams, sniffs a domain from their first
    bytes, decides by mode, domain and address rules whether to go direct, and
    otherwise picks a scored SOCKS5 upstream and relays. This library holds a
    shallow embedding of its logic and the theorems about it.

    ** How the parts work together

    A TCP connection is handled by [handle_tcp_connection] ([tcp.rs], file
    [Tcp]): it asks the routing state ([State]) whether to go direct, sniffs a
    name from the bytes the client shows ([Sniff], [Tls], [Http], [TcpSniff]),
    looks up the upstream group of the client ([Routes]), takes the cached
    upstream or picks one of the group ([Picks], from the scores of [Scores]),
    speaks SOCKS5 to it ([Socks5]), retries on failure, and relays ([Relay]).
    A UDP datagram goes to the table of waiting flows ([Pending]), is fed to the
    QUIC sniffer ([Quic] and the files after it) until a name is known or the
    flow gives up, and then to the session table ([Sessions]) and out through
    the session's outbound ([UdpSession]); its receive task ([Replies]) sends what comes
    back to the client, for a transparent flow through the spoofed sockets of
    [Fake]. Both take their connections and datagrams from the loops of
    [Listen], on the sockets of [SocketCalls]. The configuration ([Config],
    [Cli], [ConfigKeys]) builds the routing state and the upstream set
    ([Probes], [build_upstream_set]), whose scores the tasks of [Scores],
    [Monitors] and [HealthTask] keep up to date. [Lifecycle] starts, replaces
    and stops all of these tasks, and [Process] is [main].

    ** Conventions

    Rust's [Result] is [res]: [Ok] and [Err] are its constructors, [Panic] marks
    every bounds check, [unwrap], checked overflow or slice the source could
    fail on, [Diverge] a loop that ran out of fuel; the totality theorems show
    the last two away. Bytes are [Byte.byte], a [&str] is the list of its UTF-8
    bytes, unsigned integers are [Z] with their saturation, truncation or
    checked overflow written out ([usize] is 64-bit), an [f64] is a
    [spec_float] of binary64 with Rust's saturating casts ([Float64]).
    Durations are integers; an operation reads the clock once. A section under
    a lock, and an operation on atomics, is one function; where tasks
    interleave, they do so between these functions: as the rules of a step
    relation in [Sessions], [UdpTasks], [Lifecycle] and [Process], as an
    arbitrary environment between the steps of a task in [Tcp] and
    [UdpSession], as a sequence of operations elsewhere. [Atomics]
    goes below this for the upstreams: there every load and store of an atomic
    is a step.

    Code of other crates is a parameter with its documented behaviour as named
    laws: [QuicCrypto] (hkdf, aes), [NetOps] and [TrieOps] (ipnet, iptrie),
    [draw] (fastrand), the readers of mmdb and geosite files, [getsockopt],
    [exp], and in [Runtime] the network, tokio's timer and its copy. Each law
    class has an instance among the witnesses. Tracing calls are not modelled.

    ** Files

    - this file, [Bytes]: results, integers, slices with bounds checks, byte
      strings, UTF-8, and the automation ([returns_tac], [res_inv], [zlen_lia]).
    - [Float64]: binary64 arithmetic, its casts, monotonicity and bounds.
    - [Hostname]: [is_valid_sni_hostname] ([sniff/mod.rs]) = LDH host names.
    - [Sniff]: the [Sniffer] trait as a record with the law class
      [SnifferLaws], and the peeking engine [sniff_with_engine] and
      [sniff_domain] over a timed stream of peek outcomes.
    - [Tls], [TlsHello], [TlsRecords]: [sniff/tls_common.rs] and [sniff/tls.rs];
      the ClientHello grammar and its exact correspondence with the parser;
      record fragmentation and stability of decisions.
    - [Http]: [sniff/http.rs]; rendered requests, Host values, stability.
    - [Quic], [QuicReassembly], [QuicPackets], [QuicKeys], [QuicEncode],
      [QuicSession]: [sniff/quic.rs] and [sniff/udp.rs]; the CRYPTO reassembly
      buffer as a partial map, totality over arbitrary ciphers, the keys and the
      nonce of RFC 9001 written out from the RFC ([QuicKeys]), a sender that uses
      them, and the proof that its sessions are sniffed whatever the order of
      fragments. For version 2 the code has the labels of version 1, so its
      senders are not those of RFC 9369; [quic_packet_roundtrip] is about the
      versions of RFC 9001.
    - [Config], [Cli], [ConfigKeys]: the data of [cli.rs], [validate] and its
      exact description, and the report of keys that no field reads.
    - [TcpSniff]: [build_sniffers]: the sniffers keep the laws, so the engine's
      theorems hold for the configured program.
    - [Socks5]: [socks5.rs]: the UDP packet format, the negotiation, CONNECT
      and UDP ASSOCIATE over a byte stream, each equal to its RFC description.
    - [Ordered], [Domains], [Routes], [Rules]: stable sorting; domain sets,
      tables of domain routes, compiled geosite rules; the client routing
      tables; address lists and local addresses ([state.rs], [util.rs]). Each
      compiled form is proved equal to the plain reading of the configuration.
    - [State]: [AppState] ([state.rs]): its construction, the decision to go
      direct (that of the configuration; a network of the whole address space in
      a force list counts for nothing, which [built_state_decides] says) and the
      two route caches, which refine an ideal state without eviction.
    - [Scores]: the measurements and scores of an upstream ([upstream.rs]):
      a typing invariant kept by every update, the health check, penalties.
    - [Stats]: the bucketed pick counters, refining the list of recent picks.
    - [Picks], [Probes]: the upstream set, weighted and sticky picks, probe
      reports and health rounds, and the set that a configuration builds.
    - [Monitors], [HealthTask]: the listener for probe reports, the health
      probe through SOCKS5, and the task that probes the upstreams in turn, of
      [upstream.rs]: reports are confined, and the dead are found.
    - [Atomics], [AtomicsAlone], [AtomicsSafe]: the same operations of
      [upstream.rs] as programs of atomic accesses. Uninterrupted they are the
      functions of [Scores] and [Picks] ([update_alone], [pick_alone],
      [relative_round_alone]); under every interleaving they keep the set, never
      panic, and end ([interleaved_tasks_safe]). [penalty_lost] is a run in
      which a scoring round overwrites a penalty.
    - [SocketCalls]: [socket_factory.rs] over a kernel that may refuse any
      call, in a monad of system calls: what is made, in which order, and that a
      constructor that fails leaves nothing open. The TCP listeners of the
      listen address outlive a failure of its UDP sockets.
    - [Listen]: [udp/tproxy.rs] and the receive and accept loops of [tcp.rs] and
      [udp/mod.rs]: what they hand on (no empty datagram), and which errors end
      them.
    - [TcpInfo]: the struct of [getsockopt(TCP_INFO)] ([util.rs]): the byte
      counters of a connection are read as the kernel keeps them.
    - [Relay]: [relay.rs] and [relay_tcp_streams]: half-closed and silent
      connections are reclaimed, and no others.
    - [Tcp], [TcpFlow]: [tcp.rs] as a task in a state and error monad, and a
      weakest-precondition calculus ([wp]) over it, in which the routing of a
      connection is proved for every behaviour of the other tasks: they may
      change the mode, the scores and the caches at every step, as long as what
      they cache for a group are upstreams of that group.
    - [UdpSession]: [create_udp_session] and [send_payload], in the same monad as
      [Tcp]: a session gets the outbound that the rules give it, and what leaves
      through it.
    - [Udp], [Pending], [UdpFlow]: [udp/session.rs], [udp/pending.rs] and the
      loop of [udp/mod.rs] with its packets one after the other: flows keep
      their order, and end to end a QUIC flow gets its host. [Pending] is generic
      in the sniffer, class [UdpSnifferSession] with the laws [UdpSnifferLaws].
      The packet tasks that run meanwhile are the matter of [UdpTasks].
    - [Sessions]: the concurrent session table of [udp/mod.rs] as a step
      relation, with its invariant by rule induction, and over it the callers
      that a shutdown aborts while a session is created for them: such a session
      is in no table and nobody cancels it ([session_leaked]).
    - [SessionLife]: the collector of idle sessions over the table of
      [Sessions], with its round cut at each read of the table and of a last
      use, and with a clock that may be set back: a silent session is dropped in
      time, one in use is not condemned ([idle_sessions_collected]), but one
      used after it was condemned is closed all the same ([used_and_closed]).
    - [UdpTasks], and the files whose names continue it: the loops of
      [udp/mod.rs] with a task per packet, as a step relation over the table of
      [Sessions] in which a task is a place in the code. [UdpTasksSafe] has the
      locks, permits and shapes, and its relations [moves] and [acts] by which
      every later invariant goes by cases; [UdpTasksFlow] the creation of
      sessions and the flows the loop has not reaped; [UdpTasksOrder] where
      each datagram is; [UdpTasksLive] progress and the bound on the table (the
      table of one loop: each listening socket has its own, where the
      documentation has one limit for all); [UdpTasksRuns] the theorems, and runs by name of the steps, among them
      one in which a reaping makes a later packet discard a datagram.
    - [Fake]: [udp/fake.rs], and a socket that outlives its closed manager.
    - [Replies]: the receive loops of [udp/mod.rs] and [send_reply], over the
      table of [Fake] that other tasks use meanwhile: which replies reach the
      client, from which socket, and when a session ends.
    - [Helpers]: the rest of [util.rs]: hexadecimal dumps, the receive buffer,
      and what the warnings about splicing depend on.
    - [Lifecycle]: [TaskGuard] ([util.rs]), starting and stopping the tasks of
      an [AppState] ([state.rs]), reloading ([main.rs]) as steps of the
      process: reloads are transactional, and the relative scoring task leaks.
    - [Process]: [main] ([main.rs]) from the configuration file to the exit:
      its global tasks, the signals, and the bound on the exit.

    ** Fuel

    Every fuelled loop gets fuel from its input: the length of the buffer for
    the parsers (each round consumes a byte or stops), [engine_fuel] = 65 for
    the peek loop (the requested length doubles up to a [usize]), the waiting
    time in milliseconds for the wait loop (each round sleeps at least one),
    the number of entries for the eviction loop of [Pending] (each round
    removes one). The totality theorems prove that it never runs out. The retry
    loop of [Tcp] takes its fuel as an argument; [tcp_connection_routed] needs
    one more than the upstreams that can be tried.

    ** Not modelled

    The message types of [geosite.rs], which a protobuf compiler generates, and
    the decoding of TOML, JSON and protobuf, which are other libraries'; the
    text of log messages, with the printers of scores and pick counts in
    [upstream.rs]; argument parsing, which a derive macro writes. The splice
    relay is a copy without observations. What is left of the sources is
    imports, tests and logging.

    The session table ([Sessions], [UdpTasks]), the creation of a session
    ([UdpSession]) and its receive task ([Replies]) are proved each over a
    store of its own in which the others are arbitrary; one store for the three
    would let their theorems speak of one run.
*)

(** Prelude: bytes and byte strings, the result type of fallible code, slicing
    with Rust's bounds checks, and the lemmas and automation every component
    file shares. *)

From Stdlib Require Export ZArith Lia.
From Stdlib Require Import Strings.Byte Strings.String.
From stdpp Require Export base decidable option list numbers gmap fin_maps fin_sets.

#[global] Open Scope Z_scope.

(** * Lists *)

Lemma filter_all {A} (P : A -> Prop) `{!forall x, Decision (P x)} (l : list A) : (forall x, x ∈ l -> P x) -> filter P l = l.
Proof.
  induction l as [|x l IH]; intros Hall; [done|]. rewrite filter_cons, decide_True by (apply Hall; by left).
  f_equal. apply IH. intros y Hy. apply Hall. by right.
Qed.
Lemma filter_ext_in {A} (P Q : A -> Prop) `{!forall x, Decision (P x), !forall x, Decision (Q x)} (l : list A) :
  (forall x, x ∈ l -> P x <-> Q x) -> filter P l = filter Q l.
Proof.
  induction l as [|x l IH]; intros Hall; [done|]. rewrite !filter_cons, (IH (fun y Hy => Hall y (list_elem_of_further _ _ _ Hy))).
  pose proof (Hall x ltac:(by left)). repeat case_decide; tauto.
Qed.

(** * Results of Rust code

    [Ok]/[Err] are the two constructors of Rust's [Result].  [Panic] is a
    failed bounds check, an arithmetic underflow or an [unwrap] of [None]:
    the definitions produce it wherever the source would panic, so that its
    absence is a theorem.  [Diverge] is a loop that has used up its fuel. *)
Inductive res (E A : Type) : Type :=
  | Ok (a : A)
  | Err (e : E)
  | Panic
  | Diverge.
Arguments Ok {E A} a.
Arguments Err {E A} e.
Arguments Panic {E A}.
Arguments Diverge {E A}.

Definition res_bind {E A B} (r : res E A) (f : A -> res E B) : res E B :=
  match r with
  | Ok a => f a
  | Err e => Err e
  | Panic => Panic
  | Diverge => Diverge
  end.

Definition res_map_err {E F A} (f : E -> F) (r : res E A) : res F A :=
  match r with
  | Ok a => Ok a
  | Err e => Err (f e)
  | Panic => Panic
  | Diverge => Diverge
  end.

(** [opt.ok_or(e)?] *)
Definition ok_or {E A} (e : E) (o : option A) : res E A :=
  match o with Some a => Ok a | None => Err e end.

(** An indexing expression: out of range panics. *)
Definition or_panic {E A} (o : option A) : res E A :=
  match o with Some a => Ok a | None => Panic end.

(** The code returned a value of its result type: no panic, no divergence. *)
Definition returns {E A} (r : res E A) : Prop :=
  match r with Ok _ | Err _ => True | Panic | Diverge => False end.

Declare Scope res_scope.
Delimit Scope res_scope with res.
Notation "'let?' x := c1 'in' c2" := (res_bind c1 (fun x => c2))
  (at level 10, x pattern, c1 at level 100, c2 at level 200) : res_scope.
Notation "'ensure' b 'else' e 'in' c" := (if (b : bool) then c else Err e)
  (at level 10, b at level 100, e at level 100, c at level 200) : res_scope.
#[global] Open Scope res_scope.

Lemma res_bind_ok {E A B} (r : res E A) (f : A -> res E B) b :
  res_bind r f = Ok b <-> exists a, r = Ok a /\ f a = Ok b.
Proof. destruct r; cbn; split; [eauto | | | | | | | ]; try done; intros (? & ? & ?); by simplify_eq. Qed.

Lemma returns_bind {E A B} (r : res E A) (f : A -> res E B) :
  returns r -> (forall a, r = Ok a -> returns (f a)) -> returns (res_bind r f).
Proof. destruct r; cbn; auto. Qed.

Lemma returns_ok_or {E A} (e : E) (o : option A) : returns (ok_or e o).
Proof. by destruct o. Qed.

Lemma returns_map_err {E F A} (f : E -> F) (r : res E A) :
  returns (res_map_err f r) <-> returns r.
Proof. by destruct r. Qed.

Lemma res_map_err_ok {E F A} (f : E -> F) (r : res E A) a : res_map_err f r = Ok a -> r = Ok a.
Proof. destruct r; cbn; congruence. Qed.

(** * Machine integers *)

Definition U8_MAX : Z := 255.
Definition U16_MAX : Z := 65535.
Definition U32_MAX : Z := 4294967295.
Definition U64_MAX : Z := 18446744073709551615.
(** [usize] of a 64-bit target. *)
Definition USIZE_MAX : Z := 18446744073709551615.

(** A second in nanoseconds, the unit of instants and durations. *)
Definition SECOND : Z := 1000000000.

(** [a.saturating_sub(b)] on an unsigned type. *)
Definition sat_sub (a b : Z) : Z := Z.max 0 (a - b).
(** [a.saturating_add(b)], [saturating_mul], [checked_add] on [usize]. *)
Definition usize_sat_add (a b : Z) : Z := Z.min USIZE_MAX (a + b).
Definition usize_sat_mul (a b : Z) : Z := Z.min USIZE_MAX (a * b).
Definition usize_checked_add (a b : Z) : option Z :=
  if a + b <=? USIZE_MAX then Some (a + b) else None.
(** [x.clamp(lo, hi)] *)
Definition clamp (lo hi x : Z) : Z := Z.min hi (Z.max lo x).

Ltac unfold_ints :=
  unfold U8_MAX, U16_MAX, U32_MAX, U64_MAX, USIZE_MAX, sat_sub, usize_sat_add,
    usize_sat_mul, clamp in *.

(** * Bytes *)

Abbreviation byte := Byte.byte.
Abbreviation bytes := (list Byte.byte).

#[global] Instance byte_eq_decision : EqDecision byte := Byte.byte_eq_dec.
#[global] Program Instance byte_countable : Countable byte :=
  inj_countable Byte.to_N Byte.of_N Byte.of_to_N.

(** The value of a [u8]. *)
Definition u8 (b : byte) : Z := Z.of_N (Byte.to_N b).
(** The cast [z as u8]. *)
Definition byte_of_Z (z : Z) : byte :=
  default Byte.x00 (Byte.of_N (Z.to_N (z mod 256))).

Lemma u8_range b : 0 <= u8 b < 256.
Proof. unfold u8. pose proof (Byte.to_N_bounded b). lia. Qed.

Lemma byte_of_Z_u8 b : byte_of_Z (u8 b) = b.
Proof.
  unfold byte_of_Z. rewrite Z.mod_small by apply u8_range.
  unfold u8. by rewrite N2Z.id, Byte.of_to_N.
Qed.

Lemma u8_of_Z z : u8 (byte_of_Z z) = z mod 256.
Proof.
  unfold byte_of_Z, u8. pose proof (Z.mod_pos_bound z 256 ltac:(lia)).
  destruct (Byte.of_N _) as [b|] eqn:E; cbn.
  - apply Byte.to_of_N in E. rewrite E. lia.
  - apply Byte.of_N_None_iff in E. lia.
Qed.

Lemma u8_inj b c : u8 b = u8 c -> b = c.
Proof. intros H. by rewrite <- (byte_of_Z_u8 b), H, byte_of_Z_u8. Qed.

(** A byte string literal. *)
Definition bs (s : string) : bytes := list_byte_of_string s.
Arguments bs s%_string.

(** Adds the range of every byte value that occurs in the context. *)
Ltac byte_bounds :=
  repeat match goal with
  | |- context [u8 ?b] => lazymatch goal with
      | _ : 0 <= u8 b < 256 |- _ => fail | _ => pose proof (u8_range b) end
  | _ : context [u8 ?b] |- _ => lazymatch goal with
      | _ : 0 <= u8 b < 256 |- _ => fail | _ => pose proof (u8_range b) end
  end.
