(* ===== verification/Bytes.v ===== *)
(** Byte buffers and byte strings: lengths and slices with Rust's bounds
    checks, big-endian integers, ASCII classes, UTF-8 validity, and the string
    operations of the Rust standard library the program calls.  A [&str] is
    the list of its UTF-8 bytes. *)

From Stdlib Require Import Strings.Byte Strings.String.
From S2P Require Import Prelude.

(** * Lengths, indexing, slices *)

Section Slices.
Context {A : Type}.
Implicit Types (l : list A) (i j : Z).

Definition zlen l : Z := Z.of_nat (length l).

(** [l.get(i)]; [l[i]] is [or_panic] of it. *)
Definition get l i : option A :=
  if 0 <=? i then l !! Z.to_nat i else None.

(** [l.get(i..j)]; [&l[i..j]] is [or_panic] of it. *)
Definition slice l i j : option (list A) :=
  if (0 <=? i) && (i <=? j) && (j <=? zlen l)
  then Some (take (Z.to_nat (j - i)) (drop (Z.to_nat i) l)) else None.

Lemma zlen_nonneg l : 0 <= zlen l.
Proof. unfold zlen; lia. Qed.

Lemma zlen_nil : zlen [] = 0.
Proof. done. Qed.

Lemma zlen_cons x l : zlen (x :: l) = 1 + zlen l.
Proof. unfold zlen; cbn [length]; lia. Qed.

Lemma zlen_app l1 l2 : zlen (l1 ++ l2) = zlen l1 + zlen l2.
Proof. unfold zlen; rewrite length_app; lia. Qed.

Lemma zlen_0_inv l : zlen l = 0 -> l = [].
Proof. destruct l; [done|rewrite zlen_cons; pose proof (zlen_nonneg l); lia]. Qed.

Lemma get_lt l i : is_Some (get l i) <-> 0 <= i < zlen l.
Proof.
  unfold get, zlen. destruct (Z.leb_spec 0 i).
  - rewrite lookup_lt_is_Some. lia.
  - split; [by intros []|lia].
Qed.

Lemma get_app_l l1 l2 i x : get l1 i = Some x -> get (l1 ++ l2) i = Some x.
Proof.
  unfold get. destruct (0 <=? i); [|done]. apply lookup_app_l_Some.
Qed.

Lemma get_mid l1 l2 x i : i = zlen l1 -> get (l1 ++ x :: l2) i = Some x.
Proof.
  intros ->. unfold get, zlen. rewrite (proj2 (Z.leb_le 0 _)) by lia.
  by rewrite Nat2Z.id, list_lookup_middle.
Qed.

Lemma slice_is_Some l i j :
  0 <= i -> i <= j -> j <= zlen l ->
  exists s, slice l i j = Some s /\ zlen s = j - i.
Proof.
  intros ? ? ?. unfold slice.
  rewrite !(proj2 (Z.leb_le _ _)) by lia. eexists; split; [done|].
  unfold zlen in *. rewrite length_take, length_drop. lia.
Qed.

Lemma slice_Some_inv l i j s :
  slice l i j = Some s -> 0 <= i <= j /\ j <= zlen l /\ zlen s = j - i.
Proof.
  unfold slice. destruct (Z.leb_spec 0 i), (Z.leb_spec i j), (Z.leb_spec j (zlen l));
    cbn; intros; simplify_eq.
  unfold zlen in *. rewrite length_take, length_drop. lia.
Qed.

Lemma slice_app_l l1 l2 i j s :
  slice l1 i j = Some s -> slice (l1 ++ l2) i j = Some s.
Proof.
  intros H. pose proof (slice_Some_inv _ _ _ _ H) as (? & ? & ?).
  unfold slice in *. rewrite zlen_app. pose proof (zlen_nonneg l2).
  rewrite !(proj2 (Z.leb_le _ _)) in * by lia. cbn in *. simplify_eq.
  f_equal. unfold zlen in *. rewrite drop_app_le by lia.
  by rewrite take_app_le by (rewrite length_drop; lia).
Qed.

Lemma slice_mid l1 l2 l3 i j :
  i = zlen l1 -> j = i + zlen l2 -> slice (l1 ++ l2 ++ l3) i j = Some l2.
Proof.
  intros -> ->. unfold slice. rewrite !zlen_app.
  pose proof (zlen_nonneg l1). pose proof (zlen_nonneg l2). pose proof (zlen_nonneg l3).
  rewrite !(proj2 (Z.leb_le _ _)) by lia. cbn. f_equal.
  replace (zlen l1 + zlen l2 - zlen l1) with (zlen l2) by lia.
  unfold zlen. rewrite !Nat2Z.id. by rewrite drop_app_length, take_app_length.
Qed.

Lemma slice_mid_end l1 l2 i j :
  i = zlen l1 -> j = i + zlen l2 -> slice (l1 ++ l2) i j = Some l2.
Proof. intros. rewrite <- (app_nil_r l2). rewrite app_nil_r at 2. by apply slice_mid. Qed.

Lemma slice_full l : slice l 0 (zlen l) = Some l.
Proof. by apply (slice_mid_end [] l). Qed.

Lemma zlen_take l n : 0 <= n <= zlen l -> zlen (take (Z.to_nat n) l) = n.
Proof. unfold zlen. rewrite length_take. lia. Qed.
End Slices.

Create Rewrite HintDb zlen.
#[export] Hint Rewrite @zlen_nil @zlen_cons @zlen_app : zlen.
Ltac zlen_simpl := autorewrite with zlen in *.
(** Non-negativity of every length in sight, then [lia]. *)
Ltac zlen_lia :=
  zlen_simpl;
  repeat match goal with
  | |- context [zlen ?l] => lazymatch goal with
      | _ : 0 <= zlen l |- _ => fail | _ => pose proof (zlen_nonneg l) end
  | _ : context [zlen ?l] |- _ => lazymatch goal with
      | _ : 0 <= zlen l |- _ => fail | _ => pose proof (zlen_nonneg l) end
  end; byte_bounds; lia.

(** * Big-endian integers *)

(** [u16::from_be_bytes([b0, b1])] *)
Definition u16_from_be (b0 b1 : byte) : Z := 256 * u8 b0 + u8 b1.
(** [u32::from_be_bytes([b0, b1, b2, b3])] *)
Definition u32_from_be (b0 b1 b2 b3 : byte) : Z :=
  65536 * u16_from_be b0 b1 + u16_from_be b2 b3.
(** [z.to_be_bytes()] at width [8 * n]. *)
Fixpoint to_be_bytes (n : nat) (z : Z) : bytes :=
  match n with
  | O => []
  | S m => byte_of_Z (z / 256 ^ Z.of_nat m) :: to_be_bytes m z
  end.

Lemma zlen_to_be_bytes n z : zlen (to_be_bytes n z) = Z.of_nat n.
Proof. induction n as [|n IH]; cbn [to_be_bytes]; zlen_simpl; lia. Qed.
Lemma zlen_be1 z : zlen (to_be_bytes 1 z) = 1.
Proof. done. Qed.
Lemma zlen_be2 z : zlen (to_be_bytes 2 z) = 2.
Proof. done. Qed.
Lemma zlen_be3 z : zlen (to_be_bytes 3 z) = 3.
Proof. done. Qed.
#[export] Hint Rewrite @zlen_be1 @zlen_be2 @zlen_be3 : zlen.

Lemma u16_to_be z : to_be_bytes 2 z = [byte_of_Z (z / 256); byte_of_Z z].
Proof. cbn. by rewrite Z.div_1_r. Qed.

Lemma u16_from_to_be z :
  0 <= z <= U16_MAX -> u16_from_be (byte_of_Z (z / 256)) (byte_of_Z z) = z.
Proof.
  unfold_ints. intros. unfold u16_from_be. rewrite !u8_of_Z.
  rewrite (Z.mod_small (z / 256)) by (split; [apply Z.div_pos|apply Z.div_lt_upper_bound]; lia).
  pose proof (Z.div_mod z 256). lia.
Qed.

Lemma u16_to_from_be b0 b1 : to_be_bytes 2 (u16_from_be b0 b1) = [b0; b1].
Proof.
  rewrite u16_to_be. unfold u16_from_be. byte_bounds. f_equal; [|f_equal]; apply u8_inj; rewrite u8_of_Z.
  - rewrite (Z.mul_comm 256), Z.div_add_l, Z.div_small, Z.add_0_r by lia. by apply Z.mod_small.
  - rewrite Z.add_comm, Z.mul_comm, Z.mod_add by lia. by apply Z.mod_small.
Qed.

Lemma u16_from_be_range b0 b1 : 0 <= u16_from_be b0 b1 <= U16_MAX.
Proof. unfold u16_from_be, U16_MAX. byte_bounds. lia. Qed.

(** The big-endian value of any number of bytes. *)
Definition from_be_bytes (l : bytes) : Z := fold_left (fun v b => 256 * v + u8 b) l 0.

Lemma from_be_acc l a :
  fold_left (fun v b => 256 * v + u8 b) l a = a * 256 ^ zlen l + from_be_bytes l.
Proof.
  unfold from_be_bytes. revert a; induction l as [|b l IH]; intros a; cbn [fold_left].
  - rewrite zlen_nil. lia.
  - pose proof (zlen_nonneg l).
    rewrite (IH (256 * a + u8 b)), (IH (256 * 0 + u8 b)), zlen_cons, Z.pow_add_r, Z.pow_1_r by lia. ring.
Qed.

Lemma from_be_cons b l : from_be_bytes (b :: l) = u8 b * 256 ^ zlen l + from_be_bytes l.
Proof. unfold from_be_bytes at 1. cbn [fold_left]. rewrite from_be_acc. ring. Qed.

Lemma from_be_range l : 0 <= from_be_bytes l < 256 ^ zlen l.
Proof.
  induction l as [|b l IH]; [by vm_compute|]. pose proof (zlen_nonneg l).
  rewrite from_be_cons, zlen_cons, Z.pow_add_r, Z.pow_1_r by lia. byte_bounds. nia.
Qed.

Lemma from_to_be n z : from_be_bytes (to_be_bytes n z) = z mod 256 ^ Z.of_nat n.
Proof.
  induction n as [|n IH]; cbn [to_be_bytes]; [by rewrite Z.mod_1_r|].
  rewrite from_be_cons, IH, zlen_to_be_bytes, u8_of_Z, Nat2Z.inj_succ, Z.pow_succ_r by lia.
  assert (0 < 256 ^ Z.of_nat n) by (apply Z.pow_pos_nonneg; lia).
  rewrite (Z.mul_comm 256), Z.rem_mul_r by lia. lia.
Qed.

Lemma to_be_mod n z w : z mod 256 ^ Z.of_nat n = w mod 256 ^ Z.of_nat n -> to_be_bytes n z = to_be_bytes n w.
Proof.
  intros H. revert H. induction n as [|n IH]; intros H; cbn [to_be_bytes]; [done|].
  rewrite Nat2Z.inj_succ, Z.pow_succ_r in H by lia. set (p := 256 ^ Z.of_nat n) in *.
  assert (0 < p) by (apply Z.pow_pos_nonneg; lia).
  rewrite (Z.mul_comm 256), !Z.rem_mul_r in H by lia.
  pose proof (Z.mod_pos_bound z p). pose proof (Z.mod_pos_bound w p).
  destruct (Z.div_mod_unique p ((z / p) mod 256) ((w / p) mod 256) (z mod p) (w mod p)) as [Hq Hr];
    [left; lia|left; lia|lia|].
  f_equal; [|by apply IH]. apply u8_inj. by rewrite !u8_of_Z.
Qed.

Lemma to_from_be l : to_be_bytes (length l) (from_be_bytes l) = l.
Proof.
  induction l as [|b l IH]; [done|]. cbn [length to_be_bytes]. rewrite from_be_cons. fold (zlen l).
  pose proof (from_be_range l). assert (0 < 256 ^ zlen l) by (apply Z.pow_pos_nonneg; [lia|apply zlen_nonneg]).
  f_equal.
  - rewrite Z.div_add_l, Z.div_small, Z.add_0_r by lia. apply byte_of_Z_u8.
  - etransitivity; [|exact IH]. apply to_be_mod. fold (zlen l). by rewrite Z.add_comm, Z.mod_add by lia.
Qed.

(** [a << 8 | b] on disjoint bits. *)
Lemma lor_shiftl_add a b n :
  0 <= n -> 0 <= b < 2 ^ n -> Z.lor (Z.shiftl a n) b = a * 2 ^ n + b.
Proof.
  intros Hn Hb.
  assert (Z.land (Z.shiftl a n) b = 0) as H0.
  { apply Z.bits_inj'. intros k Hk. rewrite Z.land_spec, Z.bits_0.
    rewrite <- (Z.mod_small b (2 ^ n)) by done.
    destruct (Z.ltb_spec k n).
    - by rewrite Z.shiftl_spec_low.
    - rewrite Z.mod_pow2_bits_high by lia. apply andb_false_r. }
  rewrite <- Z.lxor_lor, <- Z.add_nocarry_lxor by done.
  by rewrite Z.shiftl_mul_pow2.
Qed.

(** * ASCII classes *)

Definition in_range (lo hi : Z) (b : byte) : bool := (lo <=? u8 b) && (u8 b <=? hi).
Definition is_ascii_uppercase : byte -> bool := in_range 65 90.
Definition is_ascii_lowercase : byte -> bool := in_range 97 122.
Definition is_ascii_digit : byte -> bool := in_range 48 57.
Definition is_ascii_alphabetic (b : byte) : bool := is_ascii_uppercase b || is_ascii_lowercase b.
Definition is_ascii_alphanumeric (b : byte) : bool := is_ascii_alphabetic b || is_ascii_digit b.
Definition is_ascii (b : byte) : bool := u8 b <? 128.

Definition lower_byte (b : byte) : byte :=
  if is_ascii_uppercase b then byte_of_Z (u8 b + 32) else b.
(** [s.to_ascii_lowercase()]: bytes outside [A-Z], hence every byte of a
    multi-byte character, are unchanged. *)
Definition to_ascii_lowercase (s : bytes) : bytes := map lower_byte s.
(** [a.eq_ignore_ascii_case(b)] *)
Definition eq_ignore_ascii_case (a b : bytes) : bool :=
  bool_decide (to_ascii_lowercase a = to_ascii_lowercase b).

(** * UTF-8 *)

Definition is_cont (b : byte) : bool := in_range 128 191 b.

(** [std::str::from_utf8(s).is_ok()]: the well-formed sequences of the Unicode
    standard's table 3-7, as the standard library checks them. *)
Fixpoint utf8_valid (s : bytes) : bool :=
  match s with
  | [] => true
  | b0 :: t0 =>
      if u8 b0 <? 128 then utf8_valid t0
      else match t0 with
      | [] => false
      | b1 :: t1 =>
          if in_range 194 223 b0 then is_cont b1 && utf8_valid t1
          else match t1 with
          | [] => false
          | b2 :: t2 =>
              if in_range 224 239 b0 then
                (if u8 b0 =? 224 then in_range 160 191 b1
                 else if u8 b0 =? 237 then in_range 128 159 b1
                 else is_cont b1) && is_cont b2 && utf8_valid t2
              else match t2 with
              | [] => false
              | b3 :: t3 =>
                  in_range 240 244 b0 &&
                  (if u8 b0 =? 240 then in_range 144 191 b1
                   else if u8 b0 =? 244 then in_range 128 143 b1
                   else is_cont b1) && is_cont b2 && is_cont b3 && utf8_valid t3
              end
          end
      end
  end.

Lemma utf8_valid_ascii s : forallb is_ascii s = true -> utf8_valid s = true.
Proof.
  induction s as [|b s IH]; cbn; [done|]. unfold is_ascii.
  destruct (u8 b <? 128); cbn; [auto|discriminate].
Qed.

(** * Searching and splitting *)

(** [s.starts_with(p)] *)
Fixpoint starts_with (p s : bytes) : bool :=
  match p, s with
  | [], _ => true
  | _ :: _, [] => false
  | a :: p', b :: s' => Byte.eqb a b && starts_with p' s'
  end.

(** [s.ends_with(p)] *)
Definition ends_with (p s : bytes) : bool := starts_with (rev p) (rev s).

(** [s.windows(p.len()).position(|w| w == p)], the index of the first
    occurrence of a non-empty pattern; also [s.find(p)]. *)
Fixpoint find_sub (p s : bytes) : option Z :=
  if starts_with p s then Some 0
  else match s with
  | [] => None
  | _ :: s' => match find_sub p s' with Some i => Some (1 + i) | None => None end
  end.

(** [s.contains(p)] *)
Definition contains_sub (p s : bytes) : bool := bool_decide (is_Some (find_sub p s)).

(** [s.split(c)] for an ASCII character. *)
Fixpoint split_byte (c : byte) (s : bytes) : list bytes :=
  match s with
  | [] => [[]]
  | b :: s' =>
      if Byte.eqb b c then [] :: split_byte c s'
      else match split_byte c s' with
           | h :: r => (b :: h) :: r
           | [] => [[b]]
           end
  end.

(** [s.split_once(c)]: around the first occurrence. *)
Fixpoint split_once (c : byte) (s : bytes) : option (bytes * bytes) :=
  match s with
  | [] => None
  | b :: s' =>
      if Byte.eqb b c then Some ([], s')
      else match split_once c s' with
           | Some (l, r) => Some (b :: l, r)
           | None => None
           end
  end.

(** [s.rsplit_once(c)]: around the last occurrence. *)
Fixpoint rsplit_once (c : byte) (s : bytes) : option (bytes * bytes) :=
  match s with
  | [] => None
  | b :: s' =>
      match rsplit_once c s' with
      | Some (l, r) => Some (b :: l, r)
      | None => if Byte.eqb b c then Some ([], s') else None
      end
  end.

(** [s.split("\r\n")] *)
Fixpoint split_crlf (s : bytes) : list bytes :=
  match s with
  | [] => [[]]
  | b :: s' =>
      let keep := match split_crlf s' with h :: r => (b :: h) :: r | [] => [[b]] end in
      match s' with
      | c :: s'' => if Byte.eqb b "013" && Byte.eqb c "010" then [] :: split_crlf s'' else keep
      | [] => keep
      end
  end.

(** [s.trim_start_matches(c)] and [s.trim_end_matches(c)] *)
Fixpoint trim_start_byte (c : byte) (s : bytes) : bytes :=
  match s with
  | b :: s' => if Byte.eqb b c then trim_start_byte c s' else s
  | [] => []
  end.
Definition trim_end_byte (c : byte) (s : bytes) : bytes := rev (trim_start_byte c (rev s)).

(** The UTF-8 encodings of the characters with the Unicode property
    White_Space, which [str::trim] removes. *)
Definition white_space : list bytes :=
  [[x09]; [x0a]; [x0b]; [x0c]; [x0d]; [x20]; [xc2; x85]; [xc2; xa0]; [xe1; x9a; x80];
   [xe2; x80; x80]; [xe2; x80; x81]; [xe2; x80; x82]; [xe2; x80; x83]; [xe2; x80; x84];
   [xe2; x80; x85]; [xe2; x80; x86]; [xe2; x80; x87]; [xe2; x80; x88]; [xe2; x80; x89];
   [xe2; x80; x8a]; [xe2; x80; xa8]; [xe2; x80; xa9]; [xe2; x80; xaf]; [xe2; x81; x9f];
   [xe3; x80; x80]]%byte.

(** Length of the first pattern of [ps] the string starts with, 0 for none. *)
Fixpoint lead_len (ps : list bytes) (s : bytes) : nat :=
  match ps with
  | [] => O
  | p :: ps' => if starts_with p s then length p else lead_len ps' s
  end.

(** [s.trim_start()]: strip patterns while one leads ([fuel] the length). *)
Fixpoint strip_lead (ps : list bytes) (fuel : nat) (s : bytes) : bytes :=
  match fuel with
  | O => s
  | S f => match lead_len ps s with
           | O => s
           | n => strip_lead ps f (drop n s)
           end
  end.

(** [s.trim()] *)
Definition trim_start (s : bytes) : bytes := strip_lead white_space (length s) s.
Definition white_space_rev : list bytes := map (@rev byte) white_space.
Definition trim_end (s : bytes) : bytes := rev (strip_lead white_space_rev (length s) (rev s)).
Definition trim (s : bytes) : bytes := trim_end (trim_start s).

(** * Lemmas on searching and splitting *)

Lemma eqb_spec (a b : byte) : reflect (a = b) (Byte.eqb a b).
Proof. apply iff_reflect. split; [apply Byte.byte_dec_lb|apply Byte.byte_dec_bl]. Qed.

Lemma eqb_refl (a : byte) : Byte.eqb a a = true.
Proof. by destruct (eqb_spec a a). Qed.

Lemma eqb_ne (a b : byte) : a <> b -> Byte.eqb a b = false.
Proof. by destruct (eqb_spec a b). Qed.

Lemma starts_with_spec p s : starts_with p s = true <-> exists r, s = p ++ r.
Proof.
  revert s; induction p as [|a p IH]; intros [|b s]; cbn; split; intros H; try done; eauto.
  - by destruct H.
  - destruct (eqb_spec a b) as [->|]; [|done]. apply IH in H as [r ->]. by exists r.
  - destruct H as [r [= -> ->]]. rewrite eqb_refl. apply IH. by exists r.
Qed.

Lemma starts_with_app p r : starts_with p (p ++ r) = true.
Proof. apply starts_with_spec. by exists r. Qed.

Lemma ends_with_spec p s : ends_with p s = true <-> exists r, s = r ++ p.
Proof.
  unfold ends_with. rewrite starts_with_spec. split; intros [r H].
  - exists (rev r). apply (f_equal (@rev byte)) in H. rewrite rev_involutive, rev_app_distr, rev_involutive in H. done.
  - exists (rev r). by rewrite H, rev_app_distr.
Qed.

Lemma find_sub_Some p s i :
  find_sub p s = Some i -> exists l r, s = l ++ p ++ r /\ i = zlen l.
Proof.
  revert i; induction s as [|b s IH]; intros i; cbn.
  - destruct p; cbn; intros; simplify_eq. by exists [], [].
  - destruct (starts_with p (b :: s)) eqn:E; intros H.
    + apply starts_with_spec in E as [r E]. simplify_eq. by exists [], r.
    + destruct (find_sub p s) as [k|] eqn:F; simplify_eq.
      destruct (IH k eq_refl) as (l & r & -> & ->). exists (b :: l), r.
      split; [done|]. zlen_lia.
Qed.

Lemma find_sub_None p s l r : find_sub p s = None -> s <> l ++ p ++ r.
Proof.
  revert l; induction s as [|b s IH]; intros l; cbn.
  - destruct p; [done|]. by intros _; destruct l.
  - destruct (starts_with p (b :: s)) eqn:E; [done|].
    destruct (find_sub p s) eqn:F; [done|]. intros _ H.
    destruct l as [|a l]; cbn in *; simplify_eq.
    + rewrite H, starts_with_app in E. done.
    + by apply (IH l).
Qed.

Lemma contains_sub_spec p s : contains_sub p s = true <-> exists l r, s = l ++ p ++ r.
Proof.
  unfold contains_sub. rewrite bool_decide_eq_true. split.
  - intros [i H]. apply find_sub_Some in H as (l & r & -> & _). eauto.
  - intros (l & r & H). destruct (find_sub p s) eqn:E; [eauto|].
    by apply (find_sub_None _ _ l r) in E.
Qed.

Fixpoint join (c : byte) (ls : list bytes) : bytes :=
  match ls with
  | [] => []
  | [l] => l
  | l :: ls' => l ++ c :: join c ls'
  end.

Lemma split_byte_cons c s : exists h r, split_byte c s = h :: r.
Proof.
  induction s as [|b s (h & r & IH)]; cbn; [eauto|].
  destruct (Byte.eqb b c); [eauto|]. rewrite IH. eauto.
Qed.

Lemma join_split c s : join c (split_byte c s) = s.
Proof.
  induction s as [|b s IH]; [done|]. cbn [split_byte].
  destruct (split_byte_cons c s) as (h & r & E). rewrite E in *.
  destruct (eqb_spec b c) as [->|].
  - cbn in *. by rewrite IH.
  - cbn. destruct r; cbn in *; by rewrite IH.
Qed.

Lemma split_byte_no_sep c s : c ∉ s -> split_byte c s = [s].
Proof.
  induction s as [|b s IH]; [done|]. intros H%not_elem_of_cons. destruct H. cbn.
  rewrite eqb_ne, IH by done. done.
Qed.

Lemma split_byte_app c l s : c ∉ l -> split_byte c (l ++ c :: s) = l :: split_byte c s.
Proof.
  induction l as [|b l IH]; intros H; cbn.
  - by rewrite eqb_refl.
  - apply not_elem_of_cons in H as [? ?]. rewrite eqb_ne, IH by done. done.
Qed.

Lemma split_join c ls :
  ls <> [] -> Forall (fun l => c ∉ l) ls -> split_byte c (join c ls) = ls.
Proof.
  intros Hne H. induction H as [|l ls Hl Hls IH]; [done|].
  destruct ls as [|l' ls]; cbn [join].
  - by apply split_byte_no_sep.
  - rewrite split_byte_app by done. f_equal. by apply IH.
Qed.

Lemma split_byte_Forall c s : Forall (fun l => c ∉ l) (split_byte c s).
Proof.
  induction s as [|b s IH]; cbn; [repeat constructor; apply not_elem_of_nil|].
  destruct (split_byte_cons c s) as (h & r & E). rewrite E in *.
  destruct (eqb_spec b c).
  - constructor; [apply not_elem_of_nil|done].
  - inversion IH; subst. constructor; [|done]. by apply not_elem_of_cons.
Qed.

(** * Automation for bounds-checked code *)

Lemma get_is_Some {A} (l : list A) i : 0 <= i -> i < zlen l -> exists x, get l i = Some x.
Proof. intros. destruct (proj2 (get_lt l i)) as [x]; eauto. Qed.

(** Facts about the values in the context; a component adds its own with
    [::=] before [zlen_lia] discharges a bounds check. *)
Ltac bound_facts := idtac.
Ltac bounds_lia := bound_facts; unfold_ints; zlen_lia.

(** One step of a proof of [returns]: enters binds, splits tests, and
    discharges every bounds check with [lia]. *)
Ltac returns_step :=
  match goal with
  | |- returns (Ok _) => exact I
  | |- returns (Err _) => exact I
  | |- returns Diverge => exfalso; bounds_lia
  | H : ?P |- ?P => exact H
  | |- returns (res_bind (Ok _) _) => cbn [res_bind]
  | |- returns (res_bind (Err _) _) => exact I
  | |- returns (res_bind (or_panic (slice ?l ?i ?j)) _) =>
      let s := fresh "s" in let E := fresh "Es" in let H := fresh "Hs" in
      destruct (slice_is_Some l i j) as (s & E & H);
      [bounds_lia|bounds_lia|bounds_lia|rewrite E; cbn [or_panic res_bind]]
  | |- returns (res_bind (or_panic (get ?l ?i)) _) =>
      let x := fresh "x" in let E := fresh "Ex" in
      destruct (get_is_Some l i) as (x & E);
      [bounds_lia|bounds_lia|rewrite E; cbn [or_panic res_bind]]
  | |- returns (res_bind (ok_or _ ?o) _) =>
      let E := fresh "Eo" in destruct o eqn:E; cbn [ok_or res_bind]; [|exact I]
  | |- returns (if ?b then _ else _) => let E := fresh "Eb" in destruct b eqn:E
  | |- returns (res_bind (if ?b then _ else _) _) => let E := fresh "Eb" in destruct b eqn:E
  | |- returns (res_bind _ _) => apply returns_bind; [|intros]
  | |- returns (let '(_, _) := ?p in _) => destruct p
  | |- returns (match ?o with Some _ => _ | None => _ end) => destruct o eqn:?
  end.
Ltac returns_tac := repeat (cbv zeta; returns_step).

(** Results of the called functions: [returns_tac; auto with returns]. *)
Create HintDb returns.
#[export] Hint Resolve @returns_ok_or : returns.

(** The tests a successful computation has passed, as facts for [lia]. *)
Lemma ensure_ok {E A} (b : bool) (e : E) (r : res E A) a :
  (if b then r else Err e) = Ok a <-> b = true /\ r = Ok a.
Proof. destruct b; split; [auto|by intros []|done|by intros []]. Qed.

Lemma ok_or_ok {E A} (e : E) (o : option A) a : ok_or e o = Ok a <-> o = Some a.
Proof. destruct o; cbn; split; congruence. Qed.

Lemma or_panic_ok {E A} (o : option A) (a : A) : @or_panic E A o = Ok a <-> o = Some a.
Proof. destruct o; cbn; split; congruence. Qed.

(** A slice cuts the list in three. *)
Lemma slice_split {A} (l : list A) i j s :
  slice l i j = Some s -> exists l1 l3, l = l1 ++ s ++ l3 /\ zlen l1 = i /\ zlen s = j - i.
Proof.
  intros H. pose proof (slice_Some_inv _ _ _ _ H) as ([? ?] & ? & ?).
  unfold slice in H. rewrite !(proj2 (Z.leb_le _ _)) in H by lia. cbn in H. simplify_eq.
  exists (take (Z.to_nat i) l), (drop (Z.to_nat (j - i)) (drop (Z.to_nat i) l)).
  rewrite take_drop, take_drop. split; [done|]. split; [|done].
  unfold zlen in *. rewrite length_take. lia.
Qed.

Lemma get_split {A} (l : list A) i x :
  get l i = Some x -> exists l1 l3, l = l1 ++ x :: l3 /\ zlen l1 = i.
Proof.
  unfold get. destruct (Z.leb_spec 0 i); [|done]. intros H1.
  exists (take (Z.to_nat i) l), (drop (S (Z.to_nat i)) l). split.
  - by rewrite take_drop_middle.
  - apply lookup_lt_Some in H1. unfold zlen. rewrite length_take. lia.
Qed.

(** Reading back a known decomposition. *)
Lemma slice_at {A} (l l1 l2 l3 : list A) i j :
  l = l1 ++ l2 ++ l3 -> i = zlen l1 -> j = i + zlen l2 -> slice l i j = Some l2.
Proof. intros ->. apply slice_mid. Qed.

Lemma get_at {A} (l l1 l3 : list A) x i : l = l1 ++ x :: l3 -> i = zlen l1 -> get l i = Some x.
Proof. intros ->. apply get_mid. Qed.

(** A slice that ends inside a prefix is a slice of the prefix. *)
Lemma slice_prefix {A} (l1 l2 : list A) i j : j <= zlen l1 -> slice (l1 ++ l2) i j = slice l1 i j.
Proof.
  intros Hj. destruct (slice l1 i j) eqn:E; [by apply slice_app_l|].
  unfold slice in *. destruct (Z.leb_spec 0 i), (Z.leb_spec i j), (Z.leb_spec j (zlen l1)),
    (Z.leb_spec j (zlen (l1 ++ l2))); cbn in *; try done; lia.
Qed.

Lemma get_prefix {A} (l1 l2 : list A) i : i < zlen l1 -> get (l1 ++ l2) i = get l1 i.
Proof.
  intros Hi. unfold get. destruct (Z.leb_spec 0 i); [|done].
  apply lookup_app_l. unfold zlen in Hi. lia.
Qed.

(** Decompositions at a common position agree. *)
Lemma app_inj_zlen {A} (l1 l2 k1 k2 : list A) :
  zlen l1 = zlen k1 -> l1 ++ l2 = k1 ++ k2 -> l1 = k1 /\ l2 = k2.
Proof. unfold zlen. intros Hl. apply app_inj_1. lia. Qed.

(** * Reading by index *)

Lemma get_nonneg {A} (l : list A) i x : get l i = Some x -> 0 <= i < zlen l.
Proof. intros H. apply get_lt. by exists x. Qed.

Lemma get_None {A} (l : list A) i : get l i = None <-> ~ (0 <= i < zlen l).
Proof.
  destruct (get l i) eqn:E.
  - split; [done|]. intros Hn. destruct Hn. apply get_lt. eauto.
  - split; [|done]. intros _ [x Hx]%get_lt. congruence.
Qed.

Lemma get_app {A} (l1 l2 : list A) i :
  get (l1 ++ l2) i = if i <? zlen l1 then get l1 i else get l2 (i - zlen l1).
Proof.
  destruct (Z.ltb_spec i (zlen l1)); [by apply get_prefix|].
  unfold get, zlen in *. rewrite !(proj2 (Z.leb_le _ _)) by lia.
  rewrite lookup_app_r by lia. f_equal. lia.
Qed.

Lemma get_replicate {A} (x : A) n i :
  get (replicate n x) i = if (0 <=? i) && (i <? Z.of_nat n) then Some x else None.
Proof.
  unfold get. destruct (Z.leb_spec 0 i); [|done]. cbn [andb]. destruct (Z.ltb_spec i (Z.of_nat n)).
  - apply lookup_replicate_2. lia.
  - apply lookup_replicate_None. lia.
Qed.

Lemma zlen_replicate {A} (x : A) n : zlen (replicate n x) = Z.of_nat n.
Proof. unfold zlen. by rewrite length_replicate. Qed.
#[export] Hint Rewrite @zlen_replicate : zlen.

Lemma get_slice {A} (l s : list A) i j k :
  slice l i j = Some s -> 0 <= k < j - i -> get s k = get l (i + k).
Proof.
  intros (l1 & l3 & -> & <- & Hs)%slice_split Hk. pose proof (zlen_nonneg l1).
  rewrite get_app, (proj2 (Z.ltb_ge _ _)) by lia.
  replace (zlen l1 + k - zlen l1) with k by lia. rewrite get_app, (proj2 (Z.ltb_lt _ _)) by lia. done.
Qed.

Lemma get_ext {A} (l k : list A) : (forall i, 0 <= i -> get l i = get k i) -> l = k.
Proof.
  intros H. apply list_eq. intros i. specialize (H (Z.of_nat i) ltac:(lia)). unfold get in H.
  by rewrite (proj2 (Z.leb_le _ _)), Nat2Z.id in H by lia.
Qed.

(** Equal concatenations up to association. *)
Ltac app_eq := repeat progress (cbn [app]; rewrite <- ?app_assoc); reflexivity.

(** Inverts every step of a computation known to return [Ok]. *)
Ltac res_inv :=
  repeat match goal with
  | H : res_bind _ _ = Ok _ |- _ =>
      let a := fresh "a" in let H1 := fresh "H" in
      apply res_bind_ok in H as (a & H1 & H); cbn beta iota zeta in H
  | H : (if _ then _ else Err _) = Ok _ |- _ =>
      let H1 := fresh "H" in apply ensure_ok in H as [H1 H]
  | H : or_panic _ = Ok _ |- _ => apply or_panic_ok in H
  | H : ok_or _ _ = Ok _ |- _ => apply ok_or_ok in H
  | H : Ok _ = Ok _ |- _ => injection H as H; subst
  | H : Err _ = Ok _ |- _ => discriminate H
  end.

(** * Cursors *)

(** The bytes of [buf] from [off] on. *)
Definition cursor (buf : bytes) (off : Z) (rest : bytes) : Prop :=
  exists pre, buf = pre ++ rest /\ off = zlen pre.

Lemma cursor_bytes buf off d rest :
  cursor buf off (d ++ rest) ->
  slice buf off (off + zlen d) = Some d /\ cursor buf (off + zlen d) rest /\ off + zlen d <= zlen buf.
Proof.
  intros (pre & -> & ->). split; [|split].
  - by eapply slice_at.
  - exists (pre ++ d). rewrite <- app_assoc. split; [done|]. by zlen_simpl.
  - zlen_lia.
Qed.

Lemma cursor_cons buf off b rest :
  cursor buf off (b :: rest) ->
  get buf off = Some b /\ cursor buf (off + 1) rest /\ off + 1 <= zlen buf.
Proof.
  intros H. destruct (cursor_bytes buf off [b] rest H) as (Hs & Hc & Hl).
  split; [|by split]. destruct H as (pre & -> & ->). by apply get_mid.
Qed.

Lemma cursor_range buf off rest : cursor buf off rest -> 0 <= off /\ off + zlen rest = zlen buf.
Proof. intros (pre & -> & ->). split; [apply zlen_nonneg|zlen_lia]. Qed.

(** Successful reads at a cursor. *)
Lemma cursor_slice_inv (buf : bytes) off n d rest :
  cursor buf off rest -> slice buf off (off + n) = Some d ->
  exists rest', rest = d ++ rest' /\ zlen d = n /\ cursor buf (off + n) rest'.
Proof.
  intros (pre & -> & ->) (l1 & l3 & E & Hl & Hd)%slice_split.
  symmetry in Hl. apply app_inj_zlen in E as [-> ->]; [|done]. exists l3.
  split; [done|]. split; [lia|]. exists (l1 ++ d). rewrite <- app_assoc. split; [done|]. zlen_simpl. lia.
Qed.

Lemma cursor_get_inv (buf : bytes) off b rest :
  cursor buf off rest -> get buf off = Some b ->
  exists rest', rest = b :: rest' /\ cursor buf (off + 1) rest'.
Proof.
  intros (pre & -> & ->) (l1 & l3 & E & Hl)%get_split.
  symmetry in Hl. apply app_inj_zlen in E as [-> ->]; [|done]. exists l3.
  split; [done|]. exists (l1 ++ [b]). rewrite <- app_assoc. split; [done|]. zlen_simpl. lia.
Qed.

Lemma cursor_start (buf : bytes) : cursor buf 0 buf.
Proof. by exists []. Qed.

(** * More on searching, splitting and UTF-8 *)

Lemma starts_with_app_l p s t : starts_with p s = true -> starts_with p (s ++ t) = true.
Proof. rewrite !starts_with_spec. intros [r ->]. exists (r ++ t). by rewrite app_assoc. Qed.

Lemma starts_with_app_inv p s t :
  (length p <= length s)%nat -> starts_with p (s ++ t) = starts_with p s.
Proof.
  revert s; induction p as [|a p IH]; intros [|b s] H; cbn in *; try done; [lia|].
  rewrite IH by lia. done.
Qed.

Lemma find_sub_bound p s i : find_sub p s = Some i -> 0 <= i /\ i + zlen p <= zlen s.
Proof. intros (l & r & -> & ->)%find_sub_Some. zlen_lia. Qed.

(** An occurrence inside the buffer is still the first one when it grows. *)
Lemma find_sub_app p s t i : find_sub p s = Some i -> find_sub p (s ++ t) = Some i.
Proof.
  revert i; induction s as [|b s IH]; intros i.
  - cbn. destruct p; [|done]. cbn. intros [= <-]. by destruct t.
  - intros H. pose proof (find_sub_bound _ _ _ H) as [? ?]. unfold zlen in *.
    cbn [app find_sub] in *. change (b :: s ++ t) with ((b :: s) ++ t).
    rewrite starts_with_app_inv by lia.
    destruct (starts_with p (b :: s)); [done|].
    destruct (find_sub p s) as [k|] eqn:E; [|done]. by rewrite (IH k).
Qed.

(** The first occurrence after a prefix in which the pattern cannot start. *)
Lemma find_sub_skip p l r :
  (forall l1 l2, l = l1 ++ l2 -> l2 <> [] -> starts_with p (l2 ++ p ++ r) = false) ->
  find_sub p (l ++ p ++ r) = Some (zlen l).
Proof.
  induction l as [|b l IH]; intros H.
  - cbn [app]. destruct p; cbn; [by destruct r|]. by rewrite eqb_refl, starts_with_app.
  - pose proof (H [] (b :: l) eq_refl ltac:(done)) as Hb. cbn [app find_sub] in *. rewrite Hb.
    rewrite IH; [f_equal; zlen_lia|]. intros l1 l2 -> Hl2. by apply (H (b :: l1)).
Qed.

Lemma utf8_valid_app s t : utf8_valid s = true -> utf8_valid t = true -> utf8_valid (s ++ t) = true.
Proof.
  remember (length s) as n eqn:Hn. revert s Hn.
  induction n as [n IH] using lt_wf_ind. intros s Hn Hs Ht.
  destruct s as [|b0 t0]; [done|]. cbn [utf8_valid app] in *.
  destruct (u8 b0 <? 128); [by apply (IH (length t0)); cbn in *; [lia|..]|].
  destruct t0 as [|b1 t1]; [done|]. cbn [app] in *.
  destruct (in_range 194 223 b0).
  { apply andb_true_iff in Hs as [-> Hs]. cbn. by apply (IH (length t1)); cbn in *; [lia|..]. }
  destruct t1 as [|b2 t2]; [done|]. cbn [app] in *.
  destruct (in_range 224 239 b0).
  { apply andb_true_iff in Hs as [-> Hs]. cbn. by apply (IH (length t2)); cbn in *; [lia|..]. }
  destruct t2 as [|b3 t3]; [done|]. cbn [app] in *.
  apply andb_true_iff in Hs as [-> Hs]. cbn. by apply (IH (length t3)); cbn in *; [lia|..].
Qed.

Lemma split_crlf_cons s : exists h r, split_crlf s = h :: r.
Proof.
  remember (length s) as n eqn:Hn. revert s Hn.
  induction n as [n IH] using lt_wf_ind. intros [|b [|c s]] ->; cbn; eauto.
  destruct (_ && _); [eauto|].
  destruct (IH (length (c :: s)) ltac:(cbn; lia) (c :: s) eq_refl) as (h & r & E).
  cbn in E. rewrite E. eauto.
Qed.

Definition crlf : bytes := ["013"; "010"]%byte.

(** A line without a line feed is split off whole. *)
Lemma split_crlf_line l s : "010"%byte ∉ l -> split_crlf (l ++ crlf ++ s) = l :: split_crlf s.
Proof.
  induction l as [|b l IH]; intros H; [done|].
  apply not_elem_of_cons in H as [Hb Hl]. specialize (IH Hl).
  cbn [app split_crlf]. rewrite IH.
  destruct (l ++ crlf ++ s) as [|c s'] eqn:E; [by destruct l|].
  destruct (eqb_spec c "010") as [->|]; [|by rewrite andb_false_r].
  destruct l; cbn in E; simplify_eq. by destruct Hl; left.
Qed.

Lemma split_once_app c l s : c ∉ l -> split_once c (l ++ c :: s) = Some (l, s).
Proof.
  induction l as [|b l IH]; intros H; cbn; [by rewrite eqb_refl|].
  apply not_elem_of_cons in H as [? ?]. by rewrite eqb_ne, IH.
Qed.
