(* ===== verification/Float64.v ===== *)
(** [f64]: the IEEE 754 binary64 operations of the Standard Library's
    [SpecFloat], the casts and comparisons of the language, and the bounds on
    rounded results that the scores rest on. *)

From Stdlib Require Import Floats.SpecFloat QArith QArith.Qpower Lqa.
From S2P Require Import Prelude.

#[local] Open Scope Z_scope.

Definition f64 : Type := spec_float.
Definition f64_zero : f64 := S754_zero false.
(** [z as f64], correctly rounded. *)
Definition f64_of_Z (z : Z) : f64 := binary_normalize 53 1024 z 0 false.
Definition f64_one : f64 := f64_of_Z 1.
Definition f64_is_finite (x : f64) : bool :=
  match x with S754_infinity _ | S754_nan => false | _ => true end.

Definition f64_mul : f64 -> f64 -> f64 := SFmul 53 1024.
Definition f64_div : f64 -> f64 -> f64 := SFdiv 53 1024.
Definition f64_add : f64 -> f64 -> f64 := SFadd 53 1024.
Definition f64_sub : f64 -> f64 -> f64 := SFsub 53 1024.
(** The literal of a decimal fraction [a / b]. *)
Definition f64_ratio (a b : Z) : f64 := f64_div (f64_of_Z a) (f64_of_Z b).

(** Comparison of the values of two floats; [None] with a NaN. *)
Definition f64_compare (x y : f64) : option comparison :=
  let num (s : bool) (m : positive) (e ez : Z) := (if s then -1 else 1) * (Zpos m * 2 ^ (e - ez)) in
  match x, y with
  | S754_nan, _ | _, S754_nan => None
  | S754_infinity s, S754_infinity t => Some (Bool.compare t s)
  | S754_infinity s, _ => Some (if s then Lt else Gt)
  | _, S754_infinity t => Some (if t then Gt else Lt)
  | S754_zero _, S754_zero _ => Some Eq
  | S754_finite s _ _, S754_zero _ => Some (if s then Lt else Gt)
  | S754_zero _, S754_finite t _ _ => Some (if t then Gt else Lt)
  | S754_finite s m e, S754_finite t n f => let ez := Z.min e f in Some (num s m e ez ?= num t n f ez)
  end.
Definition f64_lt (x y : f64) : bool := match f64_compare x y with Some Lt => true | _ => false end.
Definition f64_le (x y : f64) : bool := match f64_compare x y with Some Lt | Some Eq => true | _ => false end.
Definition f64_eq (x y : f64) : bool := match f64_compare x y with Some Eq => true | _ => false end.

(** [x.clamp(lo, hi)], [x.max(y)] *)
Definition f64_clamp (lo hi x : f64) : f64 := if f64_lt x lo then lo else if f64_lt hi x then hi else x.
Definition f64_max (x y : f64) : f64 :=
  match f64_compare x y with
  | None => match x with S754_nan => y | _ => x end
  | Some Lt => y
  | Some _ => x
  end.

(** [x as u32], [x as u64]: toward zero, saturating, NaN to 0. *)
Definition f64_trunc (m : positive) (e : Z) : Z := if 0 <=? e then Zpos m * 2 ^ e else Zpos m / 2 ^ (- e).
Definition f64_as_uint (max : Z) (x : f64) : Z :=
  match x with
  | S754_finite false m e => Z.min max (f64_trunc m e)
  | S754_infinity false => max
  | _ => 0
  end.

(** [x.round()]: to an integer, halves away from zero. *)
Definition f64_round (x : f64) : f64 :=
  match x with
  | S754_finite s m e =>
      if 0 <=? e then x
      else match (Zpos m + 2 ^ (- e - 1)) / 2 ^ (- e) with
           | Zpos r => match f64_of_Z (Zpos r) with S754_finite _ m e => S754_finite s m e | y => y end
           | _ => S754_zero s
           end
  | _ => x
  end.

(** * Values *)

(** 2 to an integer power. *)
Definition pw (e : Z) : Q := Qpower 2 e.

Lemma pw_pos e : (0 < pw e)%Q.
Proof. by apply Qpower_0_lt. Qed.
Lemma pw_add a b : (pw (a + b) == pw a * pw b)%Q.
Proof. by apply Qpower_plus. Qed.
Lemma pw_nonneg e : 0 <= e -> (pw e == inject_Z (2 ^ e))%Q.
Proof. intros He. unfold pw. change 2%Q with (inject_Z 2). by rewrite <- Zpower_Qpower. Qed.
Lemma pw_0 : (pw 0 == 1)%Q.
Proof. done. Qed.
Lemma pw_neg e : 0 <= e -> (inject_Z (2 ^ e) * pw (- e) == 1)%Q.
Proof. intros He. rewrite <- pw_nonneg, <- pw_add by done. by rewrite Z.add_opp_diag_r. Qed.

(** The value of a finite float. *)
Definition fval (x : f64) : option Q :=
  match x with
  | S754_zero _ => Some 0%Q
  | S754_finite false m e => Some (inject_Z (Zpos m) * pw e)%Q
  | S754_finite true m e => Some (- (inject_Z (Zpos m) * pw e))%Q
  | _ => None
  end.
(** A finite float between zero and [q]. *)
Definition within (x : f64) (q : Q) : Prop := exists v, fval x = Some v /\ (0 <= v <= q)%Q.

Lemma inject_pos (m : positive) : (0 < inject_Z (Zpos m))%Q.
Proof. done. Qed.

(** * Digits and shifts *)

Lemma digits2_bounds p : 2 ^ (Zpos (digits2_pos p) - 1) <= Zpos p < 2 ^ Zpos (digits2_pos p).
Proof.
  induction p as [p IH|p IH|]; cbn [digits2_pos]; [..|done];
    rewrite !Pos2Z.inj_succ; replace (Z.succ (Zpos (digits2_pos p)) - 1) with (Z.succ (Zpos (digits2_pos p) - 1)) by lia;
    rewrite !Z.pow_succ_r by lia; lia.
Qed.

Definition exact (r : shr_record) : Prop := shr_r r = false /\ shr_s r = false.

Lemma exact_loc r : loc_of_shr_record r = loc_Exact <-> exact r.
Proof. destruct r as [m [] []]; cbn; unfold exact; cbn; split; try done; by intros [? ?]. Qed.

Lemma mod_pow_add m a b : 0 <= m -> 0 <= a -> 0 <= b ->
  m mod 2 ^ (a + b) = 0 <-> m mod 2 ^ a = 0 /\ (m / 2 ^ a) mod 2 ^ b = 0.
Proof.
  intros Hm Ha Hb. pose proof (Z.pow_pos_nonneg 2 a ltac:(lia) Ha). pose proof (Z.pow_pos_nonneg 2 b ltac:(lia) Hb).
  rewrite Z.pow_add_r by done. rewrite Z.rem_mul_r by lia.
  pose proof (Z.mod_pos_bound m (2 ^ a) ltac:(lia)). pose proof (Z.mod_pos_bound (m / 2 ^ a) (2 ^ b) ltac:(lia)).
  split; [intros; split; nia|intros [-> ->]; lia].
Qed.

Lemma shr_1_spec r : 0 <= shr_m r ->
  shr_m (shr_1 r) = shr_m r / 2 /\ (exact (shr_1 r) <-> exact r /\ shr_m r mod 2 = 0).
Proof.
  destruct r as [[|[p|p|]|] br bs]; cbn [shr_m]; try done; intros _; unfold exact; cbn [shr_1 shr_m shr_r shr_s].
  - split; [done|]. rewrite Zmod_0_l, orb_false_iff. tauto.
  - split; [by rewrite (Pos2Z.inj_xI p), Z.mul_comm, Z.div_add_l, Z.div_small, Z.add_0_r by lia|].
    split; [by intros []|]. intros [_ H]. rewrite (Pos2Z.inj_xI p), Z.add_comm, Z.mul_comm, Z_mod_plus_full in H. done.
  - split; [by rewrite (Pos2Z.inj_xO p), Z.mul_comm, Z.div_mul by lia|].
    rewrite (Pos2Z.inj_xO p), Z.mul_comm, Z_mod_mult, orb_false_iff. tauto.
  - split; [done|]. split; [by intros []|by intros [_ ?]].
Qed.

Lemma shr_iter p r : 0 <= shr_m r ->
  shr_m (SpecFloat.iter_pos shr_1 p r) = shr_m r / 2 ^ Zpos p /\
  (exact (SpecFloat.iter_pos shr_1 p r) <-> exact r /\ shr_m r mod 2 ^ Zpos p = 0).
Proof.
  revert r. assert (forall a b f g r, (forall r, 0 <= shr_m r -> shr_m (f r) = shr_m r / 2 ^ a /\
      (exact (f r) <-> exact r /\ shr_m r mod 2 ^ a = 0)) ->
    (forall r, 0 <= shr_m r -> shr_m (g r) = shr_m r / 2 ^ b /\ (exact (g r) <-> exact r /\ shr_m r mod 2 ^ b = 0)) ->
    0 <= a -> 0 <= b -> 0 <= shr_m r ->
    shr_m (g (f r)) = shr_m r / 2 ^ (a + b) /\ (exact (g (f r)) <-> exact r /\ shr_m r mod 2 ^ (a + b) = 0)) as Hcomp.
  { intros a b f g r Hf Hg Ha Hb Hr. destruct (Hf r Hr) as [Ef Xf].
    assert (0 <= shr_m (f r)) as Hfr by (rewrite Ef; apply Z.div_pos; [done|by apply Z.pow_pos_nonneg]).
    destruct (Hg (f r) Hfr) as [Eg Xg]. split.
    - rewrite Eg, Ef, Z.pow_add_r, Z.div_div by (try done; try apply Z.pow_pos_nonneg; try apply Z.pow_nonzero; lia). done.
    - rewrite Xg, Xf, Ef, mod_pow_add by done. tauto. }
  induction p as [p IH|p IH|]; intros r Hr; cbn [SpecFloat.iter_pos].
  - replace (Zpos p~1) with ((1 + Zpos p) + Zpos p) by lia.
    apply (Hcomp (1 + Zpos p) (Zpos p) (fun r => SpecFloat.iter_pos shr_1 p (shr_1 r))); try done; try lia.
    intros r' Hr'. apply (Hcomp 1 (Zpos p) shr_1); try done; try lia. apply shr_1_spec.
  - replace (Zpos p~0) with (Zpos p + Zpos p) by lia. by apply (Hcomp (Zpos p) (Zpos p) (SpecFloat.iter_pos shr_1 p)).
  - by apply shr_1_spec.
Qed.

(** A shift by [k] bits, possibly none. *)
Lemma shr_spec r e k : 0 <= shr_m r ->
  let k' := Z.max 0 k in
  snd (shr r e k) = e + k' /\ shr_m (fst (shr r e k)) = shr_m r / 2 ^ k' /\
  (exact (fst (shr r e k)) <-> exact r /\ shr_m r mod 2 ^ k' = 0).
Proof.
  intros Hr. destruct k as [|p|p]; cbn [shr fst snd].
  - cbn. rewrite Z.div_1_r, Z.mod_1_r. split_and!; [lia|done|tauto].
  - rewrite Z.max_r by lia. split; [done|]. by apply shr_iter.
  - rewrite Z.max_l by lia. cbn. rewrite Z.div_1_r, Z.mod_1_r. split_and!; [lia|done|tauto].
Qed.

(** * Rounding *)

Lemma scale_le a b e : (inject_Z a * pw e <= inject_Z b * pw e)%Q <-> a <= b.
Proof. rewrite Qmult_le_r by apply pw_pos. by rewrite Zle_Qle. Qed.
Lemma scale_lt a b e : (inject_Z a * pw e < inject_Z b * pw e)%Q <-> a < b.
Proof. rewrite Qmult_lt_r by apply pw_pos. by rewrite Zlt_Qlt. Qed.
Lemma scale_shift a k e : 0 <= k -> (inject_Z (a * 2 ^ k) * pw e == inject_Z a * pw (e + k))%Q.
Proof. intros. rewrite inject_Z_mult, <- (pw_nonneg k), pw_add by done. ring. Qed.
Lemma scale_int n e : e <= 0 -> (inject_Z n == inject_Z (n * 2 ^ (- e)) * pw e)%Q.
Proof. intros. rewrite scale_shift by lia. rewrite Z.add_opp_diag_r, pw_0. ring. Qed.

(** The value that a mantissa, an exponent and a location stand for. *)
Definition located (m e : Z) (l : location) (v : Q) : Prop :=
  match l with
  | loc_Exact => (v == inject_Z m * pw e)%Q
  | loc_Inexact _ => (inject_Z m * pw e < v)%Q
  end.

Lemma located_le m e l v : located m e l v -> (inject_Z m * pw e <= v)%Q.
Proof. destruct l; cbn; lra. Qed.

Lemma round_even_cases m r : exists d, round_nearest_even m (loc_of_shr_record r) = m + d /\ 0 <= d <= 1 /\ (exact r -> d = 0).
Proof.
  destruct r as [m' [] []]; unfold exact; cbn.
  - exists 1. split_and!; [done|lia|lia|by intros []].
  - destruct (Z.even m); [exists 0|exists 1]; split_and!; try lia; by intros [].
  - exists 0. split_and!; [lia..|done].
  - exists 0. split_and!; [lia..|done].
Qed.

Lemma shr_record_spec m l : shr_m (shr_record_of_loc m l) = m /\ (exact (shr_record_of_loc m l) <-> l = loc_Exact).
Proof. destruct l as [|[]]; unfold exact; cbn; split; try done; split; try done; by intros []. Qed.

Lemma digits_small m e n : 0 <= m -> (inject_Z m * pw e <= inject_Z n)%Q -> n < 2 ^ 53 -> 0 < m -> Zdigits2 m + e <= 53.
Proof.
  intros _ Hle Hn Hpos. destruct m as [|p|p]; [lia| |lia]. cbn [Zdigits2].
  pose proof (digits2_bounds p) as [Hd _]. set (d := Zpos (digits2_pos p)) in *.
  destruct (Z.le_gt_cases (d + e) 53) as [|Hgt]; [done|exfalso].
  assert (inject_Z (2 ^ 53) <= inject_Z (Zpos p) * pw e)%Q as Hbig.
  { apply Qle_trans with (inject_Z (2 ^ (d - 1)) * pw e)%Q; [|by apply scale_le].
    assert (0 <= d - 1) by lia.
    rewrite <- (Z.mul_1_l (2 ^ (d - 1))), scale_shift by done.
    replace (e + (d - 1)) with ((d + e - 54) + 53) by lia. rewrite pw_add, (pw_nonneg 53), pw_nonneg by lia.
    pose proof (Z.pow_pos_nonneg 2 (d + e - 54) ltac:(lia) ltac:(lia)) as Hp.
    rewrite <- !inject_Z_mult, <- Zle_Qle. nia. }
  assert (inject_Z n < inject_Z (2 ^ 53))%Q by (by rewrite <- Zlt_Qlt). lra.
Qed.

Lemma fexp_max z : fexp 53 1024 z = Z.max (z - 53) (-1074).
Proof. done. Qed.

(** Rounding a value below an integer keeps it below. *)
Lemma round_within m e l v n :
  0 <= m -> located m e l v -> (v <= inject_Z n)%Q -> 0 <= n < 2 ^ 53 -> e <= 0 \/ l = loc_Exact ->
  within (binary_round_aux 53 1024 false m e l) (inject_Z n).
Proof.
  intros Hm Hloc Hv Hn He. unfold binary_round_aux, shr_fexp.
  destruct (shr_record_spec m l) as [Em Xm].
  pose proof (shr_spec (shr_record_of_loc m l) e (fexp 53 1024 (Zdigits2 m + e) - e)) as H1.
  rewrite Em in H1. specialize (H1 Hm). cbv zeta in H1. set (k := Z.max 0 _) in H1.
  destruct (shr (shr_record_of_loc m l) e _) as [r1 e1]. cbn [fst snd] in H1. destruct H1 as (Ee1 & Em1 & Xr1).
  rewrite Xm in Xr1. destruct (round_even_cases (shr_m r1) r1) as (d & -> & Hd & Hdx).
  assert (0 < 2 ^ k) as Hk by (apply Z.pow_pos_nonneg; lia).
  assert (0 <= shr_m r1) as Hm1 by (rewrite Em1; apply Z.div_pos; lia).
  pose proof (located_le _ _ _ _ Hloc) as Hle. pose proof (Z.div_mod m (2 ^ k) ltac:(lia)) as Hdm.
  pose proof (Z.mod_pos_bound m (2 ^ k) Hk) as Hmod. rewrite <- Em1 in Hdm.
  assert (inject_Z (shr_m r1) * pw e1 <= inject_Z m * pw e)%Q as Hfloor.
  { rewrite Ee1, <- scale_shift by lia. apply scale_le. lia. }
  assert (inject_Z (shr_m r1 + d) * pw e1 <= inject_Z n)%Q as Hround.
  { assert (d = 0 \/ d = 1) as [-> | ->] by lia; [rewrite Z.add_0_r; lra|].
    assert (~ (l = loc_Exact /\ m mod 2 ^ k = 0)) as Hin by (intros Hx; apply Xr1, Hdx in Hx; lia).
    assert (inject_Z (shr_m r1) * pw e1 < v)%Q as Hlt.
    { destruct (decide (m mod 2 ^ k = 0)) as [E0|E0].
      - destruct l; [by destruct Hin|]. cbn in Hloc. lra.
      - apply Qlt_le_trans with (inject_Z m * pw e)%Q; [|done]. rewrite Ee1, <- scale_shift by lia. apply scale_lt. lia. }
    assert (e1 <= 0) as He1.
    { destruct (decide (m = 0)) as [->|Hm0].
      - destruct He as [He| ->]; [|destruct Hin; by rewrite Zmod_0_l]. rewrite Ee1. unfold k. rewrite fexp_max. cbn. lia.
      - pose proof (digits_small m e n Hm ltac:(lra) ltac:(lia) ltac:(lia)) as Hdig.
        destruct He as [He| ->]; [rewrite Ee1; unfold k; rewrite fexp_max; lia|].
        destruct (Z.le_gt_cases e1 0) as [|Hgt]; [done|]. assert (k = 0) as Ek by (revert Hgt; rewrite Ee1; unfold k; rewrite fexp_max; lia).
        destruct Hin. split; [done|]. by rewrite Ek, Z.mod_1_r. }
    rewrite (scale_int n e1 He1) in Hv |- *. apply scale_le. assert (shr_m r1 < n * 2 ^ (- e1)); [|lia].
    apply (scale_lt _ _ e1). lra. }
  pose proof (shr_spec (shr_record_of_loc (shr_m r1 + d) loc_Exact) e1
    (fexp 53 1024 (Zdigits2 (shr_m r1 + d) + e1) - e1)) as H2.
  cbn [shr_record_of_loc shr_m] in H2. specialize (H2 ltac:(lia)). cbv zeta in H2. set (k2 := Z.max 0 _) in H2.
  cbn [shr_record_of_loc]. destruct (shr _ e1 _) as [r2 e2]. cbn [fst snd] in H2. destruct H2 as (Ee2 & Em2 & _).
  assert (0 < 2 ^ k2) as Hk2 by (apply Z.pow_pos_nonneg; lia).
  assert (inject_Z (shr_m r2) * pw e2 <= inject_Z n)%Q as Hfin.
  { apply Qle_trans with (inject_Z (shr_m r1 + d) * pw e1)%Q; [|done]. rewrite Ee2, <- scale_shift by lia.
    apply scale_le. rewrite Em2, Z.mul_comm. apply Z.mul_div_le. lia. }
  assert (0 <= shr_m r2) as Hm2 by (rewrite Em2; apply Z.div_pos; lia).
  destruct (shr_m r2) as [|p|p]; [exists 0%Q| |lia].
  - split; [done|]. split; [lra|]. change 0%Q with (inject_Z 0). rewrite <- Zle_Qle. lia.
  - pose proof (digits_small (Zpos p) e2 n ltac:(lia) Hfin ltac:(lia) ltac:(lia)) as Hdig. cbn [Zdigits2] in Hdig.
    rewrite (proj2 (Z.leb_le _ _)) by lia. eexists. split; [done|]. split; [|done].
    pose proof (inject_pos p). pose proof (pw_pos e2). apply Qmult_le_0_compat; lra.
Qed.

(** * Operations on values *)

Lemma within_finite_neg m e q : ~ within (S754_finite true m e) q.
Proof.
  intros (v & [= <-] & H & _). pose proof (inject_pos m) as Hm. pose proof (pw_pos e) as He.
  pose proof (Qmult_lt_0_compat _ _ Hm He). lra.
Qed.

Lemma within_le x a b : within x a -> (a <= b)%Q -> within x b.
Proof. intros (v & Hv & H) Hab. exists v. split; [done|]. lra. Qed.

Lemma within_nonneg x a : within x a -> (0 <= a)%Q.
Proof. intros (v & _ & H). lra. Qed.

Lemma within_zero s n : (0 <= n)%Q -> within (S754_zero s) n.
Proof. intros. exists 0%Q. split; [done|]. lra. Qed.

Lemma int_nonneg n : 0 <= n -> (0 <= inject_Z n)%Q.
Proof. intros. change 0%Q with (inject_Z 0). by rewrite <- Zle_Qle. Qed.

Lemma mul_within x y a b n :
  within x a -> within y b -> (a * b <= inject_Z n)%Q -> 0 <= n < 2 ^ 53 -> within (f64_mul x y) (inject_Z n).
Proof.
  intros Hx Hy Hab Hn. pose proof (int_nonneg n ltac:(lia)).
  destruct x as [s|s| |[] m1 e1], y as [t|t| |[] m2 e2]; try (by destruct Hx as (? & ? & _)); try (by destruct Hy as (? & ? & _));
    try (by apply within_finite_neg in Hx); try (by apply within_finite_neg in Hy); try (by apply within_zero).
  destruct Hx as (v & [= <-] & Hv), Hy as (w & [= <-] & Hw). unfold f64_mul, SFmul. cbn [xorb].
  apply round_within with (v := (inject_Z (Zpos (m1 * m2)) * pw (e1 + e2))%Q); [done|done| |done|by right].
  rewrite Pos2Z.inj_mul, inject_Z_mult, pw_add.
  setoid_replace (inject_Z (Zpos m1) * inject_Z (Zpos m2) * (pw e1 * pw e2))%Q
    with ((inject_Z (Zpos m1) * pw e1) * (inject_Z (Zpos m2) * pw e2))%Q using relation Qeq by ring.
  apply Qle_trans with (a * b)%Q; [|done].
  apply Qle_trans with (a * (inject_Z (Zpos m2) * pw e2))%Q; [apply Qmult_le_compat_r; lra|].
  rewrite !(Qmult_comm a). apply Qmult_le_compat_r; lra.
Qed.

Lemma iter_xO m d : Zpos (Pos.iter xO m d) = Zpos m * 2 ^ Zpos d.
Proof.
  induction d as [|d IH] using Pos.peano_ind; [cbn; lia|].
  rewrite Pos.iter_succ, Pos2Z.inj_xO, IH, Pos2Z.inj_succ, Z.pow_succ_r by lia. lia.
Qed.

Lemma shl_align_value m e e' :
  exists k, 0 <= k /\ Zpos (fst (shl_align m e e')) = Zpos m * 2 ^ k /\ snd (shl_align m e e') = e - k /\
    (e' <= e -> e - k = e') /\ (e <= e' -> k = 0).
Proof.
  unfold shl_align. destruct (e' - e) as [|d|d] eqn:E; cbn [fst snd].
  - exists 0. split_and!; lia.
  - exists 0. split_and!; lia.
  - exists (Zpos d). rewrite iter_xO. split_and!; lia.
Qed.

Lemma normalize_within m e s n :
  0 <= m -> (inject_Z m * pw e <= inject_Z n)%Q -> 0 <= n < 2 ^ 53 -> within (binary_normalize 53 1024 m e s) (inject_Z n).
Proof.
  intros Hm Hv Hn. destruct m as [|p|p]; [apply within_zero, int_nonneg; lia| |lia].
  unfold binary_normalize, binary_round.
  destruct (shl_align_value p e (fexp 53 1024 (Zpos (digits2_pos p) + e))) as (k & Hk & E1 & E2 & _).
  destruct (shl_align p e _) as [mz ez]. cbn [fst snd] in *. subst ez.
  apply round_within with (v := (inject_Z (Zpos p) * pw e)%Q); [done| |done|done|by right].
  cbn [located]. rewrite E1, scale_shift by done. by replace (e - k + k) with e by lia.
Qed.

Lemma sub_within x y v w n :
  fval x = Some v -> fval y = Some w -> (0 <= w)%Q -> (w <= v)%Q -> (v - w <= inject_Z n)%Q -> 0 <= n < 2 ^ 53 ->
  within (f64_sub x y) (inject_Z n).
Proof.
  intros Hx Hy Hw0 Hle Hvn Hn. assert (within x v) as Hwx by (exists v; split; [done|lra]). pose proof (int_nonneg n ltac:(lia)).
  destruct x as [s|s| |[] m1 e1]; try (by apply within_finite_neg in Hwx); try done.
  - destruct y as [t|t| |t m2 e2]; try done; cbn in Hx, Hy.
    + destruct s, t; by apply within_zero.
    + exfalso. injection Hx as <-. pose proof (Qmult_lt_0_compat _ _ (inject_pos m2) (pw_pos e2)).
      destruct t; injection Hy as <-; lra.
  - destruct y as [t|t| |[] m2 e2]; try done; cbn in Hx, Hy.
    + injection Hx as <-. injection Hy as <-. eexists. split; [reflexivity|]. lra.
    + injection Hy as <-. pose proof (Qmult_lt_0_compat _ _ (inject_pos m2) (pw_pos e2)). lra.
    + injection Hx as <-. injection Hy as <-. unfold f64_sub, SFsub. cbn [cond_Zopp].
      set (ez := Z.min e1 e2).
      destruct (shl_align_value m1 e1 ez) as (k1 & ? & E1 & _ & F1 & _).
      destruct (shl_align_value m2 e2 ez) as (k2 & ? & E2 & _ & F2 & _).
      specialize (F1 ltac:(lia)). specialize (F2 ltac:(lia)).
      assert (inject_Z (Zpos (fst (shl_align m1 e1 ez))) * pw ez == inject_Z (Zpos m1) * pw e1)%Q as V1
        by (rewrite E1, scale_shift by done; by replace (ez + k1) with e1 by lia).
      assert (inject_Z (Zpos (fst (shl_align m2 e2 ez))) * pw ez == inject_Z (Zpos m2) * pw e2)%Q as V2
        by (rewrite E2, scale_shift by done; by replace (ez + k2) with e2 by lia).
      rewrite <- V1, <- V2 in Hle. apply scale_le in Hle.
      apply normalize_within; [lia| |done].
      unfold Z.sub. rewrite inject_Z_plus, inject_Z_opp. rewrite <- V1, <- V2 in Hvn. lra.
Qed.

Lemma new_location_exact d r : new_location d r = loc_Exact <-> r = 0.
Proof.
  unfold new_location, new_location_even, new_location_odd. destruct (Z.even d); destruct (Z.eqb_spec r 0); by split.
Qed.

Lemma div_within x y a w n :
  within x a -> fval y = Some w -> (0 < w)%Q -> (a <= inject_Z n * w)%Q -> 0 <= n < 2 ^ 53 ->
  within (f64_div x y) (inject_Z n).
Proof.
  intros Hx Hy Hw Haw Hn. pose proof (int_nonneg n ltac:(lia)).
  destruct y as [t|t| |[] m2 e2]; try done; cbn in Hy.
  { injection Hy as <-. lra. }
  { injection Hy as <-. pose proof (Qmult_lt_0_compat _ _ (inject_pos m2) (pw_pos e2)). lra. }
  destruct x as [s|s| |[] m1 e1]; try (by destruct Hx as (? & ? & _)); try (by apply within_finite_neg in Hx);
    try (by apply within_zero).
  injection Hy as <-. destruct Hx as (v & [= <-] & Hv). unfold f64_div, SFdiv, SFdiv_core_binary. rewrite fexp_max.
  cbn [xorb]. set (e' := Z.min _ (e1 - e2)).
  set (m' := match e1 - e2 - e' with Z0 => _ | _ => _ end).
  assert (m' = Zpos m1 * 2 ^ (e1 - e2 - e')) as Em.
  { unfold m'. assert (0 <= e1 - e2 - e') by lia. destruct (e1 - e2 - e') as [|p|p]; [lia|by rewrite Z.shiftl_mul_pow2 by lia|lia]. }
  clearbody m'. pose proof (Z_div_mod m' (Zpos m2) ltac:(lia)) as Hdiv.
  destruct (Z.div_eucl m' (Zpos m2)) as [q r]. destruct Hdiv as [Hq Hr].
  assert (0 <= m') by (rewrite Em; pose proof (Z.pow_nonneg 2 (e1 - e2 - e') ltac:(lia)); lia).
  set (V := (inject_Z (Zpos m1) * pw e1 / (inject_Z (Zpos m2) * pw e2))%Q).
  pose proof (inject_pos m2) as Hm2. pose proof (pw_pos e2) as Hp2.
  assert (0 < inject_Z (Zpos m2) * pw e2)%Q as Hden by (by apply Qmult_lt_0_compat).
  assert (inject_Z m' * pw e' * pw e2 == inject_Z (Zpos m1) * pw e1)%Q as Hm'.
  { rewrite <- Qmult_assoc, <- pw_add, Em, scale_shift by lia. by replace (e' + e2 + (e1 - e2 - e')) with e1 by lia. }
  assert (V <= inject_Z n)%Q as HV by (apply Qle_shift_div_r; [done|lra]).
  assert (V * inject_Z (Zpos m2) == inject_Z m' * pw e')%Q as HVm.
  { unfold V. apply (Qmult_inj_r _ _ (pw e2)); [lra|]. rewrite Hm'. field. split; lra. }
  assert (inject_Z m' == inject_Z q * inject_Z (Zpos m2) + inject_Z r)%Q as Hqr.
  { rewrite <- inject_Z_mult, <- inject_Z_plus. by rewrite Hq, Z.mul_comm. }
  apply round_within with (v := V); [nia| |done|done|].
  - destruct (new_location (Zpos m2) r) eqn:El; cbn.
    + apply new_location_exact in El as ->. apply (Qmult_inj_r _ _ (inject_Z (Zpos m2))); [lra|].
      rewrite HVm, Hqr. change (inject_Z 0) with 0%Q. ring.
    + assert (r <> 0) by (intros E; apply (new_location_exact (Zpos m2)) in E; congruence).
      apply (Qmult_lt_r _ _ (inject_Z (Zpos m2))); [done|]. rewrite HVm, Hqr.
      assert (0 < inject_Z r)%Q as Hr0 by (change 0%Q with (inject_Z 0); rewrite <- Zlt_Qlt; lia).
      pose proof (Qmult_lt_0_compat _ _ Hr0 (pw_pos e')). lra.
  - left. pose proof (digits2_bounds m1) as [H1 _]. pose proof (digits2_bounds m2) as [_ H2].
    cbn [Zdigits2] in e'. set (d1 := Zpos (digits2_pos m1)) in *. set (d2 := Zpos (digits2_pos m2)) in *.
    assert (d1 - 1 + e1 < 53 + (d2 + e2)); [|unfold e'; lia].
    apply Z.nle_gt. intros Hge.
    assert (inject_Z (2 ^ (d1 - 1)) * pw e1 < inject_Z (2 ^ 53) * (inject_Z (2 ^ d2) * pw e2))%Q as Hcmp.
    { apply Qle_lt_trans with (inject_Z (Zpos m1) * pw e1)%Q; [by apply scale_le|].
      apply Qle_lt_trans with (inject_Z n * (inject_Z (Zpos m2) * pw e2))%Q; [lra|].
      apply Qlt_le_trans with (inject_Z (2 ^ 53) * (inject_Z (Zpos m2) * pw e2))%Q.
      - apply Qmult_lt_compat_r; [done|rewrite <- Zlt_Qlt; lia].
      - rewrite !(Qmult_comm (inject_Z (2 ^ 53))). apply Qmult_le_compat_r; [apply scale_le; lia|by apply int_nonneg]. }
    rewrite <- !pw_nonneg in Hcmp by lia. rewrite <- !pw_add in Hcmp.
    assert (pw (53 + (d2 + e2)) <= pw (d1 - 1 + e1))%Q; [|lra].
    set (D := d1 - 1 + e1 - (53 + (d2 + e2))). replace (d1 - 1 + e1) with (D + (53 + (d2 + e2))) by lia.
    rewrite (pw_add D), (pw_nonneg D) by lia.
    assert (1 <= inject_Z (2 ^ D))%Q as HD.
    { change 1%Q with (inject_Z 1). rewrite <- Zle_Qle. pose proof (Z.pow_pos_nonneg 2 D). lia. }
    pose proof (pw_pos (53 + (d2 + e2))). rewrite <- (Qmult_1_l (pw _)) at 1. apply Qmult_le_compat_r; lra.
Qed.

(** Integers below 2 ^ 53 are exact. *)
Lemma round_canonical m e : fexp 53 1024 (Zpos (digits2_pos m) + e) = e -> e <= 971 ->
  binary_round_aux 53 1024 false (Zpos m) e loc_Exact = S754_finite false m e.
Proof.
  intros He Hle. unfold binary_round_aux, shr_fexp. cbn [Zdigits2]. rewrite He, Z.sub_diag.
  cbn [shr shr_record_of_loc shr_m loc_of_shr_record round_nearest_even Zdigits2]. rewrite He, Z.sub_diag.
  cbn [shr shr_m]. by rewrite (proj2 (Z.leb_le _ _)).
Qed.

Lemma fval_of_Z n : 0 <= n < 2 ^ 53 -> exists v, fval (f64_of_Z n) = Some v /\ (v == inject_Z n)%Q.
Proof.
  intros Hn. destruct n as [|p|p]; [by exists 0%Q| |lia]. unfold f64_of_Z, binary_normalize, binary_round.
  pose proof (digits2_bounds p) as [Hd _]. rewrite Z.add_0_r, fexp_max.
  assert (Zpos (digits2_pos p) <= 53) as Hd53.
  { apply Z.nlt_ge. intros Hgt. assert (2 ^ 53 <= 2 ^ (Zpos (digits2_pos p) - 1)) by (apply Z.pow_le_mono_r; lia). lia. }
  destruct (shl_align_value p 0 (Z.max (Zpos (digits2_pos p) - 53) (-1074))) as (k & Hk & E1 & E2 & E3 & _).
  specialize (E3 ltac:(lia)). destruct (shl_align p 0 _) as [mz ez]. cbn [fst snd] in *.
  assert (Zpos (digits2_pos mz) = Zpos (digits2_pos p) + k) as Edig.
  { pose proof (digits2_bounds mz) as [Hz1 Hz2]. pose proof (digits2_bounds p) as [_ Hp2]. rewrite E1 in Hz1, Hz2.
    set (dz := Zpos (digits2_pos mz)) in *. set (dp := Zpos (digits2_pos p)) in *.
    assert (2 ^ (dp - 1 + k) <= Zpos p * 2 ^ k < 2 ^ (dp + k)) as [Hl Hu].
    { rewrite !Z.pow_add_r by lia. pose proof (Z.pow_pos_nonneg 2 k ltac:(lia) Hk). nia. }
    assert (dz - 1 < dp + k) by (apply (Z.pow_lt_mono_r_iff 2); lia).
    assert (dp - 1 + k < dz) by (apply (Z.pow_lt_mono_r_iff 2); lia). lia. }
  rewrite round_canonical; [|rewrite fexp_max; lia|lia]. eexists. split; [reflexivity|].
  rewrite E1, scale_shift by done. replace (ez + k) with 0 by lia. rewrite pw_0. ring.
Qed.

Lemma within_of_Z n : 0 <= n < 2 ^ 53 -> within (f64_of_Z n) (inject_Z n).
Proof.
  intros Hn. destruct (fval_of_Z n Hn) as (v & Hv & E). exists v. split; [done|]. rewrite E.
  pose proof (int_nonneg n ltac:(lia)). lra.
Qed.

(** * Comparisons and casts *)

Lemma compare_scaled a b e : (a ?= b) = ((inject_Z a * pw e)%Q ?= (inject_Z b * pw e)%Q)%Q.
Proof.
  symmetry. destruct (Z.compare_spec a b) as [->|H|H].
  - by apply (proj1 (Qeq_alt _ _)).
  - apply (proj1 (Qlt_alt _ _)). by apply scale_lt.
  - apply (proj1 (Qgt_alt _ _)). by apply scale_lt.
Qed.

Lemma f64_compare_spec x y v w : fval x = Some v -> fval y = Some w -> f64_compare x y = Some (v ?= w)%Q.
Proof.
  assert (forall m e, 0 < inject_Z (Zpos m) * pw e)%Q as Hpos by (intros; apply Qmult_lt_0_compat; [done|apply pw_pos]).
  destruct x as [s|s| |s m e], y as [t|t| |t n f]; try done; cbn [fval f64_compare]; intros Hx Hy.
  - by injection Hx as <-; injection Hy as <-.
  - injection Hx as <-. specialize (Hpos n f). f_equal. symmetry.
    destruct t; injection Hy as <-; [apply (proj1 (Qgt_alt _ _))|apply (proj1 (Qlt_alt _ _))]; lra.
  - injection Hy as <-. specialize (Hpos m e). f_equal. symmetry.
    destruct s; injection Hx as <-; [apply (proj1 (Qlt_alt _ _))|apply (proj1 (Qgt_alt _ _))]; lra.
  - set (ez := Z.min e f). f_equal. rewrite (compare_scaled _ _ ez).
    assert (forall (s : bool) p g, ez <= g -> (inject_Z ((if s then -1 else 1) * (Zpos p * 2 ^ (g - ez))) * pw ez ==
      (if s then - (inject_Z (Zpos p) * pw g) else inject_Z (Zpos p) * pw g))%Q) as Hnum.
    { intros s' p g Hg. rewrite inject_Z_mult, <- Qmult_assoc, scale_shift by lia.
      replace (ez + (g - ez)) with g by lia. destruct s'; [change (inject_Z (-1)) with (-1)%Q|change (inject_Z 1) with 1%Q]; ring. }
    rewrite !Hnum by lia. by destruct s, t; injection Hx as <-; injection Hy as <-.
Qed.

Lemma f64_lt_spec x y v w : fval x = Some v -> fval y = Some w -> f64_lt x y = true <-> (v < w)%Q.
Proof.
  intros Hx Hy. unfold f64_lt. rewrite (f64_compare_spec x y v w), Qlt_alt by done. by destruct (v ?= w)%Q.
Qed.
Lemma f64_le_spec x y v w : fval x = Some v -> fval y = Some w -> f64_le x y = true <-> (v <= w)%Q.
Proof.
  intros Hx Hy. unfold f64_le. rewrite (f64_compare_spec x y v w), Qle_alt by done. by destruct (v ?= w)%Q.
Qed.

Lemma as_uint_range max x : 0 <= max -> 0 <= f64_as_uint max x <= max.
Proof.
  intros Hm. destruct x as [|[]| |[] m e]; cbn [f64_as_uint]; try lia.
  assert (0 <= f64_trunc m e); [|lia]. unfold f64_trunc. destruct (0 <=? e).
  - pose proof (Z.pow_nonneg 2 e ltac:(lia)). lia.
  - apply Z_div_nonneg_nonneg; [lia|]. by apply Z.pow_nonneg.
Qed.

Lemma as_uint_within max x n : within x (inject_Z n) -> 0 <= max -> 0 <= f64_as_uint max x <= n.
Proof.
  intros Hx Hm. split; [by apply as_uint_range|].
  destruct x as [s|s| |[] m e]; try (by destruct Hx as (? & ? & _)); try (by apply within_finite_neg in Hx);
    destruct Hx as (v & [= <-] & Hv); cbn [f64_as_uint].
  - assert (inject_Z 0 <= inject_Z n)%Q as H0 by (change (inject_Z 0) with 0%Q; lra). by rewrite <- Zle_Qle in H0.
  - assert (f64_trunc m e <= n); [|lia]. unfold f64_trunc. destruct (Z.leb_spec 0 e) as [He|He].
    + rewrite Zle_Qle, inject_Z_mult, <- pw_nonneg by done. lra.
    + apply Z.div_le_upper_bound; [apply Z.pow_pos_nonneg; lia|]. rewrite (scale_int n e ltac:(lia)) in Hv.
      destruct Hv as [_ Hv]. apply scale_le in Hv. lia.
Qed.

(** A cast of something at least [n] is at least [n]. *)
Lemma as_uint_at_least max x v n : fval x = Some v -> (inject_Z n <= v)%Q -> 0 < n <= max -> n <= f64_as_uint max x.
Proof.
  intros Hx Hv Hn. assert (0 < inject_Z n)%Q as Hn0 by (change 0%Q with (inject_Z 0); rewrite <- Zlt_Qlt; lia).
  destruct x as [s|s| |[] m e]; try done; cbn in Hx; injection Hx as <-.
  - lra.
  - pose proof (Qmult_lt_0_compat _ _ (inject_pos m) (pw_pos e)). lra.
  - cbn [f64_as_uint]. assert (n <= f64_trunc m e); [|lia]. unfold f64_trunc. destruct (Z.leb_spec 0 e) as [He|He].
    + rewrite Zle_Qle, inject_Z_mult, <- pw_nonneg by done. lra.
    + apply Z.div_le_lower_bound; [apply Z.pow_pos_nonneg; lia|].
      rewrite (scale_int n e ltac:(lia)) in Hv. apply scale_le in Hv. lia.
Qed.

(** * Bounds by integers *)

Abbreviation upto x n := (within x (inject_Z n)).

Lemma upto_mul x y a b n : upto x a -> upto y b -> a * b <= n -> 0 <= n < 2 ^ 53 -> upto (f64_mul x y) n.
Proof. intros Hx Hy Hab Hn. apply (mul_within x y _ _ n Hx Hy); [|done]. by rewrite <- inject_Z_mult, <- Zle_Qle. Qed.

Lemma upto_div x a d n : upto x a -> 0 < d < 2 ^ 53 -> a <= n * d -> 0 <= n < 2 ^ 53 -> upto (f64_div x (f64_of_Z d)) n.
Proof.
  intros Hx Hd Hab Hn. destruct (fval_of_Z d ltac:(lia)) as (w & Hw & E).
  apply (div_within x (f64_of_Z d) _ w n Hx Hw); [..|done]; rewrite E.
  - change 0%Q with (inject_Z 0). rewrite <- Zlt_Qlt. lia.
  - by rewrite <- inject_Z_mult, <- Zle_Qle.
Qed.

Lemma upto_le x a b : upto x a -> a <= b -> upto x b.
Proof. intros Hx Hab. eapply within_le; [exact Hx|]. by rewrite <- Zle_Qle. Qed.

(** A float between two others is finite, and its distance from the lower one
    is at most theirs. *)
Lemma between_sub lo hi x l h n :
  fval lo = Some l -> fval hi = Some h -> (0 <= l)%Q -> (h - l <= inject_Z n)%Q -> 0 <= n < 2 ^ 53 ->
  f64_le lo x = true -> f64_le hi x = false -> upto (f64_sub x lo) n.
Proof.
  intros Hlo Hhi Hl Hn Hr H1 H2.
  assert (exists v, fval x = Some v) as (v & Hv).
  { destruct x as [s|s| |[] m e]; try (by eexists); exfalso.
    - destruct s; [|by destruct hi as [?|[]| |[]]]. by destruct lo as [[]|[]| |[]].
    - by destruct lo. }
  apply (f64_le_spec lo x l v Hlo Hv) in H1.
  assert (~ (h <= v)%Q) as H2' by (by intros H%(f64_le_spec hi x h v Hhi Hv); congruence).
  apply Qnot_le_lt in H2'. apply (sub_within x lo v l n Hv Hlo); [lra..|done].
Qed.

Lemma round_not_nan m e l : 0 <= m ->
  binary_round_aux 53 1024 false m e l <> S754_nan /\ forall n f, binary_round_aux 53 1024 false m e l <> S754_finite true n f.
Proof.
  intros Hm. unfold binary_round_aux, shr_fexp. destruct (shr_record_spec m l) as [Em _].
  pose proof (shr_spec (shr_record_of_loc m l) e (fexp 53 1024 (Zdigits2 m + e) - e)) as H1.
  rewrite Em in H1. specialize (H1 Hm). destruct (shr (shr_record_of_loc m l) e _) as [r1 e1]. destruct H1 as (_ & E1 & _).
  cbn [fst] in E1. destruct (round_even_cases (shr_m r1) r1) as (d & -> & Hd & _).
  assert (0 <= shr_m r1) by (rewrite E1; apply Z.div_pos; [done|apply Z.pow_pos_nonneg; lia]).
  pose proof (shr_spec (shr_record_of_loc (shr_m r1 + d) loc_Exact) e1 (fexp 53 1024 (Zdigits2 (shr_m r1 + d) + e1) - e1)) as H2.
  cbn [shr_record_of_loc shr_m] in *. specialize (H2 ltac:(lia)). destruct (shr _ e1 _) as [r2 e2]. destruct H2 as (_ & E2 & _).
  cbn [fst] in E2. assert (0 <= shr_m r2) by (rewrite E2; apply Z.div_pos; [lia|apply Z.pow_pos_nonneg; lia]).
  destruct (shr_m r2); [done| |lia]. by destruct (_ <=? _).
Qed.


Lemma clamp_cast lo hi x max l h a b :
  fval lo = Some l -> fval hi = Some h -> (0 <= l)%Q -> (l <= h)%Q -> (inject_Z a <= l)%Q -> (h <= inject_Z b)%Q ->
  0 <= a <= max -> 0 <= max ->
  f64_as_uint max (f64_clamp lo hi x) <= b /\ (x <> S754_nan -> a <= f64_as_uint max (f64_clamp lo hi x)).
Proof.
  intros Hlo Hhi Hl Hlh Ha Hb Har Hm.
  assert (forall y v, fval y = Some v -> (l <= v)%Q -> (v <= h)%Q -> a <= f64_as_uint max y <= b) as Hin.
  { intros y v Hy H1 H2. split; [|apply as_uint_within; [exists v; split; [done|lra]|done]].
    destruct (decide (a = 0)) as [->|]; [by apply as_uint_range|]. eapply as_uint_at_least; [exact Hy|lra|lia]. }
  assert (inject_Z 0 <= inject_Z b)%Q as Hb0 by (change (inject_Z 0) with 0%Q; lra). rewrite <- Zle_Qle in Hb0.
  unfold f64_clamp. destruct (f64_lt x lo) eqn:E1; [destruct (Hin lo l Hlo ltac:(lra) Hlh); split; [lia|intros; lia]|].
  destruct (f64_lt hi x) eqn:E2; [destruct (Hin hi h Hhi Hlh ltac:(lra)); split; [lia|intros; lia]|].
  destruct (fval x) as [v|] eqn:Hv.
  - assert (~ (v < l)%Q) as H1 by (by intros H%(f64_lt_spec x lo v l Hv Hlo); congruence).
    assert (~ (h < v)%Q) as H2 by (by intros H%(f64_lt_spec hi x h v Hhi Hv); congruence).
    apply Qnot_lt_le in H1, H2. destruct (Hin x v Hv H1 H2). split; [lia|intros; lia].
  - destruct x as [s|s| |[] m e]; try done; exfalso.
    destruct s; [by destruct lo as [[]|[]| |[]]|by destruct hi as [[]|[]| |[]]].
Qed.

Lemma clamp_cast_Z a b x max : 0 <= a <= b -> b < 2 ^ 53 -> a <= max ->
  f64_as_uint max (f64_clamp (f64_of_Z a) (f64_of_Z b) x) <= b /\
  (x <> S754_nan -> a <= f64_as_uint max (f64_clamp (f64_of_Z a) (f64_of_Z b) x)).
Proof.
  intros Hab Hb Hm. destruct (fval_of_Z a ltac:(lia)) as (l & Hl & El). destruct (fval_of_Z b ltac:(lia)) as (h & Hh & Eh).
  assert (inject_Z a <= inject_Z b)%Q by (rewrite <- Zle_Qle; lia). pose proof (int_nonneg a ltac:(lia)).
  apply (clamp_cast _ _ x max l h a b Hl Hh); try lra; lia.
Qed.

Lemma between_Z a b x : 0 <= a <= b -> b < 2 ^ 53 ->
  f64_le (f64_of_Z a) x = true -> f64_le (f64_of_Z b) x = false -> upto (f64_sub x (f64_of_Z a)) (b - a).
Proof.
  intros Hab Hb H1 H2. destruct (fval_of_Z a ltac:(lia)) as (l & Hl & El). destruct (fval_of_Z b ltac:(lia)) as (h & Hh & Eh).
  pose proof (int_nonneg a ltac:(lia)).
  apply (between_sub _ (f64_of_Z b) x l h _ Hl Hh); [lra| |lia|done|done].
  unfold Z.sub. rewrite inject_Z_plus, inject_Z_opp. lra.
Qed.

(** The span between the literals 0.1 and 1 in units of 0.9. *)
Lemma between_tenth x : f64_le (f64_ratio 1 10) x = true -> f64_le (f64_of_Z 1) x = false ->
  upto (f64_div (f64_sub x (f64_ratio 1 10)) (f64_ratio 9 10)) 2.
Proof.
  intros H1 H2. destruct (fval (f64_ratio 1 10)) as [l|] eqn:Hl; [|by vm_compute in Hl].
  destruct (fval (f64_ratio 9 10)) as [w|] eqn:Hw; [|by vm_compute in Hw].
  vm_compute in Hl, Hw. injection Hl as <-. injection Hw as <-.
  assert (upto (f64_sub x (f64_ratio 1 10)) 1) as Hs.
  { eapply (between_sub _ (f64_of_Z 1)); [by vm_compute|by vm_compute|..]; try done; by vm_compute. }
  eapply (div_within _ _ (inject_Z 1)); [exact Hs|by vm_compute|by vm_compute|by vm_compute|done].
Qed.
