(* ===== verification/Hostname.v ===== *)
(** Host names: [is_valid_sni_hostname] of [src/src/sniff/mod.rs], the check
    every sniffed name passes, against a declarative description of the names
    it accepts. *)

From Stdlib Require Import Strings.Byte Strings.String.
From S2P Require Import Prelude Bytes.

(** The checks of the loop body on one label, in order. *)
Definition label_rejected (label : bytes) : bool :=
  (bool_decide (label = []) || (63 <? zlen label))
  || (starts_with (bs "-") label || ends_with (bs "-") label)
  || negb (forallb (fun c => is_ascii_alphanumeric c || Byte.eqb c "-") label).

(** The loop over [host.split('.')], with its [has_alpha] accumulator. *)
Fixpoint hostname_labels (has_alpha : bool) (labels : list bytes) : bool :=
  match labels with
  | [] => has_alpha
  | label :: rest =>
      if label_rejected label then false
      else hostname_labels (has_alpha || existsb is_ascii_alphabetic label) rest
  end.

Definition is_valid_sni_hostname (host : bytes) : bool :=
  if bool_decide (host = []) || (253 <? zlen host) then false
  else if ends_with (bs ".") host then false
  else hostname_labels false (split_byte "." host).

(** * The names it accepts *)

(** An LDH label: letters, digits and inner hyphens, 1 to 63 of them. *)
Record ldh_label (label : bytes) : Prop := {
  ldh_nonempty : label <> [];
  ldh_short : zlen label <= 63;
  ldh_head : ~ exists r, label = bs "-" ++ r;
  ldh_last : ~ exists r, label = r ++ bs "-";
  ldh_chars : Forall (fun c => is_ascii_alphanumeric c = true \/ c = "-"%byte) label;
}.

(** Dot-separated LDH labels, at most 253 bytes, not all of them digits and
    hyphens (so an IPv4 address is no host name). *)
Definition sni_hostname (host : bytes) : Prop :=
  exists labels,
    labels <> [] /\ host = join "." labels /\ zlen host <= 253 /\
    Forall ldh_label labels /\
    exists label, label ∈ labels /\ exists c, c ∈ label /\ is_ascii_alphabetic c = true.

Lemma label_rejected_false label : label_rejected label = false <-> ldh_label label.
Proof.
  unfold label_rejected. rewrite !orb_false_iff, negb_false_iff, bool_decide_eq_false, Z.ltb_ge.
  rewrite <- !not_true_iff_false, starts_with_spec, ends_with_spec.
  rewrite forallb_forall. setoid_rewrite orb_true_iff.
  split.
  - intros [[[? ?] [? ?]] Hc]. split; try done.
    apply Forall_forall. intros c Hin. destruct (Hc c) as [|Hh]; [by apply list_elem_of_In|by left|].
    right. by destruct (eqb_spec c "-").
  - intros [? ? ? ? Hc]. repeat split; try done.
    intros c Hin. rewrite Forall_forall in Hc.
    destruct (Hc c) as [| ->]; [by apply list_elem_of_In|by left|by right].
Qed.

Lemma hostname_labels_spec ha labels :
  hostname_labels ha labels = true <->
  Forall ldh_label labels /\
  (ha = true \/ exists label, label ∈ labels /\ exists c, c ∈ label /\ is_ascii_alphabetic c = true).
Proof.
  revert ha; induction labels as [|l ls IH]; intros ha; cbn.
  - split; [auto|]. intros [_ [|(? & H & _)]]; [done|by apply not_elem_of_nil in H].
  - destruct (label_rejected l) eqn:E.
    + split; [done|]. intros [H%Forall_cons_1 _]. destruct H as [H _].
      apply label_rejected_false in H. congruence.
    + apply label_rejected_false in E. rewrite IH, orb_true_iff, Forall_cons.
      rewrite existsb_exists. setoid_rewrite list_elem_of_In. cbn.
      split.
      * intros [Hf [[|(c & ? & ?)]|(l' & ? & c & ? & ?)]]; split; auto;
          right; [exists l|exists l']; eauto.
      * intros [[_ Hf] [|(l' & [->|] & c & ? & ?)]]; split; auto; eauto.
        right. eauto.
Qed.

Lemma join_ldh_nonempty ls : ls <> [] -> Forall ldh_label ls -> join "." ls <> [].
Proof.
  destruct ls as [|l ls]; [done|]. intros _ [[Hl _ _ _ _] _]%Forall_cons_1.
  destruct ls; cbn; destruct l; done.
Qed.

Lemma alnum_not_dot c : is_ascii_alphanumeric c = true -> c <> "."%byte.
Proof. by intros H ->. Qed.

Lemma ldh_no_dot l : ldh_label l -> "."%byte ∉ l.
Proof.
  intros [_ _ _ _ H] Hin. rewrite Forall_forall in H.
  destruct (H _ Hin) as [H1|H1]; [by apply alnum_not_dot in H1|done].
Qed.

Lemma join_no_trailing_dot ls r :
  ls <> [] -> Forall ldh_label ls -> join "." ls <> r ++ bs ".".
Proof.
  intros Hne H. revert r. induction H as [|l ls Hl Hls IH]; [done|]. intros r Heq.
  destruct ls as [|l' ls].
  - cbn in Heq. apply (ldh_no_dot l Hl). rewrite Heq. set_solver.
  - apply (f_equal (split_byte ".")) in Heq as Hs.
    rewrite split_join in Hs;
      [|done|constructor; [by apply ldh_no_dot|eapply Forall_impl; [done|apply ldh_no_dot]]].
    assert (exists q, split_byte "." (r ++ bs ".") = q ++ [[]]) as [q Hq].
    { clear. induction r as [|b r [q IHr]]; [by exists [[]]|]. cbn [app split_byte].
      destruct (Byte.eqb b "."); [rewrite IHr; by exists ([] :: q)|].
      rewrite IHr. destruct q as [|h q]; [|by exists ((b :: h) :: q)].
      apply (f_equal (join ".")) in IHr. rewrite join_split in IHr.
      cbn in IHr. by destruct r. }
    rewrite Hq in Hs.
    assert ([] ∈ l :: l' :: ls) as Hin by (rewrite Hs; set_solver).
    assert (Forall ldh_label (l :: l' :: ls)) as Hall by (by constructor).
    rewrite Forall_forall in Hall. by destruct (Hall _ Hin).
Qed.

Lemma is_valid_sni_hostname_spec host : is_valid_sni_hostname host = true <-> sni_hostname host.
Proof.
  unfold is_valid_sni_hostname. split.
  - destruct (bool_decide (host = []) || _) eqn:E; [done|].
    apply orb_false_iff in E as [E1%bool_decide_eq_false E2%Z.ltb_ge].
    destruct (ends_with _ _); [done|]. rewrite hostname_labels_spec.
    intros [Hf [?|Ha]]; [done|]. exists (split_byte "." host).
    rewrite join_split. split; [|eauto].
    by destruct (split_byte_cons "." host) as (h & r & ->).
  - intros (labels & Hne & -> & Hlen & Hf & Ha).
    rewrite bool_decide_eq_false_2 by (by apply join_ldh_nonempty).
    rewrite (proj2 (Z.ltb_ge _ _)) by lia. cbn [orb].
    destruct (ends_with _ _) eqn:E.
    { apply ends_with_spec in E as [r E]. by apply join_no_trailing_dot in E. }
    rewrite split_join; [|done|by eapply Forall_impl; [|apply ldh_no_dot]].
    apply hostname_labels_spec. auto.
Qed.
