(* ===== verification/Sniff.v ===== *)
(** The TCP sniffing engine of [src/src/sniff/mod.rs]: the [Sniffer] interface
    with the laws its implementations owe the engine, the retry loop of
    [sniff_with_engine] over a peeked stream with a clock, and the search
    through the configured sniffers. *)

From Stdlib Require Import Strings.Byte Strings.String.
From S2P Require Import Prelude Bytes Hostname.

Module SniffError.
Inductive SniffError :=
  | PeekEmpty
  | ProtocolNotMatched
  | NoTarget
  | ParseError
  | InvalidHostname
  | TooLarge.
End SniffError.

Inductive SniffAttempt :=
  | Matched (host : bytes)
  | NeedMore
  | Abort (err : SniffError.SniffError).

(** Computations that have no error of their own. *)
Abbreviation pure_res := (res Empty_set).

(** The [Sniffer] trait object. Durations are milliseconds. *)
Record Sniffer := {
  initial_peek_len : Z;
  max_peek_len : Z;
  max_retries : Z;
  wait_more_duration : Z;
  timeout_duration : Z;
  classify : bytes -> Z -> pure_res SniffAttempt;
  map_error_reason : SniffError.SniffError -> bytes;
}.

(** What a sniffer promises to the engine. *)
Class SnifferLaws (s : Sniffer) : Prop := {
  timeout_positive : 1 <= timeout_duration s;
  classify_returns : forall buf max_len, returns (classify s buf max_len);
  classify_hostname : forall buf max_len host,
    classify s buf max_len = Ok (Matched host) -> sni_hostname host;
  classify_stable : forall buf more max_len host,
    classify s buf max_len = Ok (Matched host) ->
    classify s (buf ++ more) max_len = Ok (Matched host);
}.

(** * The engine *)

Definition should_retry_sniff (attempt max_retries cur_len last_peek_len : Z) : bool :=
  if max_retries <=? attempt then false
  else if cur_len =? 0 then false
  else if cur_len <=? last_peek_len then false
  else true.

(** The outcome of one [TcpStream::peek]: how long it takes, and what it
    gives; [PeekNever] never completes. *)
Inductive peek_outcome :=
  | PeekBuf (d : Z) (buf : bytes)
  | PeekErr (d : Z)
  | PeekNever.

(** The clock, and the buffer lengths of the peeks made so far, last first. *)
Record peek_state := { now : Z; asked : list Z }.
Definition advance (d : Z) (st : peek_state) : peek_state :=
  {| now := now st + d; asked := asked st |}.
Definition ask (len : Z) (st : peek_state) : peek_state :=
  {| now := now st; asked := len :: asked st |}.

Inductive wait_result := WaitMore (buf : bytes) | WaitNone | WaitErr.
Inductive engine_end := Done (found : option bytes) | Blocked.

Section Engine.
(** The stream: the outcome of the [n]-th peek, asked for [len] bytes. *)
Context (peek : nat -> Z -> peek_outcome).

(** The loop of [wait_for_more_peek_data], up to [deadline]. *)
Fixpoint wait_loop (fuel : nat) (max_len last_len deadline : Z) (st : peek_state)
    : pure_res (wait_result * peek_state) :=
  match fuel with
  | O => Diverge
  | S fuel =>
      if deadline <=? now st then Ok (WaitNone, st)
      else
        let remain := sat_sub deadline (now st) in
        let outcome := peek (length (asked st)) max_len in
        let st := ask max_len st in
        match outcome with
        | PeekNever => Ok (WaitNone, advance remain st)
        | PeekErr d =>
            if d <=? remain then Ok (WaitErr, advance d st)
            else Ok (WaitNone, advance remain st)
        | PeekBuf d buf =>
            if d <=? remain then
              let st := advance d st in
              if last_len <? zlen buf then Ok (WaitMore buf, st)
              else if deadline <=? now st then Ok (WaitNone, st)
              else
                let sleep_for := Z.min 5 (sat_sub deadline (now st)) in
                wait_loop fuel max_len last_len deadline (advance sleep_for st)
            else Ok (WaitNone, advance remain st)
        end
  end.

(** Every round but the last sleeps at least one millisecond. *)
Definition wait_for_more_peek_data (max_len last_len wait : Z) (st : peek_state)
    : pure_res (wait_result * peek_state) :=
  wait_loop (S (Z.to_nat wait)) max_len last_len (now st + wait) st.

(** The [loop] of [sniff_with_engine]. *)
Fixpoint engine_loop (fuel : nat) (engine : Sniffer)
    (max_len attempt last_peek_len peek_len : Z) (st : peek_state)
    : pure_res (engine_end * peek_state) :=
  match fuel with
  | O => Diverge
  | S fuel =>
      let outcome := peek (length (asked st)) peek_len in
      let st := ask peek_len st in
      match outcome with
      | PeekNever => Ok (Blocked, st)
      | PeekErr d => Ok (Done None, advance d st)
      | PeekBuf d buf =>
          let st := advance d st in
          let cur_len := zlen buf in
          let? result := classify engine buf max_len in
          match result with
          | Matched host => Ok (Done (Some host), st)
          | Abort _ => Ok (Done None, st)
          | NeedMore =>
              if negb (should_retry_sniff attempt (max_retries engine) cur_len last_peek_len)
              then Ok (Done None, st)
              else
                let last_peek_len := cur_len in
                let next_len := Z.min (usize_sat_mul peek_len 2) max_len in
                if next_len <=? peek_len then Ok (Done None, st)
                else
                  let? (waited, st) :=
                    wait_for_more_peek_data next_len last_peek_len (wait_more_duration engine) st in
                  match waited with
                  | WaitMore _ =>
                      engine_loop fuel engine max_len (attempt + 1) last_peek_len next_len st
                  | WaitNone | WaitErr => Ok (Done None, st)
                  end
          end
      end
  end.

Definition sniff_max_len (engine : Sniffer) (tcp_peek_buffer_size : Z) : Z :=
  let hard_cap := Z.max tcp_peek_buffer_size 1 in
  Z.min (Z.max (max_peek_len engine) 1) hard_cap.

(** [peek_len] doubles from at least 1 up to a [usize]: 65 rounds suffice. *)
Definition engine_fuel : nat := 65.

(** The result is discarded when the whole took longer than the engine's
    timeout, and a peek that blocks is cut off by it. *)
Definition sniff_with_engine (engine : Sniffer) (tcp_peek_buffer_size : Z) (st : peek_state)
    : pure_res (option bytes * peek_state) :=
  let timeout := timeout_duration engine in
  let max_len := sniff_max_len engine tcp_peek_buffer_size in
  let peek_len := Z.min (Z.max (initial_peek_len engine) 1) max_len in
  let? (ended, st') := engine_loop engine_fuel engine max_len 0 0 peek_len st in
  match ended with
  | Done found =>
      if now st' - now st <=? timeout then Ok (found, st')
      else Ok (None, {| now := now st + timeout; asked := asked st' |})
  | Blocked => Ok (None, {| now := now st + timeout; asked := asked st' |})
  end.

Fixpoint sniff_domain (sniffers : list Sniffer) (tcp_peek_buffer_size : Z) (st : peek_state)
    : pure_res (option bytes * peek_state) :=
  match sniffers with
  | [] => Ok (None, st)
  | sniffer :: rest =>
      let? (found, st) := sniff_with_engine sniffer tcp_peek_buffer_size st in
      match found with
      | Some host => Ok (Some host, st)
      | None => sniff_domain rest tcp_peek_buffer_size st
      end
  end.
End Engine.

(** * Properties of the engine *)

(** [st'] is reached from [st] by peeks of lengths satisfying [P]. *)
Definition peeked (P : Z -> Prop) (st st' : peek_state) : Prop :=
  exists new, asked st' = new ++ asked st /\ Forall P new.

#[export] Instance peeked_preorder P : PreOrder (peeked P).
Proof.
  split.
  - intros st. by exists [].
  - intros s1 s2 s3 (n1 & E1 & F1) (n2 & E2 & F2). exists (n2 ++ n1).
    rewrite E2, E1, app_assoc. split; [done|by apply Forall_app].
Qed.

Lemma peeked_ask P len d st : P len -> peeked P st (advance d (ask len st)).
Proof. intros. exists [len]. split; [done|by constructor]. Qed.

Lemma peeked_ask_only P len st : P len -> peeked P st (ask len st).
Proof. intros. exists [len]. split; [done|by constructor]. Qed.

Lemma peeked_advance P d st : peeked P st (advance d st).
Proof. by exists []. Qed.

Section EngineProperties.
Context (peek : nat -> Z -> peek_outcome).
(** A peek takes no negative time. *)
Hypothesis peek_time : forall n len,
  match peek n len with PeekBuf d _ | PeekErr d => 0 <= d | PeekNever => True end.

Lemma wait_loop_ok fuel max_len last_len deadline st :
  deadline - now st < Z.of_nat fuel -> 0 < Z.of_nat fuel ->
  exists r st', wait_loop peek fuel max_len last_len deadline st = Ok (r, st') /\
    peeked (eq max_len) st st'.
Proof.
  revert st; induction fuel as [|fuel IH]; intros st Hf Hpos; [lia|]. cbn [wait_loop].
  destruct (Z.leb_spec deadline (now st)).
  { exists WaitNone, st. by split. }
  pose proof (peek_time (length (asked st)) max_len) as Ht.
  destruct (peek _ _) as [d buf|d|].
  2:{ destruct (_ <=? _); eauto 6 using peeked_ask. }
  2:{ eauto 6 using peeked_ask. }
  destruct (Z.leb_spec d (sat_sub deadline (now st))); [|eauto 6 using peeked_ask].
  destruct (last_len <? zlen buf); [eauto 6 using peeked_ask|].
  destruct (Z.leb_spec deadline (now (advance d (ask max_len st)))); [eauto 6 using peeked_ask|].
  cbn [now advance ask] in *. unfold sat_sub in *.
  destruct (IH (advance (Z.min 5 (Z.max 0 (deadline - (now st + d)))) (advance d (ask max_len st))))
    as (r & st' & E & Hp); [cbn [now advance ask]; lia..|].
  exists r, st'. split; [done|].
  etransitivity; [|exact Hp]. etransitivity; [|apply peeked_advance]. by apply peeked_ask.
Qed.

Context (engine : Sniffer) `{!SnifferLaws engine}.

Lemma engine_loop_ok k fuel max_len attempt last peek_len st :
  1 <= peek_len <= max_len -> max_len <= USIZE_MAX ->
  max_len <= peek_len * 2 ^ Z.of_nat k -> (k < fuel)%nat ->
  exists ended st', engine_loop peek fuel engine max_len attempt last peek_len st = Ok (ended, st') /\
    peeked (fun len => 1 <= len <= max_len) st st' /\
    forall host, ended = Done (Some host) ->
      exists n len d buf, peek n len = PeekBuf d buf /\ 1 <= len <= max_len /\
        classify engine buf max_len = Ok (Matched host).
Proof.
  revert fuel attempt last peek_len st; induction k as [|k IH]; intros [|fuel] attempt last peek_len st Hp Hu Hk Hf; [lia| |lia|];
    cbn [engine_loop];
    destruct (peek (length (asked st)) peek_len) as [d buf|d|] eqn:Epk;
    try (do 2 eexists; split; [done|]; split; [by apply peeked_ask_only|done]);
    try (do 2 eexists; split; [done|]; split; [by apply peeked_ask|done]);
    pose proof (classify_returns buf max_len) as Hc;
    destruct (classify engine buf max_len) as [[host| |err]| | |] eqn:Ec; try done; cbn [res_bind];
    try (do 2 eexists; split; [done|]; split; [by apply peeked_ask|];
         try done; intros ? [= <-]; by eauto 8).
  all: destruct (should_retry_sniff _ _ _ _); cbn [negb];
    [|do 2 eexists; split; [done|]; split; [by apply peeked_ask|done]].
  all: assert (usize_sat_mul peek_len 2 = peek_len * 2 \/ max_len <= usize_sat_mul peek_len 2) as Hm
    by (unfold usize_sat_mul; lia).
  all: destruct (Z.leb_spec (Z.min (usize_sat_mul peek_len 2) max_len) peek_len);
    [do 2 eexists; split; [done|]; split; [by apply peeked_ask|done]|].
  - lia.
  - set (next := Z.min _ max_len) in *. unfold wait_for_more_peek_data.
    destruct (wait_loop_ok (S (Z.to_nat (wait_more_duration engine))) next (zlen buf)
      (now (advance d (ask peek_len st)) + wait_more_duration engine) (advance d (ask peek_len st)))
      as (r & st1 & -> & Hp1); [cbn [now advance ask]; lia|lia|].
    cbn [res_bind].
    assert (peeked (fun len => 1 <= len <= max_len) st st1) as Hp1'.
    { etransitivity; [by apply (peeked_ask _ peek_len d)|].
      destruct Hp1 as (new & E & F). exists new. split; [done|].
      eapply Forall_impl; [exact F|]. intros ? <-. subst next. lia. }
    destruct r; [|do 2 eexists; split; [done|]; split; [exact Hp1'|done]..].
    destruct (IH fuel (attempt + 1) (zlen buf) next st1) as (en & st2 & E & Hp2 & Hh); [lia|lia| |lia|].
    + rewrite Nat2Z.inj_succ, Z.pow_succ_r in Hk by lia. subst next.
      assert (0 < 2 ^ Z.of_nat k) by (apply Z.pow_pos_nonneg; lia). destruct Hm; nia.
    + exists en, st2. split; [done|]. split; [by etransitivity|done].
Qed.

Lemma sniff_max_len_range cap : 1 <= sniff_max_len engine cap <= Z.max cap 1.
Proof. unfold sniff_max_len. lia. Qed.

Lemma sniff_with_engine_ok cap st :
  cap <= USIZE_MAX -> 
  exists found st', sniff_with_engine peek engine cap st = Ok (found, st') /\
    peeked (fun len => 1 <= len <= sniff_max_len engine cap) st st' /\
    now st' <= now st + timeout_duration engine /\
    forall host, found = Some host ->
      exists n len d buf, peek n len = PeekBuf d buf /\
        classify engine buf (sniff_max_len engine cap) = Ok (Matched host).
Proof.
  intros Hcap. unfold sniff_with_engine. pose proof (sniff_max_len_range cap).
  destruct (engine_loop_ok 64 engine_fuel (sniff_max_len engine cap) 0 0
    (Z.min (Z.max (initial_peek_len engine) 1) (sniff_max_len engine cap)) st)
    as (ended & st1 & -> & Hp & Hh); [lia|unfold_ints; lia|unfold_ints; lia|unfold engine_fuel; lia|].
  cbn [res_bind]. destruct ended as [found|].
  - destruct (Z.leb_spec (now st1 - now st) (timeout_duration engine)).
    + exists found, st1. repeat split; try done; [lia|]. intros host ->.
      destruct (Hh host eq_refl) as (n & len & d & buf & ? & _ & ?). eauto 8.
    + eexists None, _. repeat split; try done; cbn [now]; lia.
  - eexists None, _. repeat split; try done; cbn [now]; lia.
Qed.
End EngineProperties.

Definition total_timeout (sniffers : list Sniffer) : Z :=
  foldr (fun s acc => timeout_duration s + acc) 0 sniffers.

Lemma total_timeout_nonneg sniffers : Forall SnifferLaws sniffers -> 0 <= total_timeout sniffers.
Proof. induction 1 as [|s ss [Hs _ _ _] _ IH]; cbn; [lia|]. unfold total_timeout in IH. lia. Qed.

Lemma sniff_domain_ok peek sniffers cap st :
  (forall n len, match peek n len with PeekBuf d _ | PeekErr d => 0 <= d | PeekNever => True end) ->
  Forall SnifferLaws sniffers -> cap <= USIZE_MAX ->
  exists found st', sniff_domain peek sniffers cap st = Ok (found, st') /\
    peeked (fun len => 1 <= len <= Z.max cap 1) st st' /\
    now st' <= now st + total_timeout sniffers /\
    forall host, found = Some host ->
      exists engine n len d buf, engine ∈ sniffers /\ peek n len = PeekBuf d buf /\
        classify engine buf (sniff_max_len engine cap) = Ok (Matched host).
Proof.
  intros Ht Hl Hcap. revert st; induction Hl as [|s ss Hs Hss IH]; intros st; cbn [sniff_domain].
  - exists None, st. split; [done|]. split; [by exists []|]. split; [cbn; lia|done].
  - destruct (sniff_with_engine_ok peek Ht s cap st Hcap) as (found & st1 & -> & Hp & Hn & Hh).
    cbn [res_bind]. pose proof (sniff_max_len_range s cap).
    pose proof (total_timeout_nonneg ss Hss). change (total_timeout (s :: ss)) with (timeout_duration s + total_timeout ss).
    assert (peeked (fun len => 1 <= len <= Z.max cap 1) st st1) as Hp'.
    { destruct Hp as (new & E & F). exists new. split; [done|]. eapply Forall_impl; [exact F|]. cbn; lia. }
    destruct found as [host|].
    + exists (Some host), st1. split; [done|]. split; [done|]. split; [lia|].
      intros ? [= <-]. destruct (Hh host eq_refl) as (n & len & d & buf & ? & ?).
      exists s, n, len, d, buf. by repeat split; [left|..].
    + destruct (IH st1) as (found & st2 & E & Hp2 & Hn2 & Hh2). exists found, st2.
      split; [done|]. split; [by etransitivity|]. split; [lia|].
      intros host Hf. destruct (Hh2 host Hf) as (e & n & len & d & buf & ? & ? & ?).
      exists e, n, len, d, buf. by repeat split; [right|..].
Qed.
