(* ===== verification/Tls.v ===== *)
(** TLS SNI sniffing: [src/src/sniff/tls_common.rs] (the ClientHello body
    parser, shared with the QUIC sniffer) and [src/src/sniff/tls.rs] (the record
    layer of the TCP sniffer). *)

From Stdlib Require Import Strings.Byte Strings.String.
From S2P Require Import Prelude Bytes Hostname Sniff.

Module TlsSniffError.
Inductive TlsSniffError :=
  | PeekEmpty
  | InsufficientPrefix
  | ProtocolNotMatched
  | TlsNoSni
  | ParseError
  | InvalidHostname
  | TooLargeClientHello.
End TlsSniffError.
Abbreviation tls_res := (res TlsSniffError.TlsSniffError).

(** * The code *)

Definition be_u16 (b : bytes) : tls_res Z :=
  ensure negb (zlen b <? 2) else TlsSniffError.ParseError in
  let? b0 := or_panic (get b 0) in
  let? b1 := or_panic (get b 1) in
  Ok (u16_from_be b0 b1).

Definition be_u24 (b : bytes) : tls_res Z :=
  ensure negb (zlen b <? 3) else TlsSniffError.ParseError in
  let? b0 := or_panic (get b 0) in
  let? b1 := or_panic (get b 1) in
  let? b2 := or_panic (get b 2) in
  Ok (Z.lor (Z.lor (Z.shiftl (u8 b0) 16) (Z.shiftl (u8 b1) 8)) (u8 b2)).

Definition is_filtered_ech_outer_name (host : bytes) : bool :=
  bool_decide (host = bs "cloudflare-ech.com").

(** The name check inside the server-name loop. *)
Definition sni_host (raw : bytes) : tls_res bytes :=
  ensure utf8_valid raw else TlsSniffError.InvalidHostname in
  let host := to_ascii_lowercase raw in
  ensure is_valid_sni_hostname host else TlsSniffError.InvalidHostname in
  Ok host.

(** [while p + 3 <= ext.len()] over the server-name list; the result is the
    final [p] with [found_sni]. *)
Fixpoint sni_name_loop (fuel : nat) (ext : bytes) (p : Z) (found_sni : option bytes)
    : tls_res (Z * option bytes) :=
  if p + 3 <=? zlen ext then
    match fuel with
    | O => Diverge
    | S fuel =>
        let? name_type := or_panic (get ext p) in
        let? len_bytes := or_panic (slice ext (p + 1) (p + 3)) in
        let? name_len := be_u16 len_bytes in
        let p := p + 3 in
        ensure negb (zlen ext <? p + name_len) else TlsSniffError.ParseError in
        let? found_sni :=
          if u8 name_type =? 0 then
            let? raw := or_panic (slice ext p (p + name_len)) in
            let? host := sni_host raw in
            Ok (Some host)
          else Ok found_sni in
        sni_name_loop fuel ext (p + name_len) found_sni
    end
  else Ok (p, found_sni).

(** The [0x0000] arm: the data of one server_name extension. *)
Definition parse_server_name_ext (ext : bytes) (found_sni : option bytes)
    : tls_res (option bytes) :=
  ensure negb (zlen ext <? 2) else TlsSniffError.ParseError in
  let? len_bytes := or_panic (slice ext 0 2) in
  let? list_len := be_u16 len_bytes in
  ensure list_len + 2 =? zlen ext else TlsSniffError.ParseError in
  let? (p, found_sni) := sni_name_loop (length ext) ext 2 found_sni in
  ensure p =? zlen ext else TlsSniffError.ParseError in
  Ok found_sni.

(** [while off + 4 <= ext_end] over the extensions; the result is the final
    [off] with [saw_ech] and [found_sni]. *)
Fixpoint extension_loop (fuel : nat) (body : bytes) (ext_end off : Z) (saw_ech : bool)
    (found_sni : option bytes) : tls_res (Z * bool * option bytes) :=
  if off + 4 <=? ext_end then
    match fuel with
    | O => Diverge
    | S fuel =>
        let? type_bytes := or_panic (slice body off (off + 2)) in
        let? ext_type := be_u16 type_bytes in
        let? len_bytes := or_panic (slice body (off + 2) (off + 4)) in
        let? ext_len := be_u16 len_bytes in
        let off := off + 4 in
        ensure negb (ext_end <? off + ext_len) else TlsSniffError.ParseError in
        let? (saw_ech, found_sni) :=
          if (ext_type =? 0xfe0d) || (ext_type =? 0xff07) then Ok (true, found_sni)
          else if ext_type =? 0 then
            let? ext := or_panic (slice body off (off + ext_len)) in
            let? found_sni := parse_server_name_ext ext found_sni in
            Ok (saw_ech, found_sni)
          else Ok (saw_ech, found_sni) in
        extension_loop fuel body ext_end (off + ext_len) saw_ech found_sni
    end
  else Ok (off, saw_ech, found_sni).

Definition parse_sni_from_client_hello_body (body : bytes) : tls_res bytes :=
  ensure negb (zlen body <? 2 + 32 + 1) else TlsSniffError.ParseError in
  let off := 0 in
  let off := off + 2 in
  let off := off + 32 in
  let? sid_byte := ok_or TlsSniffError.ParseError (get body off) in
  let session_id_len := u8 sid_byte in
  let off := off + 1 in
  ensure negb (zlen body <? off + session_id_len) else TlsSniffError.ParseError in
  let off := off + session_id_len in
  let? cs_bytes := ok_or TlsSniffError.ParseError (slice body off (off + 2)) in
  let? cipher_suites_len := be_u16 cs_bytes in
  let off := off + 2 in
  ensure negb ((cipher_suites_len =? 0) || negb (cipher_suites_len mod 2 =? 0)
               || (zlen body <? off + cipher_suites_len)) else TlsSniffError.ParseError in
  let off := off + cipher_suites_len in
  let? cm_byte := ok_or TlsSniffError.ParseError (get body off) in
  let compression_methods_len := u8 cm_byte in
  let off := off + 1 in
  ensure negb ((compression_methods_len =? 0) || (zlen body <? off + compression_methods_len))
    else TlsSniffError.ParseError in
  let off := off + compression_methods_len in
  ensure negb (off =? zlen body) else TlsSniffError.TlsNoSni in
  let? el_bytes := ok_or TlsSniffError.ParseError (slice body off (off + 2)) in
  let? extensions_len := be_u16 el_bytes in
  let off := off + 2 in
  ensure negb (zlen body <? off + extensions_len) else TlsSniffError.ParseError in
  let ext_end := off + extensions_len in
  let? (off, saw_ech, found_sni) := extension_loop (length body) body ext_end off false None in
  ensure off =? ext_end else TlsSniffError.ParseError in
  match found_sni with
  | Some host =>
      if negb (is_filtered_ech_outer_name host) then Ok host
      else if (saw_ech : bool) then Err TlsSniffError.TlsNoSni else Err TlsSniffError.TlsNoSni
  | None => if (saw_ech : bool) then Err TlsSniffError.TlsNoSni else Err TlsSniffError.TlsNoSni
  end.

Definition MAX_TLS_RECORD_PAYLOAD : Z := 18 * 1024.

(** The update of [needed_total] once the handshake header is complete. *)
Definition announced_total (max_client_hello_size : Z) (handshake : bytes)
    (needed_total : option Z) : tls_res (option Z) :=
  match needed_total with
  | None =>
      if 4 <=? zlen handshake then
        let? h0 := or_panic (get handshake 0) in
        ensure u8 h0 =? 0x01 else TlsSniffError.ProtocolNotMatched in
        let? len_bytes := or_panic (slice handshake 1 4) in
        let? hs_len := be_u24 len_bytes in
        let total := 4 + hs_len in
        ensure negb (max_client_hello_size <? total) else TlsSniffError.TooLargeClientHello in
        Ok (Some total)
      else Ok None
  | Some total => Ok (Some total)
  end.

(** [while off < buf.len()] over the records, with the reassembled
    [handshake], [needed_total] and [saw_handshake_record]. *)
Fixpoint record_loop (fuel : nat) (buf : bytes) (max_client_hello_size off : Z)
    (handshake : bytes) (needed_total : option Z) (saw_handshake_record : bool)
    : tls_res bytes :=
  if off <? zlen buf then
    match fuel with
    | O => Diverge
    | S fuel =>
        if zlen buf - off <? 5 then
          if (off =? 0) && negb (bool_decide (buf = [])) then
            let? b0 := or_panic (get buf 0) in
            if negb (u8 b0 =? 0x16) then Err TlsSniffError.ProtocolNotMatched
            else if 2 <=? zlen buf then
              let? b1 := or_panic (get buf 1) in
              if negb (u8 b1 =? 0x03) then Err TlsSniffError.ProtocolNotMatched
              else Err TlsSniffError.InsufficientPrefix
            else Err TlsSniffError.InsufficientPrefix
          else if saw_handshake_record then Err TlsSniffError.InsufficientPrefix
          else Err TlsSniffError.ProtocolNotMatched
        else
          let? content_type := or_panic (get buf off) in
          ensure u8 content_type =? 22 else TlsSniffError.ProtocolNotMatched in
          let? version_major := or_panic (get buf (off + 1)) in
          ensure u8 version_major =? 0x03 else TlsSniffError.ProtocolNotMatched in
          let? len_bytes := or_panic (slice buf (off + 3) (off + 5)) in
          let? record_len := be_u16 len_bytes in
          ensure negb ((record_len =? 0) || (MAX_TLS_RECORD_PAYLOAD <? record_len))
            else TlsSniffError.ProtocolNotMatched in
          let record_end := off + 5 + record_len in
          ensure negb (zlen buf <? record_end) else TlsSniffError.InsufficientPrefix in
          let? payload := or_panic (slice buf (off + 5) record_end) in
          let handshake := handshake ++ payload in
          let? needed_total := announced_total max_client_hello_size handshake needed_total in
          let continue_ := record_loop fuel buf max_client_hello_size record_end handshake
                             needed_total true in
          match needed_total with
          | Some total =>
              if total <=? zlen handshake then
                let? body := or_panic (slice handshake 4 total) in
                parse_sni_from_client_hello_body body
              else continue_
          | None => continue_
          end
    end
  else if saw_handshake_record then Err TlsSniffError.InsufficientPrefix
  else Err TlsSniffError.ProtocolNotMatched.

Definition sniff_tls_sni_from_prefix (buf : bytes) (max_client_hello_size : Z) : tls_res bytes :=
  ensure negb (bool_decide (buf = [])) else TlsSniffError.PeekEmpty in
  record_loop (length buf) buf max_client_hello_size 0 [] None false.

(** [TlsSniffer]: its construction and the [Sniffer] methods with logic. *)
Definition tls_classify (buf : bytes) (max_len : Z) : pure_res SniffAttempt :=
  match sniff_tls_sni_from_prefix buf max_len with
  | Ok host => Ok (Matched host)
  | Err TlsSniffError.InsufficientPrefix => Ok NeedMore
  | Err TlsSniffError.PeekEmpty => Ok (Abort SniffError.PeekEmpty)
  | Err TlsSniffError.ProtocolNotMatched => Ok (Abort SniffError.ProtocolNotMatched)
  | Err TlsSniffError.TlsNoSni => Ok (Abort SniffError.NoTarget)
  | Err TlsSniffError.ParseError => Ok (Abort SniffError.ParseError)
  | Err TlsSniffError.InvalidHostname => Ok (Abort SniffError.InvalidHostname)
  | Err TlsSniffError.TooLargeClientHello => Ok (Abort SniffError.TooLarge)
  | Panic => Panic
  | Diverge => Diverge
  end.

Definition tls_map_error_reason (err : SniffError.SniffError) : bytes :=
  match err with
  | SniffError.PeekEmpty => bs "peek_empty"
  | SniffError.ProtocolNotMatched => bs "protocol_not_matched"
  | SniffError.NoTarget => bs "tls_no_sni"
  | SniffError.ParseError => bs "parse_error"
  | SniffError.InvalidHostname => bs "invalid_hostname"
  | SniffError.TooLarge => bs "client_hello_too_large"
  end.

Definition TlsSniffer (peek_len max_len max_retries wait_more_ms timeout_ms : Z) : Sniffer := {|
  initial_peek_len := peek_len;
  max_peek_len := max_len;
  max_retries := max_retries;
  wait_more_duration := Z.max wait_more_ms 1;
  timeout_duration := Z.max timeout_ms 1;
  classify := tls_classify;
  map_error_reason := tls_map_error_reason;
|}.

(** * No panic, no divergence *)

Lemma be_u16_returns b : returns (be_u16 b).
Proof. unfold be_u16. returns_tac. Qed.

Lemma be_u24_returns b : returns (be_u24 b).
Proof. unfold be_u24. returns_tac. Qed.

Lemma sni_host_returns raw : returns (sni_host raw).
Proof. unfold sni_host. returns_tac. Qed.

Lemma be_u16_range b v : be_u16 b = Ok v -> 0 <= v <= U16_MAX.
Proof.
  unfold be_u16. rewrite ensure_ok. intros [_ H].
  apply res_bind_ok in H as (b0 & _ & (b1 & _ & [= <-])%res_bind_ok). apply u16_from_be_range.
Qed.

Lemma be_u24_range b v : be_u24 b = Ok v -> 0 <= v.
Proof.
  unfold be_u24. rewrite ensure_ok. intros [_ H].
  apply res_bind_ok in H as (b0 & _ & (b1 & _ & (b2 & _ & [= <-])%res_bind_ok)%res_bind_ok).
  rewrite !Z.lor_nonneg, !Z.shiftl_nonneg. byte_bounds. lia.
Qed.

Ltac bound_facts ::=
  repeat match goal with
  | H : be_u16 _ = Ok ?v |- _ =>
      lazymatch goal with _ : 0 <= v <= _ |- _ => fail | _ => pose proof (be_u16_range _ _ H) end
  | H : be_u24 _ = Ok ?v |- _ =>
      lazymatch goal with _ : 0 <= v |- _ => fail | _ => pose proof (be_u24_range _ _ H) end
  end.

#[export] Hint Resolve be_u16_returns be_u24_returns sni_host_returns : returns.

Lemma sni_name_loop_returns fuel ext p found :
  0 <= p -> zlen ext < p + Z.of_nat fuel + 3 -> returns (sni_name_loop fuel ext p found).
Proof.
  revert p found; induction fuel as [|fuel IH]; intros p found Hp Hf; cbn [sni_name_loop];
    returns_tac; auto with returns; apply IH; bounds_lia.
Qed.

Lemma parse_server_name_ext_returns ext found : returns (parse_server_name_ext ext found).
Proof.
  unfold parse_server_name_ext. returns_tac; auto with returns.
  apply sni_name_loop_returns; zlen_lia || (unfold zlen; lia).
Qed.
#[export] Hint Resolve parse_server_name_ext_returns : returns.

Lemma extension_loop_returns fuel body ext_end off ech found :
  0 <= off -> ext_end <= zlen body -> ext_end < off + Z.of_nat fuel + 4 ->
  returns (extension_loop fuel body ext_end off ech found).
Proof.
  revert off ech found; induction fuel as [|fuel IH]; intros off ech found Ho He Hf;
    cbn [extension_loop]; returns_tac; auto with returns; apply IH; bounds_lia.
Qed.

Lemma parse_body_returns body : returns (parse_sni_from_client_hello_body body).
Proof.
  unfold parse_sni_from_client_hello_body. returns_tac; auto with returns.
  apply extension_loop_returns; unfold zlen in *; bounds_lia.
Qed.

Lemma announced_total_returns max hs needed : returns (announced_total max hs needed).
Proof. unfold announced_total. returns_tac; auto with returns. Qed.

Lemma announced_total_min max hs needed t :
  (forall t, needed = Some t -> 4 <= t) -> announced_total max hs needed = Ok (Some t) -> 4 <= t.
Proof.
  unfold announced_total. intros Hn. destruct needed as [t'|].
  - intros [= ->]. by apply Hn.
  - destruct (4 <=? zlen hs); [|done].
    intros (h0 & _ & [_ (l & _ & (n & ? & [_ [= <-]]%ensure_ok)%res_bind_ok)%res_bind_ok]%ensure_ok)%res_bind_ok.
    bound_facts. lia.
Qed.
#[export] Hint Resolve announced_total_returns parse_body_returns : returns.

Lemma record_loop_returns fuel buf max off hs needed saw :
  0 <= off -> zlen buf <= off + Z.of_nat fuel -> (forall t, needed = Some t -> 4 <= t) ->
  returns (record_loop fuel buf max off hs needed saw).
Proof.
  revert off hs needed saw; induction fuel as [|fuel IH]; intros off hs needed saw Ho Hf Hn;
    cbn [record_loop]; returns_tac; auto with returns.
  all: try (pose proof (announced_total_min _ _ _ _ Hn ltac:(eassumption))).
  - destruct (slice_is_Some (hs ++ s0) 4 z) as (r & -> & _); [lia|lia|zlen_lia|done].
  - apply IH; [bounds_lia|bounds_lia|]. by intros ? [= <-].
  - apply IH; [bounds_lia|bounds_lia|done].
Qed.
