(* ===== verification/TlsHello.v ===== *)
(** ClientHello bodies as structured data, their encoding (RFC 8446, RFC 6066)
    and the exact correspondence with [parse_sni_from_client_hello_body]: every
    encoded ClientHello is answered as its structure says, and every accepted
    body is an encoded ClientHello. *)

From Stdlib Require Import Strings.Byte Strings.String.
From S2P Require Import Prelude Bytes Hostname Tls.

(** * ClientHello bodies as data *)

(** One entry of a server-name list, an extension, and the fields of a
    ClientHello (RFC 8446, section 4.1.2; RFC 6066, section 3). *)
Record server_name := { sn_type : byte; sn_data : bytes }.
Inductive extension :=
  | ServerName (names : list server_name)
  | OtherExt (ty : Z) (data : bytes).
Record client_hello := {
  ch_version : bytes;
  ch_random : bytes;
  ch_session_id : bytes;
  ch_cipher_suites : bytes;
  ch_compression : bytes;
  ch_extensions : list extension;
}.

Definition vec8 (d : bytes) : bytes := to_be_bytes 1 (zlen d) ++ d.
Definition vec16 (d : bytes) : bytes := to_be_bytes 2 (zlen d) ++ d.
Definition encode_name (n : server_name) : bytes := sn_type n :: vec16 (sn_data n).
Definition encode_names (ns : list server_name) : bytes := concat (map encode_name ns).
Definition ext_type (e : extension) : Z := match e with ServerName _ => 0 | OtherExt ty _ => ty end.
Definition ext_data (e : extension) : bytes :=
  match e with ServerName ns => vec16 (encode_names ns) | OtherExt _ d => d end.
Definition encode_ext (e : extension) : bytes := to_be_bytes 2 (ext_type e) ++ vec16 (ext_data e).
Definition encode_exts (es : list extension) : bytes := concat (map encode_ext es).
Definition encode_client_hello (ch : client_hello) : bytes :=
  ch_version ch ++ ch_random ch ++ vec8 (ch_session_id ch) ++ vec16 (ch_cipher_suites ch)
  ++ vec8 (ch_compression ch) ++ vec16 (encode_exts (ch_extensions ch)).

Definition wf_name (n : server_name) : Prop := zlen (sn_data n) <= U16_MAX.
Definition wf_ext (e : extension) : Prop :=
  zlen (ext_data e) <= U16_MAX /\
  match e with
  | ServerName ns => Forall wf_name ns
  | OtherExt ty _ => 0 < ty <= U16_MAX
  end.
Record wf_client_hello (ch : client_hello) : Prop := {
  wf_version : zlen (ch_version ch) = 2;
  wf_random : zlen (ch_random ch) = 32;
  wf_session_id : zlen (ch_session_id ch) <= U8_MAX;
  wf_cipher_suites : 0 < zlen (ch_cipher_suites ch) <= U16_MAX;
  wf_cipher_even : zlen (ch_cipher_suites ch) mod 2 = 0;
  wf_compression : 0 < zlen (ch_compression ch) <= U8_MAX;
  wf_exts_len : zlen (encode_exts (ch_extensions ch)) <= U16_MAX;
  wf_exts : Forall wf_ext (ch_extensions ch);
}.

(** What the sniffer should answer: the last host_name entry, provided every
    host_name entry is a host name and the last is not the ECH cover name. *)
Fixpoint names_sni (ns : list server_name) (found : option bytes) : tls_res (option bytes) :=
  match ns with
  | [] => Ok found
  | n :: ns =>
      if u8 (sn_type n) =? 0 then let? host := sni_host (sn_data n) in names_sni ns (Some host)
      else names_sni ns found
  end.
Fixpoint exts_sni (es : list extension) (found : option bytes) : tls_res (option bytes) :=
  match es with
  | [] => Ok found
  | ServerName ns :: es => let? found := names_sni ns found in exts_sni es found
  | OtherExt _ _ :: es => exts_sni es found
  end.
Definition client_hello_sni (ch : client_hello) : tls_res bytes :=
  let? found := exts_sni (ch_extensions ch) None in
  match found with
  | Some host => if is_filtered_ech_outer_name host then Err TlsSniffError.TlsNoSni else Ok host
  | None => Err TlsSniffError.TlsNoSni
  end.

(** * The parser on encoded ClientHellos *)

Lemma be_u16_pair b0 b1 : be_u16 [b0; b1] = Ok (u16_from_be b0 b1).
Proof. done. Qed.

Lemma be_u16_encode z : 0 <= z <= U16_MAX -> be_u16 (to_be_bytes 2 z) = Ok z.
Proof. intros H. by rewrite u16_to_be, be_u16_pair, u16_from_to_be. Qed.

Lemma zlen_vec8 d : zlen (vec8 d) = 1 + zlen d.
Proof. unfold vec8. by zlen_simpl. Qed.
Lemma zlen_vec16 d : zlen (vec16 d) = 2 + zlen d.
Proof. unfold vec16. by zlen_simpl. Qed.
Lemma zlen_encode_name n : zlen (encode_name n) = 3 + zlen (sn_data n).
Proof. unfold encode_name. zlen_simpl. rewrite zlen_vec16. lia. Qed.
Lemma zlen_encode_ext e : zlen (encode_ext e) = 4 + zlen (ext_data e).
Proof. unfold encode_ext. zlen_simpl. rewrite zlen_vec16. lia. Qed.
#[export] Hint Rewrite zlen_vec8 zlen_vec16 zlen_encode_name zlen_encode_ext : zlen.

Lemma wf_ext_type e : wf_ext e -> 0 <= ext_type e <= U16_MAX.
Proof. intros [_ H]. destruct e; cbn; unfold_ints; lia. Qed.

(** Reads the slice [l2] that stands after [l1] in the buffer of the goal. *)
Tactic Notation "read_slice" uconstr(l1) uconstr(l2) uconstr(l3) :=
  rewrite (slice_at _ l1 l2 l3);
    [cbn [or_panic ok_or res_bind]|app_eq|zlen_lia|zlen_lia].
Tactic Notation "read_get" uconstr(l1) uconstr(x) uconstr(l3) :=
  rewrite (get_at _ l1 l3 x);
    [cbn [or_panic ok_or res_bind]|app_eq|zlen_lia].

Lemma sni_name_loop_encode names fuel pre found :
  Forall wf_name names -> (length names <= fuel)%nat ->
  sni_name_loop fuel (pre ++ encode_names names) (zlen pre) found =
  let? found := names_sni names found in Ok (zlen (pre ++ encode_names names), found).
Proof.
  intros H. revert fuel pre found. induction H as [|n ns Hn Hns IH]; intros fuel pre found Hf.
  - unfold encode_names. cbn [map concat]. rewrite app_nil_r. destruct fuel; cbn [sni_name_loop];
      by rewrite (proj2 (Z.leb_gt _ _)) by lia.
  - destruct fuel as [|fuel]; cbn [length] in Hf; [lia|]. cbn [sni_name_loop].
    unfold encode_names in *. cbn [map concat]. set (rest := concat (map encode_name ns)) in *.
    rewrite (proj2 (Z.leb_le _ _)) by zlen_lia.
    unfold encode_name, vec16.
    read_get pre (sn_type n) (to_be_bytes 2 (zlen (sn_data n)) ++ sn_data n ++ rest).
    read_slice (pre ++ [sn_type n]) (to_be_bytes 2 (zlen (sn_data n))) (sn_data n ++ rest).
    unfold wf_name in Hn. rewrite be_u16_encode by zlen_lia. cbn [res_bind].
    rewrite (proj2 (Z.ltb_ge _ _)) by zlen_lia. cbn [negb].
    assert (forall f, sni_name_loop fuel (pre ++ ((sn_type n :: to_be_bytes 2 (zlen (sn_data n)) ++ sn_data n) ++ rest))
              (zlen pre + 3 + zlen (sn_data n)) f =
            let? f := names_sni ns f in
            Ok (zlen (pre ++ ((sn_type n :: to_be_bytes 2 (zlen (sn_data n)) ++ sn_data n) ++ rest)), f)) as Hrec.
    { intros f. specialize (IH fuel (pre ++ encode_name n) f ltac:(lia)).
      unfold encode_name, vec16 in IH. rewrite <- !app_assoc in *. cbn [app] in *.
      rewrite <- !app_assoc in *.
      rewrite <- IH. f_equal. zlen_lia. }
    cbn [names_sni]. destruct (u8 (sn_type n) =? 0).
    + read_slice (pre ++ sn_type n :: to_be_bytes 2 (zlen (sn_data n))) (sn_data n) rest.
      destruct (sni_host (sn_data n)); cbn [res_bind]; [apply Hrec|done..].
    + cbn [res_bind]. apply Hrec.
Qed.

Lemma parse_server_name_ext_encode names found :
  Forall wf_name names -> zlen (encode_names names) <= U16_MAX ->
  parse_server_name_ext (vec16 (encode_names names)) found = names_sni names found.
Proof.
  intros H Hl. unfold parse_server_name_ext. unfold_ints.
  rewrite (proj2 (Z.ltb_ge _ _)) by zlen_lia. cbn [negb]. unfold vec16.
  read_slice (@nil byte) (to_be_bytes 2 (zlen (encode_names names))) (encode_names names).
  rewrite be_u16_encode by (unfold_ints; zlen_lia). cbn [res_bind].
  rewrite (proj2 (Z.eqb_eq _ _)) by zlen_lia.
  replace 2 with (zlen (to_be_bytes 2 (zlen (encode_names names)))) at 3 by zlen_lia.
  rewrite sni_name_loop_encode; [|done|].
  - destruct (names_sni names found); cbn [res_bind]; [|done..]. by rewrite Z.eqb_refl.
  - clear Hl. rewrite length_app. cbn [to_be_bytes length].
    enough (length names <= length (encode_names names))%nat by lia.
    clear. induction names as [|n ns IH]; [done|]. unfold encode_names in *. cbn [map concat length].
    rewrite length_app. cbn [encode_name length]. lia.
Qed.

(** Whether an ECH extension was seen. *)
Definition ech_type (ty : Z) : bool := (ty =? 0xfe0d) || (ty =? 0xff07).
Definition exts_ech (es : list extension) (ech : bool) : bool :=
  ech || existsb (fun e => ech_type (ext_type e)) es.

Lemma zlen_ext_data e : wf_ext e -> 0 <= zlen (ext_data e) <= U16_MAX.
Proof. intros [H _]. zlen_lia. Qed.

Lemma extension_loop_encode es fuel pre tl ech found :
  Forall wf_ext es -> (length es <= fuel)%nat ->
  extension_loop fuel (pre ++ encode_exts es ++ tl) (zlen (pre ++ encode_exts es)) (zlen pre) ech found =
  let? found := exts_sni es found in Ok (zlen (pre ++ encode_exts es), exts_ech es ech, found).
Proof.
  intros H. revert fuel pre ech found. induction H as [|e es He Hes IH]; intros fuel pre ech found Hf.
  - unfold encode_exts. cbn [map concat app]. rewrite app_nil_r. unfold exts_ech. cbn [existsb].
    rewrite orb_false_r. destruct fuel; cbn [extension_loop];
      by rewrite (proj2 (Z.leb_gt _ _)) by lia.
  - destruct fuel as [|fuel]; cbn [length] in Hf; [lia|]. cbn [extension_loop].
    unfold encode_exts in *. cbn [map concat]. set (rest := concat (map encode_ext es)) in *.
    pose proof (zlen_ext_data _ He). pose proof (wf_ext_type _ He).
    rewrite (proj2 (Z.leb_le _ _)) by zlen_lia.
    assert (forall c f, extension_loop fuel (pre ++ (encode_ext e ++ rest) ++ tl)
              (zlen (pre ++ encode_ext e ++ rest)) (zlen pre + 4 + zlen (ext_data e)) c f =
            let? f := exts_sni es f in Ok (zlen (pre ++ encode_ext e ++ rest), exts_ech es c, f)) as Hrec.
    { intros c f. specialize (IH fuel (pre ++ encode_ext e) c f ltac:(lia)).
      rewrite <- !app_assoc in *. rewrite <- IH. f_equal. zlen_lia. }
    set (end_ := zlen (pre ++ encode_ext e ++ rest)) in *.
    assert (zlen pre + 4 + zlen (ext_data e) <= end_) as Hend by (subst end_; zlen_lia).
    unfold encode_ext, vec16 in *.
    read_slice pre (to_be_bytes 2 (ext_type e))
      (to_be_bytes 2 (zlen (ext_data e)) ++ ext_data e ++ rest ++ tl).
    rewrite be_u16_encode by done. cbn [res_bind].
    read_slice (pre ++ to_be_bytes 2 (ext_type e)) (to_be_bytes 2 (zlen (ext_data e)))
      (ext_data e ++ rest ++ tl).
    rewrite be_u16_encode by done. cbn [res_bind].
    rewrite (proj2 (Z.ltb_ge _ _)) by lia. cbn [negb].
    change ((ext_type e =? 65037) || (ext_type e =? 65287)) with (ech_type (ext_type e)).
    destruct e as [names|ty data]; cbn [ext_type exts_sni].
    + cbn [ech_type Z.eqb orb].
      read_slice (pre ++ to_be_bytes 2 0 ++ to_be_bytes 2 (zlen (ext_data (ServerName names))))
        (ext_data (ServerName names)) (rest ++ tl).
      destruct He as [? ?]. cbn [ext_data] in *.
      rewrite parse_server_name_ext_encode by (try done; zlen_lia).
      destruct (names_sni names found); cbn [res_bind]; [|done..]. by rewrite Hrec.
    + destruct He as [_ Hty]. destruct (ech_type ty) eqn:Et; cbn [res_bind].
      * rewrite Hrec. unfold exts_ech. cbn [existsb ext_type]. rewrite Et. by rewrite orb_true_r.
      * rewrite (proj2 (Z.eqb_neq _ _)) by lia. cbn [res_bind]. rewrite Hrec.
        unfold exts_ech. cbn [existsb ext_type]. by rewrite Et.
Qed.

Lemma u8_length_byte (d : bytes) : zlen d <= U8_MAX -> u8 (byte_of_Z (zlen d / 256 ^ Z.of_nat 0)) = zlen d.
Proof.
  unfold_ints. intros. rewrite u8_of_Z, Z.pow_0_r, Z.div_1_r. apply Z.mod_small. zlen_lia.
Qed.

Lemma length_encode_exts es : (length es <= length (encode_exts es))%nat.
Proof.
  induction es as [|e es IH]; [done|]. unfold encode_exts in *. cbn [map concat length].
  rewrite length_app. cbn [encode_ext to_be_bytes app length]. lia.
Qed.

Ltac app_norm := rewrite <- ?app_assoc; cbn [to_be_bytes app]; rewrite <- ?app_assoc; reflexivity.
Ltac ch_cbn :=
  cbn [ch_version ch_random ch_session_id ch_cipher_suites ch_compression ch_extensions] in *.

Lemma parse_encode_client_hello ch tl :
  wf_client_hello ch ->
  parse_sni_from_client_hello_body (encode_client_hello ch ++ tl) = client_hello_sni ch.
Proof.
  intros [Hv Hr Hs Hc Hc2 Hm Hel He]. destruct ch as [v r sid cs cm es]; ch_cbn.
  unfold parse_sni_from_client_hello_body, encode_client_hello, client_hello_sni; ch_cbn.
  set (body := (v ++ _) ++ tl). set (eb := encode_exts es) in *.
  assert (zlen body = 2 + 32 + (1 + zlen sid) + (2 + zlen cs) + (1 + zlen cm) + (2 + zlen eb) + zlen tl)
    as Hlen by (subst body; zlen_lia).
  unfold_ints.
  rewrite (proj2 (Z.ltb_ge _ _)) by zlen_lia. cbn [negb].
  rewrite (get_at body (v ++ r) (sid ++ vec16 cs ++ vec8 cm ++ vec16 eb ++ tl) (byte_of_Z (zlen sid / 256 ^ Z.of_nat 0)));
    [cbn [ok_or res_bind]|subst body eb; unfold vec8 at 1; app_norm|zlen_lia].
  rewrite u8_length_byte by (unfold_ints; lia).
  rewrite (proj2 (Z.ltb_ge _ _)) by zlen_lia. cbn [negb].
  rewrite (slice_at body (v ++ r ++ vec8 sid) (to_be_bytes 2 (zlen cs)) (cs ++ vec8 cm ++ vec16 eb ++ tl));
    [cbn [ok_or res_bind]|subst body eb; unfold vec16 at 1; app_norm|zlen_lia|zlen_lia].
  rewrite be_u16_encode by (unfold_ints; lia). cbn [res_bind].
  rewrite Hc2. cbn [Z.eqb negb].
  rewrite (proj2 (Z.eqb_neq _ _)), (proj2 (Z.ltb_ge _ _)) by zlen_lia. cbn [orb negb].
  rewrite (get_at body (v ++ r ++ vec8 sid ++ vec16 cs) (cm ++ vec16 eb ++ tl) (byte_of_Z (zlen cm / 256 ^ Z.of_nat 0)));
    [cbn [ok_or res_bind]|subst body eb; unfold vec8 at 2; app_norm|zlen_lia].
  rewrite u8_length_byte by (unfold_ints; lia).
  rewrite (proj2 (Z.eqb_neq _ _)), (proj2 (Z.ltb_ge _ _)) by zlen_lia. cbn [orb negb].
  rewrite (proj2 (Z.eqb_neq _ _)) by zlen_lia. cbn [negb].
  rewrite (slice_at body (v ++ r ++ vec8 sid ++ vec16 cs ++ vec8 cm) (to_be_bytes 2 (zlen eb)) (eb ++ tl));
    [cbn [ok_or res_bind]|subst body eb; unfold vec16 at 2; app_norm|zlen_lia|zlen_lia].
  rewrite be_u16_encode by (unfold_ints; zlen_lia). cbn [res_bind].
  rewrite (proj2 (Z.ltb_ge _ _)) by zlen_lia. cbn [negb].
  set (pre := v ++ r ++ vec8 sid ++ vec16 cs ++ vec8 cm ++ to_be_bytes 2 (zlen eb)).
  assert (body = pre ++ eb ++ tl) as Hbody by (subst body pre; unfold vec16 at 2; by rewrite <- !app_assoc).
  replace (_ + 2) with (zlen pre) by (subst pre; zlen_lia).
  replace (zlen pre + zlen eb) with (zlen (pre ++ eb)) by zlen_lia.
  pose proof (length_encode_exts es) as Hfuel. fold eb in Hfuel.
  rewrite Hbody at 2. subst eb. rewrite extension_loop_encode; [|done|].
  - destruct (exts_sni es None) as [[host|]| | |]; cbn [res_bind]; try done;
      rewrite Z.eqb_refl; [destruct (is_filtered_ech_outer_name host)|]; cbn [negb];
      by destruct (exts_ech es false).
  - rewrite Hbody, !length_app. lia.
Qed.

(** * Accepted bodies are encoded ClientHellos *)

Lemma be_u16_inv s v : zlen s = 2 -> be_u16 s = Ok v -> s = to_be_bytes 2 v.
Proof.
  intros Hs H. destruct s as [|b0 [|b1 [|b2 s]]]; try by (exfalso; zlen_lia).
  rewrite be_u16_pair in H. injection H as <-. by rewrite u16_to_from_be.
Qed.

(** A slice read at the end of a known prefix. *)
Lemma slice_after {A} (pre rest s : list A) j :
  slice (pre ++ rest) (zlen pre) j = Some s ->
  exists rest', rest = s ++ rest' /\ j = zlen pre + zlen s.
Proof.
  intros (l1 & l3 & He & Hl & Hs)%slice_split.
  apply app_inj_zlen in He as [-> ->]; [|done]. exists l3. split; [done|lia].
Qed.

Lemma get_after {A} (pre rest : list A) x :
  get (pre ++ rest) (zlen pre) = Some x -> exists rest', rest = x :: rest'.
Proof.
  intros (l1 & l3 & He & Hl)%get_split. apply app_inj_zlen in He as [-> ->]; [|done]. eauto.
Qed.

Lemma sni_name_loop_inv fuel pre rest found p' found' :
  sni_name_loop fuel (pre ++ rest) (zlen pre) found = Ok (p', found') ->
  exists names tl, rest = encode_names names ++ tl /\ Forall wf_name names /\
    names_sni names found = Ok found' /\ p' = zlen (pre ++ encode_names names).
Proof.
  revert pre rest found; induction fuel as [|fuel IH]; intros pre rest found; cbn [sni_name_loop].
  - destruct (_ <=? _); [done|]. intros [= <- <-]. exists [], rest. cbn. rewrite app_nil_r. auto.
  - destruct (_ <=? _) eqn:Hle.
    2:{ intros [= <- <-]. exists [], rest. cbn. rewrite app_nil_r. auto. }
    intros H. res_inv. apply get_after in H0 as [rest1 ->].
    replace (pre ++ a :: rest1) with ((pre ++ [a]) ++ rest1) in * by app_eq.
    replace (zlen pre + 1) with (zlen (pre ++ [a])) in * by zlen_lia.
    apply slice_after in H1 as (rest2 & -> & Hj).
    pose proof (be_u16_range _ _ H2). apply be_u16_inv in H2; [|zlen_lia]. subst a0.
    assert (zlen pre + 3 = zlen (pre ++ a :: to_be_bytes 2 a1)) as Hp by zlen_lia.
    destruct (slice_is_Some ((pre ++ [a]) ++ to_be_bytes 2 a1 ++ rest2) (zlen pre + 3) (zlen pre + 3 + a1))
      as (d & Hd & Hdl); [zlen_lia..|].
    pose proof Hd as Hd'.
    replace ((pre ++ [a]) ++ to_be_bytes 2 a1 ++ rest2) with ((pre ++ a :: to_be_bytes 2 a1) ++ rest2) in * by app_eq.
    rewrite Hp in Hd'. apply slice_after in Hd' as (rest3 & -> & _).
    assert (a1 = zlen d) as -> by lia.
    set (n := {| sn_type := a; sn_data := d |}).
    assert ((pre ++ a :: to_be_bytes 2 (zlen d)) ++ d ++ rest3 = (pre ++ encode_name n) ++ rest3) as Hpre
      by (unfold encode_name, vec16; cbn [sn_type sn_data]; app_eq).
    rewrite Hpre in *.
    replace (zlen pre + 3 + zlen d) with (zlen (pre ++ encode_name n)) in H
      by (rewrite zlen_app, zlen_encode_name; cbn [sn_data n]; lia).
    apply IH in H as (names & tl & -> & Hwf & Hsni & ->).
    exists (n :: names), tl. unfold encode_names. cbn [map concat].
    split; [unfold encode_name, vec16; cbn [sn_type sn_data]; app_eq|].
    split; [constructor; [unfold wf_name; cbn; lia|done]|].
    split; [|f_equal; app_eq]. cbn [names_sni sn_type sn_data n].
    destruct (u8 a =? 0); [|by res_inv].
    rewrite Hd in H4. cbn [or_panic res_bind] in H4. res_inv.
    by match goal with E : sni_host _ = Ok _ |- _ => rewrite E end.
Qed.

(** The data of a parsed server_name extension is exactly a name list. *)
Lemma parse_server_name_ext_inv ext found found' :
  parse_server_name_ext ext found = Ok found' ->
  exists names, ext = vec16 (encode_names names) /\ Forall wf_name names /\
    names_sni names found = Ok found'.
Proof.
  unfold parse_server_name_ext. intros H. res_inv. destruct a1 as [p f]. res_inv.
  pose proof (be_u16_range _ _ H2).
  pose proof (slice_Some_inv _ _ _ _ H1) as (_ & _ & ?).
  apply (slice_after [] ext) in H1 as (rest & -> & _).
  apply be_u16_inv in H2; [|lia]. subst a.
  replace 2 with (zlen (to_be_bytes 2 a0)) in H4 at 3 by done.
  apply sni_name_loop_inv in H4 as (names & tl & -> & Hwf & Hsni & ->).
  assert (tl = []) as -> by (apply zlen_0_inv; zlen_lia).
  exists names. rewrite app_nil_r in *. split; [|done].
  unfold vec16. do 2 f_equal. zlen_lia.
Qed.

Lemma extension_loop_inv fuel pre rest ext_end ech found off' ech' found' :
  extension_loop fuel (pre ++ rest) ext_end (zlen pre) ech found = Ok (off', ech', found') ->
  zlen pre <= ext_end <= zlen (pre ++ rest) ->
  exists es tl, rest = encode_exts es ++ tl /\ Forall wf_ext es /\
    exts_sni es found = Ok found' /\ off' = zlen (pre ++ encode_exts es).
Proof.
  revert pre rest ech found; induction fuel as [|fuel IH]; intros pre rest ech found; cbn [extension_loop].
  - destruct (_ <=? _); [done|]. intros [= <- <- <-] _. exists [], rest. cbn. rewrite app_nil_r. auto.
  - destruct (_ <=? _) eqn:Hle.
    2:{ intros [= <- <- <-] _. exists [], rest. cbn. rewrite app_nil_r. auto. }
    intros H Hend. res_inv. destruct a3 as [ech1 found1].
    apply slice_after in H0 as (rest1 & -> & Hj).
    pose proof (be_u16_range _ _ H1). apply be_u16_inv in H1; [|zlen_lia]. subst a.
    rewrite app_assoc in *.
    replace (zlen pre + 2) with (zlen (pre ++ to_be_bytes 2 a0)) in * by zlen_lia.
    apply slice_after in H2 as (rest2 & -> & Hj2).
    pose proof (be_u16_range _ _ H3). apply be_u16_inv in H3; [|zlen_lia]. subst a1.
    rewrite app_assoc in *.
    assert (zlen pre + 4 = zlen ((pre ++ to_be_bytes 2 a0) ++ to_be_bytes 2 a2)) as Hp by zlen_lia.
    rewrite Hp in *.
    destruct (slice_is_Some (((pre ++ to_be_bytes 2 a0) ++ to_be_bytes 2 a2) ++ rest2)
      (zlen ((pre ++ to_be_bytes 2 a0) ++ to_be_bytes 2 a2))
      (zlen ((pre ++ to_be_bytes 2 a0) ++ to_be_bytes 2 a2) + a2)) as (d & Hd & Hdl); [zlen_lia..|].
    pose proof Hd as Hd'. apply slice_after in Hd' as (rest3 & -> & _).
    assert (a2 = zlen d) as -> by lia.
    set (hd := (pre ++ to_be_bytes 2 a0) ++ to_be_bytes 2 (zlen d)) in *.
    assert (exists e, wf_ext e /\ ext_type e = a0 /\ ext_data e = d /\
              exts_sni [e] found = Ok found1) as (e & Hwe & Het & Hed & Hes).
    { destruct ((a0 =? 65037) || (a0 =? 65287)) eqn:Ee; [|destruct (Z.eqb_spec a0 0) as [->|]]; res_inv.
      - exists (OtherExt a0 d). unfold wf_ext; cbn [ext_type ext_data exts_sni]. repeat split; lia.
      - rewrite Hd in H2; cbn in H2. res_inv.
        simplify_eq. apply parse_server_name_ext_inv in H3 as (names & -> & ? & Hn). exists (ServerName names).
        unfold wf_ext; cbn [ext_type ext_data exts_sni]. rewrite Hn. repeat split; try done; lia.
      - exists (OtherExt a0 d). unfold wf_ext; cbn [ext_type ext_data exts_sni]. repeat split; lia. }
    assert (hd ++ d ++ rest3 = (pre ++ encode_ext e) ++ rest3) as Hpre
      by (subst hd; unfold encode_ext, vec16; rewrite Het, Hed; app_eq).
    rewrite Hpre in *.
    assert (zlen (pre ++ encode_ext e) = zlen hd + zlen d) as Hz
      by (rewrite zlen_app, zlen_encode_ext, Hed; subst hd; zlen_lia).
    rewrite <- Hz in *.
    apply IH in H as (es & tl & -> & Hwf & Hsni & ->); [|zlen_lia].
    exists (e :: es), tl. unfold encode_exts. cbn [map concat].
    split; [subst hd; unfold encode_ext, vec16; rewrite Het, Hed; app_eq|].
    split; [by constructor|]. split; [|f_equal; app_eq].
    destruct e; cbn [exts_sni] in *; res_inv; [|done].
    match goal with E : names_sni _ _ = Ok _ |- _ => by rewrite E end.
Qed.

(** Splits off the first [n] bytes of a buffer that is long enough. *)
Lemma take_bytes (l : bytes) n :
  0 <= n <= zlen l -> exists l1 l2, l = l1 ++ l2 /\ zlen l1 = n.
Proof.
  intros. exists (take (Z.to_nat n) l), (drop (Z.to_nat n) l).
  by rewrite take_drop, zlen_take.
Qed.

(** Length-prefixed vectors, read after a known prefix. *)
Lemma read_vec8 pre rest x :
  get (pre ++ rest) (zlen pre) = Some x -> zlen pre + 1 + u8 x <= zlen (pre ++ rest) ->
  exists d rest', rest = vec8 d ++ rest' /\ u8 x = zlen d.
Proof.
  intros [r ->]%get_after Hl.
  destruct (take_bytes r (u8 x)) as (d & r' & -> & Hd); [zlen_lia|].
  exists d, r'. split; [|done]. unfold vec8. cbn [to_be_bytes app]. f_equal. apply u8_inj.
  rewrite u8_of_Z, Z.pow_0_r, Z.div_1_r, Hd. symmetry. apply Z.mod_small. apply u8_range.
Qed.

Lemma read_vec16 pre rest s v :
  slice (pre ++ rest) (zlen pre) (zlen pre + 2) = Some s -> be_u16 s = Ok v ->
  zlen pre + 2 + v <= zlen (pre ++ rest) ->
  exists d rest', rest = vec16 d ++ rest' /\ v = zlen d.
Proof.
  intros (r & -> & Hj)%slice_after Hv Hl. pose proof (be_u16_range _ _ Hv).
  apply be_u16_inv in Hv; [|lia]. subst s.
  destruct (take_bytes r v) as (d & r' & -> & Hd); [zlen_lia|].
  exists d, r'. split; [|done]. unfold vec16. rewrite Hd. by rewrite <- app_assoc.
Qed.

Lemma parse_body_inv body host :
  parse_sni_from_client_hello_body body = Ok host ->
  exists ch tl, wf_client_hello ch /\ body = encode_client_hello ch ++ tl /\
    client_hello_sni ch = Ok host.
Proof.
  unfold parse_sni_from_client_hello_body. intros H. cbv zeta in H. res_inv.
  destruct a5 as [[off ech] found]. res_inv.
  destruct (take_bytes body 2) as (v & r1 & -> & Hv); [lia|].
  destruct (take_bytes r1 32) as (r & r2 & -> & Hr); [zlen_lia|].
  rewrite (app_assoc v r) in *.
  replace (0 + 2 + 32) with (zlen (v ++ r)) in * by zlen_lia.
  set (p1 := v ++ r) in *.
  apply read_vec8 in H1 as (sid & r3 & -> & Hsid); [|lia].
  rewrite Hsid, (app_assoc p1) in *.
  replace (zlen p1 + 1 + zlen sid) with (zlen (p1 ++ vec8 sid)) in * by zlen_lia.
  set (p2 := p1 ++ vec8 sid) in *. pose proof (be_u16_range _ _ H4).
  apply (read_vec16 p2 r3 _ _ H3) in H4 as (cs & r4 & -> & ->); [|lia].
  rewrite (app_assoc p2) in *.
  replace (zlen p2 + 2 + zlen cs) with (zlen (p2 ++ vec16 cs)) in * by zlen_lia.
  set (p3 := p2 ++ vec16 cs) in *.
  apply read_vec8 in H6 as (cm & r5 & -> & Hcm); [|lia].
  rewrite Hcm, (app_assoc p3) in *.
  replace (zlen p3 + 1 + zlen cm) with (zlen (p3 ++ vec8 cm)) in * by zlen_lia.
  set (p4 := p3 ++ vec8 cm) in *. pose proof (be_u16_range _ _ H10).
  apply (read_vec16 p4 r5 _ _ H9) in H10 as (eb & r6 & -> & ->); [|lia].
  assert (p4 ++ vec16 eb ++ r6 = (p4 ++ to_be_bytes 2 (zlen eb)) ++ eb ++ r6) as E
    by (unfold vec16; app_eq).
  rewrite E in *. clear E.
  replace (zlen p4 + 2) with (zlen (p4 ++ to_be_bytes 2 (zlen eb))) in * by zlen_lia.
  apply extension_loop_inv in H12 as (es & tl & He & Hwf & Hsni & Hoff); [|zlen_lia].
  apply app_inj_zlen in He as [He ->]; [|zlen_lia].
  exists {| ch_version := v; ch_random := r; ch_session_id := sid; ch_cipher_suites := cs;
            ch_compression := cm; ch_extensions := es |}, tl.
  pose proof (u8_range a). pose proof (u8_range a2).
  split; [|split].
  - split; ch_cbn; rewrite <- ?He; try done; unfold_ints; lia.
  - unfold encode_client_hello; ch_cbn. rewrite <- He.
    subst p4 p3 p2 p1. unfold vec16 at 3. by rewrite <- !app_assoc.
  - unfold client_hello_sni; ch_cbn. rewrite Hsni. cbn [res_bind].
    destruct found as [h|]; [|by destruct ech].
    destruct (is_filtered_ech_outer_name h); cbn [negb] in *; [by destruct ech|done].
Qed.

(** * Properties *)

(** The ClientHello parser answers every well-formed ClientHello, whatever
    follows it, exactly as its extensions say: the last host_name entry, or the
    error of the first host_name entry that is no host name, or no SNI. *)
Theorem client_hello_answer (ch : client_hello) (tl : bytes) :
  wf_client_hello ch ->
  parse_sni_from_client_hello_body (encode_client_hello ch ++ tl) = client_hello_sni ch.
Proof. apply parse_encode_client_hello. Qed.

Definition example_hello : client_hello := {|
  ch_version := map byte_of_Z [3; 3];
  ch_random := repeat Byte.x00 32;
  ch_session_id := [];
  ch_cipher_suites := map byte_of_Z [19; 1];
  ch_compression := [Byte.x00];
  ch_extensions := [OtherExt 16 [Byte.x00]; ServerName [{| sn_type := Byte.x00; sn_data := bs "Example.COM" |}]];
|}.

Lemma example_hello_wf : wf_client_hello example_hello.
Proof. split; cbn; try by vm_compute. repeat constructor; by vm_compute. Qed.

Lemma client_hello_answer_witness :
  parse_sni_from_client_hello_body (encode_client_hello example_hello ++ bs "x") = Ok (bs "example.com").
Proof. rewrite (client_hello_answer example_hello (bs "x") example_hello_wf). vm_compute. reflexivity. Defined.

(** C27: The ClientHello parser reports a host exactly for the bodies that start
    with the encoding of a well-formed ClientHello naming that host, whatever
    bytes follow it: the body may be longer than its ClientHello, and nothing
    that does not start so is accepted. *)
Theorem client_hello_exact (body host : bytes) :
  parse_sni_from_client_hello_body body = Ok host <->
  exists ch tl, wf_client_hello ch /\ body = encode_client_hello ch ++ tl /\ client_hello_sni ch = Ok host.
Proof.
  split; [apply parse_body_inv|]. intros (ch & tl & Hw & -> & <-). by apply parse_encode_client_hello.
Qed.
