(* ===== verification/TlsRecords.v ===== *)
(** The record layer of the TCP SNI sniffer: a handshake message cut into any
    records is reassembled, and a decision taken on a prefix of the stream is
    not changed by the bytes that follow. *)

From Stdlib Require Import Strings.Byte Strings.String.
From S2P Require Import Prelude Bytes Hostname Sniff Tls TlsHello.

(** A TLS handshake record: the minor version byte and the fragment. *)
Record tls_record := { rec_minor : byte; rec_fragment : bytes }.
Definition encode_record (r : tls_record) : bytes :=
  byte_of_Z 22 :: byte_of_Z 3 :: rec_minor r :: vec16 (rec_fragment r).
Definition encode_records (rs : list tls_record) : bytes := concat (map encode_record rs).
Definition fragments (rs : list tls_record) : bytes := concat (map rec_fragment rs).
Definition wf_record (r : tls_record) : Prop :=
  0 < zlen (rec_fragment r) <= MAX_TLS_RECORD_PAYLOAD.
(** The ClientHello handshake message around a body. *)
Definition handshake_message (body : bytes) : bytes :=
  byte_of_Z 1 :: to_be_bytes 3 (zlen body) ++ body.

Lemma be_u24_triple b0 b1 b2 :
  be_u24 [b0; b1; b2] = Ok (Z.lor (Z.lor (Z.shiftl (u8 b0) 16) (Z.shiftl (u8 b1) 8)) (u8 b2)).
Proof. done. Qed.

Lemma u24_to_be z : to_be_bytes 3 z = [byte_of_Z (z / 65536); byte_of_Z (z / 256); byte_of_Z z].
Proof. cbn [to_be_bytes]. by rewrite Z.div_1_r. Qed.

Lemma be_u24_encode z : 0 <= z < 2 ^ 24 -> be_u24 (to_be_bytes 3 z) = Ok z.
Proof.
  intros Hz. rewrite u24_to_be, be_u24_triple, !u8_of_Z. f_equal.
  assert (0 <= z / 65536 < 256) by (split; [apply Z.div_pos|apply Z.div_lt_upper_bound]; lia).
  rewrite (Z.mod_small (z / 65536)) by lia.
  rewrite <- (Z.shiftl_shiftl _ 8 8), <- Z.shiftl_lor by lia.
  pose proof (Z.mod_pos_bound (z / 256) 256). pose proof (Z.mod_pos_bound z 256).
  rewrite !lor_shiftl_add by lia. change (2 ^ 8) with 256.
  pose proof (Z.div_mod z 256). pose proof (Z.div_mod (z / 256) 256).
  rewrite Z.div_div in * by lia. change (256 * 256) with 65536 in *. lia.
Qed.

Lemma zlen_encode_record r : zlen (encode_record r) = 5 + zlen (rec_fragment r).
Proof. unfold encode_record. zlen_simpl. lia. Qed.
Lemma zlen_handshake_message body : zlen (handshake_message body) = 4 + zlen body.
Proof. unfold handshake_message. zlen_simpl. lia. Qed.
#[export] Hint Rewrite zlen_encode_record zlen_handshake_message : zlen.

(** [needed_total] as a function of the bytes reassembled so far. *)
Definition needed_after (body hs : bytes) : option Z :=
  if 4 <=? zlen hs then Some (4 + zlen body) else None.

Lemma announced_total_message body max hs frag rest extra :
  zlen body < 2 ^ 24 -> 4 + zlen body <= max ->
  (hs ++ frag) ++ rest = handshake_message body ++ extra ->
  announced_total max (hs ++ frag) (needed_after body hs) = Ok (needed_after body (hs ++ frag)).
Proof.
  intros Hb Hm Heq. unfold announced_total, needed_after.
  destruct (Z.leb_spec 4 (zlen hs)).
  - by rewrite (proj2 (Z.leb_le _ _)) by zlen_lia.
  - destruct (Z.leb_spec 4 (zlen (hs ++ frag))) as [H4|]; [|done].
    rewrite <- (get_prefix (hs ++ frag) rest) by lia.
    rewrite <- (slice_prefix (hs ++ frag) rest 1 4) by lia.
    rewrite Heq. unfold handshake_message.
    read_get (@nil byte) (byte_of_Z 1) (to_be_bytes 3 (zlen body) ++ body ++ extra).
    rewrite u8_of_Z. cbn [Z.modulo].
    rewrite (proj2 (Z.eqb_eq _ _)) by done.
    read_slice [byte_of_Z 1] (to_be_bytes 3 (zlen body)) (body ++ extra).
    rewrite be_u24_encode by zlen_lia. cbn [res_bind].
    by rewrite (proj2 (Z.ltb_ge _ _)) by lia.
Qed.

(** One well-formed record in front: the loop appends its fragment. *)
Lemma record_loop_step fuel pre r rest max hs needed saw :
  wf_record r ->
  record_loop (S fuel) (pre ++ encode_record r ++ rest) max (zlen pre) hs needed saw =
  let hs := hs ++ rec_fragment r in
  let? needed := announced_total max hs needed in
  let next := record_loop fuel (pre ++ encode_record r ++ rest) max
                (zlen (pre ++ encode_record r)) hs needed true in
  match needed with
  | Some total =>
      if total <=? zlen hs then
        let? body := or_panic (slice hs 4 total) in parse_sni_from_client_hello_body body
      else next
  | None => next
  end.
Proof.
  intros Hr. unfold wf_record, MAX_TLS_RECORD_PAYLOAD in Hr. cbn [record_loop].
  destruct r as [minor frag]; cbn [rec_fragment] in *.
  set (buf := pre ++ _).
  assert (zlen buf = zlen pre + (5 + zlen frag) + zlen rest) as Hb by (subst buf; zlen_simpl; cbn [rec_fragment]; lia).
  rewrite (proj2 (Z.ltb_lt (zlen pre) (zlen buf))) by zlen_lia.
  rewrite (proj2 (Z.ltb_ge _ _)) by zlen_lia.
  rewrite (get_at buf pre (byte_of_Z 3 :: minor :: vec16 frag ++ rest) (byte_of_Z 22)) by done.
  cbn [or_panic res_bind]. rewrite u8_of_Z, (proj2 (Z.eqb_eq _ _)) by done.
  rewrite (get_at buf (pre ++ [byte_of_Z 22]) (minor :: vec16 frag ++ rest) (byte_of_Z 3));
    [|subst buf; unfold encode_record; app_eq|zlen_lia].
  cbn [or_panic res_bind]. rewrite u8_of_Z, (proj2 (Z.eqb_eq _ _)) by done.
  rewrite (slice_at buf (pre ++ [byte_of_Z 22; byte_of_Z 3; minor]) (to_be_bytes 2 (zlen frag)) (frag ++ rest));
    [|subst buf; unfold encode_record, vec16; cbn [rec_minor rec_fragment]; app_eq|zlen_lia|zlen_lia].
  cbn [or_panic res_bind]. rewrite be_u16_encode by (unfold_ints; lia). cbn [res_bind].
  unfold MAX_TLS_RECORD_PAYLOAD.
  rewrite (proj2 (Z.eqb_neq _ _)), (proj2 (Z.ltb_ge _ _)) by lia. cbn [orb negb].
  rewrite (proj2 (Z.ltb_ge _ _)) by zlen_lia. cbn [negb].
  rewrite (slice_at buf (pre ++ byte_of_Z 22 :: byte_of_Z 3 :: minor :: to_be_bytes 2 (zlen frag)) frag rest);
    [|subst buf; unfold encode_record, vec16; cbn [rec_minor rec_fragment]; app_eq|zlen_lia|zlen_lia].
  cbn [or_panic res_bind].
  replace (zlen pre + 5 + zlen frag) with (zlen (pre ++ encode_record {| rec_minor := minor; rec_fragment := frag |}))
    by (rewrite zlen_app, zlen_encode_record; cbn [rec_fragment]; lia).
  done.
Qed.

Lemma record_loop_message rs fuel pre tl body max hs extra saw :
  zlen body < 2 ^ 24 -> 4 + zlen body <= max -> Forall wf_record rs ->
  hs ++ fragments rs = handshake_message body ++ extra -> zlen hs < 4 + zlen body ->
  (length rs <= fuel)%nat ->
  record_loop fuel (pre ++ encode_records rs ++ tl) max (zlen pre) hs (needed_after body hs) saw =
  parse_sni_from_client_hello_body body.
Proof.
  intros Hb Hm H. revert fuel pre hs saw. induction H as [|r rs Hr Hrs IH]; intros fuel pre hs saw Heq Hlt Hf.
  - exfalso. cbn in Heq. apply (f_equal zlen) in Heq. zlen_lia.
  - destruct fuel as [|fuel]; cbn [length] in Hf; [lia|].
    unfold encode_records, fragments in *. cbn [map concat] in *.
    rewrite <- (app_assoc (encode_record r)), record_loop_step by done. cbv zeta.
    rewrite app_assoc in Heq.
    rewrite (announced_total_message _ _ _ _ _ _ Hb Hm Heq). cbn [res_bind].
    assert (4 + zlen body > zlen (hs ++ rec_fragment r) ->
      record_loop fuel (pre ++ encode_record r ++ concat (map encode_record rs) ++ tl) max
        (zlen (pre ++ encode_record r)) (hs ++ rec_fragment r)
        (needed_after body (hs ++ rec_fragment r)) true = parse_sni_from_client_hello_body body) as Hnext.
    { intros Hl. rewrite app_assoc. apply IH; [done|lia|lia]. }
    unfold needed_after in *. destruct (Z.leb_spec 4 (zlen (hs ++ rec_fragment r))).
    + destruct (Z.leb_spec (4 + zlen body) (zlen (hs ++ rec_fragment r))); [|apply Hnext; lia].
      rewrite <- (slice_prefix _ (concat (map rec_fragment rs))) by lia. rewrite Heq.
      unfold handshake_message.
      read_slice (byte_of_Z 1 :: to_be_bytes 3 (zlen body)) body extra. done.
    + apply Hnext. zlen_lia.
Qed.

Lemma length_encode_records rs : (length rs <= length (encode_records rs))%nat.
Proof.
  induction rs as [|r rs IH]; [done|]. unfold encode_records in *. cbn [map concat length].
  rewrite length_app. cbn [encode_record length]. lia.
Qed.

Lemma sniff_tls_message rs tl body extra max :
  zlen body < 2 ^ 24 -> 4 + zlen body <= max -> Forall wf_record rs ->
  fragments rs = handshake_message body ++ extra ->
  sniff_tls_sni_from_prefix (encode_records rs ++ tl) max = parse_sni_from_client_hello_body body.
Proof.
  intros Hb Hm Hrs Heq. unfold sniff_tls_sni_from_prefix.
  pose proof (length_encode_records rs) as Hl.
  rewrite bool_decide_eq_false_2; cbn [negb].
  - apply (record_loop_message rs _ [] tl body max [] extra); try done; [zlen_lia|].
    rewrite length_app. lia.
  - intros [E _]%app_nil. rewrite E in Hl. destruct rs; [|cbn in Hl; lia].
    cbn in Heq. by apply app_cons_not_nil in Heq || done.
Qed.

(** * Decisions are stable *)

(** Reads at [i] (from [i] to [j]) in the shorter and the longer buffer. *)
Ltac mono_get buf more i H :=
  let x := fresh "x" in let E := fresh "Ex" in
  destruct (get_is_Some buf i) as (x & E); [lia|lia|];
  rewrite E in H; rewrite (get_app_l buf more i x E); cbn [or_panic res_bind] in H |- *.
Ltac mono_slice buf more i j H :=
  let s := fresh "s" in let E := fresh "Es" in let Hl := fresh "Hl" in
  destruct (slice_is_Some buf i j) as (s & E & Hl); [lia|lia|lia|];
  rewrite E in H; rewrite (slice_app_l buf more i j s E); cbn [or_panic res_bind] in H |- *.

(** A buffer of under five bytes is only rejected for its first two. *)
Lemma record_loop_short buf more max hs needed saw fuel r :
  buf <> [] -> zlen buf < 5 ->
  (let? b0 := or_panic (get buf 0) in
   if negb (u8 b0 =? 0x16) then Err TlsSniffError.ProtocolNotMatched
   else if 2 <=? zlen buf then
     let? b1 := or_panic (get buf 1) in
     if negb (u8 b1 =? 0x03) then Err TlsSniffError.ProtocolNotMatched
     else Err TlsSniffError.InsufficientPrefix
   else Err TlsSniffError.InsufficientPrefix) = r ->
  r <> Err TlsSniffError.InsufficientPrefix ->
  record_loop (S fuel) (buf ++ more) max 0 hs needed saw = r.
Proof.
  intros Hb Hl Hr Hne. cbn [record_loop].
  assert (0 < zlen buf) by (destruct buf; [done|zlen_lia]).
  rewrite (proj2 (Z.ltb_lt _ _)) by zlen_lia.
  rewrite (bool_decide_eq_false_2 (buf ++ more = [])) by (by intros [? _]%app_nil).
  cbn [Z.eqb negb andb] in *. rewrite Z.sub_0_r.
  mono_get buf more 0 Hr.
  destruct (u8 x =? 22) eqn:E0; cbn [negb] in *; [|by destruct (_ <? 5)].
  destruct (Z.leb_spec 2 (zlen buf)); [|done]. change (0 + 1) with 1.
  rewrite (proj2 (Z.leb_le 2 (zlen (buf ++ more)))) by zlen_lia.
  mono_get buf more 1 Hr.
  destruct (u8 x0 =? 3) eqn:E1; cbn [negb] in *; [by subst|by destruct (_ <? 5)].
Qed.

Lemma record_loop_stable fuel fuel' buf more max off hs needed saw r :
  record_loop fuel buf max off hs needed saw = r -> r <> Err TlsSniffError.InsufficientPrefix ->
  returns r -> (off = 0 \/ saw = true) -> buf <> [] -> 0 <= off <= zlen buf ->
  zlen (buf ++ more) <= off + Z.of_nat fuel' ->
  record_loop fuel' (buf ++ more) max off hs needed saw = r.
Proof.
  intros Hr Hne Hret. revert fuel' off hs needed saw Hr.
  induction fuel as [|fuel IH]; intros fuel' off hs needed saw Hr Hs Hb Ho Hf;
    cbn [record_loop] in Hr; destruct (Z.ltb_spec off (zlen buf)) as [Hlt|];
    try (destruct Hs as [->| ->]; [destruct buf; [done|exfalso; zlen_lia]|by subst]); [by subst|].
  destruct fuel' as [|fuel']; [exfalso; zlen_lia|].
  destruct (Z.ltb_spec (zlen buf - off) 5).
  { rewrite bool_decide_eq_false_2 in Hr by done.
    destruct (Z.eqb_spec off 0) as [->|]; cbn [negb andb] in Hr.
    - apply (record_loop_short _ _ _ _ _ _ _ r); [done|lia|done|done].
    - destruct Hs as [| ->]; [done|]. by subst. }
  cbn [record_loop]. rewrite (proj2 (Z.ltb_lt _ _)) by zlen_lia.
  rewrite (proj2 (Z.ltb_ge _ _)) by zlen_lia.
  mono_get buf more off Hr. destruct (u8 x =? 22); [|done].
  mono_get buf more (off + 1) Hr. destruct (u8 x0 =? 3); [|done].
  mono_slice buf more (off + 3) (off + 5) Hr.
  destruct (be_u16 s) as [len| | |] eqn:El; cbn [res_bind] in *; try done.
  pose proof (be_u16_range _ _ El) as Hlen.
  destruct ((len =? 0) || (MAX_TLS_RECORD_PAYLOAD <? len)) eqn:Ez; cbn [negb] in *; [done|].
  destruct (Z.ltb_spec (zlen buf) (off + 5 + len)); cbn [negb] in *; [by subst|].
  rewrite (proj2 (Z.ltb_ge _ _)) by zlen_lia. cbn [negb].
  mono_slice buf more (off + 5) (off + 5 + len) Hr.
  destruct (announced_total max (hs ++ s0) needed) as [[total|]| | |]; cbn [res_bind] in *; try done.
  - destruct (total <=? zlen (hs ++ s0)); [done|].
    apply IH; try done; [by right|lia|zlen_lia].
  - apply IH; try done; [by right|lia|zlen_lia].
Qed.

Lemma sniff_tls_stable buf more max :
  sniff_tls_sni_from_prefix buf max <> Err TlsSniffError.InsufficientPrefix -> buf <> [] ->
  sniff_tls_sni_from_prefix (buf ++ more) max = sniff_tls_sni_from_prefix buf max.
Proof.
  unfold sniff_tls_sni_from_prefix. intros Hne Hb.
  rewrite !bool_decide_eq_false_2 in * by (done || by intros [? _]%app_nil). cbn [negb] in *.
  eapply record_loop_stable; [done|done| |by left|done|zlen_lia|unfold zlen; lia].
  by apply record_loop_returns; [|unfold zlen; lia|].
Qed.

(** * The TLS sniffer keeps the sniffer laws *)

Lemma sni_host_ok raw host : sni_host raw = Ok host -> sni_hostname host.
Proof.
  unfold sni_host. intros H. res_inv. by apply is_valid_sni_hostname_spec.
Qed.

Lemma names_sni_ok ns found host :
  names_sni ns found = Ok (Some host) -> found = Some host \/ sni_hostname host.
Proof.
  revert found; induction ns as [|n ns IH]; intros found; cbn; [intros [= ->]; by left|].
  destruct (u8 (sn_type n) =? 0); [|apply IH]. intros H. res_inv.
  apply sni_host_ok in H0. apply IH in H as [[= ->]|]; by right.
Qed.

Lemma exts_sni_ok es found host :
  exts_sni es found = Ok (Some host) -> found = Some host \/ sni_hostname host.
Proof.
  revert found; induction es as [|[ns|ty d] es IH]; intros found; cbn; [intros [= ->]; by left| |apply IH].
  intros H. res_inv. apply IH in H as [->|]; [|by right]. by apply names_sni_ok in H0.
Qed.

Lemma parse_body_hostname body host :
  parse_sni_from_client_hello_body body = Ok host ->
  sni_hostname host /\ host <> bs "cloudflare-ech.com".
Proof.
  intros (ch & tl & _ & _ & H)%parse_body_inv. unfold client_hello_sni in H. res_inv.
  destruct a as [h|]; [|done]. unfold is_filtered_ech_outer_name in H.
  destruct (bool_decide_reflect (h = bs "cloudflare-ech.com")); [done|]. injection H as ->.
  split; [|done]. by apply exts_sni_ok in H0 as [|].
Qed.

Lemma record_loop_hostname fuel buf max off hs needed saw host :
  record_loop fuel buf max off hs needed saw = Ok host ->
  exists body, parse_sni_from_client_hello_body body = Ok host.
Proof.
  revert off hs needed saw; induction fuel as [|fuel IH]; intros off hs needed saw; cbn [record_loop].
  - destruct (_ <? _); [done|]. by destruct saw.
  - destruct (_ <? _); [|by destruct saw].
    destruct (_ <? 5).
    { destruct (_ && _); [|by destruct saw]. intros H. by repeat (res_inv || case_match). }
    intros H. res_inv. destruct a4 as [total|]; [|by eapply IH].
    destruct (total <=? _); [|by eapply IH]. res_inv. eauto.
Qed.

Lemma sniff_tls_hostname buf max host :
  sniff_tls_sni_from_prefix buf max = Ok host ->
  sni_hostname host /\ host <> bs "cloudflare-ech.com".
Proof.
  unfold sniff_tls_sni_from_prefix. intros H. res_inv.
  apply record_loop_hostname in H as [body H]. by apply parse_body_hostname in H.
Qed.

Lemma sniff_tls_returns buf max : returns (sniff_tls_sni_from_prefix buf max).
Proof.
  unfold sniff_tls_sni_from_prefix. returns_tac. apply record_loop_returns; [done|unfold zlen; lia|done].
Qed.

Lemma tls_classify_matched buf max host :
  tls_classify buf max = Ok (Matched host) -> sniff_tls_sni_from_prefix buf max = Ok host.
Proof.
  unfold tls_classify. destruct (sniff_tls_sni_from_prefix buf max) as [h|[]| |]; try done.
  by intros [= ->].
Qed.

#[export] Instance TlsSniffer_laws p m r w t : SnifferLaws (TlsSniffer p m r w t).
Proof.
  split; cbn [timeout_duration classify TlsSniffer]; [lia|..].
  - intros buf max. unfold tls_classify. pose proof (sniff_tls_returns buf max).
    destruct (sniff_tls_sni_from_prefix buf max) as [h|[]| |]; done.
  - by intros buf max host [H _]%tls_classify_matched%sniff_tls_hostname.
  - intros buf more max host H%tls_classify_matched. unfold tls_classify.
    rewrite sniff_tls_stable; [by rewrite H|by rewrite H|]. by intros ->.
Qed.

(** * Properties *)

(** C29: A handshake message cut into any sequence of TLS records, followed by
    anything, is answered like its ClientHello body: fragmentation does not
    change the sniffed name. *)
Theorem tls_fragmentation (rs : list tls_record) (tl body extra : bytes) (max : Z) :
  zlen body < 2 ^ 24 -> 4 + zlen body <= max -> Forall wf_record rs ->
  fragments rs = handshake_message body ++ extra ->
  sniff_tls_sni_from_prefix (encode_records rs ++ tl) max = parse_sni_from_client_hello_body body.
Proof. apply sniff_tls_message. Qed.

Definition example_records : list tls_record :=
  let m := handshake_message (encode_client_hello example_hello) in
  map (fun f => {| rec_minor := Byte.x01; rec_fragment := f |}) [take 2 m; take 30 (drop 2 m); drop 32 m].

Lemma tls_fragmentation_witness :
  sniff_tls_sni_from_prefix (encode_records example_records ++ bs "tail") 4096 = Ok (bs "example.com").
Proof.
  rewrite (tls_fragmentation example_records (bs "tail") (encode_client_hello example_hello) [] 4096).
  - vm_compute. reflexivity.
  - vm_compute. reflexivity.
  - vm_compute. discriminate.
  - repeat constructor; vm_compute; (reflexivity || discriminate).
  - vm_compute. reflexivity.
Defined.

(** Once the TLS sniffer has decided on a prefix of the stream, on a host
    or on any error but the demand for more bytes, the bytes that follow do not
    change the decision; and it always decides, without panicking. *)
Theorem tls_decision_stable (buf more : bytes) (max : Z) :
  buf <> [] ->
  returns (sniff_tls_sni_from_prefix buf max) /\
  (sniff_tls_sni_from_prefix buf max = Err TlsSniffError.InsufficientPrefix \/
   sniff_tls_sni_from_prefix (buf ++ more) max = sniff_tls_sni_from_prefix buf max).
Proof.
  intros Hb. split; [apply sniff_tls_returns|].
  destruct (sniff_tls_sni_from_prefix buf max) as [h|[]| |] eqn:E; [right|right|by left|right..];
    rewrite <- E; apply sniff_tls_stable; rewrite ?E; done.
Qed.

Lemma tls_decision_stable_witness :
  sniff_tls_sni_from_prefix (encode_records example_records ++ bs "tail") 4096 = Ok (bs "example.com").
Proof.
  destruct (tls_decision_stable (encode_records example_records) (bs "tail") 4096) as [_ [H|H]].
  - vm_compute. discriminate.
  - exfalso. vm_compute in H. discriminate H.
  - rewrite H. vm_compute. reflexivity.
Defined.
