(* ===== verification/Http.v ===== *)
(** HTTP Host sniffing: [src/src/sniff/http.rs], its answer on rendered
    requests, and the laws its sniffer owes the engine. *)

From Stdlib Require Import Strings.Byte Strings.String.
From S2P Require Import Prelude Bytes Hostname Sniff.

Module HttpSniffError.
Inductive HttpSniffError :=
  | PeekEmpty
  | InsufficientPrefix
  | ProtocolNotMatched
  | HttpNoHost
  | ParseError
  | InvalidHostname
  | TooLargeHeader.
End HttpSniffError.
Abbreviation http_res := (res HttpSniffError.HttpSniffError).

(** * The code *)

Definition find_http_header_end (buf : bytes) : option Z :=
  option_map (fun p => p + 4) (find_sub (crlf ++ crlf) buf).

Definition looks_like_http_1x_request_line (line : bytes) : bool :=
  match split_byte " " line with
  | method :: parts =>
      if negb (bool_decide (method = [])) && forallb is_ascii_uppercase method then
        match parts with
        | target :: parts =>
            if negb (bool_decide (target = [])) then
              match parts with
              | version :: parts =>
                  match parts with
                  | _ :: _ => false
                  | [] => bool_decide (version = bs "HTTP/1.0") || bool_decide (version = bs "HTTP/1.1")
                  end
              | [] => false
              end
            else false
        | [] => false
        end
      else false
  | [] => false
  end.

Definition parse_http_host_header_value (value : bytes) : http_res bytes :=
  let value := trim value in
  if bool_decide (value = []) then Err HttpSniffError.ParseError
  else if starts_with (bs "[") value then Err HttpSniffError.InvalidHostname
  else
    let host :=
      match rsplit_once ":" value with
      | Some (name, port) =>
          if negb (bool_decide (name = [])) && negb (bool_decide (port = []))
             && forallb is_ascii_digit port
          then name else value
      | None => value
      end in
    let host := to_ascii_lowercase (trim host) in
    if negb (is_valid_sni_hostname host) then Err HttpSniffError.InvalidHostname
    else Ok host.

Definition definitely_not_http_1x_prefix (buf : bytes) : http_res bool :=
  match find_sub crlf buf with
  | None => Ok false
  | Some line_end =>
      let? line := or_panic (slice buf 0 line_end) in
      Ok (if negb (utf8_valid line) then true
          else if negb (looks_like_http_1x_request_line line) then true
          else false)
  end.

(** [for line in lines]: up to the first empty line or Host header. *)
Fixpoint host_header_loop (lines : list bytes) : http_res bytes :=
  match lines with
  | [] => Err HttpSniffError.HttpNoHost
  | line :: lines =>
      if bool_decide (line = []) then Err HttpSniffError.HttpNoHost
      else
        let? (name, value) := ok_or HttpSniffError.ParseError (split_once ":" line) in
        if eq_ignore_ascii_case name (bs "host") then parse_http_host_header_value value
        else host_header_loop lines
  end.

Definition sniff_http_host_from_prefix (buf : bytes) (max_header_size : Z) : http_res bytes :=
  if bool_decide (buf = []) then Err HttpSniffError.PeekEmpty
  else
    let? b0 := or_panic (get buf 0) in
    if negb (is_ascii_uppercase b0) then Err HttpSniffError.ProtocolNotMatched
    else
      let? not_http := definitely_not_http_1x_prefix buf in
      if (not_http : bool) then Err HttpSniffError.ProtocolNotMatched
      else
        match find_http_header_end buf with
        | None =>
            if max_header_size <=? zlen buf then Err HttpSniffError.TooLargeHeader
            else Err HttpSniffError.InsufficientPrefix
        | Some header_end =>
            let? header := or_panic (slice buf 0 header_end) in
            ensure utf8_valid header else HttpSniffError.ProtocolNotMatched in
            match split_crlf header with
            | [] => Err HttpSniffError.ParseError
            | request_line :: lines =>
                if negb (looks_like_http_1x_request_line request_line)
                then Err HttpSniffError.ProtocolNotMatched
                else host_header_loop lines
            end
        end.

Definition http_classify (buf : bytes) (max_len : Z) : pure_res SniffAttempt :=
  match sniff_http_host_from_prefix buf max_len with
  | Ok host => Ok (Matched host)
  | Err HttpSniffError.InsufficientPrefix => Ok NeedMore
  | Err HttpSniffError.PeekEmpty => Ok (Abort SniffError.PeekEmpty)
  | Err HttpSniffError.ProtocolNotMatched => Ok (Abort SniffError.ProtocolNotMatched)
  | Err HttpSniffError.HttpNoHost => Ok (Abort SniffError.NoTarget)
  | Err HttpSniffError.ParseError => Ok (Abort SniffError.ParseError)
  | Err HttpSniffError.InvalidHostname => Ok (Abort SniffError.InvalidHostname)
  | Err HttpSniffError.TooLargeHeader => Ok (Abort SniffError.TooLarge)
  | Panic => Panic
  | Diverge => Diverge
  end.

Definition http_map_error_reason (err : SniffError.SniffError) : bytes :=
  match err with
  | SniffError.PeekEmpty => bs "peek_empty"
  | SniffError.ProtocolNotMatched => bs "protocol_not_matched"
  | SniffError.NoTarget => bs "http_no_host"
  | SniffError.ParseError => bs "parse_error"
  | SniffError.InvalidHostname => bs "invalid_hostname"
  | SniffError.TooLarge => bs "header_too_large"
  end.

Definition HttpSniffer (peek_len max_len max_retries wait_more_ms timeout_ms : Z) : Sniffer := {|
  initial_peek_len := peek_len;
  max_peek_len := max_len;
  max_retries := max_retries;
  wait_more_duration := Z.max wait_more_ms 1;
  timeout_duration := Z.max timeout_ms 1;
  classify := http_classify;
  map_error_reason := http_map_error_reason;
|}.

(** * No panic *)

Lemma find_sub_slice p s i : find_sub p s = Some i -> exists l, slice s 0 i = Some l /\ zlen l = i.
Proof.
  intros (l & r & -> & ->)%find_sub_Some. exists l. split; [|done].
  by apply (slice_mid [] l).
Qed.

Lemma parse_http_host_header_value_returns v : returns (parse_http_host_header_value v).
Proof. unfold parse_http_host_header_value. returns_tac. Qed.

Lemma definitely_not_returns buf : returns (definitely_not_http_1x_prefix buf).
Proof.
  unfold definitely_not_http_1x_prefix. destruct (find_sub crlf buf) eqn:E; [|done].
  by apply find_sub_slice in E as (l & -> & _).
Qed.

Lemma host_header_loop_returns lines : returns (host_header_loop lines).
Proof.
  induction lines as [|line lines IH]; cbn [host_header_loop]; returns_tac.
  apply parse_http_host_header_value_returns.
Qed.
#[export] Hint Resolve definitely_not_returns host_header_loop_returns : returns.

Lemma find_http_header_end_spec buf e :
  find_http_header_end buf = Some e <->
  exists i, find_sub (crlf ++ crlf) buf = Some i /\ e = i + 4.
Proof.
  unfold find_http_header_end. destruct (find_sub _ buf) as [i|]; cbn.
  - split; [intros [= <-]; eauto|]. intros (? & [= ->] & ->). done.
  - split; [done|]. by intros (? & ? & _).
Qed.

Lemma find_http_header_end_slice buf e :
  find_http_header_end buf = Some e ->
  exists l r, buf = l ++ (crlf ++ crlf) ++ r /\ slice buf 0 e = Some (l ++ crlf ++ crlf).
Proof.
  intros (i & (l & r & -> & ->)%find_sub_Some & ->)%find_http_header_end_spec.
  exists l, r. split; [done|].
  eapply (slice_at _ [] (l ++ crlf ++ crlf) r); [by rewrite <- !app_assoc|done|].
  zlen_simpl. unfold crlf. zlen_simpl. lia.
Qed.

Lemma sniff_http_returns buf max : returns (sniff_http_host_from_prefix buf max).
Proof.
  unfold sniff_http_host_from_prefix. destruct buf as [|b buf]; [done|].
  rewrite bool_decide_eq_false_2 by done. set (s := b :: buf).
  destruct (get_is_Some s 0) as [b0 ->]; [lia|subst s; zlen_lia|]. cbn [or_panic res_bind].
  destruct (negb _); [done|]. apply returns_bind; [apply definitely_not_returns|].
  intros [] _; [done|]. destruct (find_http_header_end s) eqn:E; [|by destruct (_ <=? _)].
  apply find_http_header_end_slice in E as (l & r & _ & ->). cbn [or_panic res_bind].
  returns_tac. destruct (split_crlf _); returns_tac. apply host_header_loop_returns.
Qed.

(** * Requests as data *)

Record request := {
  rq_method : bytes;
  rq_target : bytes;
  rq_version : bytes;
  rq_headers : list (bytes * bytes);
}.
Definition request_line (rq : request) : bytes :=
  rq_method rq ++ bs " " ++ rq_target rq ++ bs " " ++ rq_version rq.
Definition header_line (h : bytes * bytes) : bytes := fst h ++ bs ":" ++ snd h.
Definition render_lines (ls : list bytes) : bytes := concat (map (fun l => l ++ crlf) ls).
Definition render (rq : request) : bytes :=
  render_lines (request_line rq :: map header_line (rq_headers rq)) ++ crlf.

(** UTF-8 text without line ends. *)
Record text_line (l : bytes) : Prop := {
  tl_utf8 : utf8_valid l = true;
  tl_no_cr : "013"%byte ∉ l;
  tl_no_lf : "010"%byte ∉ l;
}.
Record wf_request (rq : request) : Prop := {
  wf_method : rq_method rq <> [] /\ Forall (fun b => is_ascii_uppercase b = true) (rq_method rq);
  wf_target : rq_target rq <> [] /\ text_line (rq_target rq) /\ " "%byte ∉ rq_target rq;
  wf_rq_version : rq_version rq = bs "HTTP/1.0" \/ rq_version rq = bs "HTTP/1.1";
  wf_headers : Forall (fun h => text_line (fst h) /\ (":"%byte ∉ fst h) /\ text_line (snd h)) (rq_headers rq);
}.

(** The value of the first Host header. *)
Definition host_header (hs : list (bytes * bytes)) : option bytes :=
  option_map snd (List.find (fun h => eq_ignore_ascii_case (fst h) (bs "host")) hs).

Lemma text_line_app l1 l2 : text_line l1 -> text_line l2 -> text_line (l1 ++ l2).
Proof. intros [? ? ?] [? ? ?]. split; [by apply utf8_valid_app|by apply not_elem_of_app..]. Qed.

Lemma text_line_ascii l :
  forallb (fun b => is_ascii b && negb (Byte.eqb b "013") && negb (Byte.eqb b "010")) l = true ->
  text_line l.
Proof.
  intros H. rewrite forallb_forall in H. split.
  - apply utf8_valid_ascii, forallb_forall. intros b Hb. apply H in Hb.
    by apply andb_true_iff in Hb as [[? _]%andb_true_iff _].
  - intros Hb%list_elem_of_In. by apply H in Hb.
  - intros Hb%list_elem_of_In. by apply H in Hb.
Qed.

Lemma wf_request_line rq : wf_request rq -> text_line (request_line rq).
Proof.
  intros [[_ Hm] (_ & Ht & _) Hv _]. unfold request_line. repeat apply text_line_app; try done.
  - apply text_line_ascii, forallb_forall. intros b Hb%list_elem_of_In.
    rewrite Forall_forall in Hm. apply Hm in Hb. revert Hb. by destruct b.
  - by apply text_line_ascii.
  - by apply text_line_ascii.
  - by destruct Hv as [-> | ->]; apply text_line_ascii.
Qed.

Lemma wf_header_lines rq : wf_request rq -> Forall (fun l => text_line l /\ l <> []) (map header_line (rq_headers rq)).
Proof.
  intros [_ _ _ H]. apply Forall_map. eapply Forall_impl; [exact H|].
  intros [n v] (? & _ & ?). split; [|by destruct n]. unfold header_line.
  apply text_line_app; [done|]. apply text_line_app; [by apply text_line_ascii|done].
Qed.

Lemma find_sub_ne a p b s :
  a <> b -> find_sub (a :: p) (b :: s) = option_map (fun i => 1 + i) (find_sub (a :: p) s).
Proof. intros H. cbn [find_sub starts_with]. rewrite eqb_ne by done. by destruct (find_sub _ s). Qed.

Lemma find_sub_not_in a p l s :
  a ∉ l -> find_sub (a :: p) (l ++ s) = option_map (fun i => zlen l + i) (find_sub (a :: p) s).
Proof.
  induction l as [|b l IH]; intros H; cbn [app].
  - by destruct (find_sub _ s).
  - apply not_elem_of_cons in H as [? ?]. rewrite find_sub_ne, IH by done.
    destruct (find_sub _ s); [|done]. cbn [option_map]. f_equal. zlen_lia.
Qed.

(** The blank line of a rendered header block is its first. *)
Lemma find_blank_line l ls rest :
  text_line l -> Forall (fun l => text_line l /\ l <> []) ls ->
  find_sub (crlf ++ crlf) (render_lines (l :: ls) ++ crlf ++ rest) = Some (zlen (render_lines (l :: ls)) - 2).
Proof.
  intros Hl Hls. revert l Hl. induction Hls as [|l' ls [Hl' Hne] _ IH]; intros l [_ Hcr _];
    unfold render_lines in *; cbn [map concat].
  - rewrite app_nil_r, <- app_assoc. change (crlf ++ crlf) with ("013"%byte :: "010"%byte :: crlf).
    rewrite find_sub_not_in by done. cbn. f_equal. unfold crlf. zlen_lia.
  - specialize (IH l' Hl'). cbn [map concat] in IH. rewrite <- !app_assoc in *.
    set (tl := l' ++ _) in *. change (crlf ++ crlf) with ("013"%byte :: "010"%byte :: crlf) in *.
    rewrite find_sub_not_in by done. destruct l' as [|b l']; [done|].
    change (crlf ++ tl) with ("013"%byte :: "010"%byte :: tl).
    cbn [find_sub]. assert (b <> "013"%byte) as Hb by (intros ->; destruct Hl' as [_ Hn _]; apply Hn; by left).
    assert (starts_with ("013"%byte :: "010"%byte :: crlf) ("013"%byte :: "010"%byte :: tl) = false) as ->.
    { subst tl. change (Byte.eqb "013" b && starts_with ["010"%byte] (l' ++ crlf ++ render_lines ls ++ crlf ++ rest) = false).
      by rewrite eqb_ne by congruence. }
    assert (starts_with ("013"%byte :: "010"%byte :: crlf) ("010"%byte :: tl) = false) as -> by done.
    rewrite IH. cbn [option_map]. f_equal. unfold crlf. zlen_lia.
Qed.

Lemma split_crlf_lines ls rest :
  Forall (fun l => "010"%byte ∉ l) ls -> split_crlf (render_lines ls ++ rest) = ls ++ split_crlf rest.
Proof.
  induction 1 as [|l ls Hl _ IH]; [done|]. unfold render_lines in *. cbn [map concat].
  rewrite <- !app_assoc, split_crlf_line by done. cbn. by rewrite IH.
Qed.

Lemma render_lines_utf8 ls : Forall text_line ls -> utf8_valid (render_lines ls) = true.
Proof.
  induction 1 as [|l ls [Hl _ _] _ IH]; [done|]. unfold render_lines in *. cbn [map concat].
  by repeat apply utf8_valid_app.
Qed.

Lemma looks_like_request_line rq :
  wf_request rq -> looks_like_http_1x_request_line (request_line rq) = true.
Proof.
  intros [[Hm Hm'] (Ht & _ & Ht') Hv _]. unfold looks_like_http_1x_request_line, request_line.
  assert (" "%byte ∉ rq_method rq) as Hs.
  { intros Hi. rewrite Forall_forall in Hm'. by apply Hm' in Hi. }
  change (bs " ") with [" "%byte]. cbn [app].
  rewrite !split_byte_app by done.
  rewrite !bool_decide_eq_false_2 by done.
  rewrite (proj2 (forallb_forall _ _)); [|intros b Hb%list_elem_of_In; rewrite Forall_forall in Hm'; auto].
  by destruct Hv as [-> | ->].
Qed.

Lemma host_header_loop_render hs :
  Forall (fun h => text_line (fst h) /\ (":"%byte ∉ fst h) /\ text_line (snd h)) hs ->
  host_header_loop (map header_line hs ++ [[]; []]) =
  match host_header hs with
  | Some value => parse_http_host_header_value value
  | None => Err HttpSniffError.HttpNoHost
  end.
Proof.
  induction 1 as [|[n v] hs (_ & Hn & _) _ IH]; [done|]. cbn [map app host_header_loop].
  unfold host_header in *. cbn [List.find fst].
  rewrite bool_decide_eq_false_2 by (by destruct n).
  unfold header_line. cbn [fst snd] in *. change (bs ":" ++ v) with (":"%byte :: v).
  rewrite split_once_app by done. cbn [ok_or res_bind].
  by destruct (eq_ignore_ascii_case n _).
Qed.

Lemma sniff_http_render rq body max :
  wf_request rq ->
  sniff_http_host_from_prefix (render rq ++ body) max =
  match host_header (rq_headers rq) with
  | Some value => parse_http_host_header_value value
  | None => Err HttpSniffError.HttpNoHost
  end.
Proof.
  intros Hw. pose proof (wf_request_line _ Hw) as Hl. pose proof (wf_header_lines _ Hw) as Hh.
  pose proof (looks_like_request_line _ Hw) as Hlook.
  unfold sniff_http_host_from_prefix. set (buf := render rq ++ body).
  assert (buf = request_line rq ++ crlf ++ render_lines (map header_line (rq_headers rq)) ++ crlf ++ body) as Hb1.
  { subst buf. unfold render, render_lines. cbn [map concat]. by rewrite <- !app_assoc. }
  assert (exists b r, buf = b :: r /\ is_ascii_uppercase b = true) as (b & r & Hbr & Hup).
  { rewrite Hb1. destruct Hw as [[Hm Hm'] _ _ _]. unfold request_line.
    destruct (rq_method rq) as [|b m]; [done|]. apply Forall_cons_1 in Hm' as [? _]. cbn. eauto. }
  rewrite bool_decide_eq_false_2 by (by rewrite Hbr).
  rewrite (get_at buf [] r b) by done. cbn [or_panic res_bind]. rewrite Hup. cbn [negb].
  assert (find_sub crlf buf = Some (zlen (request_line rq))) as Hf.
  { rewrite Hb1. unfold crlf at 1. rewrite find_sub_not_in by (by destruct Hl). cbn. f_equal. lia. }
  unfold definitely_not_http_1x_prefix. rewrite Hf.
  rewrite (slice_at buf [] (request_line rq) _ _ _ Hb1) by done. cbn [or_panic res_bind].
  destruct Hl as [Hu Hncr Hnlf]. rewrite Hu, Hlook. cbn [negb].
  assert (find_sub (crlf ++ crlf) buf = Some (zlen (render rq) - 4)) as Hf4.
  { subst buf. unfold render. rewrite <- app_assoc, find_blank_line by done. f_equal. unfold crlf. zlen_lia. }
  unfold find_http_header_end. rewrite Hf4. cbn [option_map].
  replace (zlen (render rq) - 4 + 4) with (zlen (render rq)) by lia.
  rewrite (slice_at buf [] (render rq) body) by done. cbn [or_panic res_bind].
  assert (Forall text_line (request_line rq :: map header_line (rq_headers rq))) as Hall.
  { constructor; [done|]. eapply Forall_impl; [exact Hh|]. by intros ? []. }
  unfold render. rewrite utf8_valid_app by (done || by apply render_lines_utf8).
  rewrite split_crlf_lines by (eapply Forall_impl; [exact Hall|]; by intros ? []).
  cbn [app]. rewrite Hlook. cbn [negb]. change (split_crlf crlf) with [[] : bytes; []].
  apply host_header_loop_render. by destruct Hw.
Qed.

(** * A decision is not changed by the bytes that follow *)

Lemma find_sub_app_l p q s i : find_sub (p ++ q) s = Some i -> is_Some (find_sub p s).
Proof.
  intros (l & r & -> & _)%find_sub_Some. destruct (find_sub p _) eqn:E; [eauto|].
  exfalso. eapply (find_sub_None _ _ l (q ++ r) E). by rewrite <- app_assoc.
Qed.

Lemma sniff_http_stable buf more max :
  sniff_http_host_from_prefix buf max <> Err HttpSniffError.InsufficientPrefix ->
  sniff_http_host_from_prefix buf max <> Err HttpSniffError.TooLargeHeader ->
  buf <> [] ->
  sniff_http_host_from_prefix (buf ++ more) max = sniff_http_host_from_prefix buf max.
Proof.
  unfold sniff_http_host_from_prefix. intros H1 H2 Hne.
  rewrite !bool_decide_eq_false_2 in * by (done || by intros [? _]%app_nil).
  destruct (get_is_Some buf 0) as [b0 Hb0]; [lia|destruct buf; [done|zlen_lia]|].
  rewrite (get_app_l buf more 0 b0 Hb0). rewrite Hb0 in *. cbn [or_panic res_bind] in *.
  destruct (negb (is_ascii_uppercase b0)); [done|].
  unfold definitely_not_http_1x_prefix in *.
  destruct (find_sub crlf buf) as [i|] eqn:E.
  - rewrite (find_sub_app _ _ more i E).
    destruct (find_sub_slice _ _ _ E) as (line & Hline & _).
    rewrite (slice_app_l buf more 0 i line Hline). rewrite Hline in *. cbn [or_panic res_bind] in *.
    destruct (if negb (utf8_valid line) then _ else _); [done|].
    destruct (find_http_header_end buf) as [e|] eqn:E4; [|by destruct (_ <=? _)].
    destruct (find_http_header_end_slice _ _ E4) as (l & r & _ & Hsl).
    apply find_http_header_end_spec in E4 as (j & E4 & ->).
    unfold find_http_header_end. rewrite (find_sub_app _ _ more j E4). cbn [option_map].
    by rewrite (slice_app_l _ more _ _ _ Hsl), Hsl.
  - cbn [res_bind] in *. exfalso.
    destruct (find_http_header_end buf) as [e|] eqn:E4; [|by destruct (_ <=? _)].
    apply find_http_header_end_spec in E4 as (j & E4 & ->).
    apply find_sub_app_l in E4 as [? ?]. congruence.
Qed.

(** * Host header values *)

Lemma parse_http_host_hostname value host : parse_http_host_header_value value = Ok host -> sni_hostname host.
Proof.
  unfold parse_http_host_header_value. repeat (case_match; try done).
  all: intros [= <-]; apply is_valid_sni_hostname_spec; by apply negb_false_iff.
Qed.

Lemma host_header_loop_hostname lines host : host_header_loop lines = Ok host -> sni_hostname host.
Proof.
  induction lines as [|line lines IH]; cbn [host_header_loop]; [done|].
  destruct (bool_decide _); [done|]. intros H. res_inv. destruct a as [name value].
  destruct (eq_ignore_ascii_case _ _); [by eapply parse_http_host_hostname|auto].
Qed.

Lemma sniff_http_hostname buf max host :
  sniff_http_host_from_prefix buf max = Ok host -> sni_hostname host.
Proof.
  unfold sniff_http_host_from_prefix. intros H.
  repeat (res_inv || (case_match; try done)). by eapply host_header_loop_hostname.
Qed.

(** Optional whitespace of RFC 9110: spaces and tabs. *)
Definition ows (s : bytes) : Prop := Forall (fun b => b = " "%byte \/ b = "009"%byte) s.
(** ASCII letters, digits and punctuation. *)
Definition graphic (b : byte) : bool := in_range 33 126 b.

Lemma lead_len_ows (b : byte) s : b = " "%byte \/ b = "009"%byte ->
  lead_len white_space (b :: s) = 1%nat /\ lead_len white_space_rev (b :: s) = 1%nat.
Proof. by intros [-> | ->]. Qed.

Lemma lead_len_graphic (b : byte) s : graphic b = true ->
  lead_len white_space (b :: s) = O /\ lead_len white_space_rev (b :: s) = O.
Proof. by destruct b. Qed.

Lemma strip_lead_ows ps pre s n :
  (forall b t, b = " "%byte \/ b = "009"%byte -> lead_len ps (b :: t) = 1%nat) ->
  ows pre -> (length pre + length s <= n)%nat -> lead_len ps s = O ->
  strip_lead ps n (pre ++ s) = s.
Proof.
  intros Hp Hpre. revert n. induction Hpre as [|b pre Hb Hpre IH]; intros n Hn Hs; cbn [app].
  - destruct n; cbn [strip_lead]; [done|]. by rewrite Hs.
  - destruct n as [|n]; cbn [length] in Hn; [lia|]. cbn [strip_lead]. rewrite Hp by done.
    cbn [drop]. apply IH; [lia|done].
Qed.

Lemma ows_rev s : ows s -> ows (rev s).
Proof. apply Forall_rev. Qed.

(** Text between optional whitespace, itself starting and ending in graphic
    characters, is what [trim] leaves. *)
Lemma trim_ows pre s post (b c : byte) m m' :
  ows pre -> ows post -> s = b :: m -> s = m' ++ [c] -> graphic b = true -> graphic c = true ->
  trim (pre ++ s ++ post) = s.
Proof.
  intros Hpre Hpost Hb Hc Gb Gc. unfold trim, trim_start.
  rewrite strip_lead_ows; [|intros ? ? Hb'; exact (proj1 (lead_len_ows _ _ Hb'))|done|rewrite !length_app; lia|].
  2: { rewrite Hb. cbn [app]. exact (proj1 (lead_len_graphic _ _ Gb)). }
  unfold trim_end. rewrite rev_app_distr.
  rewrite strip_lead_ows; [by rewrite rev_involutive|intros ? ? Hb'; exact (proj2 (lead_len_ows _ _ Hb'))|by apply ows_rev
    |rewrite !length_rev, length_app; lia|].
  rewrite Hc, rev_app_distr. cbn [rev app]. exact (proj2 (lead_len_graphic _ _ Gc)).
Qed.

(** A domain as it occurs in a Host header, in any case. *)
Definition host_name (h : bytes) : Prop := sni_hostname (to_ascii_lowercase h).

Lemma lower_byte_alnum b : is_ascii_alphanumeric (lower_byte b) = is_ascii_alphanumeric b.
Proof. by destruct b. Qed.

Lemma hostname_chars h : sni_hostname h ->
  Forall (fun c => is_ascii_alphanumeric c = true \/ c = "-"%byte \/ c = "."%byte) h.
Proof.
  intros (ls & _ & -> & _ & Hf & _). induction Hf as [|l ls [_ _ _ _ Hl] _ IH]; [constructor|].
  assert (Forall (fun c => is_ascii_alphanumeric c = true \/ c = "-"%byte \/ c = "."%byte) l) as Hl'.
  { eapply Forall_impl; [exact Hl|]. cbn. tauto. }
  destruct ls as [|l' ls]; [done|]. cbn [join]. apply Forall_app. split; [done|]. constructor; [auto|done].
Qed.

Lemma host_name_chars h : host_name h ->
  Forall (fun c => graphic c = true /\ c <> ":"%byte /\ c <> "["%byte) h.
Proof.
  intros H%hostname_chars. unfold to_ascii_lowercase in H. rewrite Forall_map in H.
  eapply Forall_impl; [exact H|]. cbn. intros c. by destruct c; intros [|[|]].
Qed.

Lemma host_name_ne h : host_name h -> h <> [].
Proof. intros (ls & Hne & E & _ & Hf & _) ->. symmetry in E. by apply join_ldh_nonempty in E. Qed.

Lemma rsplit_once_none c s : c ∉ s -> rsplit_once c s = None.
Proof.
  induction s as [|b s IH]; [done|]. intros [? ?]%not_elem_of_cons. cbn. by rewrite IH, eqb_ne.
Qed.

Lemma rsplit_once_app c l r : c ∉ r -> rsplit_once c (l ++ c :: r) = Some (l, r).
Proof.
  intros Hr. induction l as [|b l IH]; cbn [app rsplit_once]; [|by rewrite IH].
  by rewrite rsplit_once_none, eqb_refl.
Qed.

Lemma graphic_ends s :
  s <> [] -> Forall (fun c => graphic c = true) s ->
  exists b m m' c, s = b :: m /\ s = m' ++ [c] /\ graphic b = true /\ graphic c = true.
Proof.
  intros Hne H. destruct s as [|b m] eqn:E; [done|]. destruct (exists_last Hne) as (m' & c & Hc).
  exists b, m, m', c. rewrite Hc in H. repeat split; try done.
  - rewrite <- Hc in H. by apply Forall_cons_1 in H as [? _].
  - by apply Forall_app in H as [_ [? _]%Forall_cons_1].
Qed.

Lemma trim_ows_all pre s post :
  ows pre -> ows post -> s <> [] -> Forall (fun c => graphic c = true) s -> trim (pre ++ s ++ post) = s.
Proof.
  intros ? ? Hne (b & m & m' & c & ? & ? & ? & ?)%graphic_ends; [|done].
  by eapply trim_ows.
Qed.

Definition host_port (port : option bytes) : bytes :=
  match port with Some p => ":"%byte :: p | None => [] end.

Lemma parse_http_host_value pre h port post :
  ows pre -> ows post -> host_name h ->
  (forall p, port = Some p -> p <> [] /\ Forall (fun c => is_ascii_digit c = true) p) ->
  parse_http_host_header_value (pre ++ (h ++ host_port port) ++ post) = Ok (to_ascii_lowercase h).
Proof.
  intros Hpre Hpost Hh Hport. pose proof (host_name_chars _ Hh) as Hc. pose proof (host_name_ne _ Hh) as Hne.
  assert (Forall (fun c => graphic c = true) h) as Hg by (eapply Forall_impl; [exact Hc|]; by intros ? []).
  assert (":"%byte ∉ h) as Hcol by (intros Hi; rewrite Forall_forall in Hc; by apply Hc in Hi as (_ & ? & _)).
  unfold parse_http_host_header_value.
  rewrite trim_ows_all; [|done|done|by destruct h|].
  2: { apply Forall_app. split; [done|]. destruct port as [p|]; [|constructor]. constructor; [done|].
       destruct (Hport p eq_refl) as [_ Hp]. eapply Forall_impl; [exact Hp|]. intros c. by destruct c. }
  rewrite bool_decide_eq_false_2 by (by destruct h).
  assert (starts_with (bs "[") (h ++ host_port port) = false) as ->.
  { destruct h as [|c h]; [done|]. apply Forall_cons_1 in Hc as [(_ & _ & ?) _].
    change (Byte.eqb "[" c && true = false). by rewrite eqb_ne by congruence. }
  assert (to_ascii_lowercase (trim h) = to_ascii_lowercase h) as Ht.
  { f_equal. rewrite <- (app_nil_r h) at 1. by apply (trim_ows_all [] h []); [constructor|constructor|..]. }
  assert (is_valid_sni_hostname (to_ascii_lowercase h) = true) as Hv by (by apply is_valid_sni_hostname_spec).
  destruct port as [p|]; cbn [host_port].
  - destruct (Hport p eq_refl) as [Hp Hd].
    assert (":"%byte ∉ p) as Hp' by (intros Hi; rewrite Forall_forall in Hd; by apply Hd in Hi).
    rewrite rsplit_once_app by done. rewrite !bool_decide_eq_false_2 by done.
    rewrite (proj2 (forallb_forall _ _)); [|intros c Hc'%list_elem_of_In; rewrite Forall_forall in Hd; auto].
    cbn [negb andb]. by rewrite Ht, Hv.
  - rewrite app_nil_r, rsplit_once_none by done. by rewrite Ht, Hv.
Qed.

(** * The HTTP sniffer keeps the sniffer laws *)

Lemma http_classify_matched buf max host :
  http_classify buf max = Ok (Matched host) -> sniff_http_host_from_prefix buf max = Ok host.
Proof.
  unfold http_classify. destruct (sniff_http_host_from_prefix buf max) as [h|[]| |]; try done.
  by intros [= ->].
Qed.

#[export] Instance HttpSniffer_laws p m r w t : SnifferLaws (HttpSniffer p m r w t).
Proof.
  split; cbn [timeout_duration classify HttpSniffer]; [lia|..].
  - intros buf max. unfold http_classify. pose proof (sniff_http_returns buf max).
    destruct (sniff_http_host_from_prefix buf max) as [h|[]| |]; done.
  - by intros buf max host H%http_classify_matched%sniff_http_hostname.
  - intros buf more max host H%http_classify_matched. unfold http_classify.
    rewrite sniff_http_stable; [by rewrite H|by rewrite H|by rewrite H|]. by intros ->.
Qed.

(** * Properties *)

(** C31: A complete HTTP/1.x request, whatever body follows, is answered by its
    first Host header, and by [HttpNoHost] when it has none. *)
Theorem http_request_answer (rq : request) (body : bytes) (max : Z) :
  wf_request rq ->
  sniff_http_host_from_prefix (render rq ++ body) max =
  match host_header (rq_headers rq) with
  | Some value => parse_http_host_header_value value
  | None => Err HttpSniffError.HttpNoHost
  end.
Proof. apply sniff_http_render. Qed.

Definition example_request : request := {|
  rq_method := bs "GET";
  rq_target := bs "/index.html";
  rq_version := bs "HTTP/1.1";
  rq_headers := [(bs "Accept", bs " */*"); (bs "HOST", bs " Example.com:8080 ")];
|}.

Lemma example_request_wf : wf_request example_request.
Proof.
  assert (forall (c : byte) (l : bytes), bool_decide (c ∈ l) = false -> c ∉ l) as Hd by (intros c l; apply bool_decide_eq_false).
  split.
  - split; [done|]. repeat constructor.
  - split; [done|]. split; [by apply text_line_ascii|by apply Hd; vm_compute].
  - by right.
  - repeat constructor; cbn [fst snd]; try (by apply Hd; vm_compute); by vm_compute.
Qed.

Lemma http_request_answer_witness :
  sniff_http_host_from_prefix (render example_request ++ bs "body") 4096 = Ok (bs "example.com").
Proof. rewrite (http_request_answer example_request (bs "body") 4096 example_request_wf). vm_compute. reflexivity. Defined.

(** A Host header value is a host name in any case, an optional port, and
    optional whitespace around them; its sniffed host is the lower-cased name. *)
Theorem http_host_value (pre h post : bytes) (port : option bytes) :
  ows pre -> ows post -> host_name h ->
  (forall p, port = Some p -> p <> [] /\ Forall (fun c => is_ascii_digit c = true) p) ->
  parse_http_host_header_value (pre ++ (h ++ host_port port) ++ post) = Ok (to_ascii_lowercase h).
Proof. apply parse_http_host_value. Qed.

Lemma http_host_value_witness :
  parse_http_host_header_value (bs " " ++ (bs "A.example.COM" ++ host_port (Some (bs "443"))) ++ bs " ")
  = Ok (bs "a.example.com").
Proof.
  rewrite (http_host_value (bs " ") (bs "A.example.COM") (bs " ") (Some (bs "443"))).
  - vm_compute. reflexivity.
  - constructor; [by left|constructor].
  - constructor; [by left|constructor].
  - unfold host_name. apply is_valid_sni_hostname_spec. vm_compute. reflexivity.
  - intros p [= <-]. split; [done|]. repeat constructor.
Defined.
