(* ===== verification/Quic.v ===== *)
(** QUIC SNI sniffing: [src/src/sniff/quic.rs] with the types of
    [src/src/sniff/udp.rs]. This file holds the code: variable-length integers,
    the CRYPTO reassembly buffer, header protection and decryption over abstract
    cryptographic primitives, the frame and packet parsers, and the session.
    [QuicReassembly] and [QuicPackets] hold what it does. *)

From Stdlib Require Import Strings.Byte Strings.String.
From S2P Require Import Prelude Bytes Hostname Sniff Tls.

Module UdpSniffError.
Inductive UdpSniffError :=
  | ProtocolNotMatched
  | InsufficientPrefix
  | NoTarget
  | ParseError
  | InvalidHostname
  | TooLarge.
End UdpSniffError.
#[global] Instance udp_sniff_error_eq_decision : EqDecision UdpSniffError.UdpSniffError.
Proof. solve_decision. Defined.
Abbreviation udp_res := (res UdpSniffError.UdpSniffError).

Inductive UdpSniffProtocol := QuicSni.
Module UdpSniffOutcome.
Inductive UdpSniffOutcome :=
  | Matched (protocol : UdpSniffProtocol) (host : bytes)
  | NotMatched
  | NeedMore (protocol : UdpSniffProtocol)
  | Failed (protocol : UdpSniffProtocol) (error : UdpSniffError.UdpSniffError).
End UdpSniffOutcome.

Definition udp_sniff_protocol_name (protocol : UdpSniffProtocol) : bytes :=
  match protocol with QuicSni => bs "quic_sni" end.

Definition udp_sniff_error_reason (error : UdpSniffError.UdpSniffError) : bytes :=
  match error with
  | UdpSniffError.ProtocolNotMatched => bs "protocol_not_matched"
  | UdpSniffError.InsufficientPrefix => bs "insufficient_prefix"
  | UdpSniffError.NoTarget => bs "no_target"
  | UdpSniffError.ParseError => bs "parse_error"
  | UdpSniffError.InvalidHostname => bs "invalid_hostname"
  | UdpSniffError.TooLarge => bs "too_large"
  end.

(** [impl From<TlsSniffError> for UdpSniffError] *)
Definition from_tls_error (err : TlsSniffError.TlsSniffError) : UdpSniffError.UdpSniffError :=
  match err with
  | TlsSniffError.PeekEmpty => UdpSniffError.InsufficientPrefix
  | TlsSniffError.InsufficientPrefix => UdpSniffError.InsufficientPrefix
  | TlsSniffError.ProtocolNotMatched => UdpSniffError.ProtocolNotMatched
  | TlsSniffError.TlsNoSni => UdpSniffError.NoTarget
  | TlsSniffError.ParseError => UdpSniffError.ParseError
  | TlsSniffError.InvalidHostname => UdpSniffError.InvalidHostname
  | TlsSniffError.TooLargeClientHello => UdpSniffError.TooLarge
  end.

Definition QUIC_SNI_INPUT_CAP : Z := 16 * 1024.
Definition QUIC_CRYPTO_REASSEMBLY_CAP : Z := 32 * 1024.

Definition QUIC_VERSION_V1 : Z := 0x00000001.
Definition QUIC_VERSION_V2 : Z := 0x6b3343cf.
Definition QUIC_VERSION_DRAFT29 : Z := 0xff00001d.

Definition QUIC_V1_INITIAL_SALT : bytes := map byte_of_Z
  [0x38; 0x76; 0x2c; 0xf7; 0xf5; 0x59; 0x34; 0xb3; 0x4d; 0x17; 0x9a; 0xe6; 0xa4; 0xc8; 0x0c; 0xad;
   0xcc; 0xbb; 0x7f; 0x0a].
Definition QUIC_V2_INITIAL_SALT : bytes := map byte_of_Z
  [0x0d; 0xed; 0xe3; 0xde; 0xf7; 0x00; 0xa6; 0xdb; 0x81; 0x93; 0x81; 0xbe; 0x6e; 0x26; 0x9d; 0xcb;
   0xf9; 0xbd; 0x2e; 0xd9].
Definition QUIC_DRAFT29_INITIAL_SALT : bytes := map byte_of_Z
  [0xaf; 0xbf; 0xec; 0x28; 0x99; 0x93; 0xd2; 0x4c; 0x9e; 0x97; 0x86; 0xf1; 0x9c; 0x61; 0x11; 0xe0;
   0x43; 0x90; 0xa8; 0x99].

Definition quic_initial_salt (version : Z) : option bytes :=
  if version =? QUIC_VERSION_V1 then Some QUIC_V1_INITIAL_SALT
  else if version =? QUIC_VERSION_V2 then Some QUIC_V2_INITIAL_SALT
  else if version =? QUIC_VERSION_DRAFT29 then Some QUIC_DRAFT29_INITIAL_SALT
  else None.

(** * Integers *)

Definition quic_read_u32 (buf : bytes) (off : Z) : udp_res Z :=
  ensure negb (zlen buf <? off + 4) else UdpSniffError.InsufficientPrefix in
  let? b0 := or_panic (get buf off) in
  let? b1 := or_panic (get buf (off + 1)) in
  let? b2 := or_panic (get buf (off + 2)) in
  let? b3 := or_panic (get buf (off + 3)) in
  Ok (u32_from_be b0 b1 b2 b3).

Definition quic_varint_len (first : byte) : Z :=
  match Z.shiftr (u8 first) 6 with 0 => 1 | 1 => 2 | 2 => 4 | _ => 8 end.

(** [value = (value << 8) | b] on [u64] *)
Definition varint_push (value : Z) (b : byte) : Z :=
  Z.lor (Z.shiftl value 8 mod 2 ^ 64) (u8 b).

(** The value and the new offset. *)
Definition quic_read_varint (buf : bytes) (off : Z) : udp_res (Z * Z) :=
  let? first := ok_or UdpSniffError.InsufficientPrefix (get buf off) in
  let len := quic_varint_len first in
  ensure negb (zlen buf <? off + len) else UdpSniffError.InsufficientPrefix in
  let? rest := or_panic (slice buf (off + 1) (off + len)) in
  Ok (fold_left varint_push rest (Z.land (u8 first) 0x3f), off + len).

(** [usize::try_from(v)] and [v as usize] for a [u64]. *)
Definition usize_try_from (v : Z) : option Z := if v <=? USIZE_MAX then Some v else None.
Definition as_usize (v : Z) : Z := v mod (USIZE_MAX + 1).

(** [off.checked_add(n).ok_or(TooLarge)?] *)
Definition checked_end (off n : Z) : udp_res Z :=
  ok_or UdpSniffError.TooLarge (usize_checked_add off n).

(** * CRYPTO reassembly *)

Record QuicCryptoReassembly := {
  buf : bytes;
  present : list bool;
  contiguous_len : Z;
  last_dcid : option bytes;
}.

Definition reassembly_new : QuicCryptoReassembly :=
  {| buf := []; present := []; contiguous_len := 0; last_dcid := None |}.

(** [l[i..i + data.len()].copy_from_slice(data)] *)
Definition overwrite {A} (l : list A) (i : Z) (data : list A) : option (list A) :=
  if (0 <=? i) && (i + zlen data <=? zlen l)
  then Some (take (Z.to_nat i) l ++ data ++ drop (Z.to_nat (i + zlen data)) l) else None.

(** [l.resize(n, x)] when [l] is shorter. *)
Definition grow {A} (l : list A) (n : Z) (x : A) : list A :=
  l ++ replicate (Z.to_nat n - length l) x.

(** [while contiguous_len < present.len() && present[contiguous_len]] *)
Fixpoint advance_contiguous (fuel : nat) (present : list bool) (n : Z) : udp_res Z :=
  if n <? zlen present then
    match fuel with
    | O => Diverge
    | S fuel =>
        let? p := or_panic (get present n) in
        if (p : bool) then advance_contiguous fuel present (n + 1) else Ok n
    end
  else Ok n.

(** An error leaves the buffer as it was. *)
Definition reassembly_write (st : QuicCryptoReassembly) (offset : Z) (data : bytes)
    : udp_res QuicCryptoReassembly :=
  let? end_ := checked_end offset (zlen data) in
  ensure negb (QUIC_CRYPTO_REASSEMBLY_CAP <? end_) else UdpSniffError.TooLarge in
  let '(buf1, present1) :=
    if zlen (buf st) <? end_ then (grow (buf st) end_ x00, grow (present st) end_ false)
    else (buf st, present st) in
  let? buf2 := or_panic (overwrite buf1 offset data) in
  let? present2 := or_panic (overwrite present1 offset (replicate (length data) true)) in
  let? n := advance_contiguous (S (length present2)) present2 (contiguous_len st) in
  Ok {| buf := buf2; present := present2; contiguous_len := n; last_dcid := last_dcid st |}.

Definition reassembly_reset (st : QuicCryptoReassembly) : QuicCryptoReassembly :=
  {| buf := []; present := []; contiguous_len := 0; last_dcid := None |}.

Definition set_last_dcid (st : QuicCryptoReassembly) (dcid : bytes) : QuicCryptoReassembly :=
  {| buf := buf st; present := present st; contiguous_len := contiguous_len st;
     last_dcid := Some dcid |}.

Definition contiguous (st : QuicCryptoReassembly) : udp_res bytes :=
  or_panic (slice (buf st) 0 (contiguous_len st)).

Definition quic_parse_tls_client_hello_from_crypto (crypto : bytes) : udp_res bytes :=
  ensure negb (zlen crypto <? 4) else UdpSniffError.InsufficientPrefix in
  let? b0 := or_panic (get crypto 0) in
  ensure u8 b0 =? 0x01 else UdpSniffError.ProtocolNotMatched in
  let? len_bytes := or_panic (slice crypto 1 4) in
  let? hs_len := res_map_err (fun _ => UdpSniffError.ParseError) (be_u24 len_bytes) in
  let? total := checked_end 4 hs_len in
  ensure negb (QUIC_CRYPTO_REASSEMBLY_CAP <? total) else UdpSniffError.TooLarge in
  ensure negb (zlen crypto <? total) else UdpSniffError.InsufficientPrefix in
  let? body := or_panic (slice crypto 4 total) in
  res_map_err from_tls_error (parse_sni_from_client_hello_body body).

(** * Frames *)

(** Computations that mutate the reassembly buffer keep what they did to it
    when they fail. *)
Definition stateful (A : Type) : Type := udp_res A * QuicCryptoReassembly.
Definition lift_st {A B} (r : udp_res A) (st : QuicCryptoReassembly) (f : A -> stateful B)
    : stateful B :=
  match r with
  | Ok a => f a
  | Err e => (Err e, st)
  | Panic => (Panic, st)
  | Diverge => (Diverge, st)
  end.

(** [for _ in 0..n] over one ACK range: gap and length. *)
Fixpoint skip_ack_ranges (fuel : nat) (n : Z) (frames : bytes) (off : Z) : udp_res Z :=
  if n <=? 0 then Ok off
  else match fuel with
  | O => Diverge
  | S fuel =>
      let? (_, off) := quic_read_varint frames off in
      let? (_, off) := quic_read_varint frames off in
      skip_ack_ranges fuel (n - 1) frames off
  end.

Definition quic_skip_ack_frame (frame_type : Z) (frames : bytes) (off : Z) : udp_res Z :=
  let? (_, off) := quic_read_varint frames off in
  let? (_, off) := quic_read_varint frames off in
  let? (ack_range_count, off) := quic_read_varint frames off in
  let? (_, off) := quic_read_varint frames off in
  let? off := skip_ack_ranges (S (length frames)) ack_range_count frames off in
  if frame_type =? 0x03 then
    let? (_, off) := quic_read_varint frames off in
    let? (_, off) := quic_read_varint frames off in
    let? (_, off) := quic_read_varint frames off in
    Ok off
  else Ok off.

Definition quic_skip_connection_close_frame (frames : bytes) (off : Z) : udp_res Z :=
  let? (_, off) := quic_read_varint frames off in
  let? (_, off) := quic_read_varint frames off in
  let? (reason, off) := quic_read_varint frames off in
  let? reason_len := ok_or UdpSniffError.TooLarge (usize_try_from reason) in
  let? end_ := checked_end off reason_len in
  ensure negb (zlen frames <? end_) else UdpSniffError.InsufficientPrefix in
  Ok end_.

(** The [0x06] arm, up to the data to write. *)
Definition quic_crypto_frame (frames : bytes) (off : Z) : udp_res (Z * bytes * Z) :=
  let? (o, off) := quic_read_varint frames off in
  let? crypto_offset := ok_or UdpSniffError.TooLarge (usize_try_from o) in
  let? (l, off) := quic_read_varint frames off in
  let? crypto_len := ok_or UdpSniffError.TooLarge (usize_try_from l) in
  let? crypto_end := checked_end off crypto_len in
  ensure negb (zlen frames <? crypto_end) else UdpSniffError.InsufficientPrefix in
  let? data := or_panic (slice frames off crypto_end) in
  Ok (crypto_offset, data, crypto_end).

Fixpoint initial_frames_loop (fuel : nat) (frames : bytes) (off : Z)
    (crypto : QuicCryptoReassembly) : stateful unit :=
  if off <? zlen frames then
    match fuel with
    | O => (Diverge, crypto)
    | S fuel =>
        lift_st (quic_read_varint frames off) crypto (fun '(frame_type, off) =>
        if frame_type =? 0x00 then initial_frames_loop fuel frames off crypto
        else if frame_type =? 0x01 then initial_frames_loop fuel frames off crypto
        else if (frame_type =? 0x02) || (frame_type =? 0x03) then
          lift_st (quic_skip_ack_frame frame_type frames off) crypto (fun off =>
          initial_frames_loop fuel frames off crypto)
        else if frame_type =? 0x06 then
          lift_st (quic_crypto_frame frames off) crypto (fun '(crypto_offset, data, crypto_end) =>
          lift_st (reassembly_write crypto crypto_offset data) crypto (fun crypto =>
          initial_frames_loop fuel frames crypto_end crypto))
        else if frame_type =? 0x1c then
          lift_st (quic_skip_connection_close_frame frames off) crypto (fun off =>
          initial_frames_loop fuel frames off crypto)
        else (Err UdpSniffError.ProtocolNotMatched, crypto))
    end
  else (Ok tt, crypto).

Definition quic_parse_initial_frames (frames : bytes) (crypto : QuicCryptoReassembly)
    : stateful unit :=
  initial_frames_loop (length frames) frames 0 crypto.

(** * Keys and packet protection *)

(** The operations of the hkdf, sha2, aes and aes-gcm crates the code calls.
    [hkdf_expand hk info n] fills a buffer of [n] bytes. *)
Record QuicCrypto := {
  hkdf : Type;
  hkdf_extract : bytes -> bytes -> hkdf;
  hkdf_from_prk : bytes -> option hkdf;
  hkdf_expand : hkdf -> bytes -> Z -> option bytes;
  aes128 : Type;
  aes128_new : bytes -> option aes128;
  aes128_encrypt_block : aes128 -> bytes -> bytes;
  aes128gcm : Type;
  aes128gcm_new : bytes -> option aes128gcm;
  aes128gcm_decrypt : aes128gcm -> bytes -> bytes -> bytes -> option bytes;
}.

Record QuicInitialKeys := { hp_key : bytes; key : bytes; iv : bytes }.

Definition xor_byte (a b : byte) : byte := byte_of_Z (Z.lxor (u8 a) (u8 b)).
(** Byte-wise [^] over the common length. *)
Definition xor_bytes (a b : bytes) : bytes := zip_with xor_byte a b.

Definition quic_build_nonce (iv : bytes) (packet_number : Z) : bytes :=
  take 4 iv ++ xor_bytes (drop 4 iv) (to_be_bytes 8 packet_number).

Section Packets.
Context (C : QuicCrypto).

Definition hkdf_expand_label_from_hkdf (hk : hkdf C) (label context : bytes) (out_len : Z)
    : udp_res bytes :=
  let full_label := bs "tls13 " ++ label in
  ensure negb ((U8_MAX <? zlen full_label) || (U8_MAX <? zlen context))
    else UdpSniffError.ParseError in
  let info := to_be_bytes 2 (out_len mod 65536) ++ [byte_of_Z (zlen full_label)] ++ full_label
              ++ [byte_of_Z (zlen context)] ++ context in
  ok_or UdpSniffError.ParseError (hkdf_expand C hk info out_len).

Definition hkdf_expand_label (secret label context : bytes) (out_len : Z) : udp_res bytes :=
  let? hk := ok_or UdpSniffError.ParseError (hkdf_from_prk C secret) in
  hkdf_expand_label_from_hkdf hk label context out_len.

Definition derive_quic_initial_keys (version : Z) (dcid : bytes) : udp_res QuicInitialKeys :=
  let? salt := ok_or UdpSniffError.ProtocolNotMatched (quic_initial_salt version) in
  let initial_hk := hkdf_extract C salt dcid in
  let? initial_secret := hkdf_expand_label_from_hkdf initial_hk (bs "client in") [] 32 in
  let? hp_key := hkdf_expand_label initial_secret (bs "quic hp") [] 16 in
  let? key := hkdf_expand_label initial_secret (bs "quic key") [] 16 in
  let? iv := hkdf_expand_label initial_secret (bs "quic iv") [] 12 in
  Ok {| hp_key := hp_key; key := key; iv := iv |}.

Definition quic_remove_header_protection_and_decrypt (packet : bytes)
    (packet_start pn_offset packet_end : Z) (keys : QuicInitialKeys) : udp_res bytes :=
  ensure negb ((zlen packet <? packet_end) || (packet_end <=? pn_offset))
    else UdpSniffError.InsufficientPrefix in
  let? sample_end := let? v := checked_end pn_offset 4 in checked_end v 16 in
  ensure negb (packet_end <? sample_end) else UdpSniffError.InsufficientPrefix in
  let? sample := or_panic (slice packet (pn_offset + 4) (pn_offset + 4 + 16)) in
  let? hp_cipher := ok_or UdpSniffError.ParseError (aes128_new C (hp_key keys)) in
  let mask := aes128_encrypt_block C hp_cipher sample in
  let? start_byte := or_panic (get packet packet_start) in
  let? mask0 := or_panic (get mask 0) in
  let first_unprotected := byte_of_Z (Z.lxor (u8 start_byte) (Z.land (u8 mask0) 0x0f)) in
  let pn_len := Z.land (u8 first_unprotected) 0x03 + 1 in
  ensure negb ((pn_len =? 0) || (4 <? pn_len)) else UdpSniffError.ProtocolNotMatched in
  ensure negb (packet_end <? pn_offset + pn_len) else UdpSniffError.InsufficientPrefix in
  let? protected_pn := or_panic (slice packet pn_offset (pn_offset + pn_len)) in
  let? pn_mask := or_panic (slice mask 1 (1 + pn_len)) in
  let pn := xor_bytes protected_pn pn_mask in
  let packet_number := fold_left (fun v b => 256 * v + u8 b) pn 0 in
  let? start_to_pn := or_panic (slice packet packet_start pn_offset) in
  let? header := or_panic (overwrite start_to_pn 0 [first_unprotected]) in
  let header := header ++ pn in
  let? ciphertext := or_panic (slice packet (pn_offset + pn_len) packet_end) in
  ensure negb (zlen ciphertext <? 16) else UdpSniffError.InsufficientPrefix in
  let nonce_bytes := quic_build_nonce (iv keys) packet_number in
  let? aead := ok_or UdpSniffError.ParseError (aes128gcm_new C (key keys)) in
  ensure zlen nonce_bytes =? 12 else UdpSniffError.ParseError in
  ok_or UdpSniffError.ProtocolNotMatched (aes128gcm_decrypt C aead nonce_bytes ciphertext header).

(** The long header up to the destination connection id: version, id, and
    the offset after it. *)
Definition quic_packet_head (datagram : bytes) (packet_start : Z) : udp_res (Z * bytes * Z) :=
  ensure negb (zlen datagram <=? packet_start) else UdpSniffError.InsufficientPrefix in
  let? first := or_panic (get datagram packet_start) in
  ensure negb ((Z.land (u8 first) 0x80 =? 0) || (Z.land (u8 first) 0x40 =? 0))
    else UdpSniffError.ProtocolNotMatched in
  let off := packet_start + 1 in
  let? version := quic_read_u32 datagram off in
  let off := off + 4 in
  ensure bool_decide (is_Some (quic_initial_salt version)) else UdpSniffError.ProtocolNotMatched in
  let packet_type := Z.shiftr (Z.land (u8 first) 0x30) 4 in
  let is_initial :=
    if (version =? QUIC_VERSION_V1) || (version =? QUIC_VERSION_DRAFT29) then packet_type =? 0
    else if version =? QUIC_VERSION_V2 then packet_type =? 1
    else false in
  ensure is_initial else UdpSniffError.ProtocolNotMatched in
  let? dcid_byte := ok_or UdpSniffError.InsufficientPrefix (get datagram off) in
  let dcid_len := u8 dcid_byte in
  let off := off + 1 in
  ensure negb (20 <? dcid_len) else UdpSniffError.ProtocolNotMatched in
  ensure negb (zlen datagram <? off + dcid_len) else UdpSniffError.InsufficientPrefix in
  let? dcid := or_panic (slice datagram off (off + dcid_len)) in
  Ok (version, dcid, off + dcid_len).

(** The rest of the packet: decrypted payload and the offset of its end. *)
Definition quic_packet_payload (datagram : bytes) (packet_start version : Z) (dcid : bytes) (off : Z)
    : udp_res (bytes * Z) :=
  let? scid_byte := ok_or UdpSniffError.InsufficientPrefix (get datagram off) in
  let scid_len := u8 scid_byte in
  let off := off + 1 in
  ensure negb (20 <? scid_len) else UdpSniffError.ProtocolNotMatched in
  ensure negb (zlen datagram <? off + scid_len) else UdpSniffError.InsufficientPrefix in
  let off := off + scid_len in
  let? (t, off) := quic_read_varint datagram off in
  let? token_len := ok_or UdpSniffError.TooLarge (usize_try_from t) in
  let? token_end := checked_end off token_len in
  ensure negb (zlen datagram <? token_end) else UdpSniffError.InsufficientPrefix in
  let off := token_end in
  let? (l, off) := quic_read_varint datagram off in
  let protected_len := as_usize l in
  ensure negb (protected_len =? 0) else UdpSniffError.ProtocolNotMatched in
  let pn_offset := off in
  let? packet_end := checked_end pn_offset protected_len in
  ensure negb (zlen datagram <? packet_end) else UdpSniffError.InsufficientPrefix in
  let? keys := derive_quic_initial_keys version dcid in
  let? plaintext :=
    quic_remove_header_protection_and_decrypt datagram packet_start pn_offset packet_end keys in
  Ok (plaintext, packet_end).

(** A new destination connection id empties the buffer. *)
Definition note_dcid (crypto : QuicCryptoReassembly) (dcid : bytes) : QuicCryptoReassembly :=
  let crypto :=
    match last_dcid crypto with
    | Some last => if negb (bool_decide (last = dcid)) then reassembly_reset crypto else crypto
    | None => crypto
    end in
  set_last_dcid crypto dcid.

Definition quic_parse_one_initial_packet (datagram : bytes) (packet_start : Z)
    (crypto : QuicCryptoReassembly) : stateful Z :=
  lift_st (quic_packet_head datagram packet_start) crypto (fun '(version, dcid, off) =>
  let crypto := note_dcid crypto dcid in
  lift_st (quic_packet_payload datagram packet_start version dcid off) crypto
    (fun '(plaintext, packet_end) =>
  let '(r, crypto) := quic_parse_initial_frames plaintext crypto in
  lift_st r crypto (fun _ => (Ok packet_end, crypto)))).

(** [while off < datagram.len()] over the coalesced packets. *)
Fixpoint datagram_loop (fuel : nat) (datagram : bytes) (off : Z) (saw_initial : bool)
    (crypto : QuicCryptoReassembly) : stateful bytes :=
  let not_found :=
    if (saw_initial : bool) then Err UdpSniffError.InsufficientPrefix
    else Err UdpSniffError.ProtocolNotMatched in
  if off <? zlen datagram then
    match fuel with
    | O => (Diverge, crypto)
    | S fuel =>
        match quic_parse_one_initial_packet datagram off crypto with
        | (Ok next_off, crypto) =>
            match (let? c := contiguous crypto in quic_parse_tls_client_hello_from_crypto c) with
            | Ok host => (Ok host, crypto)
            | Err UdpSniffError.InsufficientPrefix => datagram_loop fuel datagram next_off true crypto
            | Err e => (Err e, crypto)
            | Panic => (Panic, crypto)
            | Diverge => (Diverge, crypto)
            end
        | (Err e, crypto) =>
            if bool_decide (e = UdpSniffError.ProtocolNotMatched) && saw_initial
            then (not_found, crypto) else (Err e, crypto)
        | (Panic, crypto) => (Panic, crypto)
        | (Diverge, crypto) => (Diverge, crypto)
        end
    end
  else (not_found, crypto).

Definition sniff_quic_sni_from_datagram_with_reassembly (datagram : bytes)
    (crypto : QuicCryptoReassembly) : stateful bytes :=
  if bool_decide (datagram = []) then (Err UdpSniffError.InsufficientPrefix, crypto)
  else
    lift_st (or_panic (slice datagram 0 (Z.min (zlen datagram) QUIC_SNI_INPUT_CAP))) crypto
      (fun datagram =>
    lift_st (or_panic (get datagram 0)) crypto (fun first =>
    if (Z.land (u8 first) 0x80 =? 0) || (Z.land (u8 first) 0x40 =? 0)
    then (Err UdpSniffError.ProtocolNotMatched, crypto)
    else datagram_loop (length datagram) datagram 0 false crypto)).

(** [QuicSniUdpSnifferSession::feed]: the outcome and the new session. *)
Definition quic_feed (quic_crypto : QuicCryptoReassembly) (payload : bytes)
    : pure_res (UdpSniffOutcome.UdpSniffOutcome) * QuicCryptoReassembly :=
  match sniff_quic_sni_from_datagram_with_reassembly payload quic_crypto with
  | (Ok host, st) => (Ok (UdpSniffOutcome.Matched QuicSni host), st)
  | (Err UdpSniffError.ProtocolNotMatched, st) => (Ok UdpSniffOutcome.NotMatched, st)
  | (Err UdpSniffError.InsufficientPrefix, st) => (Ok (UdpSniffOutcome.NeedMore QuicSni), st)
  | (Err error, st) => (Ok (UdpSniffOutcome.Failed QuicSni error), st)
  | (Panic, st) => (Panic, st)
  | (Diverge, st) => (Diverge, st)
  end.
End Packets.
