(* ===== verification/QuicReassembly.v ===== *)
(** The CRYPTO reassembly buffer of the QUIC sniffer as a partial map from
    offsets to bytes: what [reassembly_write] does to it, the invariant it
    keeps, and that fragments of one message may arrive in any order,
    overlapping or repeated. *)

From Stdlib Require Import Strings.Byte Strings.String.
From S2P Require Import Prelude Bytes Hostname Sniff Tls Quic.

(** * Reading modified lists *)

Lemma overwrite_Some {A} (l data : list A) i :
  0 <= i -> i + zlen data <= zlen l ->
  exists l', overwrite l i data = Some l' /\ zlen l' = zlen l /\
    forall k, get l' k = if (i <=? k) && (k <? i + zlen data) then get data (k - i) else get l k.
Proof.
  intros Hi Hl. unfold overwrite. rewrite !(proj2 (Z.leb_le _ _)) by lia. cbn [andb].
  eexists; split; [done|]. pose proof (zlen_nonneg data).
  assert (zlen (take (Z.to_nat i) l) = i) as Ht by (apply zlen_take; lia).
  assert (zlen (drop (Z.to_nat (i + zlen data)) l) = zlen l - (i + zlen data)) as Hd
    by (unfold zlen in *; rewrite length_drop; lia).
  split; [zlen_simpl; lia|]. intros k. rewrite !get_app, Ht.
  destruct (Z.leb_spec i k), (Z.ltb_spec k i); try lia; cbn [andb].
  - destruct (Z.ltb_spec (k - i) (zlen data)), (Z.ltb_spec k (i + zlen data)); try lia; [done|].
    unfold get. rewrite !(proj2 (Z.leb_le _ _)) by lia. rewrite lookup_drop. f_equal. unfold zlen in *. lia.
  - unfold get. destruct (Z.leb_spec 0 k); [|done]. apply lookup_take_lt. lia.
Qed.

Lemma grow_spec {A} (l : list A) n x :
  zlen l <= n -> zlen (grow l n x) = n /\
  forall k, get (grow l n x) k = if (zlen l <=? k) && (k <? n) then Some x else get l k.
Proof.
  intros Hn. unfold grow. split; [zlen_simpl; unfold zlen in *; lia|].
  intros k. rewrite get_app, get_replicate.
  destruct (Z.leb_spec (zlen l) k), (Z.ltb_spec k (zlen l)); try lia; [|done]. cbn [andb].
  rewrite (proj2 (Z.leb_le _ _)) by lia. cbn [andb].
  destruct (Z.ltb_spec k n), (Z.ltb_spec (k - zlen l) (Z.of_nat (Z.to_nat n - length l)));
    unfold zlen in *; try lia; [done|].
  symmetry. apply get_None. unfold zlen. lia.
Qed.

(** * The partial map and the invariant *)

Definition covered (st : QuicCryptoReassembly) (i : Z) : Prop := get (present st) i = Some true.
(** The byte received for an offset. *)
Definition cell (st : QuicCryptoReassembly) (i : Z) : option byte :=
  match get (present st) i with Some true => get (buf st) i | _ => None end.

Record wf_reassembly (st : QuicCryptoReassembly) : Prop := {
  wf_same_len : zlen (present st) = zlen (buf st);
  wf_cap : zlen (buf st) <= QUIC_CRYPTO_REASSEMBLY_CAP;
  wf_contig_range : 0 <= contiguous_len st <= zlen (present st);
  wf_contig_covered : forall i, 0 <= i < contiguous_len st -> covered st i;
  wf_contig_gap : ~ covered st (contiguous_len st);
}.

Lemma wf_new : wf_reassembly reassembly_new.
Proof. split; unfold covered, QUIC_CRYPTO_REASSEMBLY_CAP; cbn; [done|zlen_lia|zlen_lia|lia|done]. Qed.

Lemma cell_Some st i : wf_reassembly st -> is_Some (cell st i) <-> covered st i.
Proof.
  intros [Hl _ _ _ _]. unfold cell, covered. destruct (get (present st) i) as [[]|] eqn:E.
  - split; [done|]. intros _. apply get_lt. rewrite <- Hl. by eapply get_nonneg.
  - by split; [intros []|].
  - by split; [intros []|].
Qed.

Lemma advance_contiguous_spec fuel present n :
  0 <= n <= zlen present -> zlen present - n < Z.of_nat fuel ->
  exists m, advance_contiguous fuel present n = Ok m /\ n <= m <= zlen present /\
    (forall i, n <= i < m -> get present i = Some true) /\ get present m <> Some true.
Proof.
  revert n; induction fuel as [|fuel IH]; intros n Hn Hf; cbn [advance_contiguous]; [lia|].
  destruct (Z.ltb_spec n (zlen present)).
  - destruct (get_is_Some present n) as [p Hp]; [lia|lia|]. rewrite Hp. cbn [or_panic res_bind].
    destruct p.
    + destruct (IH (n + 1)) as (m & -> & ? & Hm & ?); [lia|lia|].
      exists m. repeat split; try done; try lia. intros i Hi.
      destruct (decide (i = n)) as [->|]; [done|apply Hm; lia].
    + exists n. repeat split; try lia. by rewrite Hp.
  - exists n. repeat split; try lia. by rewrite (proj2 (get_None _ _)) by lia.
Qed.

(** * Writes *)

Lemma reassembly_write_ok st off data :
  wf_reassembly st -> 0 <= off -> off + zlen data <= QUIC_CRYPTO_REASSEMBLY_CAP ->
  exists st', reassembly_write st off data = Ok st' /\ wf_reassembly st' /\
    last_dcid st' = last_dcid st /\
    forall i, cell st' i = if (off <=? i) && (i <? off + zlen data) then get data (i - off) else cell st i.
Proof.
  intros [Hl Hcap Hr Hc Hg] Ho He. unfold reassembly_write, checked_end, usize_checked_add.
  pose proof (zlen_nonneg data). unfold QUIC_CRYPTO_REASSEMBLY_CAP in *.
  rewrite (proj2 (Z.leb_le _ _)) by (unfold_ints; lia). cbn [ok_or res_bind].
  rewrite (proj2 (Z.ltb_ge _ _)) by lia. cbn [negb].
  set (n := off + zlen data) in *.
  assert (exists b1 p1, (if zlen (buf st) <? n then (grow (buf st) n x00, grow (present st) n false)
      else (buf st, present st)) = (b1, p1) /\ zlen b1 = Z.max (zlen (buf st)) n /\ zlen p1 = zlen b1 /\
      (forall i, get p1 i = Some true <-> covered st i) /\
      (forall i, covered st i -> get b1 i = get (buf st) i)) as (b1 & p1 & -> & Hb & Hp & Hcov & Hget).
  { destruct (Z.ltb_spec (zlen (buf st)) n).
    - destruct (grow_spec (buf st) n x00) as [? Hgb]; [lia|].
      destruct (grow_spec (present st) n false) as [? Hgp]; [lia|].
      eexists _, _. split; [done|]. split; [lia|]. split; [lia|]. unfold covered. split.
      + intros i. rewrite Hgp. destruct (Z.leb_spec (zlen (present st)) i); [|done]. cbn [andb].
        destruct (i <? n); [|done]. split; [done|]. intros Hi%get_nonneg. lia.
      + intros i Hi%get_nonneg. rewrite Hgb. rewrite (proj2 (Z.leb_gt _ _)) by lia. done.
    - eexists _, _. split; [done|]. repeat split; try done; lia. }
  destruct (overwrite_Some b1 data off) as (b2 & -> & Hb2 & Hgb2); [lia|lia|].
  destruct (overwrite_Some p1 (replicate (length data) true) off) as (p2 & -> & Hp2 & Hgp2);
    [lia|zlen_simpl; unfold zlen in *; lia|].
  cbn [or_panic res_bind]. rewrite zlen_replicate in Hgp2. fold (zlen data) in Hgp2. fold n in Hgp2, Hgb2.
  assert (forall i, get p2 i = Some true <-> off <= i < n \/ covered st i) as Hp2c.
  { intros i. rewrite Hgp2. destruct (Z.leb_spec off i), (Z.ltb_spec i n); cbn [andb].
    - rewrite get_replicate, (proj2 (Z.leb_le _ _)), (proj2 (Z.ltb_lt _ _)) by (unfold n, zlen in *; lia).
      split; [left; lia|done].
    - rewrite Hcov. split; [by right|]. intros [|]; [lia|done].
    - rewrite Hcov. split; [by right|]. intros [|]; [lia|done].
    - rewrite Hcov. split; [by right|]. intros [|]; [lia|done]. }
  destruct (advance_contiguous_spec (S (length p2)) p2 (contiguous_len st)) as (m & -> & Hm & Hmc & Hmg);
    [lia|unfold zlen in *; lia|].
  eexists; split; [done|]. split; [|split; [done|]].
  - split; cbn [buf present contiguous_len]; [lia|unfold QUIC_CRYPTO_REASSEMBLY_CAP; lia|lia| |done].
    intros i Hi. unfold covered; cbn [present]. destruct (Z.ltb_spec i (contiguous_len st)).
    + apply Hp2c. right. apply Hc. lia.
    + apply Hmc. lia.
  - intros i. unfold cell; cbn [buf present].
    destruct (get p2 i) as [[]|] eqn:Ei.
    + rewrite Hgb2. destruct ((off <=? i) && (i <? n)) eqn:Er; [done|].
      apply Hp2c in Ei as [|Hci]; [lia|]. rewrite Hget by done. unfold covered in Hci. by rewrite Hci.
    + assert (~ (off <= i < n \/ covered st i)) as Hn by (rewrite <- Hp2c; congruence).
      replace ((off <=? i) && (i <? n)) with false by lia.
      unfold covered in Hn. destruct (get (present st) i) as [[]|]; tauto.
    + assert (~ (off <= i < n \/ covered st i)) as Hn by (rewrite <- Hp2c; congruence).
      replace ((off <=? i) && (i <? n)) with false by lia.
      unfold covered in Hn. destruct (get (present st) i) as [[]|]; tauto.
Qed.

(** A write past the cap is refused. *)
Lemma reassembly_write_too_large st off data :
  0 <= off -> QUIC_CRYPTO_REASSEMBLY_CAP < off + zlen data ->
  reassembly_write st off data = Err UdpSniffError.TooLarge.
Proof.
  intros Ho Hl. unfold reassembly_write, checked_end, usize_checked_add.
  destruct (_ <=? _); [|done]. cbn [ok_or res_bind]. by rewrite (proj2 (Z.ltb_lt _ _)) by lia.
Qed.

Lemma wf_set_last_dcid st dcid : wf_reassembly st -> wf_reassembly (set_last_dcid st dcid).
Proof. by intros []; split. Qed.

Lemma wf_reset st : wf_reassembly (reassembly_reset st).
Proof. apply wf_new. Qed.

(** * The contiguous prefix *)

Lemma contiguous_ok st :
  wf_reassembly st ->
  exists c, contiguous st = Ok c /\ zlen c = contiguous_len st /\
    (forall i, 0 <= i < zlen c -> get c i = cell st i) /\ cell st (zlen c) = None.
Proof.
  intros Hwf. pose proof Hwf as [Hl Hcap Hr Hc Hg]. unfold contiguous.
  destruct (slice_is_Some (buf st) 0 (contiguous_len st)) as (c & Hs & Hlc); [lia|lia|lia|].
  rewrite Hs. exists c. split; [done|]. assert (zlen c = contiguous_len st) as Hz by lia.
  split; [done|]. split.
  - intros i Hi. rewrite (get_slice _ _ _ _ i Hs) by lia. unfold cell.
    specialize (Hc i ltac:(lia)). unfold covered in Hc. by rewrite Hc.
  - rewrite Hz. unfold cell, covered in *. by destruct (get (present st) (contiguous_len st)) as [[]|].
Qed.

(** Every byte received so far is the message's byte at that offset. *)
Definition consistent (m : bytes) (st : QuicCryptoReassembly) : Prop :=
  forall i b, cell st i = Some b -> get m i = Some b.

Lemma consistent_new m : consistent m reassembly_new.
Proof. intros i b. unfold cell. cbn. by rewrite (proj2 (get_None _ _)) by zlen_lia. Qed.

Lemma prefix_by_get {A} (c m : list A) :
  (forall i, 0 <= i < zlen c -> get c i = get m i) -> c = take (length c) m.
Proof.
  intros H. apply get_ext. intros i Hi. destruct (Z.ltb_spec i (zlen c)).
  - rewrite H by lia. unfold get. rewrite (proj2 (Z.leb_le _ _)) by lia.
    symmetry. apply lookup_take_lt. unfold zlen in *. lia.
  - rewrite (proj2 (get_None c i)) by lia. symmetry. unfold get. rewrite (proj2 (Z.leb_le _ _)) by lia.
    apply lookup_take_ge. unfold zlen in *. lia.
Qed.

(** What has been received in sequence is a prefix of the message, up to the
    first missing byte. *)
Lemma contiguous_prefix m st :
  wf_reassembly st -> consistent m st ->
  exists n, contiguous st = Ok (take n m) /\ (n <= length m)%nat /\
    (forall i, 0 <= i < Z.of_nat n -> covered st i) /\ ~ covered st (Z.of_nat n).
Proof.
  intros Hwf Hm. destruct (contiguous_ok st Hwf) as (c & Hc & Hl & Hget & Hend).
  assert (forall i, 0 <= i < zlen c -> get c i = get m i) as Hcm.
  { intros i Hi. destruct (get_is_Some c i) as [b Hb]; [lia|lia|]. rewrite Hb. symmetry. apply Hm.
    by rewrite <- Hget. }
  exists (length c). rewrite Hc. split; [by rewrite <- prefix_by_get|]. split; [|split].
  - rewrite (prefix_by_get c m Hcm) at 1. rewrite length_take. lia.
  - intros i Hi. fold (zlen c) in Hi. apply wf_contig_covered; [done|lia].
  - fold (zlen c). rewrite Hl. by apply wf_contig_gap.
Qed.

(** * A message in fragments *)

(** A CRYPTO fragment: offset and data. *)
Definition fragment : Type := Z * bytes.
Definition fragment_of (m : bytes) (f : fragment) : Prop :=
  0 <= fst f /\ slice m (fst f) (fst f + zlen (snd f)) = Some (snd f).
Definition in_fragment (i : Z) (f : fragment) : Prop := fst f <= i < fst f + zlen (snd f).

Fixpoint write_fragments (st : QuicCryptoReassembly) (fs : list fragment) : udp_res QuicCryptoReassembly :=
  match fs with
  | [] => Ok st
  | f :: fs => let? st := reassembly_write st (fst f) (snd f) in write_fragments st fs
  end.

Lemma reassembly_write_fragment m st f :
  wf_reassembly st -> consistent m st -> zlen m <= QUIC_CRYPTO_REASSEMBLY_CAP -> fragment_of m f ->
  exists st', reassembly_write st (fst f) (snd f) = Ok st' /\ wf_reassembly st' /\
    consistent m st' /\ last_dcid st' = last_dcid st /\
    forall i, covered st' i <-> in_fragment i f \/ covered st i.
Proof.
  intros Hwf Hm Hcap [Ho Hs]. destruct f as [off data]; cbn [fst snd] in *.
  pose proof (slice_Some_inv _ _ _ _ Hs) as (? & ? & ?).
  destruct (reassembly_write_ok st off data) as (st' & -> & Hwf' & Hd & Hcell); [done|lia|lia|].
  exists st'. split; [done|]. split; [done|]. split; [|split; [done|]].
  - intros i b. rewrite Hcell. destruct (Z.leb_spec off i), (Z.ltb_spec i (off + zlen data)); cbn [andb];
      try apply Hm. rewrite (get_slice _ _ _ _ (i - off) Hs) by lia.
    by replace (off + (i - off)) with i by lia.
  - intros i. rewrite <- !cell_Some, Hcell by done. unfold in_fragment; cbn [fst snd].
    destruct (Z.leb_spec off i), (Z.ltb_spec i (off + zlen data)); cbn [andb].
    + split; [left; lia|]. intros _. apply get_lt. lia.
    + split; [by right|]. intros [|]; [lia|done].
    + split; [by right|]. intros [|]; [lia|done].
    + split; [by right|]. intros [|]; [lia|done].
Qed.

Lemma write_fragments_ok m fs st :
  wf_reassembly st -> consistent m st -> zlen m <= QUIC_CRYPTO_REASSEMBLY_CAP ->
  Forall (fragment_of m) fs ->
  exists st', write_fragments st fs = Ok st' /\ wf_reassembly st' /\ consistent m st' /\
    last_dcid st' = last_dcid st /\
    forall i, covered st' i <-> Exists (in_fragment i) fs \/ covered st i.
Proof.
  intros Hwf Hm Hcap H. revert st Hwf Hm. induction H as [|f fs Hf _ IH]; intros st Hwf Hm; cbn [write_fragments].
  - exists st. repeat split; try apply Hwf; try done; [by right|]. intros [[]%Exists_nil|]; done.
  - destruct (reassembly_write_fragment m st f) as (st1 & -> & Hwf1 & Hm1 & Hd1 & Hc1); try done.
    cbn [res_bind]. destruct (IH st1) as (st2 & -> & Hwf2 & Hm2 & Hd2 & Hc2); try done.
    exists st2. split; [done|]. split; [done|]. split; [done|]. split; [congruence|].
    intros i. rewrite Hc2, Hc1, Exists_cons. tauto.
Qed.

(** * Properties *)

(** Writing within the 32 KiB cap always succeeds, keeps the buffer's
    invariant, and changes exactly the written range of the received bytes; a
    write past the cap is refused. *)
Theorem reassembly_write_correct (st : QuicCryptoReassembly) (off : Z) (data : bytes) :
  wf_reassembly st -> 0 <= off ->
  if off + zlen data <=? QUIC_CRYPTO_REASSEMBLY_CAP then
    exists st', reassembly_write st off data = Ok st' /\ wf_reassembly st' /\
      last_dcid st' = last_dcid st /\
      forall i, cell st' i = if (off <=? i) && (i <? off + zlen data) then get data (i - off) else cell st i
  else reassembly_write st off data = Err UdpSniffError.TooLarge.
Proof.
  intros Hw Ho. destruct (Z.leb_spec (off + zlen data) QUIC_CRYPTO_REASSEMBLY_CAP).
  - by apply reassembly_write_ok.
  - by apply reassembly_write_too_large.
Qed.

Lemma reassembly_write_correct_witness :
  exists st', reassembly_write reassembly_new 3 (bs "lo") = Ok st' /\ cell st' 3 = Some "l"%byte.
Proof.
  destruct (reassembly_write_correct reassembly_new 3 (bs "lo") wf_new ltac:(lia)) as (st' & E & _ & _ & Hc).
  exists st'. split; [exact E|]. rewrite Hc. vm_compute. reflexivity.
Defined.

(** The fragments of one message may be written in any order, overlapping
    and repeated: the buffer then hands out exactly the message's prefix up to
    the first byte no fragment covers. *)
Theorem fragments_reassemble (m : bytes) (fs : list fragment) :
  zlen m <= QUIC_CRYPTO_REASSEMBLY_CAP -> Forall (fragment_of m) fs ->
  exists st n, write_fragments reassembly_new fs = Ok st /\ contiguous st = Ok (take n m) /\
    (n <= length m)%nat /\
    (forall i, 0 <= i < Z.of_nat n -> Exists (in_fragment i) fs) /\
    ~ Exists (in_fragment (Z.of_nat n)) fs.
Proof.
  intros Hcap Hf.
  destruct (write_fragments_ok m fs reassembly_new wf_new (consistent_new m) Hcap Hf) as (st & -> & Hw & Hm & _ & Hc).
  destruct (contiguous_prefix m st Hw Hm) as (n & Hn & Hl & Hcov & Hgap). exists st, n.
  assert (forall i, ~ covered reassembly_new i) as Hnew.
  { intros i Hi. apply get_nonneg in Hi. change (zlen (present reassembly_new)) with 0 in Hi. lia. }
  repeat split; try done.
  - intros i Hi. apply Hcov, Hc in Hi as [|Hi]; [done|by apply Hnew in Hi].
  - intros Hi. apply Hgap, Hc. by left.
Qed.

Lemma fragments_reassemble_witness :
  exists st n, write_fragments reassembly_new [(3, bs "lo"); (0, bs "hell")] = Ok st /\
    contiguous st = Ok (take n (bs "hello")) /\ ~ Exists (in_fragment (Z.of_nat n)) [(3, bs "lo"); (0, bs "hell")].
Proof.
  destruct (fragments_reassemble (bs "hello") [(3, bs "lo"); (0, bs "hell")]) as (st & n & H1 & H2 & _ & _ & H3).
  - vm_compute. discriminate.
  - repeat constructor; vm_compute; (reflexivity || discriminate).
  - exists st, n. exact (conj H1 (conj H2 H3)).
Defined.
