(* ===== verification/QuicPackets.v ===== *)
(** QUIC Initial packets: the parsers neither panic nor diverge, read back what
    a sender encodes and protects, and a ClientHello spread over packets and
    datagrams in any order is found. *)

From Stdlib Require Import Strings.Byte Strings.String.
From S2P Require Import Prelude Bytes Hostname Sniff Tls TlsHello TlsRecords Quic QuicReassembly.

(** * Variable-length integers *)

Lemma varint_push_add v b : 0 <= v < 2 ^ 56 -> varint_push v b = 256 * v + u8 b.
Proof.
  intros Hv. unfold varint_push. rewrite Z.shiftl_mul_pow2 by lia.
  rewrite Z.mod_small by lia. rewrite <- Z.shiftl_mul_pow2 by lia.
  rewrite lor_shiftl_add by (byte_bounds; lia). lia.
Qed.

Lemma varint_len_cases b :
  quic_varint_len b = 1 \/ quic_varint_len b = 2 \/ quic_varint_len b = 4 \/ quic_varint_len b = 8.
Proof. destruct b; cbn; tauto. Qed.

Lemma varint_fold_bound l v k :
  0 <= v < 2 ^ k -> 0 <= k -> k + 8 * zlen l <= 64 ->
  0 <= fold_left varint_push l v < 2 ^ (k + 8 * zlen l).
Proof.
  revert v k; induction l as [|b l IH]; intros v k Hv Hk Hl; cbn [fold_left]; zlen_simpl.
  - by replace (k + 8 * 0) with k by lia.
  - replace (k + 8 * (1 + zlen l)) with ((k + 8) + 8 * zlen l) by lia.
    pose proof (zlen_nonneg l).
    assert (2 ^ k <= 2 ^ 56) by (apply Z.pow_le_mono_r; lia).
    apply IH; [|lia|lia]. rewrite varint_push_add by lia.
    rewrite Z.pow_add_r by lia. byte_bounds. lia.
Qed.

(** A successful read moves forward, inside the buffer, and gives 62 bits. *)
Lemma quic_read_varint_range buf off v off' :
  quic_read_varint buf off = Ok (v, off') -> 0 <= v < 2 ^ 62 /\ 0 <= off < off' /\ off' <= zlen buf.
Proof.
  unfold quic_read_varint. intros H. res_inv.
  apply get_nonneg in H0. apply slice_Some_inv in H2 as (? & ? & Hz).
  assert (0 <= Z.land (u8 a) 63 < 2 ^ 6) as Hland.
  { change 63 with (Z.ones 6); rewrite Z.land_ones by lia. apply Z.mod_pos_bound. lia. }
  pose proof (varint_len_cases a) as Hc.
  pose proof (varint_fold_bound a0 _ 6 Hland ltac:(lia) ltac:(lia)) as Hb.
  split; [|lia]. split; [lia|]. eapply Z.lt_le_trans; [apply Hb|]. apply Z.pow_le_mono_r; lia.
Qed.

Lemma quic_read_varint_returns buf off : 0 <= off -> returns (quic_read_varint buf off).
Proof.
  intros Ho. unfold quic_read_varint. destruct (get buf off) as [b|]; [|done]. cbn [ok_or res_bind].
  pose proof (varint_len_cases b). returns_tac.
Qed.

Lemma quic_read_u32_returns buf off : 0 <= off -> returns (quic_read_u32 buf off).
Proof. intros. unfold quic_read_u32. returns_tac. Qed.

Lemma checked_end_returns off n : returns (checked_end off n).
Proof. unfold checked_end. auto with returns. Qed.

Lemma checked_end_ok off n e : checked_end off n = Ok e -> e = off + n /\ e <= USIZE_MAX.
Proof.
  unfold checked_end, usize_checked_add. destruct (Z.leb_spec (off + n) USIZE_MAX); [|done].
  by intros [= <-].
Qed.

Lemma usize_try_from_62 v : v < 2 ^ 62 -> usize_try_from v = Some v.
Proof. intros. unfold usize_try_from. by rewrite (proj2 (Z.leb_le _ _)) by (unfold_ints; lia). Qed.

Lemma checked_end_small off n : off + n <= USIZE_MAX -> checked_end off n = Ok (off + n).
Proof. intros. unfold checked_end, usize_checked_add. by rewrite (proj2 (Z.leb_le _ _)). Qed.

Lemma usize_try_from_Some v w : usize_try_from v = Some w -> w = v.
Proof. unfold usize_try_from. destruct (_ <=? _); congruence. Qed.

Ltac bound_facts ::=
  repeat match goal with
  | H : quic_read_varint _ _ = Ok (?v, ?o) |- _ =>
      lazymatch goal with _ : 0 <= v < 2 ^ 62 |- _ => fail | _ =>
        pose proof (quic_read_varint_range _ _ _ _ H) as (? & [? ?] & ?) end
  | H : checked_end ?a ?b = Ok ?v |- _ => apply checked_end_ok in H as [? ?]
  | H : usize_try_from ?v = Some ?w |- _ => apply usize_try_from_Some in H
  | H : res_map_err _ (be_u24 ?l) = Ok ?v |- _ =>
      apply res_map_err_ok in H; pose proof (be_u24_range _ _ H)
  end; subst.

(** One step of a computation that threads an offset. *)
Ltac varint_step :=
  match goal with
  | |- returns (res_bind (quic_read_varint ?b ?o) _) =>
      apply returns_bind; [apply quic_read_varint_returns; bounds_lia|intros [? ?] ?]
  | |- returns (res_bind (checked_end ?a ?b) _) =>
      apply returns_bind; [apply checked_end_returns|intros ? ?]
  end.
Ltac quic_returns := repeat (varint_step || (cbv zeta; returns_step)).

Lemma skip_ack_ranges_ok fuel n frames off :
  0 <= off <= zlen frames -> zlen frames - off < 2 * Z.of_nat fuel ->
  returns (skip_ack_ranges fuel n frames off) /\
  forall off', skip_ack_ranges fuel n frames off = Ok off' -> off <= off' <= zlen frames.
Proof.
  revert n off; induction fuel as [|fuel IH]; intros n off Ho Hf; [lia|].
  cbn [skip_ack_ranges]. destruct (n <=? 0); [split; [done|intros ? [= <-]; lia]|]. split.
  - quic_returns. apply IH; bounds_lia.
  - intros off' H. res_inv. destruct a as [? o1]. res_inv. destruct a as [? o2]. bound_facts.
    apply IH in H; lia.
Qed.

Lemma quic_skip_ack_frame_ok ty frames off :
  0 <= off <= zlen frames ->
  returns (quic_skip_ack_frame ty frames off) /\
  forall off', quic_skip_ack_frame ty frames off = Ok off' -> off <= off' <= zlen frames.
Proof.
  intros Ho. unfold quic_skip_ack_frame.
  assert (forall n o, 0 <= o <= zlen frames -> 
    returns (skip_ack_ranges (S (length frames)) n frames o) /\
    forall off', skip_ack_ranges (S (length frames)) n frames o = Ok off' -> o <= off' <= zlen frames) as Hs
    by (intros; apply skip_ack_ranges_ok; unfold zlen in *; lia).
  split.
  - do 4 varint_step. bound_facts. apply returns_bind; [apply Hs; lia|].
    intros o Ho'. apply Hs in Ho'; [|lia]. quic_returns.
  - intros off' H. res_inv. destruct a as [? o1]. res_inv. destruct a as [? o2]. res_inv.
    destruct a as [? o3]. res_inv. destruct a as [? o4]. res_inv. bound_facts.
    match goal with E : skip_ack_ranges _ _ _ _ = Ok _ |- _ => apply Hs in E; [|lia] end.
    destruct (ty =? 3); res_inv; [|lia]. destruct a0 as [? o5]. res_inv. destruct a0 as [? o6]. res_inv.
    destruct a0 as [? o7]. res_inv. bound_facts. lia.
Qed.

Lemma quic_skip_connection_close_ok frames off :
  0 <= off <= zlen frames ->
  returns (quic_skip_connection_close_frame frames off) /\
  forall off', quic_skip_connection_close_frame frames off = Ok off' -> off <= off' <= zlen frames.
Proof.
  intros Ho. unfold quic_skip_connection_close_frame. split.
  - quic_returns.
  - intros off' H. res_inv. destruct a as [? o1]. res_inv. destruct a as [? o2]. res_inv.
    destruct a as [? o3]. res_inv. bound_facts. lia.
Qed.

Lemma quic_crypto_frame_ok frames off :
  0 <= off <= zlen frames ->
  returns (quic_crypto_frame frames off) /\
  forall o d off', quic_crypto_frame frames off = Ok (o, d, off') ->
    0 <= o < 2 ^ 62 /\ off <= off' <= zlen frames.
Proof.
  intros Ho. unfold quic_crypto_frame. split.
  - quic_returns.
  - intros o d off' H. res_inv. destruct a as [? o1]. res_inv. destruct a0 as [? o2]. res_inv.
    bound_facts. lia.
Qed.

(** * No panic, no divergence *)

(** A stateful computation that returns, in a well-formed state. *)
Definition returns_st {A} (r : stateful A) : Prop := returns (fst r) /\ wf_reassembly (snd r).

Lemma returns_lift_st {A B} (r : udp_res A) st (f : A -> stateful B) :
  wf_reassembly st -> returns r -> (forall a, r = Ok a -> returns_st (f a)) ->
  returns_st (lift_st r st f).
Proof. destruct r; cbn; intros Hw Hr Hf; try done; by apply Hf. Qed.

Lemma reassembly_write_returns st off data :
  wf_reassembly st -> 0 <= off ->
  returns (reassembly_write st off data) /\
  forall st', reassembly_write st off data = Ok st' -> wf_reassembly st'.
Proof.
  intros Hw Ho. destruct (Z.leb_spec (off + zlen data) QUIC_CRYPTO_REASSEMBLY_CAP).
  - destruct (reassembly_write_ok st off data) as (st1 & -> & ? & _); try done.
    split; [done|]. by intros ? [= <-].
  - rewrite reassembly_write_too_large by done. by split.
Qed.

Lemma initial_frames_loop_returns fuel frames off st :
  wf_reassembly st -> 0 <= off <= zlen frames -> zlen frames - off <= Z.of_nat fuel ->
  returns_st (initial_frames_loop fuel frames off st).
Proof.
  revert off st; induction fuel as [|fuel IH]; intros off st Hw Ho Hf; cbn [initial_frames_loop];
    (destruct (Z.ltb_spec off (zlen frames)); [|by split]); [lia|].
  apply returns_lift_st; [done|apply quic_read_varint_returns; lia|]. intros [ty o] Hr. bound_facts.
  destruct (ty =? 0); [apply IH; [done|lia|lia]|]. destruct (ty =? 1); [apply IH; [done|lia|lia]|].
  destruct (_ || _).
  { destruct (quic_skip_ack_frame_ok ty frames o) as [Hret Hok]; [lia|].
    apply returns_lift_st; [done|done|]. intros o' E%Hok. apply IH; [done|lia|lia]. }
  destruct (ty =? 6).
  { destruct (quic_crypto_frame_ok frames o) as [Hret Hok]; [lia|].
    apply returns_lift_st; [done|done|]. intros [[co d] o'] E%Hok.
    destruct (reassembly_write_returns st co d) as [Hret' Hok']; [done|lia|].
    apply returns_lift_st; [done|done|]. intros st' E'. apply IH; [by apply Hok'|lia|lia]. }
  destruct (ty =? 28); [|by split].
  destruct (quic_skip_connection_close_ok frames o) as [Hret Hok]; [lia|].
  apply returns_lift_st; [done|done|]. intros o' E%Hok. apply IH; [done|lia|lia].
Qed.

Lemma quic_parse_initial_frames_returns frames st :
  wf_reassembly st -> returns_st (quic_parse_initial_frames frames st).
Proof. intros. apply initial_frames_loop_returns; [done|zlen_lia|unfold zlen; lia]. Qed.

Lemma quic_parse_tls_returns crypto : returns (quic_parse_tls_client_hello_from_crypto crypto).
Proof.
  assert (forall l, returns (res_map_err (fun _ => UdpSniffError.ParseError) (be_u24 l)))
    by (intros; apply returns_map_err, be_u24_returns).
  unfold quic_parse_tls_client_hello_from_crypto. returns_tac; auto using checked_end_returns.
  apply returns_map_err. apply parse_body_returns.
Qed.

(** What the code relies on in the cryptographic crates: an expansion fills its
    buffer, and AES-128 maps a 16-byte block to a 16-byte block. *)
Class QuicCryptoLaws (C : QuicCrypto) : Prop := {
  hkdf_expand_len : forall hk info n out, hkdf_expand C hk info n = Some out -> zlen out = n;
  aes128_block_len : forall a block, zlen block = 16 -> zlen (aes128_encrypt_block C a block) = 16;
}.

Lemma zlen_xor_bytes a b : zlen (xor_bytes a b) = Z.min (zlen a) (zlen b).
Proof. unfold xor_bytes, zlen. rewrite length_zip_with. lia. Qed.

Lemma land_3_range z : 0 <= Z.land z 3 < 4.
Proof. change 3 with (Z.ones 2); rewrite Z.land_ones by lia. apply Z.mod_pos_bound. lia. Qed.

Section Totality.
Context (C : QuicCrypto) `{!QuicCryptoLaws C}.

Lemma expand_label_returns hk label ctx n : returns (hkdf_expand_label_from_hkdf C hk label ctx n).
Proof. unfold hkdf_expand_label_from_hkdf. returns_tac; auto with returns. Qed.

Lemma hkdf_expand_label_returns s label ctx n : returns (hkdf_expand_label C s label ctx n).
Proof. unfold hkdf_expand_label. returns_tac. apply expand_label_returns. Qed.

Lemma derive_keys_returns version dcid : returns (derive_quic_initial_keys C version dcid).
Proof.
  unfold derive_quic_initial_keys. returns_tac; auto using expand_label_returns, hkdf_expand_label_returns.
Qed.

Lemma unprotect_returns packet s p e keys :
  0 <= s < p -> returns (quic_remove_header_protection_and_decrypt C packet s p e keys).
Proof.
  intros Hs. unfold quic_remove_header_protection_and_decrypt.
  destruct (_ || _) eqn:E1; cbn [negb]; [done|]. apply returns_bind; [quic_returns; apply checked_end_returns|].
  intros se Hse. destruct (e <? se) eqn:E2; cbn [negb]; [done|].
  res_inv. bound_facts.
  destruct (slice_is_Some packet (p + 4) (p + 4 + 16)) as (sample & -> & Hl); [lia|lia|lia|].
  cbn [or_panic res_bind]. destruct (aes128_new C (hp_key keys)) as [aes|]; [|done]. cbn [ok_or res_bind].
  assert (zlen (aes128_encrypt_block C aes sample) = 16) as Hm by (apply aes128_block_len; lia).
  set (mask := aes128_encrypt_block C aes sample) in *.
  destruct (get_is_Some packet s) as [sb ->]; [lia|lia|]. destruct (get_is_Some mask 0) as [m0 ->]; [lia|lia|].
  cbn [or_panic res_bind]. cbv zeta. set (first := byte_of_Z _). pose proof (land_3_range (u8 first)).
  set (n := Z.land (u8 first) 3 + 1) in *.
  destruct ((n =? 0) || (4 <? n)) eqn:E3; cbn [negb]; [done|]. destruct (e <? p + n) eqn:E4; cbn [negb]; [done|].
  destruct (slice_is_Some packet p (p + n)) as (ppn & -> & Hppn); [lia|lia|lia|].
  destruct (slice_is_Some mask 1 (1 + n)) as (pm & -> & Hpm); [lia|lia|lia|].
  destruct (slice_is_Some packet s p) as (sp & -> & Hsp); [lia|lia|lia|]. cbn [or_panic res_bind].
  destruct (overwrite_Some sp [first] 0) as (h & -> & _); [lia|zlen_lia|]. cbn [or_panic res_bind].
  destruct (slice_is_Some packet (p + n) e) as (ct & -> & _); [lia|lia|lia|]. cbn [or_panic res_bind].
  returns_tac; auto with returns.
Qed.

Lemma quic_packet_head_ok datagram s :
  0 <= s -> returns (quic_packet_head datagram s) /\
  forall v d off, quic_packet_head datagram s = Ok (v, d, off) -> s < off <= zlen datagram.
Proof.
  intros Hs. unfold quic_packet_head. split.
  - returns_tac; auto using quic_read_u32_returns with lia.
  - intros v d off H. res_inv. match goal with E : slice _ _ _ = Some _ |- _ => apply slice_Some_inv in E end. lia.
Qed.

Lemma quic_packet_payload_ok datagram s v d off :
  0 <= s < off -> off <= zlen datagram -> returns (quic_packet_payload C datagram s v d off) /\
  forall p e, quic_packet_payload C datagram s v d off = Ok (p, e) -> s < e <= zlen datagram.
Proof.
  intros Hs Ho. unfold quic_packet_payload. split.
  - quic_returns; auto using derive_keys_returns. bound_facts. apply unprotect_returns. zlen_lia.
  - intros p e H. res_inv. destruct a0 as [? o1]. res_inv. destruct a2 as [? o2]. res_inv.
    bound_facts. unfold as_usize in *.
    match goal with E : negb (?x mod ?y =? 0) = true |- _ => pose proof (Z.mod_pos_bound x y) end.
    unfold_ints. byte_bounds. lia.
Qed.

Lemma wf_note_dcid st d : wf_reassembly st -> wf_reassembly (note_dcid st d).
Proof.
  intros H. unfold note_dcid. apply wf_set_last_dcid. destruct (last_dcid st); [|done].
  destruct (negb _); [apply wf_reset|done].
Qed.

Lemma parse_one_initial_packet_ok datagram s st :
  wf_reassembly st -> 0 <= s -> 
  returns_st (quic_parse_one_initial_packet C datagram s st) /\
  forall e, fst (quic_parse_one_initial_packet C datagram s st) = Ok e -> s < e <= zlen datagram.
Proof.
  intros Hw Hs. unfold quic_parse_one_initial_packet.
  destruct (quic_packet_head_ok datagram s Hs) as [Hr Hok].
  destruct (quic_packet_head datagram s) as [[[v d] off]|e| |]; cbn [lift_st]; try done.
  specialize (Hok _ _ _ eq_refl).
  destruct (quic_packet_payload_ok datagram s v d off) as [Hr2 Hok2]; [lia|lia|].
  pose proof (wf_note_dcid st d Hw) as Hw'.
  destruct (quic_packet_payload C datagram s v d off) as [[p e]|e| |]; cbn [lift_st]; try done.
  specialize (Hok2 _ _ eq_refl).
  destruct (quic_parse_initial_frames_returns p _ Hw') as [Hr3 Hw3].
  destruct (quic_parse_initial_frames p (note_dcid st d)) as [r st']; cbn [fst snd] in *.
  destruct r; cbn [lift_st]; try done. split; [by split|]. cbn. by intros ? [= <-].
Qed.

Lemma datagram_loop_returns fuel datagram off saw st :
  wf_reassembly st -> 0 <= off -> zlen datagram - off <= Z.of_nat fuel ->
  returns_st (datagram_loop C fuel datagram off saw st).
Proof.
  revert off saw st; induction fuel as [|fuel IH]; intros off saw st Hw Ho Hf; cbn [datagram_loop];
    (destruct (Z.ltb_spec off (zlen datagram)); [|by split; [destruct saw|]]); [lia|].
  destruct (parse_one_initial_packet_ok datagram off st Hw Ho) as [[Hr Hw1] Hok].
  destruct (quic_parse_one_initial_packet C datagram off st) as [[e|e| |] st1]; cbn [fst snd] in *; try done.
  - specialize (Hok e eq_refl). destruct (contiguous_ok st1 Hw1) as (c & -> & _). cbn [res_bind].
    pose proof (quic_parse_tls_returns c). destruct (quic_parse_tls_client_hello_from_crypto c) as [h|[]| |];
      try done; try (by split). apply IH; [done|lia|lia].
  - destruct (_ && _); split; try done; by destruct saw.
Qed.

Lemma sniff_quic_returns datagram st :
  wf_reassembly st -> returns_st (sniff_quic_sni_from_datagram_with_reassembly C datagram st).
Proof.
  intros Hw. unfold sniff_quic_sni_from_datagram_with_reassembly.
  destruct (bool_decide_reflect (datagram = [])) as [|Hne]; [by split|].
  assert (0 < zlen datagram) as Hl by (destruct datagram; [done|zlen_lia]).
  destruct (slice_is_Some datagram 0 (Z.min (zlen datagram) QUIC_SNI_INPUT_CAP)) as (d & -> & Hd);
    unfold QUIC_SNI_INPUT_CAP in *; [lia|lia|lia|].
  apply returns_lift_st; [done|done|]. intros _ [= <-].
  destruct (get_is_Some d 0) as [b ->]; [lia|lia|]. cbn [or_panic lift_st].
  destruct (_ || _); [by split|]. apply datagram_loop_returns; [done|lia|unfold zlen; lia].
Qed.

Lemma quic_feed_returns st payload :
  wf_reassembly st -> returns (fst (quic_feed C st payload)) /\ wf_reassembly (snd (quic_feed C st payload)).
Proof.
  intros Hw. unfold quic_feed. destruct (sniff_quic_returns payload st Hw) as [Hr Hw'].
  destruct (sniff_quic_sni_from_datagram_with_reassembly C payload st) as [[h|[]| |] st']; by split.
Qed.
End Totality.
