(* ===== verification/QuicKeys.v ===== *)
(** The keys and the nonce of a QUIC Initial packet as a client makes them,
    written from RFC 9001 (sections 5.2 and 5.3), its draft 29 and RFC 8446
    (section 7.1), and the proof that the sniffer derives the same ones. *)

From Stdlib Require Import Strings.Byte Strings.String.
From S2P Require Import Prelude Bytes TlsHello Sniff Tls Quic QuicPackets.

(** * The specification *)

(** What a version fixes: the salt of the initial secret, the type of an
    Initial packet and the prefix of the labels of the packet keys. *)
Record initial_params := { ip_salt : bytes; ip_type : Z; ip_labels : bytes }.

(** RFC 9001 and draft 29. The third row is not RFC 9369: it has the salt and the
    packet type of version 2 with the labels of version 1, where version 2 says
    ["quicv2 "]; it is the only sender of that version number whose packets the
    sniffer reads. *)
Definition version_params (version : Z) : option initial_params :=
  if version =? 1 then Some {| ip_salt := to_be_bytes 20 0x38762cf7f55934b34d179ae6a4c80cadccbb7f0a; ip_type := 0; ip_labels := bs "quic " |}
  else if version =? 0xff00001d then Some {| ip_salt := to_be_bytes 20 0xafbfec289993d24c9e9786f19c6111e04390a899; ip_type := 0; ip_labels := bs "quic " |}
  else if version =? 0x6b3343cf then Some {| ip_salt := to_be_bytes 20 0x0dede3def700a6db819381be6e269dcbf9bd2ed9; ip_type := 1; ip_labels := bs "quic " |}
  else None.
(** The versions of RFC 9001: its own and draft 29. *)
Definition rfc9001_version (version : Z) : Prop := version = 1 \/ version = 0xff00001d.

(** [struct { uint16 length; opaque label<7..255> = "tls13 " + Label; opaque
    context<0..255>; } HkdfLabel], with an empty context. *)
Definition hkdf_label (label : bytes) (len : Z) : bytes := to_be_bytes 2 len ++ vec8 (bs "tls13 " ++ label) ++ vec8 [].

Record packet_keys := { pk_key : bytes; pk_iv : bytes; pk_hp : bytes }.

(** The number of the packet, padded on the left to the twelve bytes of the
    vector, exclusive-or the vector. *)
Definition packet_nonce (iv : bytes) (number : Z) : bytes := to_be_bytes 12 (Z.lxor (from_be_bytes iv) number).

Section Keys.
Context (C : QuicCrypto).
(** HKDF-Expand-Label of a secret that HKDF holds. *)
Definition expand_label (h : hkdf C) (label : bytes) (len : Z) : option bytes := hkdf_expand C h (hkdf_label label len) len.
(** The initial secret is extracted from the first destination connection id;
    the client's secret and the keys of its packets are expanded from it. *)
Definition client_keys (version : Z) (dcid : bytes) : option packet_keys :=
  v ← version_params version;
  secret ← expand_label (hkdf_extract C (ip_salt v) dcid) (bs "client in") 32;
  h ← hkdf_from_prk C secret;
  k ← expand_label h (ip_labels v ++ bs "key") 16;
  n ← expand_label h (ip_labels v ++ bs "iv") 12;
  hp ← expand_label h (ip_labels v ++ bs "hp") 16;
  Some {| pk_key := k; pk_iv := n; pk_hp := hp |}.
End Keys.

(** The other direction of the cryptographic crates: keys of the right length
    are accepted, and a sealed text is opened again. *)
Class QuicSealLaws (C : QuicCrypto) (seal : aes128gcm C -> bytes -> bytes -> bytes -> bytes) : Prop := {
  seal_crypto :: QuicCryptoLaws C;
  from_prk_ok : forall prk, zlen prk = 32 -> is_Some (hkdf_from_prk C prk);
  expand_ok : forall hk info n, 0 <= n <= 255 * 32 -> is_Some (hkdf_expand C hk info n);
  aes_new_ok : forall k, zlen k = 16 -> is_Some (aes128_new C k);
  gcm_new_ok : forall k, zlen k = 16 -> is_Some (aes128gcm_new C k);
  open_seal : forall g nonce pt aad, aes128gcm_decrypt C g nonce (seal g nonce pt aad) aad = Some pt;
  seal_len : forall g nonce pt aad, zlen (seal g nonce pt aad) = zlen pt + 16;
}.

(** * The nonce *)

Lemma zlen_drop {A} (l : list A) n : zlen (drop n l) = Z.max 0 (zlen l - Z.of_nat n).
Proof. unfold zlen. rewrite length_drop. lia. Qed.

Lemma xor_byte_of_Z a b : xor_byte (byte_of_Z a) (byte_of_Z b) = byte_of_Z (Z.lxor a b).
Proof.
  apply u8_inj. unfold xor_byte. rewrite !u8_of_Z. change 256 with (2 ^ 8). rewrite <- !Z.land_ones by lia.
  apply Z.bits_inj'. intros n Hn. rewrite !Z.land_spec, !Z.lxor_spec, !Z.land_spec.
  by destruct (Z.testbit (Z.ones 8) n), (Z.testbit a n), (Z.testbit b n).
Qed.
Lemma to_be_lxor n a b : to_be_bytes n (Z.lxor a b) = xor_bytes (to_be_bytes n a) (to_be_bytes n b).
Proof.
  unfold xor_bytes. induction n as [|n IH]; [done|]. cbn [to_be_bytes zip_with]. rewrite IH, xor_byte_of_Z. f_equal. f_equal.
  change 256 with (2 ^ 8). rewrite <- Z.pow_mul_r, <- !Z.shiftr_div_pow2 by lia. apply Z.shiftr_lxor.
Qed.
Lemma to_be_app n m z : to_be_bytes (n + m) z = to_be_bytes n (z / 256 ^ Z.of_nat m) ++ to_be_bytes m z.
Proof.
  induction n as [|n IH]; [done|]. cbn [to_be_bytes Nat.add app]. rewrite IH. f_equal. f_equal.
  rewrite Nat2Z.inj_add, Z.add_comm, Z.pow_add_r by lia. rewrite Z.div_div by lia. done.
Qed.
Lemma xor_zeros n l : length l = n -> xor_bytes l (to_be_bytes n 0) = l.
Proof.
  intros <-. unfold xor_bytes. induction l as [|b l IH]; [done|]. cbn [length to_be_bytes zip_with]. rewrite IH. f_equal.
  rewrite Z.div_0_l by (apply Z.pow_nonzero; lia). apply u8_inj. unfold xor_byte. rewrite !u8_of_Z. change (0 mod 256) with 0.
  rewrite Z.lxor_0_r. apply Z.mod_small, u8_range.
Qed.

Lemma nonce_ok n number : zlen n = 12 -> 0 <= number < 2 ^ 64 -> quic_build_nonce n number = packet_nonce n number.
Proof.
  intros Hn Hr. unfold packet_nonce, quic_build_nonce. rewrite to_be_lxor.
  assert (length n = 12)%nat as Hl by (unfold zlen in Hn; lia).
  pose proof (to_from_be n) as E. rewrite Hl in E. rewrite E. change 12%nat with (4 + 8)%nat. rewrite (to_be_app 4 8 number).
  change (256 ^ Z.of_nat 8) with (2 ^ 64). rewrite Z.div_small by done.
  rewrite <- (take_drop 4 n) at 3. unfold xor_bytes at 2. rewrite zip_with_app by (by rewrite length_take, Hl). f_equal.
  symmetry. apply xor_zeros. by rewrite length_take, Hl.
Qed.

(** * The keys *)

Section Derived.
Context (C : QuicCrypto) (seal : aes128gcm C -> bytes -> bytes -> bytes -> bytes).
Context `{!QuicSealLaws C seal}.

Lemma expand_label_ok h label len :
  zlen label <= 100 -> 0 <= len <= 255 * 32 ->
  exists out, hkdf_expand_label_from_hkdf C h label [] len = Ok out /\ expand_label C h label len = Some out /\ zlen out = len.
Proof.
  intros Hl Hn. unfold hkdf_expand_label_from_hkdf, expand_label.
  replace (U8_MAX <? zlen (bs "tls13 " ++ label)) with false by
    (symmetry; apply Z.ltb_ge; rewrite zlen_app; change (zlen (bs "tls13 ")) with 6; unfold U8_MAX; lia).
  change (U8_MAX <? zlen (@nil byte)) with false. cbn [orb negb].
  assert (to_be_bytes 2 (len mod 65536) ++ [byte_of_Z (zlen (bs "tls13 " ++ label))] ++ (bs "tls13 " ++ label)
    ++ [byte_of_Z (zlen (@nil byte))] ++ [] = hkdf_label label len) as ->.
  { unfold hkdf_label, vec8. cbn [to_be_bytes]. change (256 ^ Z.of_nat 0) with 1. rewrite !Z.div_1_r, Z.mod_small by lia.
    by rewrite <- !app_assoc. }
  destruct (expand_ok h (hkdf_label label len) len Hn) as [out E]. rewrite E. exists out. split_and!; [done..|]. by eapply hkdf_expand_len.
Qed.
Lemma expand_secret_ok s h label len :
  hkdf_from_prk C s = Some h -> zlen label <= 100 -> 0 <= len <= 255 * 32 ->
  exists out, hkdf_expand_label C s label [] len = Ok out /\ expand_label C h label len = Some out /\ zlen out = len.
Proof. intros Hs Hl Hn. unfold hkdf_expand_label. rewrite Hs. by apply expand_label_ok. Qed.

Lemma salt_ok v : quic_initial_salt v = ip_salt <$> version_params v.
Proof.
  unfold quic_initial_salt, version_params, QUIC_VERSION_V1, QUIC_VERSION_V2, QUIC_VERSION_DRAFT29.
  destruct (Z.eqb_spec v 1); [done|].
  destruct (Z.eqb_spec v 0x6b3343cf) as [->|]; [done|]. by destruct (Z.eqb_spec v 0xff00001d).
Qed.
Lemma labels_ok v p : version_params v = Some p -> ip_labels p = bs "quic ".
Proof. unfold version_params. repeat case_match; by intros [= <-]. Qed.

(** The sniffer has the keys of the client. *)
Lemma derive_keys_ok v dcid :
  is_Some (version_params v) ->
  exists k, client_keys C v dcid = Some k /\
    derive_quic_initial_keys C v dcid = Ok {| hp_key := pk_hp k; key := pk_key k; iv := pk_iv k |} /\
    zlen (pk_hp k) = 16 /\ zlen (pk_key k) = 16 /\ zlen (pk_iv k) = 12.
Proof.
  intros [p Hv]. unfold derive_quic_initial_keys, client_keys. rewrite salt_ok, Hv. cbn [fmap option_fmap option_map ok_or res_bind mbind option_bind].
  rewrite (labels_ok v p Hv).
  destruct (expand_label_ok (hkdf_extract C (ip_salt p) dcid) (bs "client in") 32) as (s & -> & -> & Hs); [done|lia|].
  destruct (from_prk_ok s Hs) as [h Hh]. cbn [res_bind mbind option_bind]. rewrite Hh. cbn [mbind option_bind].
  destruct (expand_secret_ok s h (bs "quic hp") 16 Hh) as (hp & -> & Ehp & ?); [done|lia|]. cbn [res_bind].
  destruct (expand_secret_ok s h (bs "quic key") 16 Hh) as (k & -> & Ek & ?); [done|lia|]. cbn [res_bind].
  destruct (expand_secret_ok s h (bs "quic iv") 12 Hh) as (n & -> & En & ?); [done|lia|]. cbn [res_bind].
  change (bs "quic " ++ bs "key") with (bs "quic key"). rewrite Ek. cbn [mbind option_bind].
  change (bs "quic " ++ bs "iv") with (bs "quic iv"). rewrite En. cbn [mbind option_bind].
  change (bs "quic " ++ bs "hp") with (bs "quic hp"). rewrite Ehp. cbn [mbind option_bind]. eexists. split; [done|]. by split_and!.
Qed.
End Derived.
