(* ===== verification/QuicEncode.v ===== *)
(** A QUIC sender: variable-length integers, frames and protected Initial
    packets as data with their encoding (RFC 9000, RFC 9001), under the keys and
    the nonce of the specification in [QuicKeys], and the proof that the
    sniffer's parsers read them back. *)

From Stdlib Require Import Strings.Byte Strings.String.
From S2P Require Import Prelude Bytes Hostname Sniff Tls TlsHello TlsRecords Quic QuicReassembly QuicPackets QuicKeys.

(** * Variable-length integers *)

(** A value with the length class of its encoding: [2 ^ vk] bytes. *)
Record vint := { vk : nat; vv : Z }.
Definition vlen (x : vint) : nat := 2 ^ vk x.
Definition wf_vint (x : vint) : Prop := (vk x <= 3)%nat /\ 0 <= vv x < 2 ^ (8 * Z.of_nat (vlen x) - 2).
Definition encode_vint (x : vint) : bytes :=
  to_be_bytes (vlen x) (Z.of_nat (vk x) * 2 ^ (8 * Z.of_nat (vlen x) - 2) + vv x).

Lemma zlen_encode_vint x : zlen (encode_vint x) = Z.of_nat (vlen x).
Proof. apply zlen_to_be_bytes. Qed.
#[export] Hint Rewrite zlen_encode_vint : zlen.

Lemma vlen_pos x : 0 < Z.of_nat (vlen x).
Proof. unfold vlen. pose proof (Nat.pow_nonzero 2 (vk x)). lia. Qed.

Lemma fold_varint_push m z a :
  0 <= a -> (a + 1) * 256 ^ Z.of_nat m <= 2 ^ 62 ->
  fold_left varint_push (to_be_bytes m z) a = a * 256 ^ Z.of_nat m + z mod 256 ^ Z.of_nat m.
Proof.
  revert a; induction m as [|m IH]; intros a Ha Hm; cbn [to_be_bytes fold_left].
  - cbn. rewrite Z.mod_1_r. lia.
  - rewrite Nat2Z.inj_succ, Z.pow_succ_r in * by lia. set (p := 256 ^ Z.of_nat m) in *.
    assert (0 < p) by (apply Z.pow_pos_nonneg; lia).
    rewrite varint_push_add by (cbn in *; nia). rewrite u8_of_Z.
    pose proof (Z.mod_pos_bound (z / p) 256).
    rewrite IH by nia.
    rewrite (Z.mul_comm 256 p), Z.rem_mul_r by lia. lia.
Qed.

Lemma be_head m z : 0 <= z < 256 ^ Z.of_nat (S m) ->
  to_be_bytes (S m) z = byte_of_Z (z / 256 ^ Z.of_nat m) :: to_be_bytes m z /\
  u8 (byte_of_Z (z / 256 ^ Z.of_nat m)) = z / 256 ^ Z.of_nat m.
Proof.
  intros Hz. split; [done|]. rewrite u8_of_Z. apply Z.mod_small.
  rewrite Nat2Z.inj_succ, Z.pow_succ_r in Hz by lia.
  split; [apply Z.div_pos; lia|apply Z.div_lt_upper_bound; lia].
Qed.

(** The first byte carries the length class and the top six bits. *)
Lemma encode_vint_head x :
  wf_vint x ->
  exists b rest, encode_vint x = b :: rest /\ quic_varint_len b = Z.of_nat (vlen x) /\
    fold_left varint_push rest (Z.land (u8 b) 0x3f) = vv x.
Proof.
  intros [Hk Hv]. unfold encode_vint. destruct x as [k v]; cbn [vk vv] in *.
  assert (exists m, vlen {| vk := k; vv := v |} = S m /\ (m <= 7)%nat) as (m & Em & Hm).
  { unfold vlen; cbn [vk]. destruct k as [|[|[|[|k]]]]; [exists 0%nat|exists 1%nat|exists 3%nat|exists 7%nat|]; cbn; lia. }
  rewrite Em in *. set (p := 256 ^ Z.of_nat m) in *.
  assert (2 ^ (8 * Z.of_nat (S m) - 2) = 64 * p) as E64.
  { subst p. change 256 with (2 ^ 8). rewrite <- Z.pow_mul_r by lia. change 64 with (2 ^ 6).
    rewrite <- Z.pow_add_r by lia. f_equal. lia. }
  rewrite E64 in *. assert (0 < p) by (apply Z.pow_pos_nonneg; lia).
  set (z := Z.of_nat k * (64 * p) + v).
  assert (0 <= z < 256 ^ Z.of_nat (S m)) as Hz.
  { rewrite Nat2Z.inj_succ, Z.pow_succ_r by lia. fold p. subst z. nia. }
  destruct (be_head m z Hz) as [-> Hu]. fold p in Hu |- *.
  assert (z / p = Z.of_nat k * 64 + v / p) as Hd.
  { subst z. replace (Z.of_nat k * (64 * p) + v) with (v + Z.of_nat k * 64 * p) by lia.
    rewrite Z.div_add by lia. lia. }
  assert (0 <= v / p < 64) by (split; [apply Z.div_pos; lia|apply Z.div_lt_upper_bound; lia]).
  eexists _, _. split; [done|]. split.
  - unfold quic_varint_len. rewrite Hu, Hd, Z.shiftr_div_pow2 by lia. change (2 ^ 6) with 64.
    rewrite Z.div_add_l, Z.div_small, Z.add_0_r by lia.
    rewrite <- Em. unfold vlen; cbn [vk]. by destruct k as [|[|[|[|k]]]]; [..|lia].
  - rewrite Hu, Hd. change 63 with (Z.ones 6). rewrite Z.land_ones by lia. change (2 ^ 6) with 64.
    rewrite (Z.add_comm _ (v / p)), Z.mod_add, Z.mod_small by lia.
    assert ((v / p + 1) * p <= 2 ^ 62) as Hb.
    { assert (p <= 256 ^ 7) by (apply Z.pow_le_mono_r; lia). nia. }
    rewrite fold_varint_push by (done || lia). fold p. subst z.
    replace (Z.of_nat k * (64 * p) + v) with (v + Z.of_nat k * 64 * p) by lia.
    rewrite Z.mod_add by lia. pose proof (Z.div_mod v p). lia.
Qed.

Lemma read_vint (buf pre rest : bytes) x off :
  wf_vint x -> buf = pre ++ encode_vint x ++ rest -> off = zlen pre ->
  quic_read_varint buf off = Ok (vv x, off + Z.of_nat (vlen x)).
Proof.
  intros Hx -> ->. destruct (encode_vint_head x Hx) as (b & l & E & Hlen & Hfold).
  pose proof (zlen_encode_vint x) as Hz. rewrite E in *. unfold quic_read_varint. cbn [app].
  rewrite (get_mid pre (l ++ rest) b) by done. cbn [ok_or res_bind]. rewrite Hlen.
  rewrite (proj2 (Z.ltb_ge _ _)) by zlen_lia. cbn [negb].
  rewrite (slice_at _ (pre ++ [b]) l rest) by (rewrite <- ?app_assoc; zlen_simpl; (done || lia)).
  cbn [or_panic res_bind]. by rewrite Hfold.
Qed.

(** * Cursors *)

Lemma cursor_vint buf off x rest :
  cursor buf off (encode_vint x ++ rest) -> wf_vint x ->
  exists off', quic_read_varint buf off = Ok (vv x, off') /\ cursor buf off' rest.
Proof.
  intros (pre & E & ->) Hx. eexists. split; [by eapply read_vint|].
  exists (pre ++ encode_vint x). rewrite <- app_assoc. split; [done|]. zlen_simpl. lia.
Qed.

(** Rewrites with the next read and moves the cursor. *)
Ltac read_vint_step Hc :=
  let o := fresh "o" in let E := fresh "E" in let H := fresh "Hcur" in
  destruct (cursor_vint _ _ _ _ Hc ltac:(eassumption)) as (o & E & H);
  rewrite E; cbn [res_bind lift_st]; clear Hc; rename H into Hc.

(** * Frames *)

Inductive quic_frame :=
  | PaddingFrame
  | PingFrame
  | AckFrame (largest delay count first : vint) (ranges : list (vint * vint))
      (ecn : option (vint * vint * vint))
  | CryptoFrame (off len : vint) (data : bytes)
  | ConnectionCloseFrame (code ftype len : vint) (reason : bytes).

Definition encode_range (r : vint * vint) : bytes := encode_vint (fst r) ++ encode_vint (snd r).
Definition encode_ranges (rs : list (vint * vint)) : bytes := concat (map encode_range rs).
Definition encode_ecn (ecn : option (vint * vint * vint)) : bytes :=
  match ecn with
  | Some (e0, e1, ce) => encode_vint e0 ++ encode_vint e1 ++ encode_vint ce
  | None => []
  end.
Definition encode_frame (f : quic_frame) : bytes :=
  match f with
  | PaddingFrame => [byte_of_Z 0]
  | PingFrame => [byte_of_Z 1]
  | AckFrame largest delay count first ranges ecn =>
      byte_of_Z (if ecn is Some _ then 3 else 2) :: encode_vint largest ++ encode_vint delay
        ++ encode_vint count ++ encode_vint first ++ encode_ranges ranges ++ encode_ecn ecn
  | CryptoFrame off len data => byte_of_Z 6 :: encode_vint off ++ encode_vint len ++ data
  | ConnectionCloseFrame code ftype len reason =>
      byte_of_Z 28 :: encode_vint code ++ encode_vint ftype ++ encode_vint len ++ reason
  end.
Definition encode_frames (fs : list quic_frame) : bytes := concat (map encode_frame fs).

Definition wf_frame (f : quic_frame) : Prop :=
  match f with
  | PaddingFrame | PingFrame => True
  | AckFrame largest delay count first ranges ecn =>
      wf_vint largest /\ wf_vint delay /\ wf_vint count /\ wf_vint first /\
      vv count = zlen ranges /\ Forall (fun r => wf_vint (fst r) /\ wf_vint (snd r)) ranges /\
      match ecn with Some (e0, e1, ce) => wf_vint e0 /\ wf_vint e1 /\ wf_vint ce | None => True end
  | CryptoFrame off len data => wf_vint off /\ wf_vint len /\ vv len = zlen data
  | ConnectionCloseFrame code ftype len reason =>
      wf_vint code /\ wf_vint ftype /\ wf_vint len /\ vv len = zlen reason
  end.

(** What a list of frames does: its CRYPTO frames are written in order. *)
Fixpoint apply_frames (fs : list quic_frame) (st : QuicCryptoReassembly) : stateful unit :=
  match fs with
  | [] => (Ok tt, st)
  | CryptoFrame off _ data :: fs =>
      lift_st (reassembly_write st (vv off) data) st (fun st => apply_frames fs st)
  | _ :: fs => apply_frames fs st
  end.

Lemma wf_vint_62 x : wf_vint x -> 0 <= vv x < 2 ^ 62.
Proof.
  intros [Hk Hv]. split; [lia|]. eapply Z.lt_le_trans; [apply Hv|]. apply Z.pow_le_mono_r; [lia|].
  unfold vlen. destruct (vk x) as [|[|[|[|]]]]; cbn; lia.
Qed.

Lemma read_frame_type (buf : bytes) off (ty : Z) rest :
  0 <= ty < 64 -> cursor buf off (byte_of_Z ty :: rest) ->
  exists off', quic_read_varint buf off = Ok (ty, off') /\ cursor buf off' rest.
Proof.
  intros Ht Hc. destruct (cursor_vint buf off {| vk := 0; vv := ty |} rest) as (o & E & Hc').
  2: split; cbn; lia.
  - unfold encode_vint, vlen; cbn [vk vv Nat.pow to_be_bytes app].
    cbn -[Z.div]. by rewrite Z.div_1_r.
  - by exists o.
Qed.

Lemma skip_ack_ranges_encode fuel (buf : bytes) off ranges rest :
  Forall (fun r => wf_vint (fst r) /\ wf_vint (snd r)) ranges ->
  cursor buf off (encode_ranges ranges ++ rest) -> (length ranges < fuel)%nat ->
  exists off', skip_ack_ranges fuel (zlen ranges) buf off = Ok off' /\ cursor buf off' rest.
Proof.
  intros H. revert fuel off. induction H as [|[g l] rs [Hg Hl] _ IH]; intros fuel off Hc Hf.
  - destruct fuel; [lia|]. exists off. by split.
  - destruct fuel as [|fuel]; [lia|]. cbn [skip_ack_ranges fst snd] in *.
    rewrite (proj2 (Z.leb_gt _ _)) by zlen_lia.
    unfold encode_ranges in *. cbn [map concat] in Hc. unfold encode_range at 1 in Hc. cbn [fst snd] in Hc.
    rewrite <- !app_assoc in Hc. read_vint_step Hc. read_vint_step Hc.
    rewrite zlen_cons. replace (1 + zlen rs - 1) with (zlen rs) by lia.
    apply IH; [done|cbn in Hf; lia].
Qed.

Lemma zlen_encode_ranges rs : 2 * zlen rs <= zlen (encode_ranges rs).
Proof.
  induction rs as [|[g l] rs IH]; [done|]. unfold encode_ranges, encode_range in *. cbn [map concat fst snd].
  zlen_simpl. pose proof (vlen_pos g). pose proof (vlen_pos l). lia.
Qed.

Lemma skip_ack_frame_encode (buf : bytes) off largest delay count first ranges ecn rest :
  wf_frame (AckFrame largest delay count first ranges ecn) ->
  cursor buf off (encode_vint largest ++ encode_vint delay ++ encode_vint count ++ encode_vint first
                  ++ encode_ranges ranges ++ encode_ecn ecn ++ rest) ->
  exists off', quic_skip_ack_frame (if ecn is Some _ then 3 else 2) buf off = Ok off' /\ cursor buf off' rest.
Proof.
  intros (? & ? & ? & ? & Hn & Hr & He) Hc. unfold quic_skip_ack_frame.
  do 4 read_vint_step Hc. rewrite Hn.
  destruct (skip_ack_ranges_encode (S (length buf)) buf o2 ranges (encode_ecn ecn ++ rest)) as (o' & -> & Hc');
    [done|done| |].
  { pose proof (zlen_encode_ranges ranges). pose proof (cursor_range _ _ _ Hc). unfold zlen in *.
    rewrite length_app in *. lia. }
  cbn [res_bind]. destruct ecn as [[[e0 e1] ce]|]; cbn [encode_ecn] in Hc'; cbn [Z.eqb Pos.eqb].
  - destruct He as (? & ? & ?). rewrite <- !app_assoc in Hc'. do 3 read_vint_step Hc'. by eexists.
  - by exists o'.
Qed.

Lemma crypto_frame_encode (buf : bytes) off o l data rest :
  wf_frame (CryptoFrame o l data) -> zlen buf <= USIZE_MAX ->
  cursor buf off (encode_vint o ++ encode_vint l ++ data ++ rest) ->
  exists off', quic_crypto_frame buf off = Ok (vv o, data, off') /\ cursor buf off' rest.
Proof.
  intros (Ho & Hl & Hd) Hb Hc. unfold quic_crypto_frame.
  pose proof (wf_vint_62 _ Ho). pose proof (wf_vint_62 _ Hl).
  read_vint_step Hc. rewrite usize_try_from_62 by lia. cbn [ok_or res_bind].
  read_vint_step Hc. rewrite usize_try_from_62 by lia. cbn [ok_or res_bind].
  rewrite Hd. destruct (cursor_bytes _ _ _ _ Hc) as (Hs & Hc' & Hle).
  rewrite checked_end_small by lia. cbn [res_bind].
  rewrite (proj2 (Z.ltb_ge _ _)) by lia. cbn [negb]. rewrite Hs. cbn [or_panic res_bind]. by eexists.
Qed.

Lemma connection_close_encode (buf : bytes) off code ty l reason rest :
  wf_frame (ConnectionCloseFrame code ty l reason) -> zlen buf <= USIZE_MAX ->
  cursor buf off (encode_vint code ++ encode_vint ty ++ encode_vint l ++ reason ++ rest) ->
  exists off', quic_skip_connection_close_frame buf off = Ok off' /\ cursor buf off' rest.
Proof.
  intros (? & ? & Hl & Hd) Hb Hc. unfold quic_skip_connection_close_frame.
  pose proof (wf_vint_62 _ Hl).
  do 3 read_vint_step Hc. rewrite usize_try_from_62 by lia. cbn [ok_or res_bind].
  rewrite Hd. destruct (cursor_bytes _ _ _ _ Hc) as (Hs & Hc' & Hle).
  rewrite checked_end_small by lia. cbn [res_bind].
  rewrite (proj2 (Z.ltb_ge _ _)) by lia. by eexists.
Qed.

Lemma initial_frames_loop_encode fuel (buf : bytes) off fs st :
  Forall wf_frame fs -> zlen buf <= USIZE_MAX -> cursor buf off (encode_frames fs) ->
  (length fs <= fuel)%nat ->
  initial_frames_loop fuel buf off st = apply_frames fs st.
Proof.
  intros H Hb. revert fuel off st. induction H as [|f fs Hf Hfs IH]; intros fuel off st Hc Hfuel.
  - apply cursor_range in Hc as [_ Hz]. change (off + 0 = zlen buf) in Hz.
    destruct fuel; cbn [initial_frames_loop]; by rewrite (proj2 (Z.ltb_ge _ _)) by lia.
  - destruct fuel as [|fuel]; cbn [length] in Hfuel; [lia|].
    unfold encode_frames in *. cbn [map concat] in Hc. cbn [initial_frames_loop].
    assert (off < zlen buf) as Hlt.
    { apply cursor_range in Hc. rewrite zlen_app in Hc. pose proof (zlen_nonneg (concat (map encode_frame fs))).
      destruct f; cbn [encode_frame] in Hc; zlen_lia. }
    rewrite (proj2 (Z.ltb_lt _ _) Hlt).
    destruct f as [| |largest delay count first ranges ecn|o l data|code ty l reason];
      cbn [encode_frame app] in Hc; rewrite <- ?app_assoc in Hc.
    + apply read_frame_type in Hc as (o & -> & Hc); [|lia]. cbn [lift_st Z.eqb Pos.eqb apply_frames]. apply IH; [done|lia].
    + apply read_frame_type in Hc as (o & -> & Hc); [|lia]. cbn [lift_st Z.eqb Pos.eqb apply_frames]. apply IH; [done|lia].
    + apply read_frame_type in Hc as (o & -> & Hc); [|destruct ecn; lia]. cbn [lift_st].
      destruct (skip_ack_frame_encode _ _ _ _ _ _ _ _ _ Hf Hc) as (o' & E & Hc').
      destruct ecn; cbn [Z.eqb Pos.eqb orb]; rewrite E; cbn [lift_st apply_frames]; (apply IH; [done|lia]).
    + apply read_frame_type in Hc as (o' & -> & Hc); [|lia]. cbn [lift_st Z.eqb Pos.eqb orb].
      destruct (crypto_frame_encode _ _ _ _ _ _ Hf Hb Hc) as (o2 & -> & Hc').
      cbn [lift_st apply_frames]. destruct (reassembly_write st (vv o) data); cbn [lift_st]; try done.
      apply IH; [done|lia].
    + apply read_frame_type in Hc as (o & -> & Hc); [|lia]. cbn [lift_st Z.eqb Pos.eqb orb].
      destruct (connection_close_encode _ _ _ _ _ _ _ Hf Hb Hc) as (o2 & -> & Hc').
      cbn [lift_st apply_frames]. apply IH; [done|lia].
Qed.

Lemma length_encode_frames fs : (length fs <= length (encode_frames fs))%nat.
Proof.
  induction fs as [|f fs IH]; [done|]. unfold encode_frames in *. cbn [map concat length].
  rewrite length_app. destruct f; cbn [encode_frame length]; lia.
Qed.

Lemma parse_frames_encode fs st :
  Forall wf_frame fs -> zlen (encode_frames fs) <= USIZE_MAX ->
  quic_parse_initial_frames (encode_frames fs) st = apply_frames fs st.
Proof.
  intros. apply initial_frames_loop_encode; [done|done|by exists []|apply length_encode_frames].
Qed.

(** * Packet protection *)

(** An Initial packet before protection; [ip_pn] holds the packet number, whole,
    in its one to four bytes, [ip_reserved] the two reserved header bits. *)
Record initial_packet := {
  ip_version : Z;
  ip_reserved : nat;
  ip_dcid : bytes;
  ip_scid : bytes;
  ip_token_len : vint;
  ip_token : bytes;
  ip_length : vint;
  ip_pn : bytes;
  ip_frames : list quic_frame;
}.

Definition initial_type (version : Z) : Z := default 0 (ip_type <$> version_params version).
Definition ip_first (p : initial_packet) : byte :=
  byte_of_Z (0xc0 + 16 * initial_type (ip_version p) + 4 * Z.of_nat (ip_reserved p) + (zlen (ip_pn p) - 1)).
(** The header after its first byte, up to the packet number. *)
Definition ip_header_tail (p : initial_packet) : bytes :=
  to_be_bytes 4 (ip_version p) ++ vec8 (ip_dcid p) ++ vec8 (ip_scid p)
  ++ encode_vint (ip_token_len p) ++ ip_token p ++ encode_vint (ip_length p).

Record wf_packet (p : initial_packet) : Prop := {
  wfp_version : is_Some (version_params (ip_version p));
  wfp_reserved : (ip_reserved p < 4)%nat;
  wfp_dcid : zlen (ip_dcid p) <= 20;
  wfp_scid : zlen (ip_scid p) <= 20;
  wfp_token_len : wf_vint (ip_token_len p) /\ vv (ip_token_len p) = zlen (ip_token p);
  wfp_pn : 1 <= zlen (ip_pn p) <= 4;
  wfp_length : wf_vint (ip_length p) /\
    vv (ip_length p) = zlen (ip_pn p) + (zlen (encode_frames (ip_frames p)) + 16);
  wfp_sample : 4 <= zlen (ip_pn p) + zlen (encode_frames (ip_frames p));
  wfp_frames : Forall wf_frame (ip_frames p);
}.

Section Sender.
Context (C : QuicCrypto) (seal : aes128gcm C -> bytes -> bytes -> bytes -> bytes).

(** RFC 9001, sections 5.3 and 5.4: seal the payload under the nonce of the
    packet number, with the header as associated data, then mask the low bits of
    the first byte and the packet number by the cipher of a sample. *)
Definition protect_packet (p : initial_packet) : udp_res bytes :=
  let? keys := ok_or UdpSniffError.ParseError (client_keys C (ip_version p) (ip_dcid p)) in
  let? aead := ok_or UdpSniffError.ParseError (aes128gcm_new C (pk_key keys)) in
  let? hp := ok_or UdpSniffError.ParseError (aes128_new C (pk_hp keys)) in
  let header := ip_first p :: ip_header_tail p ++ ip_pn p in
  let nonce := packet_nonce (pk_iv keys) (from_be_bytes (ip_pn p)) in
  let ciphertext := seal aead nonce (encode_frames (ip_frames p)) header in
  let? sample := or_panic (slice (ip_pn p ++ ciphertext) 4 20) in
  let mask := aes128_encrypt_block C hp sample in
  let? mask0 := or_panic (get mask 0) in
  let? pn_mask := or_panic (slice mask 1 (1 + zlen (ip_pn p))) in
  Ok (byte_of_Z (Z.lxor (u8 (ip_first p)) (Z.land (u8 mask0) 0x0f))
      :: ip_header_tail p ++ xor_bytes (ip_pn p) pn_mask ++ ciphertext).
End Sender.

(** ** Bits *)

Lemma u8_of_Z_land z : u8 (byte_of_Z z) = Z.land z 255.
Proof. rewrite u8_of_Z. change 255 with (Z.ones 8). by rewrite Z.land_ones by lia. Qed.

Lemma u8_land b : Z.land (u8 b) 255 = u8 b.
Proof. by rewrite <- u8_of_Z_land, byte_of_Z_u8. Qed.

Lemma land_lxor_r a b c : Z.land (Z.lxor a b) c = Z.lxor (Z.land a c) (Z.land b c).
Proof.
  apply Z.bits_inj'. intros n Hn. rewrite ?Z.land_spec, ?Z.lxor_spec, ?Z.land_spec.
  by destruct (Z.testbit a n), (Z.testbit b n), (Z.testbit c n).
Qed.

Lemma mask_cancel a k : byte_of_Z (Z.lxor (u8 (byte_of_Z (Z.lxor (u8 a) k))) k) = a.
Proof.
  apply u8_inj. rewrite !u8_of_Z_land, land_lxor_r, <- Z.land_assoc. change (Z.land 255 255) with 255.
  by rewrite <- land_lxor_r, Z.lxor_assoc, Z.lxor_nilpotent, Z.lxor_0_r, u8_land.
Qed.

Lemma mask_high_bits a m c :
  Z.land c 15 = 0 -> Z.land 255 c = c ->
  Z.land (u8 (byte_of_Z (Z.lxor (u8 a) (Z.land m 15)))) c = Z.land (u8 a) c.
Proof.
  intros H1 H2. rewrite u8_of_Z_land, <- Z.land_assoc, H2, land_lxor_r, <- Z.land_assoc.
  by rewrite (Z.land_comm 15), H1, Z.land_0_r, Z.lxor_0_r.
Qed.

Lemma xor_bytes_cancel a m : zlen a <= zlen m -> xor_bytes (xor_bytes a m) m = a.
Proof.
  revert m; induction a as [|x a IH]; intros [|y m] H; try done.
  unfold xor_bytes in *. cbn [zip_with]. rewrite IH by zlen_lia.
  f_equal. unfold xor_byte. apply mask_cancel.
Qed.

Lemma params_version v : is_Some (version_params v) ->
  v = QUIC_VERSION_V1 /\ initial_type v = 0 \/ v = QUIC_VERSION_V2 /\ initial_type v = 1 \/ v = QUIC_VERSION_DRAFT29 /\ initial_type v = 0.
Proof.
  unfold initial_type, version_params. destruct (Z.eqb_spec v 1); [auto|]. destruct (Z.eqb_spec v 0xff00001d); [auto|].
  destruct (Z.eqb_spec v 0x6b3343cf); [auto|]. by intros [].
Qed.

Lemma ip_first_bits p : wf_packet p ->
  Z.land (u8 (ip_first p)) 0x80 = 0x80 /\ Z.land (u8 (ip_first p)) 0x40 = 0x40 /\
  Z.shiftr (Z.land (u8 (ip_first p)) 0x30) 4 = initial_type (ip_version p) /\
  Z.land (u8 (ip_first p)) 3 + 1 = zlen (ip_pn p).
Proof.
  intros [Hv Hr _ _ _ Hn _ _ _]. unfold ip_first.
  destruct (ip_reserved p) as [|[|[|[|]]]]; [..|lia];
    assert (zlen (ip_pn p) = 1 \/ zlen (ip_pn p) = 2 \/ zlen (ip_pn p) = 3 \/ zlen (ip_pn p) = 4)
      as [-> |[-> |[-> | ->]]] by lia;
    by destruct (params_version _ Hv) as [[_ ->]|[[_ ->]|[_ ->]]].
Qed.

(** ** Reading a protected packet back *)

Lemma zlen_be4 z : zlen (to_be_bytes 4 z) = 4.
Proof. done. Qed.
Lemma zlen_be8 z : zlen (to_be_bytes 8 z) = 8.
Proof. done. Qed.
#[export] Hint Rewrite zlen_be4 zlen_be8 : zlen.

Lemma zlen_nonce iv pn : zlen iv = 12 -> zlen (quic_build_nonce iv pn) = 12.
Proof.
  intros Hiv. unfold quic_build_nonce. rewrite zlen_app, zlen_xor_bytes, zlen_drop.
  change 4%nat with (Z.to_nat 4). rewrite zlen_take by lia. zlen_simpl. lia.
Qed.

Lemma overwrite_head {A} (x y : A) l : overwrite (x :: l) 0 [y] = Some (y :: l).
Proof.
  assert (0 + zlen [y] <= zlen (x :: l)) by zlen_lia. unfold overwrite.
  by rewrite !(proj2 (Z.leb_le _ _)) by lia.
Qed.

Lemma vec8_byte d : zlen d <= 20 -> vec8 d = byte_of_Z (zlen d) :: d /\ u8 (byte_of_Z (zlen d)) = zlen d.
Proof.
  intros Hd. unfold vec8. cbn [to_be_bytes app]. rewrite Z.div_1_r. split; [done|].
  rewrite u8_of_Z. apply Z.mod_small. zlen_lia.
Qed.

Lemma read_u32_cursor (buf : bytes) off v rest :
  0 <= v <= U32_MAX -> cursor buf off (to_be_bytes 4 v ++ rest) ->
  quic_read_u32 buf off = Ok v /\ cursor buf (off + 4) rest.
Proof.
  intros Hv Hc. pose proof (cursor_bytes _ _ _ _ Hc) as (_ & Hc' & Hl). rewrite zlen_be4 in *.
  split; [|done]. unfold quic_read_u32. rewrite (proj2 (Z.ltb_ge _ _)) by lia. cbn [negb].
  cbn [to_be_bytes app] in Hc. 
  apply cursor_cons in Hc as (-> & Hc & _). apply cursor_cons in Hc as (-> & Hc & _).
  replace (off + 1 + 1) with (off + 2) in Hc by lia. apply cursor_cons in Hc as (-> & Hc & _).
  replace (off + 2 + 1) with (off + 3) in Hc by lia. apply cursor_cons in Hc as (-> & _ & _).
  cbn [or_panic res_bind]. f_equal. unfold u32_from_be, u16_from_be. rewrite !u8_of_Z.
  change (256 ^ Z.of_nat 3) with 16777216. change (256 ^ Z.of_nat 2) with 65536.
  change (256 ^ Z.of_nat 1) with 256. change (256 ^ Z.of_nat 0) with 1. rewrite Z.div_1_r. unfold U32_MAX in Hv.
  Z.to_euclidean_division_equations. lia.
Qed.

Section RoundTrip.
Context (C : QuicCrypto) (seal : aes128gcm C -> bytes -> bytes -> bytes -> bytes).
Context `{!QuicSealLaws C seal}.

(** The parts of a protected packet. *)
Lemma protect_packet_inv p enc :
  wf_packet p -> protect_packet C seal p = Ok enc ->
  exists keys aead hp mask0 mask1 ct,
    derive_quic_initial_keys C (ip_version p) (ip_dcid p) = Ok keys /\ zlen (iv keys) = 12 /\
    aes128gcm_new C (key keys) = Some aead /\ aes128_new C (hp_key keys) = Some hp /\
    ct = seal aead (quic_build_nonce (iv keys) (from_be_bytes (ip_pn p))) (encode_frames (ip_frames p))
           (ip_first p :: ip_header_tail p ++ ip_pn p) /\
    (exists sample, slice (ip_pn p ++ ct) 4 20 = Some sample /\
      get (aes128_encrypt_block C hp sample) 0 = Some mask0 /\
      slice (aes128_encrypt_block C hp sample) 1 (1 + zlen (ip_pn p)) = Some mask1) /\
    enc = byte_of_Z (Z.lxor (u8 (ip_first p)) (Z.land (u8 mask0) 0x0f))
      :: ip_header_tail p ++ xor_bytes (ip_pn p) mask1 ++ ct.
Proof.
  intros Hw. unfold protect_packet. destruct (derive_keys_ok C seal (ip_version p) (ip_dcid p)) as (k & -> & Ek & _ & _ & Hiv);
    [apply Hw|]. cbn [ok_or res_bind]. rewrite <- nonce_ok; [|done|].
  - intros Hp. res_inv. eexists {| hp_key := pk_hp k; key := pk_key k; iv := pk_iv k |}, _, _, _, _, _. eauto 20.
  - pose proof (from_be_range (ip_pn p)) as Hr. pose proof (wfp_pn _ Hw).
    assert (256 ^ zlen (ip_pn p) <= 256 ^ 4) by (apply Z.pow_le_mono_r; lia). lia.
Qed.

Lemma protect_packet_ok p : wf_packet p -> exists enc, protect_packet C seal p = Ok enc.
Proof.
  intros Hw. unfold protect_packet.
  destruct (derive_keys_ok C seal (ip_version p) (ip_dcid p)) as (keys & -> & _ & Hhp & Hk & _); [apply Hw|]. cbn [ok_or res_bind].
  destruct (gcm_new_ok _ Hk) as [aead ->], (aes_new_ok _ Hhp) as [hp ->]. cbn [ok_or res_bind].
  set (ct := seal _ _ _ _).
  assert (zlen ct = zlen (encode_frames (ip_frames p)) + 16) as Hct by apply seal_len.
  destruct Hw as [_ _ _ _ _ Hpnl _ Hsl _]. destruct (slice_is_Some (ip_pn p ++ ct) 4 20) as (sample & -> & Hs); [lia|lia|zlen_lia|].
  cbn [or_panic res_bind]. set (mask := aes128_encrypt_block C hp sample).
  assert (zlen mask = 16) as Hm by (apply aes128_block_len; lia).
  destruct (get_is_Some mask 0) as [m0 ->]; [lia|lia|].
  destruct (slice_is_Some mask 1 (1 + zlen (ip_pn p))) as (m1 & -> & _); [lia|lia|lia|]. cbn. eauto.
Qed.

Lemma unprotect_protected p enc keys datagram pre rest :
  wf_packet p -> protect_packet C seal p = Ok enc ->
  derive_quic_initial_keys C (ip_version p) (ip_dcid p) = Ok keys ->
  datagram = pre ++ enc ++ rest -> zlen datagram <= USIZE_MAX - 20 ->
  quic_remove_header_protection_and_decrypt C datagram (zlen pre)
    (zlen pre + 1 + zlen (ip_header_tail p)) (zlen pre + zlen enc) keys =
  Ok (encode_frames (ip_frames p)).
Proof.
  intros Hw Hp Hk Hd Hmax. destruct (protect_packet_inv p enc Hw Hp)
    as (keys' & aead & hp & m0 & m1 & ct & Hk' & Hiv & Hgcm & Haes & Hct & (sample & Hsm & Hm0 & Hm1) & He).
  rewrite Hk in Hk'. injection Hk' as <-.
  assert (zlen ct = zlen (encode_frames (ip_frames p)) + 16) as Hctl by (rewrite Hct; apply seal_len).
  destruct (ip_first_bits p Hw) as (_ & _ & _ & Hpn). destruct Hw as [_ _ _ _ _ Hpnl _ Hsample _].
  pose proof (slice_Some_inv _ _ _ _ Hm1) as (_ & _ & Hm1l).
  set (ht := ip_header_tail p) in *. set (pn' := xor_bytes (ip_pn p) m1) in *.
  assert (zlen pn' = zlen (ip_pn p)) as Hpn' by (subst pn'; rewrite zlen_xor_bytes; lia).
  set (first' := byte_of_Z _) in *.
  assert (zlen enc = 1 + zlen ht + zlen pn' + zlen ct) as Henc by (rewrite He; zlen_simpl; lia).
  assert (zlen datagram = zlen pre + zlen enc + zlen rest) as Hdl by (rewrite Hd; zlen_simpl; lia).
  pose proof (zlen_nonneg pre). pose proof (zlen_nonneg ht). pose proof (zlen_nonneg rest).
  pose proof (zlen_nonneg (encode_frames (ip_frames p))).
  unfold quic_remove_header_protection_and_decrypt.
  rewrite (proj2 (Z.ltb_ge _ _)), (proj2 (Z.leb_gt _ _)) by lia. cbn [orb negb].
  rewrite !checked_end_small by lia. cbn [res_bind]. rewrite checked_end_small by lia. cbn [res_bind].
  rewrite (proj2 (Z.ltb_ge _ _)) by lia. cbn [negb].
  assert (sample = take 16 (drop (Z.to_nat (4 - zlen (ip_pn p))) ct)) as Hsample'.
  { clear -Hsm Hpnl. destruct (slice_split _ _ _ _ Hsm) as (l1 & l3 & E & H1 & H2).
    apply (f_equal (drop (Z.to_nat 4))) in E. rewrite drop_app_ge in E by (unfold zlen in *; lia).
    rewrite drop_app_ge in E by (unfold zlen in *; lia).
    replace (Z.to_nat 4 - length l1)%nat with 0%nat in E by (unfold zlen in *; lia). rewrite drop_0 in E.
    replace (Z.to_nat (4 - zlen (ip_pn p))) with (Z.to_nat 4 - length (ip_pn p))%nat by (unfold zlen in *; lia).
    rewrite E. replace 16%nat with (length sample) by (unfold zlen in *; lia). by rewrite take_app_length. }
  assert (slice datagram (zlen pre + 1 + zlen ht + 4) (zlen pre + 1 + zlen ht + 4 + 16) = Some sample) as ->.
  { apply (slice_at _ (pre ++ first' :: ht ++ pn' ++ take (Z.to_nat (4 - zlen (ip_pn p))) ct) sample
             (drop 16 (drop (Z.to_nat (4 - zlen (ip_pn p))) ct) ++ rest)).
    - rewrite Hd, He, Hsample'. rewrite <- !app_assoc. cbn [app]. rewrite <- !app_assoc. do 4 f_equal.
      rewrite (app_assoc (take 16 _)), take_drop. by rewrite app_assoc, take_drop.
    - zlen_simpl. rewrite zlen_take by lia. lia.
    - apply slice_Some_inv in Hsm as (_ & _ & ->). lia. }
  cbn [or_panic res_bind]. rewrite Haes. cbn [ok_or res_bind].
  rewrite (get_at datagram pre (ht ++ pn' ++ ct ++ rest) first') by
    (rewrite ?Hd, ?He; cbn [app]; rewrite <- ?app_assoc; done).
  rewrite Hm0. cbn [or_panic res_bind]. unfold first'. rewrite mask_cancel, Hpn.
  replace ((zlen (ip_pn p) =? 0) || (4 <? zlen (ip_pn p))) with false by lia. cbn [negb].
  rewrite (proj2 (Z.ltb_ge _ _)) by lia. cbn [negb].
  rewrite (slice_at datagram (pre ++ first' :: ht) pn' (ct ++ rest)) by
    (rewrite ?Hd, ?He; (app_eq || (zlen_simpl; lia))).
  rewrite Hm1. cbn [or_panic res_bind]. unfold pn'. rewrite xor_bytes_cancel by lia. fold pn'.
  rewrite (slice_at datagram pre (first' :: ht) (pn' ++ ct ++ rest)) by
    (rewrite ?Hd, ?He; (app_eq || (zlen_simpl; lia))).
  cbn [or_panic res_bind]. rewrite overwrite_head. cbn [or_panic res_bind].
  rewrite (slice_at datagram (pre ++ first' :: ht ++ pn') ct rest) by
    (rewrite ?Hd, ?He; (app_eq || (zlen_simpl; lia))).
  cbn [or_panic res_bind]. rewrite (proj2 (Z.ltb_ge _ _)) by lia. cbn [negb].
  rewrite Hgcm. cbn [ok_or res_bind]. rewrite zlen_nonce by done. cbn [Z.eqb Pos.eqb].
  change ((ip_first p :: ht) ++ ip_pn p) with (ip_first p :: ht ++ ip_pn p).
  rewrite Hct. change (fold_left _ (ip_pn p) 0) with (from_be_bytes (ip_pn p)). by rewrite open_seal.
Qed.
End RoundTrip.
