(* ===== verification/QuicSession.v ===== *)
(** Whole QUIC Initial datagrams and sessions: what a sender protects is
    delivered frame by frame, and a ClientHello whose fragments arrive in any
    order, over any number of packets and datagrams, gives its host name. *)

From Stdlib Require Import Strings.Byte Strings.String.
From S2P Require Import Prelude Bytes Hostname Sniff Tls TlsHello TlsRecords Quic QuicReassembly QuicPackets QuicKeys QuicEncode.

(** The effect of one packet: a new destination connection id empties the
    buffer, then the CRYPTO frames are written. *)
Definition deliver_packet (p : initial_packet) (st : QuicCryptoReassembly) : stateful unit :=
  apply_frames (ip_frames p) (note_dcid st (ip_dcid p)).

Section Delivery.
Context (C : QuicCrypto) (seal : aes128gcm C -> bytes -> bytes -> bytes -> bytes).
Context `{!QuicSealLaws C seal}.

Lemma packet_head_encode datagram off p b rest :
  wf_packet p ->
  Z.land (u8 b) 0x80 = 0x80 -> Z.land (u8 b) 0x40 = 0x40 ->
  Z.shiftr (Z.land (u8 b) 0x30) 4 = initial_type (ip_version p) ->
  cursor datagram off (b :: to_be_bytes 4 (ip_version p) ++ vec8 (ip_dcid p) ++ rest) ->
  exists off', quic_packet_head datagram off = Ok (ip_version p, ip_dcid p, off') /\
    cursor datagram off' rest.
Proof.
  intros Hw H80 H40 Hty Hc. destruct Hw as [Hv _ Hd _ _ _ _ _ _].
  pose proof (cursor_range _ _ _ Hc) as [? ?]. unfold quic_packet_head.
  apply cursor_cons in Hc as (Hb & Hc & Hl). rewrite (proj2 (Z.leb_gt _ _)) by lia. cbn [negb].
  rewrite Hb. cbn [or_panic res_bind]. rewrite H80, H40. cbn [Z.eqb orb negb].
  pose proof (params_version _ Hv) as Hvc.
  apply read_u32_cursor in Hc as [-> Hc]; [|destruct Hvc as [[-> _]|[[-> _]|[-> _]]]; by vm_compute].
  cbn [res_bind]. rewrite bool_decide_eq_true_2 by (rewrite salt_ok; destruct Hv as [? ->]; by eexists).
  rewrite Hty. assert ((if (ip_version p =? QUIC_VERSION_V1) || (ip_version p =? QUIC_VERSION_DRAFT29)
    then initial_type (ip_version p) =? 0 else if ip_version p =? QUIC_VERSION_V2
    then initial_type (ip_version p) =? 1 else false) = true) as ->
    by (destruct Hvc as [[-> _]|[[-> _]|[-> _]]]; done).
  destruct (vec8_byte (ip_dcid p) Hd) as [Ev Hu]. rewrite Ev in Hc. cbn [app] in Hc.
  apply cursor_cons in Hc as (-> & Hc & _). cbn [ok_or res_bind]. rewrite Hu.
  rewrite (proj2 (Z.ltb_ge _ _)) by lia. cbn [negb].
  apply cursor_bytes in Hc as (Hs & Hc & Hle). rewrite (proj2 (Z.ltb_ge _ _)) by lia. cbn [negb].
  rewrite Hs. cbn [or_panic res_bind]. by eexists.
Qed.

Lemma parse_one_protected p enc datagram pre rest st :
  wf_packet p -> protect_packet C seal p = Ok enc ->
  datagram = pre ++ enc ++ rest -> zlen datagram <= QUIC_SNI_INPUT_CAP ->
  quic_parse_one_initial_packet C datagram (zlen pre) st =
  let '(r, st') := deliver_packet p st in
  lift_st r st' (fun _ => (Ok (zlen pre + zlen enc), st')).
Proof.
  intros Hw Hp Hd Hmax. unfold QUIC_SNI_INPUT_CAP in Hmax.
  destruct (protect_packet_inv C seal p enc Hw Hp)
    as (keys & aead & hp & m0 & m1 & ct & Hk & _ & _ & _ & Hct & (sample & _ & _ & Hm1) & He).
  assert (zlen ct = zlen (encode_frames (ip_frames p)) + 16) as Hctl by (rewrite Hct; apply seal_len).
  pose proof (slice_Some_inv _ _ _ _ Hm1) as (_ & _ & Hm1l).
  destruct (ip_first_bits p Hw) as (H80 & H40 & Hty & _).
  set (b := byte_of_Z _) in He.
  assert (cursor datagram (zlen pre) (b :: to_be_bytes 4 (ip_version p) ++ vec8 (ip_dcid p) ++
    (vec8 (ip_scid p) ++ encode_vint (ip_token_len p) ++ ip_token p ++ encode_vint (ip_length p) ++
     xor_bytes (ip_pn p) m1 ++ ct ++ rest))) as Hc.
  { exists pre. split; [|done]. rewrite Hd, He. unfold ip_header_tail. app_eq. }
  unfold quic_parse_one_initial_packet.
  rewrite <- (mask_high_bits (ip_first p) (u8 m0)) in H80, H40, Hty by done. fold b in H80, H40, Hty.
  destruct (packet_head_encode datagram (zlen pre) p b _ Hw H80 H40 Hty Hc) as (off & -> & Hc2).
  clear Hc. cbn [lift_st].
  pose proof (zlen_nonneg pre). pose proof (zlen_nonneg rest).
  assert (zlen datagram = zlen pre + zlen enc + zlen rest) as Hdl by (rewrite Hd; zlen_simpl; lia).
  assert (quic_packet_payload C datagram (zlen pre) (ip_version p) (ip_dcid p) off =
    Ok (encode_frames (ip_frames p), zlen pre + zlen enc)) as ->.
  { unfold quic_packet_payload. pose proof Hw as [_ _ _ Hsc [Htl Htv] Hpn [Hll Hlv] _ _].
    destruct (vec8_byte (ip_scid p) Hsc) as [Ev Hu]. rewrite Ev in Hc2. cbn [app] in Hc2.
    apply cursor_cons in Hc2 as (-> & Hc2 & _). cbn [ok_or res_bind]. rewrite Hu.
    rewrite (proj2 (Z.ltb_ge _ _)) by lia. cbn [negb].
    apply cursor_bytes in Hc2 as (_ & Hc2 & Hle). rewrite (proj2 (Z.ltb_ge _ _)) by lia. cbn [negb].
    pose proof (wf_vint_62 _ Htl). pose proof (wf_vint_62 _ Hll).
    read_vint_step Hc2. rewrite usize_try_from_62 by lia. cbn [ok_or res_bind]. rewrite Htv.
    apply cursor_bytes in Hc2 as (_ & Hc2 & Hle2). rewrite checked_end_small by (unfold_ints; lia).
    cbn [res_bind]. rewrite (proj2 (Z.ltb_ge _ _)) by lia. cbn [negb].
    read_vint_step Hc2. unfold as_usize. rewrite Z.mod_small by (unfold_ints; lia). rewrite Hlv.
    set (pe := encode_frames (ip_frames p)) in *. pose proof (zlen_nonneg pe).
    rewrite (proj2 (Z.eqb_neq _ _)) by lia. cbn [negb].
    assert (o0 = zlen pre + 1 + zlen (ip_header_tail p)) as Ho.
    { apply cursor_range in Hc2. rewrite Hdl, He in Hc2. zlen_simpl. rewrite zlen_xor_bytes in Hc2. lia. }
    assert (zlen enc = 1 + zlen (ip_header_tail p) + zlen (ip_pn p) + zlen ct) as Hel.
    { rewrite He. zlen_simpl. rewrite zlen_xor_bytes. lia. }
    rewrite checked_end_small by (unfold_ints; lia). cbn [res_bind].
    rewrite (proj2 (Z.ltb_ge _ _)) by lia. cbn [negb]. rewrite Hk. cbn [res_bind].
    replace (o0 + (zlen (ip_pn p) + (zlen pe + 16))) with (zlen pre + zlen enc) by lia. rewrite Ho.
    rewrite (unprotect_protected C seal p enc keys datagram pre rest Hw Hp Hk Hd) by (unfold_ints; lia).
    done. }
  cbn [lift_st]. rewrite parse_frames_encode; [done|apply Hw|].
  assert (zlen ct <= zlen enc) by (rewrite He; zlen_lia). unfold_ints. lia.
Qed.
End Delivery.

(** * One message over packets and datagrams *)

Definition crypto_fragments (fs : list quic_frame) : list fragment :=
  omap (fun f => match f with CryptoFrame off _ data => Some (vv off, data) | _ => None end) fs.
Definition packet_fragments (ps : list initial_packet) : list fragment :=
  concat (map (fun p => crypto_fragments (ip_frames p)) ps).

(** Initial packets of one connection whose CRYPTO frames carry [m]. *)
Record carries (m dcid : bytes) (p : initial_packet) : Prop := {
  carries_wf : wf_packet p;
  carries_dcid : ip_dcid p = dcid;
  carries_fragments : Forall (fragment_of m) (crypto_fragments (ip_frames p));
}.

(** A state of the session that has only seen packets carrying [m]. *)
Record session_of (m dcid : bytes) (st : QuicCryptoReassembly) : Prop := {
  session_wf : wf_reassembly st;
  session_consistent : consistent m st;
  session_dcid : last_dcid st = None \/ last_dcid st = Some dcid;
}.

Definition complete (m : bytes) (st : QuicCryptoReassembly) : Prop :=
  forall i, 0 <= i < zlen m -> covered st i.

Lemma session_new m dcid : session_of m dcid reassembly_new.
Proof. split; [apply wf_new|apply consistent_new|by left]. Qed.

Lemma apply_frames_ok m fs st :
  wf_reassembly st -> consistent m st -> zlen m <= QUIC_CRYPTO_REASSEMBLY_CAP ->
  Forall (fragment_of m) (crypto_fragments fs) ->
  exists st', apply_frames fs st = (Ok tt, st') /\ wf_reassembly st' /\ consistent m st' /\
    last_dcid st' = last_dcid st /\
    forall i, covered st' i <-> Exists (in_fragment i) (crypto_fragments fs) \/ covered st i.
Proof.
  intros Hwf Hm Hcap. revert st Hwf Hm. induction fs as [|f fs IH]; intros st Hwf Hm Hf.
  - exists st. split; [done|]. do 3 (split; [done|]). intros i. rewrite Exists_nil. tauto.
  - destruct f as [| | |off len data|]; cbn [apply_frames crypto_fragments omap list_omap] in *; try by apply IH.
    apply Forall_cons_1 in Hf as [Hf Hfs].
    destruct (reassembly_write_fragment m st (vv off, data)) as (st1 & Hw & Hwf1 & Hm1 & Hd1 & Hc1); try done.
    cbn [fst snd] in Hw. rewrite Hw. cbn [lift_st].
    destruct (IH st1) as (st2 & -> & ? & ? & Hd2 & Hc2); try done.
    exists st2. split; [done|]. do 2 (split; [done|]). split; [congruence|].
    intros i. rewrite Hc2, Hc1, Exists_cons. tauto.
Qed.

Lemma note_dcid_same m dcid st :
  session_of m dcid st -> last_dcid (note_dcid st dcid) = Some dcid /\
  wf_reassembly (note_dcid st dcid) /\ consistent m (note_dcid st dcid) /\
  forall i, covered (note_dcid st dcid) i <-> covered st i.
Proof.
  intros [Hwf Hm Hd]. unfold note_dcid.
  assert ((match last_dcid st with
    | Some last => if negb (bool_decide (last = dcid)) then reassembly_reset st else st
    | None => st end) = st) as ->.
  { destruct Hd as [-> | ->]; [done|]. by rewrite bool_decide_eq_true_2. }
  split; [done|]. split; [by apply wf_set_last_dcid|]. by split.
Qed.

Lemma deliver_packet_ok m dcid p st :
  carries m dcid p -> session_of m dcid st -> zlen m <= QUIC_CRYPTO_REASSEMBLY_CAP ->
  exists st', deliver_packet p st = (Ok tt, st') /\ session_of m dcid st' /\
    forall i, covered st' i <-> Exists (in_fragment i) (crypto_fragments (ip_frames p)) \/ covered st i.
Proof.
  intros [_ Hpd Hf] Hs Hcap. unfold deliver_packet. rewrite Hpd.
  destruct (note_dcid_same m dcid st Hs) as (Hd & Hwf & Hm & Hc).
  destruct (apply_frames_ok m (ip_frames p) _ Hwf Hm Hcap Hf) as (st' & -> & ? & ? & Hd' & Hc').
  exists st'. split; [done|]. split; [split; [done|done|right; congruence]|].
  intros i. by rewrite Hc', Hc.
Qed.

(** On a prefix of the handshake message the parser asks for more; on the whole
    message it gives the verdict on the ClientHello body. *)
Lemma quic_parse_tls_prefix body n :
  zlen (handshake_message body) <= QUIC_CRYPTO_REASSEMBLY_CAP -> (n <= length (handshake_message body))%nat ->
  quic_parse_tls_client_hello_from_crypto (take n (handshake_message body)) =
  if Z.of_nat n <? zlen (handshake_message body) then Err UdpSniffError.InsufficientPrefix
  else res_map_err from_tls_error (parse_sni_from_client_hello_body body).
Proof.
  intros Hcap Hn. set (m := handshake_message body) in *. unfold QUIC_CRYPTO_REASSEMBLY_CAP in Hcap.
  assert (zlen m = 4 + zlen body) as Hm by apply zlen_handshake_message. pose proof (zlen_nonneg body).
  unfold quic_parse_tls_client_hello_from_crypto.
  assert (zlen (take n m) = Z.of_nat n) as Ht by (unfold zlen; rewrite length_take; lia). rewrite Ht.
  destruct (Z.ltb_spec (Z.of_nat n) 4); cbn [negb].
  { by rewrite (proj2 (Z.ltb_lt _ _)) by lia. }
  rewrite <- (get_prefix (take n m) (drop n m)), <- (slice_prefix (take n m) (drop n m)) by lia.
  rewrite take_drop. unfold m at 1 2, handshake_message.
  rewrite (get_mid [] (to_be_bytes 3 (zlen body) ++ body) (byte_of_Z 1)) by done. cbn [or_panic res_bind].
  rewrite u8_of_Z. cbn [Z.modulo Z.eqb]. rewrite (proj2 (Z.eqb_eq _ _)) by done.
  rewrite (slice_at _ [byte_of_Z 1] (to_be_bytes 3 (zlen body)) body) by done. cbn [or_panic res_bind].
  rewrite be_u24_encode by lia. cbn [res_map_err res_bind].
  rewrite checked_end_small by (unfold_ints; lia). cbn [res_bind]. unfold QUIC_CRYPTO_REASSEMBLY_CAP.
  rewrite (proj2 (Z.ltb_ge _ _)) by lia. cbn [negb]. rewrite <- Hm.
  destruct (Z.ltb_spec (Z.of_nat n) (zlen m)); cbn [negb]; [done|].
  rewrite take_ge by (unfold zlen in *; lia). rewrite Hm.
  rewrite (slice_at m (byte_of_Z 1 :: to_be_bytes 3 (zlen body)) body []); [done| |zlen_simpl; lia|zlen_simpl; lia].
  by rewrite app_nil_r.
Qed.

Lemma client_hello_progress body dcid st host :
  zlen (handshake_message body) <= QUIC_CRYPTO_REASSEMBLY_CAP ->
  parse_sni_from_client_hello_body body = Ok host ->
  session_of (handshake_message body) dcid st ->
  (complete (handshake_message body) st /\
   (let? c := contiguous st in quic_parse_tls_client_hello_from_crypto c) = Ok host) \/
  (~ complete (handshake_message body) st /\
   (let? c := contiguous st in quic_parse_tls_client_hello_from_crypto c) = Err UdpSniffError.InsufficientPrefix).
Proof.
  intros Hcap Hb [Hwf Hm _]. destruct (contiguous_prefix _ st Hwf Hm) as (n & -> & Hn & Hcov & Hgap).
  cbn [res_bind]. rewrite quic_parse_tls_prefix by done. set (m := handshake_message body) in *.
  destruct (Z.ltb_spec (Z.of_nat n) (zlen m)).
  - right. split; [|done]. intros Hc. apply Hgap, Hc. lia.
  - left. rewrite Hb. split; [|done]. intros i Hi. apply Hcov. lia.
Qed.

Section Session.
Context (C : QuicCrypto) (seal : aes128gcm C -> bytes -> bytes -> bytes -> bytes).
Context `{!QuicSealLaws C seal}.
(** The ClientHello body, its host name, and the client's first connection id. *)
Context (body host dcid : bytes).
Context (Hcap : zlen (handshake_message body) <= QUIC_CRYPTO_REASSEMBLY_CAP).
Context (Hbody : parse_sni_from_client_hello_body body = Ok host).

(** Coalesced protected packets followed by zero padding. *)
Fixpoint protect_all (ps : list initial_packet) : udp_res bytes :=
  match ps with
  | [] => Ok []
  | p :: ps => let? enc := protect_packet C seal p in let? rest := protect_all ps in Ok (enc ++ rest)
  end.
Definition padding (n : nat) : bytes := replicate n x00.

Lemma padding_rejected pre n st :
  (0 < n)%nat ->
  quic_parse_one_initial_packet C (pre ++ padding n) (zlen pre) st = (Err UdpSniffError.ProtocolNotMatched, st).
Proof.
  intros Hn. destruct n as [|n]; [lia|]. unfold quic_parse_one_initial_packet, quic_packet_head.
  unfold padding. cbn [replicate]. rewrite (proj2 (Z.leb_gt _ _)) by zlen_lia. cbn [negb].
  by rewrite get_mid.
Qed.

Lemma protect_packet_nonempty p enc : protect_packet C seal p = Ok enc -> 1 < zlen enc.
Proof. unfold protect_packet, ip_header_tail. intros H. res_inv. zlen_lia. Qed.

Lemma session_loop ps encs n fuel pre saw st :
  protect_all ps = Ok encs -> Forall (carries (handshake_message body) dcid) ps ->
  session_of (handshake_message body) dcid st ->
  zlen (pre ++ encs ++ padding n) <= QUIC_SNI_INPUT_CAP -> (length ps < fuel)%nat ->
  (ps = [] -> saw = true /\ ~ complete (handshake_message body) st) ->
  exists st', session_of (handshake_message body) dcid st' /\
    ((complete (handshake_message body) st' /\
      datagram_loop C fuel (pre ++ encs ++ padding n) (zlen pre) saw st = (Ok host, st') /\
      forall i, covered st' i -> Exists (in_fragment i) (packet_fragments ps) \/ covered st i) \/
     (~ complete (handshake_message body) st' /\
      datagram_loop C fuel (pre ++ encs ++ padding n) (zlen pre) saw st
        = (Err UdpSniffError.InsufficientPrefix, st') /\
      forall i, covered st' i <-> Exists (in_fragment i) (packet_fragments ps) \/ covered st i)).
Proof.
  revert encs fuel pre saw st. induction ps as [|p ps IH]; intros encs fuel pre saw st He Hc Hs Hl Hf Hnil;
    (destruct fuel as [|fuel]; [cbn in Hf; lia|]); cbn [protect_all] in He.
  - injection He as <-. destruct (Hnil eq_refl) as [-> Hinc]. cbn [app datagram_loop].
    exists st. split; [done|]. right. split; [done|]. split; [|intros; cbn; rewrite Exists_nil; tauto].
    destruct (Z.ltb_spec (zlen pre) (zlen (pre ++ padding n))); [|done].
    destruct n as [|n]; [cbn in *; rewrite app_nil_r in *; lia|]. rewrite padding_rejected by lia. done.
  - res_inv. apply Forall_cons_1 in Hc as [Hp Hps]. rename a into enc, a0 into rest.
    rewrite <- !app_assoc in *. set (tl := rest ++ padding n) in *. cbn [datagram_loop].
    pose proof (protect_packet_nonempty _ _ H).
    rewrite (proj2 (Z.ltb_lt _ _)) by zlen_lia.
    rewrite (parse_one_protected C seal p enc _ pre tl) by (done || apply Hp).
    destruct (deliver_packet_ok _ dcid p st Hp Hs Hcap) as (st1 & -> & Hs1 & Hc1). cbn [lift_st].
    destruct (client_hello_progress body dcid st1 host Hcap Hbody Hs1) as [[Hco ->]|[Hinc ->]].
    + exists st1. split; [done|]. left. split; [done|]. split; [done|]. intros i Hi.
      unfold packet_fragments. cbn [map concat]. rewrite Exists_app. apply Hc1 in Hi. tauto.
    + replace (zlen pre + zlen enc) with (zlen (pre ++ enc)) by (zlen_simpl; lia).
      rewrite (app_assoc pre enc tl). subst tl.
      destruct (IH rest fuel (pre ++ enc) true st1) as (st2 & Hs2 & Hst2);
        [done|done|done|by rewrite <- app_assoc|cbn in Hf; lia|by intros ->|].
      exists st2. split; [done|]. unfold packet_fragments. cbn [map concat].
      destruct Hst2 as [(Hco2 & -> & Hc2)|(Hinc2 & -> & Hc2)]; [left|right]; (split; [done|]; split; [done|]).
      * intros i Hi. rewrite Exists_app. apply Hc2 in Hi. rewrite Hc1 in Hi. tauto.
      * intros i. rewrite Exists_app, Hc2, Hc1. tauto.
Qed.

(** A datagram: packets and padding, within the sniffer's input cap. *)
Record datagram_of (d : list initial_packet) (enc : bytes) : Prop := {
  datagram_nonempty : d <> [];
  datagram_carries : Forall (carries (handshake_message body) dcid) d;
  datagram_bytes : exists encs n, protect_all d = Ok encs /\ enc = encs ++ padding n;
  datagram_cap : zlen enc <= QUIC_SNI_INPUT_CAP;
}.

Lemma protect_all_length ps encs : protect_all ps = Ok encs -> (2 * length ps <= length encs)%nat.
Proof.
  revert encs; induction ps as [|p ps IH]; intros encs H; cbn [protect_all] in H; [cbn; lia|]. res_inv.
  pose proof (protect_packet_nonempty _ _ H0). specialize (IH _ H1). rewrite length_app. unfold zlen in *. cbn. lia.
Qed.

Lemma protect_packet_first p enc :
  wf_packet p -> protect_packet C seal p = Ok enc ->
  exists b r, enc = b :: r /\ Z.land (u8 b) 0x80 = 0x80 /\ Z.land (u8 b) 0x40 = 0x40.
Proof.
  intros Hw Hp. destruct (protect_packet_inv C seal p enc Hw Hp)
    as (keys & aead & hp & m0 & m1 & ct & _ & _ & _ & _ & _ & _ & ->).
  destruct (ip_first_bits p Hw) as (H80 & H40 & _ & _).
  eexists _, _. split; [done|]. by rewrite !mask_high_bits.
Qed.

Lemma sniff_datagram_of d enc st :
  datagram_of d enc -> session_of (handshake_message body) dcid st ->
  exists st', session_of (handshake_message body) dcid st' /\
    ((complete (handshake_message body) st' /\
      sniff_quic_sni_from_datagram_with_reassembly C enc st = (Ok host, st') /\
      forall i, covered st' i -> Exists (in_fragment i) (packet_fragments d) \/ covered st i) \/
     (~ complete (handshake_message body) st' /\
      sniff_quic_sni_from_datagram_with_reassembly C enc st = (Err UdpSniffError.InsufficientPrefix, st') /\
      forall i, covered st' i <-> Exists (in_fragment i) (packet_fragments d) \/ covered st i)).
Proof.
  intros [Hne Hc (encs & n & Hp & ->) Hl] Hs. unfold sniff_quic_sni_from_datagram_with_reassembly.
  destruct d as [|p ps]; [done|]. pose proof Hp as Hp'. cbn [protect_all] in Hp'. res_inv.
  rename a into enc, a0 into rest. pose proof Hc as [Hcp _]%Forall_cons_1.
  destruct (protect_packet_first p enc) as (b & r & -> & H80 & H40); [apply Hcp|done|].
  rewrite bool_decide_eq_false_2 by done. rewrite Z.min_l by done. rewrite slice_full.
  cbn [or_panic lift_st app]. rewrite (get_at _ [] (r ++ rest ++ padding n) b) by (done || app_eq).
  cbn [or_panic lift_st]. rewrite H80, H40. cbn [Z.eqb orb].
  pose proof (protect_all_length _ _ Hp) as Hlen. cbn [app length] in Hp, Hlen, Hl |- *.
  apply (session_loop (p :: ps) (b :: r ++ rest) n _ [] false st); try done.
  cbn [length app] in *. rewrite !length_app in *. lia.
Qed.

Lemma feed_datagram_of d enc st :
  datagram_of d enc -> session_of (handshake_message body) dcid st ->
  exists st', session_of (handshake_message body) dcid st' /\
    ((complete (handshake_message body) st' /\
      quic_feed C st enc = (Ok (UdpSniffOutcome.Matched QuicSni host), st') /\
      forall i, covered st' i -> Exists (in_fragment i) (packet_fragments d) \/ covered st i) \/
     (~ complete (handshake_message body) st' /\
      quic_feed C st enc = (Ok (UdpSniffOutcome.NeedMore QuicSni), st') /\
      forall i, covered st' i <-> Exists (in_fragment i) (packet_fragments d) \/ covered st i)).
Proof.
  intros Hd Hs. destruct (sniff_datagram_of d enc st Hd Hs) as (st' & Hs' & Hst'). exists st'.
  split; [done|]. unfold quic_feed. by destruct Hst' as [(? & -> & ?)|(? & -> & ?)]; [left|right].
Qed.

(** Feeds datagrams until the session has a verdict. *)
Fixpoint feed_all (st : QuicCryptoReassembly) (encs : list bytes) : pure_res UdpSniffOutcome.UdpSniffOutcome :=
  match encs with
  | [] => Ok (UdpSniffOutcome.NeedMore QuicSni)
  | enc :: encs =>
      match quic_feed C st enc with
      | (Ok (UdpSniffOutcome.NeedMore _), st) => feed_all st encs
      | (o, _) => o
      end
  end.

Lemma feed_all_ok ds encs st :
  Forall2 datagram_of ds encs -> session_of (handshake_message body) dcid st ->
  ~ complete (handshake_message body) st ->
  ((forall i, 0 <= i < zlen (handshake_message body) ->
      Exists (in_fragment i) (concat (map packet_fragments ds)) \/ covered st i) ->
    feed_all st encs = Ok (UdpSniffOutcome.Matched QuicSni host)) /\
  (~ (forall i, 0 <= i < zlen (handshake_message body) ->
      Exists (in_fragment i) (concat (map packet_fragments ds)) \/ covered st i) ->
    feed_all st encs = Ok (UdpSniffOutcome.NeedMore QuicSni)).
Proof.
  intros H. revert st. induction H as [|d enc ds encs Hd _ IH]; intros st Hs Hinc; cbn [feed_all map concat].
  - split; [|done]. intros Hall. destruct Hinc. intros i Hi. by destruct (Hall i Hi) as [[]%Exists_nil|].
  - destruct (feed_datagram_of d enc st Hd Hs) as (st1 & Hs1 & [(Hco & -> & Hc)|(Hinc1 & -> & Hc)]).
    + split; [done|]. intros Hn. destruct Hn. intros i Hi. rewrite Exists_app.
      apply Hco, Hc in Hi. tauto.
    + destruct (IH st1 Hs1 Hinc1) as [IH1 IH2]. split; intros Hall.
      * apply IH1. intros i Hi. specialize (Hall i Hi). rewrite Exists_app in Hall. rewrite Hc. tauto.
      * apply IH2. intros Hall'. apply Hall. intros i Hi. specialize (Hall' i Hi).
        rewrite Exists_app. rewrite Hc in Hall'. tauto.
Qed.
End Session.

(** * An instance of the cryptographic interface

    Not cryptography: the functions of the right shape that the examples below
    evaluate. Sealing appends a 16-byte tag, the block cipher is the identity. *)
Definition toy_crypto : QuicCrypto := {|
  hkdf := bytes;
  hkdf_extract := fun salt ikm => salt ++ ikm;
  hkdf_from_prk := fun prk => if 32 <=? zlen prk then Some prk else None;
  hkdf_expand := fun _ _ n => if (0 <=? n) && (n <=? 255 * 32) then Some (replicate (Z.to_nat n) "k"%byte) else None;
  aes128 := bytes;
  aes128_new := fun k => if zlen k =? 16 then Some k else None;
  aes128_encrypt_block := fun _ block => block;
  aes128gcm := bytes;
  aes128gcm_new := fun k => if zlen k =? 16 then Some k else None;
  aes128gcm_decrypt := fun _ _ msg _ =>
    if ends_with (replicate 16 "t"%byte) msg then Some (take (length msg - 16) msg) else None;
|}.
Definition toy_seal : aes128gcm toy_crypto -> bytes -> bytes -> bytes -> bytes :=
  fun _ _ pt _ => pt ++ replicate 16 "t"%byte.

#[export] Instance toy_laws : QuicSealLaws toy_crypto toy_seal.
Proof.
  split.
  - split; cbn.
    + intros _ _ n out. destruct (Z.leb_spec 0 n), (Z.leb_spec n (255 * 32)); try done.
      cbn. intros [= <-]. zlen_simpl. lia.
    + done.
  - intros prk Hl. cbn. rewrite Hl. eauto.
  - intros hk info n Hn. cbn. rewrite !(proj2 (Z.leb_le _ _)) by lia. eauto.
  - intros k Hl. cbn. rewrite Hl. eauto.
  - intros k Hl. cbn. rewrite Hl. eauto.
  - intros g nonce pt aad. unfold toy_seal. cbn -[ends_with Nat.sub].
    rewrite (proj2 (ends_with_spec _ _)) by eauto. rewrite length_app. cbn [length].
    replace (length pt + 16 - 16)%nat with (length pt) by lia. by rewrite take_app_length.
  - intros. unfold toy_seal. by zlen_simpl.
Qed.

Definition example_body : bytes := encode_client_hello example_hello.
Definition example_message : bytes := handshake_message example_body.
Definition example_packet (fs : list quic_frame) : initial_packet := {|
  ip_version := QUIC_VERSION_V1; ip_reserved := 0; ip_dcid := bs "clientid"; ip_scid := [];
  ip_token_len := {| vk := 0; vv := 0 |}; ip_token := [];
  ip_length := {| vk := 1; vv := 1 + (zlen (encode_frames fs) + 16) |};
  ip_pn := [Byte.x07]; ip_frames := fs;
|}.
Definition example_chunk (off len : Z) : quic_frame :=
  CryptoFrame {| vk := 1; vv := off |} {| vk := 1; vv := len |}
    (default [] (slice example_message off (off + len))).
(** The second part of the message first. *)
Definition example_datagrams : list (list initial_packet) :=
  [[example_packet [PingFrame; example_chunk 40 (zlen example_message - 40)]];
   [example_packet [example_chunk 20 20; PaddingFrame]; example_packet [example_chunk 0 30; PaddingFrame]]].
Definition example_bytes : list bytes :=
  map (fun d => match protect_all toy_crypto toy_seal d with Ok e => e ++ padding 5 | _ => [] end) example_datagrams.

Lemma example_datagrams_ok :
  Forall2 (datagram_of toy_crypto toy_seal example_body (bs "clientid")) example_datagrams example_bytes.
Proof.
  repeat constructor; try done.
  all: try (eexists _, 5%nat; split; [reflexivity|vm_compute; reflexivity]).
  all: try (vm_compute; (reflexivity || discriminate)).
  all: try (repeat constructor; vm_compute; (reflexivity || discriminate || lia)).
Qed.

(** * Properties *)

(** C1: For a client that protects its Initial packets by RFC 9001 or its draft
    29, with the keys and the nonce of those documents, and whose CRYPTO frames
    carry pieces of one ClientHello (in any order, overlapping, repeated, over
    any packets and datagrams), the sniffing session reports the ClientHello's
    host name once the pieces cover the message, and asks for more while they do
    not. (The same holds of a sender of version 2 that uses the labels of
    version 1, which is not RFC 9369.) *)
Theorem quic_session_sni (C : QuicCrypto) (seal : aes128gcm C -> bytes -> bytes -> bytes -> bytes)
    `{!QuicSealLaws C seal} (body host dcid : bytes) (ds : list (list initial_packet)) (encs : list bytes) :
  zlen (handshake_message body) <= QUIC_CRYPTO_REASSEMBLY_CAP ->
  parse_sni_from_client_hello_body body = Ok host ->
  Forall2 (datagram_of C seal body dcid) ds encs ->
  ((forall i, 0 <= i < zlen (handshake_message body) ->
      Exists (in_fragment i) (concat (map packet_fragments ds))) ->
    feed_all C reassembly_new encs = Ok (UdpSniffOutcome.Matched QuicSni host)) /\
  (~ (forall i, 0 <= i < zlen (handshake_message body) ->
      Exists (in_fragment i) (concat (map packet_fragments ds))) ->
    feed_all C reassembly_new encs = Ok (UdpSniffOutcome.NeedMore QuicSni)).
Proof.
  intros Hcap Hb Hd.
  assert (forall i, ~ covered reassembly_new i) as Hnew.
  { intros i Hi. apply get_nonneg in Hi. change (zlen (present reassembly_new)) with 0 in Hi. lia. }
  destruct (feed_all_ok C seal body host dcid Hcap Hb ds encs reassembly_new Hd) as [H1 H2].
  - apply session_new.
  - intros Hc. apply (Hnew 0), Hc. rewrite zlen_handshake_message. zlen_lia.
  - split; intros H; [apply H1|apply H2; contradict H]; intros i Hi; specialize (H i Hi); [by left|].
    destruct H as [|H]; [done|by apply Hnew in H].
Qed.

Lemma quic_session_sni_witness :
  feed_all toy_crypto reassembly_new example_bytes
  = Ok (UdpSniffOutcome.Matched QuicSni (bs "example.com")).
Proof.
  apply (quic_session_sni toy_crypto toy_seal example_body (bs "example.com") (bs "clientid")
    example_datagrams example_bytes).
  - vm_compute. discriminate.
  - vm_compute. reflexivity.
  - exact example_datagrams_ok.
  - intros i Hi. change (zlen (handshake_message example_body)) with 72 in Hi.
    change (concat (map packet_fragments example_datagrams)) with
      [(40, default [] (slice example_message 40 72)); (20, default [] (slice example_message 20 40));
       (0, default [] (slice example_message 0 30))].
    assert (40 <= i < 40 + 32 \/ 20 <= i < 20 + 20 \/ 0 <= i < 0 + 30) as [H|[H|H]] by lia.
    + left. exact H.
    + right. left. exact H.
    + right. right. left. exact H.
Defined.

(** C28: Reading an Initial packet that a client of RFC 9001 (or of draft 29) has
    protected, anywhere in a datagram, gives back the client's frames: with the
    salt, labels, keys and nonce of the RFC, written out on their own,
    the header protection and the sealing are undone exactly, the CRYPTO frames
    are written in order, and the next packet starts right after. *)
Theorem quic_packet_roundtrip (C : QuicCrypto) (seal : aes128gcm C -> bytes -> bytes -> bytes -> bytes)
    `{!QuicSealLaws C seal} (p : initial_packet) (enc pre rest : bytes) (st : QuicCryptoReassembly) :
  wf_packet p -> rfc9001_version (ip_version p) -> protect_packet C seal p = Ok enc ->
  zlen (pre ++ enc ++ rest) <= QUIC_SNI_INPUT_CAP ->
  quic_parse_one_initial_packet C (pre ++ enc ++ rest) (zlen pre) st =
  let '(r, st') := apply_frames (ip_frames p) (note_dcid st (ip_dcid p)) in
  lift_st r st' (fun _ => (Ok (zlen pre + zlen enc), st')).
Proof. intros. by eapply parse_one_protected. Qed.

Lemma example_packet_wf : wf_packet (example_packet [PingFrame; example_chunk 0 40]).
Proof.
  split; [by eexists|cbn; lia|by vm_compute|by vm_compute| |by vm_compute| |by vm_compute|].
  - split; [split; [cbn; lia|by vm_compute]|done].
  - split; [split; [cbn; lia|by vm_compute]|by vm_compute].
  - constructor; [done|]. constructor; [|done].
    split; [|split; [|by vm_compute]]; (split; [cbn; lia|by vm_compute]).
Qed.

Definition example_protected : bytes :=
  match protect_packet toy_crypto toy_seal (example_packet [PingFrame; example_chunk 0 40]) with
  | Ok e => e | _ => []
  end.

Lemma quic_packet_roundtrip_witness :
  fst (quic_parse_one_initial_packet toy_crypto (bs "pre" ++ example_protected ++ []) (zlen (bs "pre"))
         reassembly_new) = Ok 84.
Proof.
  rewrite (quic_packet_roundtrip toy_crypto toy_seal _ example_protected (bs "pre") [] reassembly_new
    example_packet_wf).
  - vm_compute. reflexivity.
  - by left.
  - vm_compute. reflexivity.
  - vm_compute. discriminate.
Defined.

(** C37: Whatever datagrams arrive and whatever the ciphers answer, feeding the
    sniffing session neither panics nor loops, and keeps the reassembly
    invariant (at most 32 KiB buffered). *)
Theorem quic_feed_total (C : QuicCrypto) `{!QuicCryptoLaws C} (st : QuicCryptoReassembly) (payload : bytes) :
  wf_reassembly st ->
  returns (fst (quic_feed C st payload)) /\ wf_reassembly (snd (quic_feed C st payload)).
Proof. apply quic_feed_returns; done. Qed.

Lemma quic_feed_total_witness :
  wf_reassembly (snd (quic_feed toy_crypto reassembly_new (bs "not a packet"))).
Proof. exact (proj2 (quic_feed_total toy_crypto reassembly_new (bs "not a packet") wf_new)). Defined.
