(* ===== verification/Config.v ===== *)
(** The configuration, [src/src/cli.rs]: its data types and defaults, addresses
    and the proxy mode. *)

From Stdlib Require Import Strings.Byte Strings.String.
From S2P Require Import Prelude Bytes Float64.

(** * Addresses *)

(** [std::net::IpAddr]: a 32-bit or a 128-bit address. *)
Inductive IpAddr := V4 (ip : Z) | V6 (ip : Z).
Record SocketAddr := { sa_ip : IpAddr; sa_port : Z }.

#[global] Instance ip_addr_eq_decision : EqDecision IpAddr.
Proof. solve_decision. Defined.
#[global] Instance socket_addr_eq_decision : EqDecision SocketAddr.
Proof. solve_decision. Defined.
#[global] Program Instance ip_addr_countable : Countable IpAddr :=
  inj_countable' (fun ip => match ip with V4 z => inl z | V6 z => inr z end)
    (fun s => match s with inl z => V4 z | inr z => V6 z end) _.
Next Obligation. by intros []. Qed.

(** * Data *)

Module PortForwardProto.
Inductive PortForwardProto := Tcp | Udp | Both.
End PortForwardProto.

Module PortForward.
Record PortForward := {
  name : option bytes;
  bind : bytes;
  remote : bytes;
  network : PortForwardProto.PortForwardProto;
}.
End PortForward.

Module UpstreamConfig.
Record UpstreamConfig := {
  id : bytes;
  addr : SocketAddr;
  groups : option (list bytes);
  gain : f64;
}.
End UpstreamConfig.

Inductive ProxyMode := Smart | Global | Bypass.

(** [ProxyMode::next], [as_u8], [from_u8] and [Display] *)
Definition proxy_mode_next (m : ProxyMode) : ProxyMode :=
  match m with Smart => Global | Global => Bypass | Bypass => Smart end.
Definition proxy_mode_as_u8 (m : ProxyMode) : Z :=
  match m with Smart => 0 | Global => 1 | Bypass => 2 end.
Definition proxy_mode_from_u8 (v : Z) : ProxyMode :=
  match v with 1 => Global | 2 => Bypass | _ => Smart end.
Definition proxy_mode_fmt (m : ProxyMode) : bytes :=
  match m with Smart => bs "smart" | Global => bs "global" | Bypass => bs "bypass" end.

Module QuicSniffMode.
Inductive QuicSniffMode := None | BestEffort | Full.
End QuicSniffMode.
#[global] Instance quic_sniff_mode_eq_decision : EqDecision QuicSniffMode.QuicSniffMode.
Proof. solve_decision. Defined.

Module Config.
Record Config := {
  listen : bytes;
  udp : bool;
  socks5_user : option bytes;
  socks5_password : option bytes;
  fwmark : Z;
  mmdb_path : option bytes;
  udp_session_timeout_secs : Z;
  connect_timeout_secs : Z;
  splice : bool;
  tcp_nodelay : bool;
  half_close_timeout : Z;
  sniff_tls_sni : bool;
  sniff_http_host : bool;
  quic_sniff_mode : QuicSniffMode.QuicSniffMode;
  quic_sniff_pending_timeout_ms : Z;
  socks5_udp_reply_watchdog_secs : Z;
  tcp_peek_buffer_size : Z;
  tls_sniff_peek_len : Z;
  tls_sniff_max_len : Z;
  tls_sniff_max_retries : Z;
  tls_sniff_wait_more_ms : Z;
  tls_sniff_timeout_ms : Z;
  http_sniff_peek_len : Z;
  http_sniff_max_len : Z;
  http_sniff_max_retries : Z;
  http_sniff_wait_more_ms : Z;
  http_sniff_timeout_ms : Z;
  log_level : option bytes;
  direct_countries : list bytes;
  force_direct_domains : list bytes;
  force_socks5_domains : list bytes;
  force_direct_ips : list bytes;
  force_socks5_ips : list bytes;
  force_direct_ips_file : option bytes;
  force_socks5_ips_file : option bytes;
  port_forward : list PortForward.PortForward;
  direct_local_ip : bool;
  upstream : list UpstreamConfig.UpstreamConfig;
  disable_upstream_score : bool;
  upstream_switch_tolerance : Z;
  health_check_interval_secs : Z;
  health_check_timeout_secs : Z;
  health_check_fail_threshold : Z;
  health_check_url : bytes;
  quic_weight : Z;
  quic_stale_secs : Z;
  enable_relative_scoring : bool;
  relative_rescore_interval_secs : Z;
  upstream_score_debug_interval_secs : Z;
  pick_stats_window_secs : Z;
  proxy_mode : ProxyMode;
  geosite_path : option bytes;
  proxy_geosite_tags : list bytes;
  direct_geosite_tags : list bytes;
  client_routes : gmap bytes bytes;
  client_domain_routes : gmap bytes (gmap bytes bytes);
  client_dst_ip_routes : gmap bytes (gmap bytes bytes);
  route_cache_ttl_secs : Z;
  route_cache_max : Z;
}.
End Config.

(** The [serde] defaults of the fields. *)
Definition default_listen : bytes := bs "[::]:10810".
Definition default_udp : bool := true.
Definition default_direct_countries : list bytes := [bs "CN"].
Definition default_fwmark : Z := 2.
Definition default_udp_session_timeout_secs : Z := 120.
Definition default_connect_timeout_secs : Z := 20.
Definition default_splice : bool := false.
Definition default_tcp_nodelay : bool := true.
Definition default_half_close_timeout : Z := 600.
Definition default_sniff_tls_sni : bool := false.
Definition default_sniff_http_host : bool := false.
Definition default_socks5_udp_reply_watchdog_secs : Z := 31.
Definition default_quic_sniff_pending_timeout_ms : Z := 200.
Definition default_tcp_peek_buffer_size : Z := 32 * 1024.
Definition default_tls_sniff_peek_len : Z := 2048.
Definition default_tls_sniff_max_len : Z := 32 * 1024.
Definition default_tls_sniff_max_retries : Z := 5.
Definition default_tls_sniff_wait_more_ms : Z := 100.
Definition default_tls_sniff_timeout_ms : Z := 1000.
Definition default_http_sniff_peek_len : Z := 512.
Definition default_http_sniff_max_len : Z := 16 * 1024.
Definition default_http_sniff_max_retries : Z := 5.
Definition default_http_sniff_wait_more_ms : Z := 100.
Definition default_http_sniff_timeout_ms : Z := 1000.
Definition default_direct_local_ip : bool := true.
Definition default_disable_upstream_score : bool := false.
Definition default_upstream_switch_tolerance : Z := 0.
Definition default_health_check_interval_secs : Z := 0.
Definition default_health_check_timeout_secs : Z := 5.
Definition default_health_check_fail_threshold : Z := 2.
Definition default_quic_weight : Z := 40.
Definition default_quic_stale_secs : Z := 180.
Definition default_enable_relative_scoring : bool := false.
Definition default_relative_rescore_interval_secs : Z := 2.
Definition default_upstream_score_debug_interval_secs : Z := 0.
Definition default_pick_stats_window_secs : Z := 0.
Definition default_health_check_url : bytes := bs "cp.cloudflare.com".
Definition default_gain : f64 := f64_one.
Definition default_route_cache_ttl_secs : Z := 5.
Definition default_route_cache_max : Z := 4096.

(** The configuration read from a file that sets these fields only. *)
Definition routed_config (upstream : list UpstreamConfig.UpstreamConfig)
    (sniff_tls_sni sniff_http_host : bool) (client_routes : gmap bytes bytes)
    (client_domain_routes client_dst_ip_routes : gmap bytes (gmap bytes bytes)) : Config.Config := {|
  Config.listen := default_listen;
  Config.udp := default_udp;
  Config.socks5_user := None;
  Config.socks5_password := None;
  Config.fwmark := default_fwmark;
  Config.mmdb_path := None;
  Config.udp_session_timeout_secs := default_udp_session_timeout_secs;
  Config.connect_timeout_secs := default_connect_timeout_secs;
  Config.splice := default_splice;
  Config.tcp_nodelay := default_tcp_nodelay;
  Config.half_close_timeout := default_half_close_timeout;
  Config.sniff_tls_sni := sniff_tls_sni;
  Config.sniff_http_host := sniff_http_host;
  Config.quic_sniff_mode := QuicSniffMode.None;
  Config.quic_sniff_pending_timeout_ms := default_quic_sniff_pending_timeout_ms;
  Config.socks5_udp_reply_watchdog_secs := default_socks5_udp_reply_watchdog_secs;
  Config.tcp_peek_buffer_size := default_tcp_peek_buffer_size;
  Config.tls_sniff_peek_len := default_tls_sniff_peek_len;
  Config.tls_sniff_max_len := default_tls_sniff_max_len;
  Config.tls_sniff_max_retries := default_tls_sniff_max_retries;
  Config.tls_sniff_wait_more_ms := default_tls_sniff_wait_more_ms;
  Config.tls_sniff_timeout_ms := default_tls_sniff_timeout_ms;
  Config.http_sniff_peek_len := default_http_sniff_peek_len;
  Config.http_sniff_max_len := default_http_sniff_max_len;
  Config.http_sniff_max_retries := default_http_sniff_max_retries;
  Config.http_sniff_wait_more_ms := default_http_sniff_wait_more_ms;
  Config.http_sniff_timeout_ms := default_http_sniff_timeout_ms;
  Config.log_level := None;
  Config.direct_countries := default_direct_countries;
  Config.force_direct_domains := [];
  Config.force_socks5_domains := [];
  Config.force_direct_ips := [];
  Config.force_socks5_ips := [];
  Config.force_direct_ips_file := None;
  Config.force_socks5_ips_file := None;
  Config.port_forward := [];
  Config.direct_local_ip := default_direct_local_ip;
  Config.upstream := upstream;
  Config.disable_upstream_score := default_disable_upstream_score;
  Config.upstream_switch_tolerance := default_upstream_switch_tolerance;
  Config.health_check_interval_secs := default_health_check_interval_secs;
  Config.health_check_timeout_secs := default_health_check_timeout_secs;
  Config.health_check_fail_threshold := default_health_check_fail_threshold;
  Config.health_check_url := default_health_check_url;
  Config.quic_weight := default_quic_weight;
  Config.quic_stale_secs := default_quic_stale_secs;
  Config.enable_relative_scoring := default_enable_relative_scoring;
  Config.relative_rescore_interval_secs := default_relative_rescore_interval_secs;
  Config.upstream_score_debug_interval_secs := default_upstream_score_debug_interval_secs;
  Config.pick_stats_window_secs := default_pick_stats_window_secs;
  Config.proxy_mode := Smart;
  Config.geosite_path := None;
  Config.proxy_geosite_tags := [];
  Config.direct_geosite_tags := [];
  Config.client_routes := client_routes;
  Config.client_domain_routes := client_domain_routes;
  Config.client_dst_ip_routes := client_dst_ip_routes;
  Config.route_cache_ttl_secs := default_route_cache_ttl_secs;
  Config.route_cache_max := default_route_cache_max;
|}.
Definition file_config (upstream : list UpstreamConfig.UpstreamConfig)
    (sniff_tls_sni sniff_http_host : bool) : Config.Config :=
  routed_config upstream sniff_tls_sni sniff_http_host ∅ ∅ ∅.
