(* ===== verification/Cli.v ===== *)
(** Validation of the configuration, [Config::validate] and the identifier
    checks of [Config::build_upstream_set] in [src/src/cli.rs], against a
    declarative description of the accepted configurations. *)

From Stdlib Require Import Strings.Byte Strings.String.
From S2P Require Import Prelude Bytes Float64 Config.

Module ConfigError.
Inductive ConfigError :=
  | NoUpstream
  | EmptyUpstreamId
  | DuplicateUpstreamId (id : bytes)
  | QuicWeight
  | QuicStaleSecs
  | UdpSessionTimeout
  | ConnectTimeout
  | HealthCheckThreshold
  | PickStatsWindow
  | RelativeRescoreInterval
  | UpstreamGain (id : bytes)
  | NoDefaultGroup
  | InvalidCidr (s : bytes)
  | UnknownGroup (s group : bytes)
  | InvalidListen
  | InvalidBind (s : bytes)
  | BindConflict (s : bytes).
End ConfigError.
Abbreviation config_res := (res ConfigError.ConfigError).

(** [for x in l { f(x)?; }] *)
Fixpoint for_each {E A} (f : A -> res E unit) (l : list A) : res E unit :=
  match l with
  | [] => Ok tt
  | x :: l => let? _ := f x in for_each f l
  end.

Lemma for_each_ok {E A} (f : A -> res E unit) l :
  for_each f l = Ok tt <-> Forall (fun x => f x = Ok tt) l.
Proof.
  induction l as [|x l IH]; cbn [for_each]; [by split|].
  rewrite Forall_cons, <- IH. destruct (f x) as [[]| | |]; cbn; split; try tauto; try done; by intros [? _].
Qed.

Lemma for_each_returns {E A} (f : A -> res E unit) l :
  (forall x, x ∈ l -> returns (f x)) -> returns (for_each f l).
Proof.
  induction l as [|x l IH]; intros H; cbn [for_each]; [done|].
  apply returns_bind; [apply H; by left|]. intros _ _. apply IH. intros y Hy. apply H. by right.
Qed.

(** * Identifiers *)

(** The loop of [build_upstream_set] over the identifiers seen so far. *)
Fixpoint check_ids (ids : gset bytes) (ups : list UpstreamConfig.UpstreamConfig) : config_res unit :=
  match ups with
  | [] => Ok tt
  | u :: ups =>
      let trimmed := trim (UpstreamConfig.id u) in
      ensure negb (bool_decide (trimmed = [])) else ConfigError.EmptyUpstreamId in
      ensure negb (bool_decide (trimmed ∈ ids)) else ConfigError.DuplicateUpstreamId trimmed in
      check_ids ({[trimmed]} ∪ ids) ups
  end.

Definition check_upstream_ids (c : Config.Config) : config_res unit :=
  ensure negb (bool_decide (Config.upstream c = [])) else ConfigError.NoUpstream in
  check_ids ∅ (Config.upstream c).

(** The groups of the upstream the set is built with. *)
Definition built_groups (u : UpstreamConfig.UpstreamConfig) : list bytes :=
  default [bs "default"] (UpstreamConfig.groups u).

(** * Validation *)

(** The groups [validate] counts for an upstream. *)
Definition counted_groups (u : UpstreamConfig.UpstreamConfig) : list bytes :=
  match UpstreamConfig.groups u with
  | Some g => if bool_decide (g = []) then [bs "default"] else g
  | None => [bs "default"]
  end.

Definition count_group (m : gmap bytes Z) (g : bytes) : gmap bytes Z :=
  <[g := default 0 (m !! g) + 1]> m.
Definition group_count (ups : list UpstreamConfig.UpstreamConfig) : gmap bytes Z :=
  foldl count_group ∅ (concat (map counted_groups ups)).

Section Validate.
(** [parse_ip_or_cidr] (the ipnet crate) and [str::parse::<SocketAddr>]. *)
Context (parse_ip_or_cidr : bytes -> bool) (parse_socket_addr : bytes -> option SocketAddr).
(** The order in which a [HashMap] is traversed. *)
Context (hash_iter : forall V, gmap bytes V -> list (bytes * V)).

Definition check_cidr (s : bytes) : config_res unit :=
  ensure parse_ip_or_cidr s else ConfigError.InvalidCidr s in Ok tt.
Definition check_group (count : gmap bytes Z) (s group : bytes) : config_res unit :=
  ensure negb (default 0 (count !! group) =? 0) else ConfigError.UnknownGroup s group in Ok tt.

Definition check_client_route (count : gmap bytes Z) (r : bytes * bytes) : config_res unit :=
  let? _ := check_cidr r.1 in check_group count r.1 r.2.
Definition check_domain_route (count : gmap bytes Z) (r : bytes * gmap bytes bytes) : config_res unit :=
  let? _ := check_cidr r.1 in
  for_each (fun d : bytes * bytes => check_group count r.1 d.2) (hash_iter _ r.2).
Definition check_dst_ip_route (count : gmap bytes Z) (r : bytes * gmap bytes bytes) : config_res unit :=
  let? _ := check_cidr r.1 in
  for_each (fun d : bytes * bytes => let? _ := check_cidr d.1 in check_group count r.1 d.2)
    (hash_iter _ r.2).

Definition check_gain (u : UpstreamConfig.UpstreamConfig) : config_res unit :=
  let g := UpstreamConfig.gain u in
  ensure negb (negb (f64_is_finite g) || f64_le g f64_zero)
    else ConfigError.UpstreamGain (UpstreamConfig.id u) in Ok tt.

Definition check_port_forward (listen : SocketAddr) (pf : PortForward.PortForward) : config_res unit :=
  let? bind := ok_or (ConfigError.InvalidBind (PortForward.bind pf))
                 (parse_socket_addr (PortForward.bind pf)) in
  ensure negb (bool_decide (sa_ip bind = sa_ip listen) && (sa_port bind =? sa_port listen))
    else ConfigError.BindConflict (PortForward.bind pf) in Ok tt.

Definition validate (c : Config.Config) : config_res unit :=
  ensure negb (100 <? Config.quic_weight c) else ConfigError.QuicWeight in
  ensure (10 <=? Config.quic_stale_secs c) && (Config.quic_stale_secs c <=? 3600)
    else ConfigError.QuicStaleSecs in
  ensure negb (Config.udp_session_timeout_secs c =? 0) else ConfigError.UdpSessionTimeout in
  ensure negb (Config.connect_timeout_secs c =? 0) else ConfigError.ConnectTimeout in
  ensure negb ((0 <? Config.health_check_interval_secs c) && (Config.health_check_fail_threshold c =? 0))
    else ConfigError.HealthCheckThreshold in
  ensure negb (604800 <? Config.pick_stats_window_secs c) else ConfigError.PickStatsWindow in
  ensure negb (Config.enable_relative_scoring c && (Config.relative_rescore_interval_secs c =? 0))
    else ConfigError.RelativeRescoreInterval in
  let? _ := for_each check_gain (Config.upstream c) in
  let count := group_count (Config.upstream c) in
  let has_default := bool_decide (is_Some (count !! bs "default")) in
  let has_client_routes :=
    negb (bool_decide (Config.client_routes c = ∅))
    || negb (bool_decide (Config.client_domain_routes c = ∅))
    || negb (bool_decide (Config.client_dst_ip_routes c = ∅)) in
  ensure has_default || has_client_routes else ConfigError.NoDefaultGroup in
  let? _ := for_each (check_client_route count) (hash_iter _ (Config.client_routes c)) in
  let? _ := for_each (check_domain_route count) (hash_iter _ (Config.client_domain_routes c)) in
  let? _ := for_each (check_dst_ip_route count) (hash_iter _ (Config.client_dst_ip_routes c)) in
  let? listen := ok_or ConfigError.InvalidListen (parse_socket_addr (Config.listen c)) in
  for_each (check_port_forward listen) (Config.port_forward c).
End Validate.

(** * The accepted configurations *)

(** [g] is a group [validate] gives some upstream. *)
Definition has_group (c : Config.Config) (g : bytes) : Prop :=
  exists u, u ∈ Config.upstream c /\ g ∈ counted_groups u.

Record valid_config (parse_ip_or_cidr : bytes -> bool) (parse_socket_addr : bytes -> option SocketAddr)
    (c : Config.Config) : Prop := {
  v_quic_weight : Config.quic_weight c <= 100;
  v_quic_stale : 10 <= Config.quic_stale_secs c <= 3600;
  v_udp_timeout : Config.udp_session_timeout_secs c <> 0;
  v_connect_timeout : Config.connect_timeout_secs c <> 0;
  v_health : 0 < Config.health_check_interval_secs c -> Config.health_check_fail_threshold c <> 0;
  v_pick_stats : Config.pick_stats_window_secs c <= 604800;
  v_relative : Config.enable_relative_scoring c = true -> Config.relative_rescore_interval_secs c <> 0;
  v_gain : forall u, u ∈ Config.upstream c ->
    f64_is_finite (UpstreamConfig.gain u) = true /\ f64_le (UpstreamConfig.gain u) f64_zero = false;
  v_default : has_group c (bs "default") \/
    ~ (Config.client_routes c = ∅ /\ Config.client_domain_routes c = ∅ /\ Config.client_dst_ip_routes c = ∅);
  v_client_routes : forall k g, Config.client_routes c !! k = Some g ->
    parse_ip_or_cidr k = true /\ has_group c g;
  v_domain_routes : forall k m, Config.client_domain_routes c !! k = Some m ->
    parse_ip_or_cidr k = true /\ forall d g, m !! d = Some g -> has_group c g;
  v_dst_ip_routes : forall k m, Config.client_dst_ip_routes c !! k = Some m ->
    parse_ip_or_cidr k = true /\ forall d g, m !! d = Some g -> parse_ip_or_cidr d = true /\ has_group c g;
  v_listen : exists listen, parse_socket_addr (Config.listen c) = Some listen /\
    forall pf, pf ∈ Config.port_forward c ->
      exists bind, parse_socket_addr (PortForward.bind pf) = Some bind /\
        ~ (sa_ip bind = sa_ip listen /\ sa_port bind = sa_port listen);
}.

Lemma count_group_pos gs m g :
  (forall k n, m !! k = Some n -> 0 < n) ->
  (forall n, foldl count_group m gs !! g = Some n -> 0 < n) /\
  (is_Some (foldl count_group m gs !! g) <-> g ∈ gs \/ is_Some (m !! g)).
Proof.
  revert m; induction gs as [|h gs IH]; intros m Hm; cbn [foldl].
  - split; [apply Hm|]. split; [by right|]. by intros [?%not_elem_of_nil|].
  - destruct (IH (count_group m h)) as [H1 H2].
    { intros k n. unfold count_group. destruct (decide (h = k)) as [->|].
      - rewrite lookup_insert_eq. intros [= <-]. destruct (m !! k) eqn:E; cbn; [apply Hm in E|]; lia.
      - rewrite lookup_insert_ne by done. apply Hm. }
    split; [done|]. rewrite H2, elem_of_cons. unfold count_group.
    destruct (decide (h = g)) as [->|].
    + rewrite lookup_insert_eq. split; [tauto|]. intros _. right. eauto.
    + rewrite lookup_insert_ne by done. split; [tauto|]. intros [[->|]|]; tauto.
Qed.

Lemma group_count_spec c g :
  (is_Some (group_count (Config.upstream c) !! g) <-> has_group c g) /\
  (default 0 (group_count (Config.upstream c) !! g) <> 0 <-> has_group c g).
Proof.
  unfold group_count. destruct (count_group_pos (concat (map counted_groups (Config.upstream c))) ∅ g) as [H1 H2].
  { intros k n. by rewrite lookup_empty. }
  assert (is_Some (foldl count_group ∅ (concat (map counted_groups (Config.upstream c))) !! g) <-> has_group c g) as H3.
  { rewrite H2, lookup_empty. unfold has_group. rewrite list_elem_of_In, in_concat.
    setoid_rewrite in_map_iff. setoid_rewrite list_elem_of_In. split.
    - intros [(l & (u & <- & ?) & ?)|[? ?]]; [eauto|done].
    - intros (u & ? & ?). left. eauto. }
  split; [done|]. rewrite <- H3. destruct (_ !! g) as [n|] eqn:E; cbn.
  - specialize (H1 n eq_refl). split; [eauto|lia].
  - split; [done|by intros []].
Qed.

Section ValidateSpec.
Context (parse_ip_or_cidr : bytes -> bool) (parse_socket_addr : bytes -> option SocketAddr).
Context (hash_iter : forall V, gmap bytes V -> list (bytes * V)).
(** A traversal visits every entry once. *)
Hypothesis hash_iter_perm : forall V (m : gmap bytes V), hash_iter V m ≡ₚ map_to_list m.

Lemma hash_iter_Forall V (P : bytes * V -> Prop) (m : gmap bytes V) :
  Forall P (hash_iter V m) <-> forall k v, m !! k = Some v -> P (k, v).
Proof.
  rewrite hash_iter_perm, Forall_forall. split.
  - intros H k v Hk. apply H. by apply elem_of_map_to_list.
  - intros H [k v] Hk. apply H. by apply elem_of_map_to_list.
Qed.

Lemma check_cidr_ok s : check_cidr parse_ip_or_cidr s = Ok tt <-> parse_ip_or_cidr s = true.
Proof. unfold check_cidr. rewrite ensure_ok. tauto. Qed.

Lemma check_group_ok c s g :
  check_group (group_count (Config.upstream c)) s g = Ok tt <-> has_group c g.
Proof.
  unfold check_group. rewrite ensure_ok, negb_true_iff, Z.eqb_neq.
  destruct (group_count_spec c g) as [_ ->]. tauto.
Qed.

Lemma bind_unit_ok {E} (r s : res E unit) : (let? _ := r in s) = Ok tt <-> r = Ok tt /\ s = Ok tt.
Proof. destruct r as [[]| | |]; cbn; split; try tauto; try done; by intros [? _]. Qed.

Lemma check_port_forward_ok listen pf :
  check_port_forward parse_socket_addr listen pf = Ok tt <->
  exists bind, parse_socket_addr (PortForward.bind pf) = Some bind /\
    ~ (sa_ip bind = sa_ip listen /\ sa_port bind = sa_port listen).
Proof.
  unfold check_port_forward. destruct (parse_socket_addr _) as [b|]; cbn [ok_or res_bind].
  - rewrite ensure_ok, negb_true_iff, andb_false_iff, bool_decide_eq_false, Z.eqb_neq. split.
    + intros [H _]. exists b. split; [done|]. tauto.
    + intros (? & [= <-] & H). split; [|done]. destruct (decide (sa_ip b = sa_ip listen)); tauto.
  - split; [done|]. by intros (? & ? & _).
Qed.

Lemma check_gain_ok u :
  check_gain u = Ok tt <->
  f64_is_finite (UpstreamConfig.gain u) = true /\ f64_le (UpstreamConfig.gain u) f64_zero = false.
Proof. unfold check_gain. rewrite ensure_ok, negb_true_iff, orb_false_iff, negb_false_iff. tauto. Qed.

Lemma default_group_ok c :
  bool_decide (is_Some (group_count (Config.upstream c) !! bs "default"))
  || (negb (bool_decide (Config.client_routes c = ∅))
      || negb (bool_decide (Config.client_domain_routes c = ∅))
      || negb (bool_decide (Config.client_dst_ip_routes c = ∅))) = true <->
  has_group c (bs "default") \/
  ~ (Config.client_routes c = ∅ /\ Config.client_domain_routes c = ∅ /\ Config.client_dst_ip_routes c = ∅).
Proof.
  rewrite !orb_true_iff, !negb_true_iff, !bool_decide_eq_false, bool_decide_eq_true.
  destruct (group_count_spec c (bs "default")) as [-> _].
  destruct (decide (Config.client_routes c = ∅)), (decide (Config.client_domain_routes c = ∅)); tauto.
Qed.

Lemma port_forwards_ok c :
  (let? listen := ok_or ConfigError.InvalidListen (parse_socket_addr (Config.listen c)) in
   for_each (check_port_forward parse_socket_addr listen) (Config.port_forward c)) = Ok tt <->
  exists listen, parse_socket_addr (Config.listen c) = Some listen /\
    forall pf, pf ∈ Config.port_forward c ->
      exists bind, parse_socket_addr (PortForward.bind pf) = Some bind /\
        ~ (sa_ip bind = sa_ip listen /\ sa_port bind = sa_port listen).
Proof.
  destruct (parse_socket_addr (Config.listen c)) as [l|]; cbn [ok_or res_bind].
  - rewrite for_each_ok, Forall_forall. setoid_rewrite check_port_forward_ok.
    split; [eauto|]. by intros (? & [= <-] & H).
  - split; [done|]. by intros (? & ? & _).
Qed.

Lemma validate_ok c :
  validate parse_ip_or_cidr parse_socket_addr hash_iter c = Ok tt <->
  valid_config parse_ip_or_cidr parse_socket_addr c.
Proof.
  unfold validate. cbv zeta. rewrite !ensure_ok, !bind_unit_ok, !ensure_ok, !bind_unit_ok, !for_each_ok.
  rewrite !hash_iter_Forall. unfold check_client_route, check_domain_route, check_dst_ip_route.
  repeat setoid_rewrite bind_unit_ok. repeat setoid_rewrite for_each_ok.
  repeat setoid_rewrite hash_iter_Forall. repeat setoid_rewrite bind_unit_ok.
  cbn [fst snd]. repeat setoid_rewrite check_cidr_ok. repeat setoid_rewrite check_group_ok.
  rewrite default_group_ok, port_forwards_ok, Forall_forall. setoid_rewrite check_gain_ok.
  split.
  - intros (? & ? & ? & ? & ? & ? & ? & ? & ? & ? & ? & ? & ?). split; try done; try lia; destruct (Config.enable_relative_scoring c); cbn [andb] in *; intros; (done || lia).
  - intros [? ? ? ? ? ? ? ? ? ? ? ? ?].
    assert (negb ((0 <? Config.health_check_interval_secs c) && (Config.health_check_fail_threshold c =? 0)) = true)
      by (destruct (Z.ltb_spec 0 (Config.health_check_interval_secs c)); lia).
    assert (negb (Config.enable_relative_scoring c && (Config.relative_rescore_interval_secs c =? 0)) = true)
      by (destruct (Config.enable_relative_scoring c); lia).
    do 12 (split; [done || lia|]). done.
Qed.

Lemma validate_returns c : returns (validate parse_ip_or_cidr parse_socket_addr hash_iter c).
Proof.
  assert (forall s, returns (check_cidr parse_ip_or_cidr s)) by (intros; unfold check_cidr; returns_tac).
  assert (forall m s g, returns (check_group m s g)) by (intros; unfold check_group; returns_tac).
  unfold validate. returns_tac; try (apply for_each_returns; intros ? _); auto with returns.
  - unfold check_gain. returns_tac.
  - unfold check_client_route. returns_tac; auto.
  - unfold check_domain_route. returns_tac; auto. apply for_each_returns. auto.
  - unfold check_dst_ip_route. returns_tac; auto. apply for_each_returns. intros ? _. returns_tac; auto.
  - unfold check_port_forward. returns_tac.
Qed.
End ValidateSpec.

(** * Properties *)

(** C30: [validate] accepts exactly the configurations that satisfy its
    declarative description (numeric ranges, positive finite gains, a usable
    default group or client routes, routes with parseable addresses and existing
    groups, no port forward on the listen address), in whatever order the maps
    are traversed; and it always returns. *)
Theorem validate_exact (parse_ip_or_cidr : bytes -> bool) (parse_socket_addr : bytes -> option SocketAddr)
    (hash_iter : forall V, gmap bytes V -> list (bytes * V)) (c : Config.Config) :
  (forall V (m : gmap bytes V), hash_iter V m ≡ₚ map_to_list m) ->
  (validate parse_ip_or_cidr parse_socket_addr hash_iter c = Ok tt <->
   valid_config parse_ip_or_cidr parse_socket_addr c) /\
  returns (validate parse_ip_or_cidr parse_socket_addr hash_iter c).
Proof. intros H. split; [by apply validate_ok|apply validate_returns]. Qed.

Definition example_upstream (id : bytes) (groups : option (list bytes)) : UpstreamConfig.UpstreamConfig := {|
  UpstreamConfig.id := id;
  UpstreamConfig.addr := {| sa_ip := V4 2130706433; sa_port := 1080 |};
  UpstreamConfig.groups := groups;
  UpstreamConfig.gain := default_gain;
|}.
Definition example_listen (s : bytes) : option SocketAddr :=
  if bool_decide (s = default_listen) then Some {| sa_ip := V6 0; sa_port := 10810 |} else None.

Lemma validate_exact_witness :
  validate (fun _ => true) example_listen (fun V m => map_to_list m)
    (file_config [example_upstream (bs "a") None] false false) = Ok tt.
Proof.
  apply (validate_exact (fun _ => true) example_listen (fun V m => map_to_list m)
    (file_config [example_upstream (bs "a") None] false false)); [done|].
  split; cbn; try lia; try done.
  - intros u ->%list_elem_of_singleton. by vm_compute.
  - left. exists (example_upstream (bs "a") None). split; [by left|by left].
  - exists {| sa_ip := V6 0; sa_port := 10810 |}. split; [done|]. by intros pf ?%not_elem_of_nil.
Defined.

(** An upstream with an empty group list counts as a member of the default
    group in [validate] and belongs to no group in the built set: the accepted
    configuration below, without routes, has no usable upstream. *)
Theorem validate_accepts_unusable :
  let c := file_config [example_upstream (bs "a") (Some [])] false false in
  validate (fun _ => true) example_listen (fun V m => map_to_list m) c = Ok tt /\
  check_upstream_ids c = Ok tt /\
  Forall (fun u => bs "default" ∉ built_groups u) (Config.upstream c).
Proof. split; [by vm_compute|]. split; [by vm_compute|]. repeat constructor. apply not_elem_of_nil. Qed.
