(* ===== verification/ConfigKeys.v ===== *)
(** The checks of [src/src/cli.rs] on the keys of a configuration file: keys
    that no field reads are reported, and geosite tags are normalised. The
    [toml] crate and the derived (de)serialisation are parameters. *)

From Stdlib Require Import Strings.Byte Strings.String.
From stdpp Require Import pretty.
From S2P Require Import Prelude Bytes Float64 Config.

(** [toml::Value]; a table in the order in which it is traversed. *)
Inductive Value := Scalar | Array (items : list Value) | Table (entries : list (bytes * Value)).
Definition as_table (v : Value) : option (list (bytes * Value)) := match v with Table t => Some t | _ => None end.
Definition as_array (v : Value) : option (list Value) := match v with Array l => Some l | _ => None end.
Fixpoint table_get (t : list (bytes * Value)) (k : bytes) : option Value :=
  match t with [] => None | (k', v) :: t => if bool_decide (k' = k) then Some v else table_get t k end.

Definition CONFIG_KEY_ALIASES : list bytes := [bs "udp_session_idle_timeout_secs"].

(** [format!("{prefix}[{i}].{key}")] *)
Definition item_key (prefix : bytes) (i : nat) (key : bytes) : bytes := prefix ++ bs "[" ++ bs (pretty i) ++ bs "]." ++ key.

(** The keys that the elements of [known] have together. *)
Definition known_keys (known_items : list Value) : list bytes := concat (map (fun v => match as_table v with Some t => t.*1 | None => [] end) known_items).
Definition collect_unknown_array_table_keys (prefix : bytes) (raw known : Value) : list bytes :=
  match as_array raw, as_array known with
  | Some raw_items, Some known_items =>
      let keys := known_keys known_items in
      if bool_decide (keys = []) then []
      else concat (imap (fun i v => match as_table v with
        | Some t => map (item_key prefix i) (filter (fun k => k ∉ keys) t.*1)
        | None => []
        end) raw_items)
  | _, _ => []
  end.

Section Keys.
(** [toml::from_str] and [toml::to_string]. *)
Context (from_str : bytes -> option Value) (to_string : Config.Config -> option bytes).

Definition unknown_config_keys (config_str : bytes) (config : Config.Config) : list bytes :=
  match from_str config_str, (to_string config ≫= from_str) with
  | Some raw, Some known =>
      match as_table raw, as_table known with
      | Some raw, Some known =>
          concat (map (fun e : bytes * Value =>
            if bool_decide (e.1 ∈ CONFIG_KEY_ALIASES) then []
            else match table_get known e.1 with
                 | Some known_value => collect_unknown_array_table_keys e.1 e.2 known_value
                 | None => [e.1]
                 end) raw)
      | _, _ => []
      end
  | _, _ => []
  end.
End Keys.

(** [normalize_geosite_tags]; [str::to_lowercase] is that of Unicode. *)
Section Tags.
Context (to_lowercase : bytes -> bytes).
Definition strip_prefix (p s : bytes) : option bytes := if bool_decide (take (length p) s = p) then Some (drop (length p) s) else None.
Definition normalize_tag (tag : bytes) : bytes :=
  let lower := to_lowercase (trim tag) in default lower (strip_prefix (bs "geosite:") lower).
Definition normalize_geosite_tags (proxy_tags direct_tags : list bytes) : list bytes * list bytes := (map normalize_tag proxy_tags, map normalize_tag direct_tags).
End Tags.

(** * The fields *)

(** The fields of [Config] that the serialised form always has, and those it
    has when they are set. *)
Definition plain_fields : list bytes := map bs
  ["listen"; "udp"; "fwmark"; "udp_session_timeout_secs"; "connect_timeout_secs"; "splice";
   "tcp_nodelay"; "half_close_timeout"; "sniff_tls_sni"; "sniff_http_host"; "quic_sniff_mode"; "quic_sniff_pending_timeout_ms";
   "socks5_udp_reply_watchdog_secs"; "tcp_peek_buffer_size"; "tls_sniff_peek_len"; "tls_sniff_max_len"; "tls_sniff_max_retries"; "tls_sniff_wait_more_ms";
   "tls_sniff_timeout_ms"; "http_sniff_peek_len"; "http_sniff_max_len"; "http_sniff_max_retries"; "http_sniff_wait_more_ms"; "http_sniff_timeout_ms";
   "direct_countries"; "force_direct_domains"; "force_socks5_domains"; "force_direct_ips"; "force_socks5_ips"; "port_forward";
   "direct_local_ip"; "upstream"; "disable_upstream_score"; "upstream_switch_tolerance"; "health_check_interval_secs"; "health_check_timeout_secs";
   "health_check_fail_threshold"; "health_check_url"; "quic_weight"; "quic_stale_secs"; "enable_relative_scoring"; "relative_rescore_interval_secs";
   "upstream_score_debug_interval_secs"; "pick_stats_window_secs"; "proxy_mode"; "proxy_geosite_tags"; "direct_geosite_tags"; "client_routes";
   "client_domain_routes"; "client_dst_ip_routes"; "route_cache_ttl_secs"; "route_cache_max"]%string.
Definition optional_fields : list (bytes * (Config.Config -> option bytes)) :=
  [(bs "socks5_user", Config.socks5_user); (bs "socks5_password", Config.socks5_password); (bs "mmdb_path", Config.mmdb_path); (bs "log_level", Config.log_level); (bs "force_direct_ips_file", Config.force_direct_ips_file); (bs "force_socks5_ips_file", Config.force_socks5_ips_file); (bs "geosite_path", Config.geosite_path)].
Definition config_fields : list bytes := plain_fields ++ optional_fields.*1.

Definition upstream_key : bytes := bs "upstream".
Definition port_forward_key : bytes := bs "port_forward".
Definition upstream_fields : list bytes := [bs "id"; bs "addr"; bs "gain"; bs "groups"].
Definition port_forward_fields : list bytes := [bs "bind"; bs "remote"; bs "network"; bs "name"].

(** ** What serde documents *)

Definition present (c : Config.Config) (k : bytes) : Prop := k ∈ plain_fields \/ exists f, (k, f) ∈ optional_fields /\ f c <> None.
Definition upstream_keys (u : UpstreamConfig.UpstreamConfig) : list bytes :=
  [bs "id"; bs "addr"; bs "gain"] ++ (match UpstreamConfig.groups u with Some _ => [bs "groups"] | None => [] end).
Definition forward_keys (p : PortForward.PortForward) : list bytes :=
  [bs "bind"; bs "remote"; bs "network"] ++ (match PortForward.name p with Some _ => [bs "name"] | None => [] end).
Definition item_tables (kss : list (list bytes)) (v : Value) : Prop :=
  exists items, v = Array items /\ Forall2 (fun it ks => exists t, it = Table t /\ t.*1 ≡ₚ ks) items kss.

(** The serialised form of [c]: [None] is skipped, and the other arrays hold no
    tables. *)
Record serialises (c : Config.Config) (t : list (bytes * Value)) : Prop := {
  ser_keys k : k ∈ t.*1 <-> present c k;
  ser_upstream v : table_get t upstream_key = Some v -> item_tables (map upstream_keys (Config.upstream c)) v;
  ser_forward v : table_get t port_forward_key = Some v -> item_tables (map forward_keys (Config.port_forward c)) v;
  ser_other k v items : table_get t k = Some v -> k <> upstream_key -> k <> port_forward_key -> v = Array items -> Forall (fun it => as_table it = None) items;
}.
(** A file that was read as [c]: an optional field that is written is set. *)
Record read_as (raw : list (bytes * Value)) (c : Config.Config) : Prop := {
  rd_optional k : k ∈ raw.*1 -> k ∈ optional_fields.*1 -> present c k;
  rd_upstream v : (upstream_key, v) ∈ raw -> exists items, v = Array items /\
    Forall2 (fun it u => exists t, it = Table t /\ (bs "groups" ∈ t.*1 -> UpstreamConfig.groups u <> None)) items (Config.upstream c);
  rd_forward v : (port_forward_key, v) ∈ raw -> exists items, v = Array items /\
    Forall2 (fun it p => exists t, it = Table t /\ (bs "name" ∈ t.*1 -> PortForward.name p <> None)) items (Config.port_forward c);
}.

(** ** The keys that no field reads *)

Definition ignored_items (fields : list bytes) (prefix : bytes) (v : Value) : list bytes :=
  match as_array v with
  | Some items => concat (imap (fun i it => match as_table it with
      | Some t => map (item_key prefix i) (filter (fun k => k ∉ fields) t.*1)
      | None => [] end) items)
  | None => []
  end.
Definition ignored (e : bytes * Value) : list bytes :=
  if bool_decide (e.1 ∈ CONFIG_KEY_ALIASES) then []
  else if bool_decide (e.1 ∉ config_fields) then [e.1]
  else if bool_decide (e.1 = upstream_key) then ignored_items upstream_fields e.1 e.2
  else if bool_decide (e.1 = port_forward_key) then ignored_items port_forward_fields e.1 e.2
  else [].

Lemma table_get_none t k : table_get t k = None <-> k ∉ t.*1.
Proof.
  induction t as [|[k' v] t IH]; cbn; [split; [intros _; apply not_elem_of_nil|done]|]. rewrite not_elem_of_cons.
  case_bool_decide as Hk; [split; [done|intros [Hn _]; by destruct Hn]|]. rewrite IH. split; [|tauto]. intros ?. split; [|done]. congruence.
Qed.

Lemma collect_items {A} (fields : list bytes) (prefix opt_key : bytes) (keys_of : A -> list bytes) (set : A -> Prop) (xs : list A) raw known :
  (forall x k, k ∈ keys_of x <-> k ∈ fields /\ (k = opt_key -> set x)) ->
  (exists items, raw = Array items /\ Forall2 (fun it x => exists t, it = Table t /\ (opt_key ∈ t.*1 -> set x)) items xs) ->
  item_tables (map keys_of xs) known -> (exists k, k ∈ fields /\ k <> opt_key) ->
  collect_unknown_array_table_keys prefix raw known = ignored_items fields prefix raw.
Proof.
  intros Hkeys (items & -> & Hitems) (kitems & -> & Hk) (k0 & Hk0 & Hne). unfold collect_unknown_array_table_keys, ignored_items. cbn [as_array].
  assert (forall k, k ∈ known_keys kitems <-> exists x, x ∈ xs /\ k ∈ keys_of x) as Hknown.
  { clear -Hk. remember (map keys_of xs) as kss eqn:E. revert xs E. induction Hk as [|it ks kitems kss (t & -> & Hp) Hk IH]; intros xs E.
    - symmetry in E. apply map_eq_nil in E as ->. intros k. unfold known_keys. cbn. split; [by intros ?%not_elem_of_nil|by intros (? & ?%not_elem_of_nil & _)].
    - destruct xs as [|x xs]; [done|]. injection E as -> E. intros k. unfold known_keys in *. cbn. rewrite elem_of_app, (IH xs E), Hp. split.
      + intros [H|(y & Hy & H)]; [exists x|exists y]; (split; [|done]); [by left|by right].
      + intros (y & [->|Hy]%elem_of_cons & H); [by left|right; eauto]. }
  destruct Hitems as [|it0 x0 items xs (t0 & -> & H0) Hitems]; [by case_bool_decide|].
  assert (forall k, k ∈ fields -> k <> opt_key -> k ∈ known_keys kitems) as Hplain.
  { intros k Hf Ho. apply Hknown. exists x0. split; [by left|]. by apply Hkeys. }
  rewrite bool_decide_false by (intros E; specialize (Hplain k0 Hk0 Hne); rewrite E in Hplain; by apply not_elem_of_nil in Hplain).
  f_equal. apply imap_ext. intros i it Hit.
  assert (exists t x, it = Table t /\ x ∈ x0 :: xs /\ (opt_key ∈ t.*1 -> set x)) as (t & x & -> & Hx & Ht).
  { destruct i as [|i]; cbn in Hit; [injection Hit as <-; exists t0, x0; split_and!; [done|by left|done]|].
    destruct (Forall2_lookup_l _ _ _ _ _ Hitems Hit) as (x & Hx & t & -> & Ht). exists t, x. split_and!; [done|right; by eapply list_elem_of_lookup_2|done]. }
  cbn. f_equal. apply filter_ext_in. intros k Hk'. split; intros Hn Hin; apply Hn.
  - destruct (decide (k = opt_key)) as [->|Ho]; [|by apply Hplain]. apply Hknown. exists x. split; [done|]. apply Hkeys. split; [done|]. auto.
  - apply Hknown in Hin as (y & _ & Hy). by apply Hkeys in Hy as [? _].
Qed.

Lemma keys_spec {A} (base : list bytes) (opt_key : bytes) (o : option A) k :
  opt_key ∉ base -> k ∈ base ++ (match o with Some _ => [opt_key] | None => [] end) <-> k ∈ base ++ [opt_key] /\ (k = opt_key -> o <> None).
Proof.
  intros Hb. destruct o; rewrite ?app_nil_r, !elem_of_app, ?list_elem_of_singleton; [naive_solver|]. split; [|naive_solver].
  intros H. split; [by left|]. intros ->. done.
Qed.

Lemma in_names (k : bytes) (l : list bytes) : existsb (fun k' => bool_decide (k' = k)) l = true -> k ∈ l.
Proof. intros (x & Hx & ->%bool_decide_eq_true)%existsb_exists. by apply list_elem_of_In. Qed.
Lemma not_in_names (k : bytes) (l : list bytes) : existsb (fun k' => bool_decide (k' = k)) l = false -> k ∉ l.
Proof.
  intros H%not_true_iff_false Hk. apply H, existsb_exists. exists k. split; [by apply list_elem_of_In|by apply bool_decide_eq_true].
Qed.
Lemma present_field c k : present c k -> k ∈ config_fields.
Proof.
  unfold config_fields. rewrite elem_of_app. intros [H|(f & H & _)]; [by left|right]. apply list_elem_of_fmap. by exists (k, f).
Qed.

Section Exact.
Context (from_str : bytes -> option Value) (to_string : Config.Config -> option bytes).

Lemma ignored_ok raw t c k v :
  read_as raw c -> serialises c t -> (k, v) ∈ raw ->
  (if bool_decide (k ∈ CONFIG_KEY_ALIASES) then []
   else match table_get t k with Some known => collect_unknown_array_table_keys k v known | None => [k] end) = ignored (k, v).
Proof.
  intros Hr Hs Hin. unfold ignored. cbn [fst snd]. case_bool_decide as Ha; [done|].
  assert (k ∈ raw.*1) as Hk by (apply list_elem_of_fmap; by exists (k, v)).
  destruct (table_get t k) as [known|] eqn:E.
  - assert (k ∈ config_fields) as Hf.
    { apply (present_field c), (ser_keys c t Hs). destruct (decide (k ∈ t.*1)) as [|Hn]; [done|]. apply table_get_none in Hn. congruence. }
    rewrite (bool_decide_false (k ∉ config_fields)) by tauto. case_bool_decide as Hu; [subst k|case_bool_decide as Hp; [subst k|]].
    + eapply (collect_items upstream_fields upstream_key (bs "groups") upstream_keys (fun u => UpstreamConfig.groups u <> None)).
      * intros u k. apply (keys_spec [bs "id"; bs "addr"; bs "gain"]). by apply not_in_names.
      * by apply (rd_upstream raw c Hr).
      * by apply (ser_upstream c t Hs).
      * exists (bs "id"). split; [by apply in_names|done].
    + eapply (collect_items port_forward_fields port_forward_key (bs "name") forward_keys (fun p => PortForward.name p <> None)).
      * intros p k. apply (keys_spec [bs "bind"; bs "remote"; bs "network"]). by apply not_in_names.
      * by apply (rd_forward raw c Hr).
      * by apply (ser_forward c t Hs).
      * exists (bs "bind"). split; [by apply in_names|done].
    + unfold collect_unknown_array_table_keys. destruct (as_array v); [|done]. destruct (as_array known) as [items|] eqn:Ek; [|done].
      destruct known as [|items'|]; try done. injection Ek as ->. pose proof (ser_other c t Hs k _ items E Hu Hp eq_refl) as Hall.
      rewrite bool_decide_true; [done|]. unfold known_keys. clear -Hall. induction Hall as [|it items Hit _ IH]; [done|]. cbn. by rewrite Hit.
  - rewrite bool_decide_true; [done|]. unfold config_fields. rewrite elem_of_app. intros [Hf|Hf]; apply table_get_none in E; apply E, (ser_keys c t Hs).
    + by left.
    + by apply (rd_optional raw c Hr).
Qed.

(** For a file that was read as a configuration, the keys reported are
    exactly those that no field reads, in the order of the file: the unknown
    keys of the top level, and of the upstreams and port forwards each with its
    place; no field, alias, or key of a routing table is ever reported. *)
Theorem unknown_keys_exact config_str c raw s t :
  from_str config_str = Some (Table raw) -> to_string c = Some s -> from_str s = Some (Table t) ->
  read_as raw c -> serialises c t ->
  unknown_config_keys from_str to_string config_str c = concat (map ignored raw).
Proof.
  intros Hraw Hs Ht Hr Hser. unfold unknown_config_keys. rewrite Hraw, Hs. cbn. rewrite Ht. cbn. f_equal.
  apply map_ext_in. intros [k v] Hin%list_elem_of_In. exact (ignored_ok raw t c k v Hr Hser Hin).
Qed.
End Exact.

(** ** A misspelt file *)

Definition example_upstream : UpstreamConfig.UpstreamConfig := {|
  UpstreamConfig.id := bs "a"; UpstreamConfig.addr := {| sa_ip := V4 2130706433; sa_port := 1080 |};
  UpstreamConfig.groups := None; UpstreamConfig.gain := default_gain |}.
Definition example_config : Config.Config := file_config [example_upstream] true false.
(** The fields of [example_config] with a table for its upstream. *)
Definition example_serialised : list (bytes * Value) :=
  map (fun k => (k, if bool_decide (k = upstream_key) then Array [Table [(bs "id", Scalar); (bs "addr", Scalar); (bs "gain", Scalar)]] else Array [])) plain_fields.
Definition example_raw : list (bytes * Value) :=
  [(bs "sniff_quic_mode", Scalar); (bs "udp_session_idle_timeout_secs", Scalar); (bs "udp", Scalar);
   (upstream_key, Array [Table [(bs "id", Scalar); (bs "address", Scalar); (bs "addr", Scalar)]])].
Definition example_from_str (s : bytes) : option Value := Some (Table (if bool_decide (s = []) then example_raw else example_serialised)).
Definition example_to_string (_ : Config.Config) : option bytes := Some [x2a].

Lemma example_read : read_as example_raw example_config.
Proof.
  split.
  - intros k Hk Ho. exfalso. revert k Hk Ho. apply (proj1 (Forall_forall (fun k => k ∈ optional_fields.*1 -> False) _)). unfold example_raw. cbn [fmap list_fmap fst].
    repeat (constructor; [by apply not_in_names|]). constructor.
  - intros v H. unfold example_raw in H. rewrite !elem_of_cons in H. destruct H as [?|[?|[?|[[= ->]|?%not_elem_of_nil]]]]; try done.
    eexists. split; [done|]. constructor; [|constructor]. eexists. split; [done|]. intros Hg. exfalso. revert Hg. by apply not_in_names.
  - intros v H. unfold example_raw in H. rewrite !elem_of_cons in H. by destruct H as [?|[?|[?|[?|?%not_elem_of_nil]]]].
Qed.

Lemma example_serialises : serialises example_config example_serialised.
Proof.
  split.
  - intros k. assert (example_serialised.*1 = plain_fields) as ->.
    { unfold example_serialised. rewrite <- list_fmap_compose. apply list_fmap_id. }
    split; [by left|]. intros [H|(f & Hf & H)]; [done|]. exfalso. unfold optional_fields in Hf. rewrite !elem_of_cons in Hf.
    destruct Hf as [E|[E|[E|[E|[E|[E|[E|E]]]]]]]; try (injection E as _ ->; by apply H). by apply not_elem_of_nil in E.
  - intros v [= <-]. eexists. split; [done|]. constructor; [|constructor]. eexists. split; [done|]. done.
  - intros v [= <-]. exists []. split; [done|constructor].
  - intros k v items Hk Hu _ ->. assert (forall l v, table_get (map (fun k => (k, if bool_decide (k = upstream_key)
      then Array [Table [(bs "id", Scalar); (bs "addr", Scalar); (bs "gain", Scalar)]] else Array [])) l) k = Some v -> v = Array []) as Hall.
    { intros l v'. induction l as [|k' l IH]; [done|]. cbn. case_bool_decide as E; [|exact IH]. subst k'.
      rewrite bool_decide_false by done. by intros [= <-]. }
    apply Hall in Hk. injection Hk as ->. constructor.
Qed.

Lemma unknown_keys_exact_witness :
  unknown_config_keys example_from_str example_to_string [] example_config = [bs "sniff_quic_mode"; bs "upstream[0].address"].
Proof.
  rewrite (unknown_keys_exact example_from_str example_to_string [] example_config example_raw [x2a] example_serialised);
    [vm_compute; reflexivity|reflexivity|reflexivity|reflexivity|exact example_read|exact example_serialises].
Defined.

(** * Geosite tags *)

(** A tag in any case, with or without its prefix, becomes the same tag. *)
Lemma normalize_tag_spec to_lowercase tag rest :
  to_lowercase (trim tag) = bs "geosite:" ++ rest \/ (to_lowercase (trim tag) = rest /\ take 8 rest <> bs "geosite:") ->
  normalize_tag to_lowercase tag = rest.
Proof.
  unfold normalize_tag, strip_prefix. intros [-> |[-> H]].
  - by rewrite bool_decide_true.
  - by rewrite bool_decide_false.
Qed.
Example normalize_tag_example : normalize_geosite_tags to_ascii_lowercase [bs " GeoSite:CN "; bs "gfw"] [bs "Private"] = ([bs "cn"; bs "gfw"], [bs "private"]).
Proof. vm_compute. reflexivity. Qed.
