(* ===== verification/TcpSniff.v ===== *)
(** The configured sniffers, [build_sniffers] and [build_udp_sniffers] of
    [src/src/sniff/mod.rs] (every sniffing feature compiled in), and what a TCP
    connection gets from [sniff_domain] run over them. *)

From Stdlib Require Import Strings.Byte Strings.String.
From S2P Require Import Prelude Bytes Hostname Sniff Tls TlsHello TlsRecords Http Config.

Definition build_sniffers (c : Config.Config) : list Sniffer :=
  (if Config.sniff_tls_sni c then
     [TlsSniffer (Config.tls_sniff_peek_len c) (Config.tls_sniff_max_len c)
        (Config.tls_sniff_max_retries c) (Config.tls_sniff_wait_more_ms c) (Config.tls_sniff_timeout_ms c)]
   else []) ++
  (if Config.sniff_http_host c then
     [HttpSniffer (Config.http_sniff_peek_len c) (Config.http_sniff_max_len c)
        (Config.http_sniff_max_retries c) (Config.http_sniff_wait_more_ms c) (Config.http_sniff_timeout_ms c)]
   else []).

(** The UDP engines: QUIC SNI is the only one. *)
Inductive UdpSnifferEngine := QuicSniUdpSniffer.
Definition build_udp_sniffers (c : Config.Config) : list UdpSnifferEngine :=
  if negb (bool_decide (Config.quic_sniff_mode c = QuicSniffMode.None)) then [QuicSniUdpSniffer] else [].

Lemma build_sniffers_laws c : Forall SnifferLaws (build_sniffers c).
Proof.
  unfold build_sniffers. apply Forall_app. split.
  - destruct (Config.sniff_tls_sni c); repeat constructor; apply TlsSniffer_laws.
  - destruct (Config.sniff_http_host c); repeat constructor; apply HttpSniffer_laws.
Qed.

(** The time budget of the configured sniffers. *)
Definition sniff_budget (c : Config.Config) : Z :=
  (if Config.sniff_tls_sni c then Z.max (Config.tls_sniff_timeout_ms c) 1 else 0)
  + (if Config.sniff_http_host c then Z.max (Config.http_sniff_timeout_ms c) 1 else 0).

Lemma total_timeout_build c : total_timeout (build_sniffers c) = sniff_budget c.
Proof.
  unfold total_timeout, build_sniffers, sniff_budget.
  destruct (Config.sniff_tls_sni c), (Config.sniff_http_host c); cbn; lia.
Qed.

(** * Properties *)

(** C3: Sniffing a TCP connection with the configured sniffers always ends
    within the sum of their timeouts, whatever the peer sends or withholds,
    never peeks for more than [tcp_peek_buffer_size] bytes, and a domain it
    reports is a valid host name that the TLS or the HTTP parser read in bytes
    the peer sent. *)
Theorem sniffed_domain_sound (c : Config.Config) (peek : nat -> Z -> peek_outcome) (st : peek_state) :
  (forall n len, match peek n len with PeekBuf d _ | PeekErr d => 0 <= d | PeekNever => True end) ->
  Config.tcp_peek_buffer_size c <= USIZE_MAX ->
  exists found st',
    sniff_domain peek (build_sniffers c) (Config.tcp_peek_buffer_size c) st = Ok (found, st') /\
    peeked (fun len => 1 <= len <= Z.max (Config.tcp_peek_buffer_size c) 1) st st' /\
    now st' <= now st + sniff_budget c /\
    forall host, found = Some host ->
      sni_hostname host /\
      exists n len d buf max, peek n len = PeekBuf d buf /\
        (sniff_tls_sni_from_prefix buf max = Ok host \/ sniff_http_host_from_prefix buf max = Ok host).
Proof.
  intros Hp Hcap.
  destruct (sniff_domain_ok peek (build_sniffers c) (Config.tcp_peek_buffer_size c) st Hp (build_sniffers_laws c) Hcap)
    as (found & st' & E & Hpk & Ht & Hh).
  exists found, st'. split; [done|]. split; [done|]. split; [by rewrite <- total_timeout_build|].
  intros host ->. destruct (Hh host eq_refl) as (e & n & len & d & buf & He & Hb & Hc).
  pose proof (build_sniffers_laws c) as Hl. rewrite Forall_forall in Hl. pose proof (Hl e He) as Hle.
  split; [by eapply classify_hostname|]. exists n, len, d, buf, (sniff_max_len e (Config.tcp_peek_buffer_size c)).
  split; [done|]. unfold build_sniffers in He. apply elem_of_app in He as [He|He].
  - destruct (Config.sniff_tls_sni c); [|by apply not_elem_of_nil in He].
    apply list_elem_of_singleton in He as ->. left. by apply tls_classify_matched.
  - destruct (Config.sniff_http_host c); [|by apply not_elem_of_nil in He].
    apply list_elem_of_singleton in He as ->. right. by apply http_classify_matched.
Qed.

Definition example_http_stream (_ : nat) (len : Z) : peek_outcome :=
  PeekBuf 1 (take (Z.to_nat len) (bs "GET / HTTP/1.1" ++ crlf ++ bs "Host: example.com" ++ crlf ++ crlf)).

Lemma sniffed_domain_sound_witness :
  exists st', sniff_domain example_http_stream (build_sniffers (file_config [] true true))
      (Config.tcp_peek_buffer_size (file_config [] true true))
      {| now := 0; asked := [] |} = Ok (Some (bs "example.com"), st') /\
    now st' <= 0 + 2000.
Proof.
  destruct (sniffed_domain_sound (file_config [] true true) example_http_stream {| now := 0; asked := [] |})
    as (found & st' & E & _ & Ht & _).
  - intros n len. change (0 <= 1). lia.
  - by vm_compute.
  - exists st'. split; [|exact Ht]. pose proof E as E'. vm_compute in E'. injection E' as <- _. exact E.
Defined.
