(* ===== verification/Socks5.v ===== *)
(** The SOCKS5 client, [src/src/socks5.rs]: the UDP packet format, the method
    negotiation with optional credentials, CONNECT and UDP ASSOCIATE over a
    byte stream. *)

From Stdlib Require Import Strings.Byte Strings.String.
From S2P Require Import Prelude Bytes Config.

Module Socks5Error.
Inductive Socks5Error :=
  | DomainLength
  | TooShort
  | Reserved
  | Fragmented
  | AddressType
  | CredentialsLength
  | Version
  | NoAuthChosen
  | AuthMethod
  | AuthFailed
  | ReplyCode
  | RelayDomain
  | Resolve
  | Io.
End Socks5Error.
Abbreviation socks_res := (res Socks5Error.Socks5Error).

Inductive Socks5Target :=
  | TargetIp (addr : SocketAddr)
  | TargetDomain (host : bytes) (port : Z).

(** * Addresses on the wire *)

(** [ip.octets()], [port.to_be_bytes()] *)
Definition octets (ip : IpAddr) : bytes :=
  match ip with V4 z => to_be_bytes 4 z | V6 z => to_be_bytes 16 z end.
Definition port_bytes (port : Z) : bytes := to_be_bytes 2 port.

(** The address type, address and port of a request or a packet. *)
Definition push_target (target : Socks5Target) : socks_res bytes :=
  match target with
  | TargetIp {| sa_ip := V4 ip; sa_port := port |} =>
      Ok (byte_of_Z 0x01 :: octets (V4 ip) ++ port_bytes port)
  | TargetIp {| sa_ip := V6 ip; sa_port := port |} =>
      Ok (byte_of_Z 0x04 :: octets (V6 ip) ++ port_bytes port)
  | TargetDomain host port =>
      ensure negb (bool_decide (host = []) || (255 <? zlen host)) else Socks5Error.DomainLength in
      Ok (byte_of_Z 0x03 :: byte_of_Z (zlen host) :: host ++ port_bytes port)
  end.

(** * UDP packets *)

Definition build_socks5_udp_packet (target : Socks5Target) (payload : bytes) : socks_res bytes :=
  let? addr := push_target target in
  Ok ([byte_of_Z 0; byte_of_Z 0; byte_of_Z 0] ++ addr ++ payload).

(** [u16::from_be_bytes([pkt[off], pkt[off + 1]])] *)
Definition read_port (pkt : bytes) (off : Z) : socks_res Z :=
  let? p0 := or_panic (get pkt off) in
  let? p1 := or_panic (get pkt (off + 1)) in
  Ok (u16_from_be p0 p1).

Definition parse_socks5_udp_packet_with_fallback_src (pkt : bytes) (fallback_src : SocketAddr)
    : socks_res (SocketAddr * bytes) :=
  ensure negb (zlen pkt <? 4) else Socks5Error.TooShort in
  let? b0 := or_panic (get pkt 0) in
  let? b1 := or_panic (get pkt 1) in
  ensure (u8 b0 =? 0) && (u8 b1 =? 0) else Socks5Error.Reserved in
  let? b2 := or_panic (get pkt 2) in
  ensure u8 b2 =? 0 else Socks5Error.Fragmented in
  let? atyp := or_panic (get pkt 3) in
  let off := 4 in
  let? (src, off) :=
    if u8 atyp =? 0x01 then
      ensure negb (zlen pkt <? off + 4 + 2) else Socks5Error.TooShort in
      let? ip := or_panic (slice pkt off (off + 4)) in
      let off := off + 4 in
      let? port := read_port pkt off in
      Ok ({| sa_ip := V4 (from_be_bytes ip); sa_port := port |}, off + 2)
    else if u8 atyp =? 0x04 then
      ensure negb (zlen pkt <? off + 16 + 2) else Socks5Error.TooShort in
      let? ip := or_panic (slice pkt off (off + 16)) in
      let off := off + 16 in
      let? port := read_port pkt off in
      Ok ({| sa_ip := V6 (from_be_bytes ip); sa_port := port |}, off + 2)
    else if u8 atyp =? 0x03 then
      ensure negb (zlen pkt <? off + 1) else Socks5Error.TooShort in
      let? len_byte := or_panic (get pkt off) in
      let name_len := u8 len_byte in
      let off := off + 1 in
      ensure negb (zlen pkt <? off + name_len + 2) else Socks5Error.TooShort in
      let off := off + name_len in
      let? _ := read_port pkt off in
      Ok (fallback_src, off + 2)
    else Err Socks5Error.AddressType in
  let? payload := or_panic (slice pkt off (zlen pkt)) in
  Ok (src, payload).

(** * The stream *)

(** A TCP connection to the proxy: the bytes it will still deliver before it
    ends or fails, the bytes written to it, and how many more writes succeed
    ([None]: all of them). *)
Record conn := { rd : bytes; wr : bytes; writes_left : option nat }.

(** Computations on the connection; an error keeps what was done to it. *)
Definition io (A : Type) : Type := conn -> socks_res A * conn.
Definition io_ret {A} (a : A) : io A := fun c => (Ok a, c).
Definition io_err {A} (e : Socks5Error.Socks5Error) : io A := fun c => (Err e, c).
Definition io_lift {A} (r : socks_res A) : io A := fun c => (r, c).
Definition io_bind {A B} (f : io A) (g : A -> io B) : io B := fun c =>
  match f c with
  | (Ok a, c) => g a c
  | (Err e, c) => (Err e, c)
  | (Panic, c) => (Panic, c)
  | (Diverge, c) => (Diverge, c)
  end.
Notation "'do!' x := c1 'in' c2" := (io_bind c1 (fun x => c2))
  (at level 10, x pattern, c1 at level 100, c2 at level 200) : res_scope.

Definition read_exact (n : Z) : io bytes := fun c =>
  if n <=? zlen (rd c) then
    (Ok (take (Z.to_nat n) (rd c)),
     {| rd := drop (Z.to_nat n) (rd c); wr := wr c; writes_left := writes_left c |})
  else (Err Socks5Error.Io, {| rd := []; wr := wr c; writes_left := writes_left c |}).

Definition write_all (b : bytes) : io unit := fun c =>
  match writes_left c with
  | None => (Ok tt, {| rd := rd c; wr := wr c ++ b; writes_left := None |})
  | Some (S n) => (Ok tt, {| rd := rd c; wr := wr c ++ b; writes_left := Some n |})
  | Some O => (Err Socks5Error.Io, c)
  end.

(** [resp[i]] of a buffer just read. *)
Definition at_ (resp : bytes) (i : Z) : io byte := io_lift (or_panic (get resp i)).

Definition socks5_auth (creds : option (bytes * bytes)) : io unit :=
  match creds with
  | Some (user, pass) =>
      if bool_decide (user = []) || (255 <? zlen user) || bool_decide (pass = []) || (255 <? zlen pass)
      then io_err Socks5Error.CredentialsLength
      else
        do! _ := write_all (map byte_of_Z [0x05; 0x02; 0x00; 0x02]) in
        do! resp := read_exact 2 in
        do! version := at_ resp 0 in
        if negb (u8 version =? 0x05) then io_err Socks5Error.Version
        else
          do! method := at_ resp 1 in
          if u8 method =? 0x00 then io_err Socks5Error.NoAuthChosen
          else if u8 method =? 0x02 then
            do! _ := write_all ([byte_of_Z 0x01] ++ [byte_of_Z (zlen user)] ++ user
                                ++ [byte_of_Z (zlen pass)] ++ pass) in
            do! up_resp := read_exact 2 in
            do! v := at_ up_resp 0 in
            do! status := at_ up_resp 1 in
            if negb (u8 v =? 0x01) || negb (u8 status =? 0x00) then io_err Socks5Error.AuthFailed
            else io_ret tt
          else io_err Socks5Error.AuthMethod
  | None =>
      do! _ := write_all (map byte_of_Z [0x05; 0x01; 0x00]) in
      do! buf := read_exact 2 in
      if negb (bool_decide (buf = map byte_of_Z [0x05; 0x00])) then io_err Socks5Error.AuthFailed
      else io_ret tt
  end.

(** The fixed part of a reply: version, reply code, reserved; the result is
    the address type. *)
Definition read_reply_head : io byte :=
  do! resp := read_exact 4 in
  do! version := at_ resp 0 in
  if negb (u8 version =? 0x05) then io_err Socks5Error.Version
  else
    do! code := at_ resp 1 in
    if negb (u8 code =? 0x00) then io_err Socks5Error.ReplyCode
    else
      do! reserved := at_ resp 2 in
      if negb (u8 reserved =? 0x00) then io_err Socks5Error.Reserved
      else at_ resp 3.

(** The number of bytes that [socks5_connect] skips after the type byte. *)
Definition skip_len (atyp : byte) : io Z :=
  if u8 atyp =? 0x01 then io_ret (4 + 2)
  else if u8 atyp =? 0x04 then io_ret (16 + 2)
  else if u8 atyp =? 0x03 then
    do! l := read_exact 1 in
    do! l0 := at_ l 0 in
    io_ret (u8 l0 + 2)
  else io_err Socks5Error.AddressType.

(** [socks5_connect] after the TCP connection to the proxy is up. *)
Definition socks5_connect (target : Socks5Target) (creds : option (bytes * bytes)) : io unit :=
  do! _ := socks5_auth creds in
  do! addr := io_lift (push_target target) in
  do! _ := write_all (map byte_of_Z [0x05; 0x01; 0x00] ++ addr) in
  do! atyp := read_reply_head in
  do! n := skip_len atyp in
  do! _ := read_exact n in
  io_ret tt.

Definition is_unspecified (ip : IpAddr) : bool :=
  match ip with V4 z | V6 z => z =? 0 end.
Definition is_ipv4 (a : SocketAddr) : bool :=
  match sa_ip a with V4 _ => true | V6 _ => false end.

(** The request of [socks5_udp_associate_for_client]. *)
Definition associate_request (socks5_addr : SocketAddr) : bytes :=
  if is_ipv4 socks5_addr then map byte_of_Z [0x05; 0x03; 0x00; 0x01; 0; 0; 0; 0; 0; 0]
  else map byte_of_Z [0x05; 0x03; 0x00; 0x04] ++ replicate 16 x00 ++ replicate 2 x00.

(** A relay at an unspecified address is the proxy itself. *)
Definition effective_relay (socks5_addr relay_addr : SocketAddr) : SocketAddr :=
  if is_unspecified (sa_ip relay_addr)
  then {| sa_ip := sa_ip socks5_addr; sa_port := sa_port relay_addr |} else relay_addr.

Section Associate.
(** [tokio::net::lookup_host], its first result. *)
Context (lookup_host : bytes -> Z -> option SocketAddr).

Definition read_relay_addr (atyp : byte) : io SocketAddr :=
  if u8 atyp =? 0x01 then
    do! buf := read_exact 6 in
    do! ip := io_lift (or_panic (slice buf 0 4)) in
    do! port := io_lift (read_port buf 4) in
    io_ret {| sa_ip := V4 (from_be_bytes ip); sa_port := port |}
  else if u8 atyp =? 0x04 then
    do! buf := read_exact 18 in
    do! ip := io_lift (or_panic (slice buf 0 16)) in
    do! port := io_lift (read_port buf 16) in
    io_ret {| sa_ip := V6 (from_be_bytes ip); sa_port := port |}
  else if u8 atyp =? 0x03 then
    do! l := read_exact 1 in
    do! l0 := at_ l 0 in
    let len := u8 l0 in
    do! rest := read_exact (len + 2) in
    do! host := io_lift (or_panic (slice rest 0 len)) in
    if negb (utf8_valid host) then io_err Socks5Error.RelayDomain
    else
      do! port := io_lift (read_port rest len) in
      io_lift (ok_or Socks5Error.Resolve (lookup_host host port))
  else io_err Socks5Error.AddressType.

(** [socks5_udp_associate_for_client] between the TCP connection to the proxy
    and the creation of the UDP socket: the relay address to use. *)
Definition socks5_udp_associate_for_client (socks5_addr : SocketAddr) (creds : option (bytes * bytes))
    : io SocketAddr :=
  do! _ := socks5_auth creds in
  do! _ := write_all (associate_request socks5_addr) in
  do! atyp := read_reply_head in
  do! relay_addr := read_relay_addr atyp in
  io_ret (effective_relay socks5_addr relay_addr).
End Associate.

(** * Addresses as data *)

(** What may stand in an address field (RFC 1928, section 5); a reply's domain
    may be empty. *)
Inductive wire_addr :=
  | WireIp (addr : SocketAddr)
  | WireDomain (host : bytes) (port : Z).
Definition wf_ip (ip : IpAddr) : Prop :=
  match ip with V4 z => 0 <= z < 2 ^ 32 | V6 z => 0 <= z < 2 ^ 128 end.
Definition wf_addr (a : SocketAddr) : Prop := wf_ip (sa_ip a) /\ 0 <= sa_port a <= U16_MAX.
Definition wf_wire (w : wire_addr) : Prop :=
  match w with
  | WireIp a => wf_addr a
  | WireDomain host port => zlen host <= 255 /\ 0 <= port <= U16_MAX
  end.
Definition encode_wire (w : wire_addr) : bytes :=
  match w with
  | WireIp {| sa_ip := V4 ip; sa_port := port |} => byte_of_Z 1 :: to_be_bytes 4 ip ++ port_bytes port
  | WireIp {| sa_ip := V6 ip; sa_port := port |} => byte_of_Z 4 :: to_be_bytes 16 ip ++ port_bytes port
  | WireDomain host port => byte_of_Z 3 :: byte_of_Z (zlen host) :: host ++ port_bytes port
  end.

Lemma zlen_port port : zlen (port_bytes port) = 2.
Proof. done. Qed.
Lemma zlen_ip4 z : zlen (to_be_bytes 4 z) = 4.
Proof. done. Qed.
Lemma zlen_ip16 z : zlen (to_be_bytes 16 z) = 16.
Proof. done. Qed.
#[export] Hint Rewrite zlen_port zlen_ip4 zlen_ip16 : zlen.

Lemma byte_eqb b z : 0 <= z < 256 -> (u8 b =? z) = true <-> b = byte_of_Z z.
Proof.
  intros Hz. rewrite Z.eqb_eq. split.
  - intros <-. by rewrite byte_of_Z_u8.
  - intros ->. rewrite u8_of_Z. by apply Z.mod_small.
Qed.

Lemma len_byte n : 0 <= n <= 255 -> u8 (byte_of_Z n) = n.
Proof. intros. rewrite u8_of_Z. apply Z.mod_small. lia. Qed.

Lemma port_of_bytes p0 p1 : [p0; p1] = port_bytes (u16_from_be p0 p1).
Proof. symmetry. apply u16_to_from_be. Qed.

Lemma ip_of_bytes l n : zlen l = Z.of_nat n -> l = to_be_bytes n (from_be_bytes l) /\ 0 <= from_be_bytes l < 256 ^ Z.of_nat n.
Proof.
  intros Hl. split.
  - replace n with (length l) by (unfold zlen in Hl; lia). by rewrite to_from_be.
  - rewrite <- Hl. apply from_be_range.
Qed.


Lemma slice_pair (pkt : bytes) off p0 p1 :
  0 <= off -> slice pkt off (off + 2) = Some [p0; p1] <-> get pkt off = Some p0 /\ get pkt (off + 1) = Some p1.
Proof.
  intros Ho. split.
  - intros (l1 & l3 & -> & <- & _)%slice_split. split; [by apply get_mid|].
    apply (get_at _ (l1 ++ [p0]) l3); [by rewrite <- app_assoc|zlen_simpl; lia].
  - intros [(l1 & l2 & -> & <-)%get_split H1].
    destruct l2 as [|q l3].
    + exfalso. pose proof (proj1 (get_lt _ _) (mk_is_Some _ _ H1)) as Hl. zlen_simpl. lia.
    + assert (get (l1 ++ p0 :: q :: l3) (zlen l1 + 1) = Some q) as Hq.
      { apply (get_at _ (l1 ++ [p0]) l3); [by rewrite <- app_assoc|zlen_simpl; lia]. }
      rewrite Hq in H1. injection H1 as ->. by apply (slice_at _ l1 [p0; p1] l3).
Qed.

Lemma read_port_ok pkt off port :
  0 <= off -> read_port pkt off = Ok port <->
  slice pkt off (off + 2) = Some (port_bytes port) /\ 0 <= port <= U16_MAX.
Proof.
  intros Ho. unfold read_port. split.
  - intros H. res_inv. split; [|apply u16_from_be_range]. rewrite <- port_of_bytes. by apply slice_pair.
  - unfold port_bytes. rewrite u16_to_be. intros [Hs Hp]. apply slice_pair in Hs as [-> ->]; [|done].
    cbn [or_panic res_bind]. by rewrite u16_from_to_be.
Qed.

(** * UDP packets, exactly *)

(** The source address the parser reports for an address field. *)
Definition wire_src (w : wire_addr) (fallback_src : SocketAddr) : SocketAddr :=
  match w with WireIp a => a | WireDomain _ _ => fallback_src end.

Lemma parse_udp_encode w payload fb :
  wf_wire w ->
  parse_socks5_udp_packet_with_fallback_src (map byte_of_Z [0; 0; 0] ++ encode_wire w ++ payload) fb =
  Ok (wire_src w fb, payload).
Proof.
  intros Hw. set (pkt := map byte_of_Z [0; 0; 0] ++ _).
  assert (cursor pkt 3 (encode_wire w ++ payload)) as Hc by (by exists (map byte_of_Z [0; 0; 0])).
  assert (get pkt 0 = Some (byte_of_Z 0) /\ get pkt 1 = Some (byte_of_Z 0) /\ get pkt 2 = Some (byte_of_Z 0))
    as (H0 & H1 & H2) by done.
  unfold parse_socks5_udp_packet_with_fallback_src.
  assert (4 <= zlen pkt) as Hl.
  { apply cursor_range in Hc. destruct w as [[[ip|ip] port]|host port]; cbn [encode_wire] in Hc; zlen_lia. }
  rewrite (proj2 (Z.ltb_ge _ _)) by lia. cbn [negb]. rewrite H0, H1, H2. cbn [or_panic res_bind].
  rewrite (proj2 (byte_eqb _ 0 ltac:(lia))) by done. cbn [andb].
  assert (forall off ip n port rest, cursor pkt off (to_be_bytes n ip ++ port_bytes port ++ rest) ->
    0 <= ip < 256 ^ Z.of_nat n -> 0 <= port <= U16_MAX ->
    off + Z.of_nat n + 2 <= zlen pkt /\
    slice pkt off (off + Z.of_nat n) = Some (to_be_bytes n ip) /\ from_be_bytes (to_be_bytes n ip) = ip /\
    read_port pkt (off + Z.of_nat n) = Ok port /\ slice pkt (off + Z.of_nat n + 2) (zlen pkt) = Some rest) as Hread.
  { intros off ip n port rest Hcur Hip Hport. pose proof (zlen_to_be_bytes n ip) as Hn.
    apply cursor_bytes in Hcur as (Hs & Hcur & _). rewrite Hn in *.
    pose proof (cursor_range _ _ _ Hcur) as [? _]. apply cursor_bytes in Hcur as (Hs2 & Hcur & Hle).
    rewrite zlen_port in *. split; [lia|]. split; [done|].
    split; [rewrite from_to_be; by apply Z.mod_small|]. split; [by apply read_port_ok|].
    pose proof (cursor_range _ _ _ Hcur) as [? <-]. rewrite <- (app_nil_r rest) in Hcur.
    by apply cursor_bytes in Hcur as (? & _). }
  destruct w as [[[ip|ip] port]|host port]; cbn [encode_wire app wf_wire wire_src] in *; rewrite <- ?app_assoc in Hc.
  - apply cursor_cons in Hc as (-> & Hc & _). cbn [or_panic res_bind]. rewrite u8_of_Z. change (1 mod 256 =? 1) with true.
    destruct Hw as [Hip Hp]. destruct (Hread _ _ _ _ _ Hc Hip Hp) as (Hle & Hs & Hv & Hrp & Hrest).
    change (3 + 1) with 4 in *. change (Z.of_nat 4) with 4 in *. rewrite (proj2 (Z.ltb_ge _ _)) by lia. cbn [negb].
    rewrite Hs. cbn [or_panic res_bind]. rewrite Hrp. cbn [res_bind]. rewrite Hrest. cbn [or_panic res_bind].
    by rewrite Hv.
  - apply cursor_cons in Hc as (-> & Hc & _). cbn [or_panic res_bind]. rewrite u8_of_Z.
    destruct Hw as [Hip Hp]. destruct (Hread _ _ _ _ _ Hc Hip Hp) as (Hle & Hs & Hv & Hrp & Hrest).
    change (4 mod 256 =? 1) with false. change (4 mod 256 =? 4) with true.
    change (3 + 1) with 4 in *. change (Z.of_nat 16) with 16 in *.
    rewrite (proj2 (Z.ltb_ge (zlen pkt) (4 + 16 + 2))) by lia. cbn [negb].
    rewrite Hs. cbn [or_panic res_bind]. rewrite Hrp. cbn [res_bind]. rewrite Hrest. cbn [or_panic res_bind].
    by rewrite Hv.
  - apply cursor_cons in Hc as (-> & Hc & _). cbn [or_panic res_bind]. rewrite u8_of_Z.
    change (3 mod 256 =? 1) with false. change (3 mod 256 =? 4) with false. change (3 mod 256 =? 3) with true.
    change (3 + 1) with 4 in *. destruct Hw as [Hh Hp].
    apply cursor_cons in Hc as (-> & Hc & Hle). rewrite (proj2 (Z.ltb_ge _ _)) by lia. cbn [negb or_panic res_bind].
    pose proof (zlen_nonneg host). rewrite len_byte by lia.
    apply cursor_bytes in Hc as (_ & Hc & _). pose proof (cursor_range _ _ _ Hc) as [? Hz].
    destruct (Hread _ 0 0%nat port payload Hc ltac:(cbn; lia) Hp) as (Hle2 & _ & _ & Hrp & Hrest).
    change (Z.of_nat 0) with 0 in *. rewrite Z.add_0_r in *.
    rewrite (proj2 (Z.ltb_ge _ _)) by lia. cbn [negb]. rewrite Hrp. cbn [res_bind]. rewrite Hrest. done.
Qed.

Lemma read_field_inv (pkt : bytes) off n rest ip port payload fb_off :
  cursor pkt off rest -> 0 <= n -> slice pkt off (off + n) = Some ip -> read_port pkt (off + n) = Ok port ->
  fb_off = off + n + 2 -> slice pkt fb_off (zlen pkt) = Some payload ->
  rest = ip ++ port_bytes port ++ payload /\ zlen ip = n /\ 0 <= port <= U16_MAX.
Proof.
  intros Hc Hn Hip Hp -> Hpl. pose proof (cursor_range _ _ _ Hc) as [? _].
  destruct (cursor_slice_inv _ _ _ _ _ Hc Hip) as (r1 & -> & Hl & Hc1).
  apply read_port_ok in Hp as [Hp Hpr]; [|lia].
  destruct (cursor_slice_inv _ _ _ _ _ Hc1 Hp) as (r2 & -> & _ & Hc2).
  replace (zlen pkt) with (off + n + 2 + (zlen pkt - (off + n + 2))) in Hpl by lia.
  pose proof (cursor_range _ _ _ Hc2) as [_ Hz].
  destruct (cursor_slice_inv _ _ _ _ _ Hc2 Hpl) as (r3 & -> & Hl3 & _).
  rewrite zlen_app in Hz. assert (r3 = []) as -> by (apply zlen_0_inv; lia).
  by rewrite app_nil_r.
Qed.

Lemma parse_udp_inv pkt fb src payload :
  parse_socks5_udp_packet_with_fallback_src pkt fb = Ok (src, payload) ->
  exists w, wf_wire w /\ pkt = map byte_of_Z [0; 0; 0] ++ encode_wire w ++ payload /\ src = wire_src w fb.
Proof.
  unfold parse_socks5_udp_packet_with_fallback_src. intros H. res_inv.
  apply andb_true_iff in H3 as [E0 E1]. apply byte_eqb in E0 as ->, E1 as ->, H5 as ->; try lia.
  pose proof (cursor_start pkt) as Hc.
  destruct (cursor_get_inv _ _ _ _ Hc H1) as (r1 & -> & Hc1).
  destruct (cursor_get_inv _ _ _ _ Hc1 H2) as (r2 & -> & Hc2).
  destruct (cursor_get_inv _ _ _ _ Hc2 H4) as (r3 & -> & Hc3).
  destruct (cursor_get_inv _ _ _ _ Hc3 H6) as (r4 & -> & Hc4).
  set (pkt := byte_of_Z 0 :: _) in *. change (0 + 1 + 1 + 1 + 1) with 4 in Hc4. destruct a3 as [src' off].
  destruct (u8 a2 =? 1) eqn:Et; [|destruct (u8 a2 =? 4) eqn:Et4; [|destruct (u8 a2 =? 3) eqn:Et3; [|done]]].
  - apply byte_eqb in Et as ->; [|lia]. res_inv. rename select (slice pkt 4 _ = _) into Hip.
    rename select (read_port _ _ = _) into Hrp. rename select (slice pkt _ (zlen pkt) = _) into Hpl.
    destruct (read_field_inv pkt 4 4 _ _ _ _ _ Hc4 ltac:(lia) Hip Hrp eq_refl Hpl) as (-> & Hl & Hp).
    destruct (ip_of_bytes _ 4 Hl) as [E Hr]. eexists (WireIp {| sa_ip := V4 _; sa_port := _ |}).
    split; [split; [exact Hr|exact Hp]|]. split; [|reflexivity]. unfold pkt. cbn [encode_wire]. rewrite <- E. app_eq.
  - apply byte_eqb in Et4 as ->; [|lia]. res_inv. rename select (slice pkt 4 _ = _) into Hip.
    rename select (read_port _ _ = _) into Hrp. rename select (slice pkt _ (zlen pkt) = _) into Hpl.
    destruct (read_field_inv pkt 4 16 _ _ _ _ _ Hc4 ltac:(lia) Hip Hrp eq_refl Hpl) as (-> & Hl & Hp).
    destruct (ip_of_bytes _ 16 Hl) as [E Hr]. eexists (WireIp {| sa_ip := V6 _; sa_port := _ |}).
    split; [split; [exact Hr|exact Hp]|]. split; [|reflexivity]. unfold pkt. cbn [encode_wire]. rewrite <- E. app_eq.
  - apply byte_eqb in Et3 as ->; [|lia]. res_inv.
    rename select (get pkt 4 = _) into Hlen. rename select (read_port _ _ = _) into Hrp.
    rename select (slice pkt _ (zlen pkt) = _) into Hpl. rename select (negb (zlen pkt <? 4 + 1 + _ + 2) = true) into Hle.
    destruct (cursor_get_inv _ _ _ _ Hc4 Hlen) as (r5 & -> & Hc5). byte_bounds.
    match type of Hlen with _ = Some ?b => set (lb := b) in * end.
    destruct (slice_is_Some pkt (4 + 1) (4 + 1 + u8 lb)) as (host & Hh & _); [lia|lia|lia|].
    destruct (read_field_inv pkt (4 + 1) (u8 lb) _ _ _ _ _ Hc5 ltac:(lia) Hh Hrp eq_refl Hpl) as (-> & Hl & Hp).
    eexists (WireDomain host _). split; [split; [lia|exact Hp]|]. split; [|done].
    unfold pkt. cbn [encode_wire]. rewrite Hl, byte_of_Z_u8. app_eq.
Qed.

Lemma read_port_returns pkt off : 0 <= off -> off + 2 <= zlen pkt -> returns (read_port pkt off).
Proof. intros. unfold read_port. returns_tac. Qed.

Lemma parse_udp_returns pkt fb : returns (parse_socks5_udp_packet_with_fallback_src pkt fb).
Proof.
  unfold parse_socks5_udp_packet_with_fallback_src.
  destruct (zlen pkt <? 4) eqn:E4; cbn [negb]; [done|].
  destruct (get_is_Some pkt 0) as [b0 ->]; [lia|lia|]. destruct (get_is_Some pkt 1) as [b1 ->]; [lia|lia|].
  cbn [or_panic res_bind]. destruct (_ && _); [|done].
  destruct (get_is_Some pkt 2) as [b2 ->]; [lia|lia|]. cbn [or_panic res_bind]. destruct (u8 b2 =? 0); [|done].
  destruct (get_is_Some pkt 3) as [b3 ->]; [lia|lia|]. cbn [or_panic res_bind].
  apply returns_bind.
  - returns_tac; try (apply read_port_returns; bounds_lia).
  - intros [src off] H. assert (0 <= off <= zlen pkt) as Ho.
    { destruct (u8 b3 =? 1); [|destruct (u8 b3 =? 4); [|destruct (u8 b3 =? 3); [|done]]]; res_inv; zlen_lia. }
    destruct (slice_is_Some pkt off (zlen pkt)) as (p & -> & _); [lia|lia|lia|]. done.
Qed.

(** * Conversations *)

(** From [c] to [c'] the client consumed [got], wrote [sent] in [k] writes, and
    nothing else happened. *)
Record talked (c c' : conn) (got sent : bytes) (k : nat) : Prop := {
  talked_got : rd c = got ++ rd c';
  talked_sent : wr c' = wr c ++ sent;
  talked_writes : match writes_left c with
                  | None => writes_left c' = None
                  | Some n => (k <= n)%nat /\ writes_left c' = Some (n - k)%nat
                  end;
}.

Lemma talked_refl c : talked c c [] [] 0.
Proof.
  split; [done|by rewrite app_nil_r|]. destruct (writes_left c); [|done]. split; [lia|f_equal; lia].
Qed.

Lemma talked_nil c c' : talked c c' [] [] 0 <-> c' = c.
Proof.
  split; [|intros ->; apply talked_refl]. destruct c as [r w l], c' as [r' w' l'].
  intros [Hr Hw Hl]; cbn in *. subst. rewrite app_nil_r. f_equal.
  destruct l; [|done]. destruct Hl as [_ ->]. f_equal; lia.
Qed.

Lemma talked_app c c1 c2 g1 g2 s1 s2 k1 k2 :
  talked c c1 g1 s1 k1 -> talked c1 c2 g2 s2 k2 -> talked c c2 (g1 ++ g2) (s1 ++ s2) (k1 + k2).
Proof.
  intros [R1 W1 L1] [R2 W2 L2]. split.
  - by rewrite R1, R2, app_assoc.
  - by rewrite W2, W1, app_assoc.
  - destruct (writes_left c).
    + destruct L1 as [? L1]. rewrite L1 in L2. destruct L2 as [? ->]. split; [lia|f_equal; lia].
    + by rewrite L1 in L2.
Qed.

(** A conversation in two parts. *)
Lemma talked_split c c2 g1 g2 s1 s2 k1 k2 :
  talked c c2 (g1 ++ g2) (s1 ++ s2) (k1 + k2) ->
  exists c1, talked c c1 g1 s1 k1 /\ talked c1 c2 g2 s2 k2.
Proof.
  intros [R W L].
  exists {| rd := g2 ++ rd c2; wr := wr c ++ s1;
            writes_left := match writes_left c with Some n => Some (n - k1)%nat | None => None end |}.
  split; split; cbn.
  - by rewrite R, app_assoc.
  - done.
  - destruct (writes_left c); [|done]. split; [lia|done].
  - done.
  - by rewrite W, app_assoc.
  - destruct (writes_left c); [|done]. destruct L as [? ->]. split; [lia|f_equal; lia].
Qed.

Lemma io_bind_ok {A B} (f : io A) (g : A -> io B) c b c' :
  io_bind f g c = (Ok b, c') <-> exists a c1, f c = (Ok a, c1) /\ g a c1 = (Ok b, c').
Proof.
  unfold io_bind. destruct (f c) as [[a|e| |] c1]; split; try done; eauto;
    intros (? & ? & ? & ?); by simplify_eq.
Qed.

Lemma io_ret_ok {A} (a b : A) c c' : io_ret a c = (Ok b, c') <-> a = b /\ c' = c.
Proof. unfold io_ret. split; [intros [= -> ->]|intros [-> ->]]; done. Qed.

Lemma io_err_ok {A} e (b : A) c c' : io_err e c = (Ok b, c') <-> False.
Proof. by unfold io_err. Qed.

Lemma io_lift_ok {A} (r : socks_res A) b c c' : io_lift r c = (Ok b, c') <-> r = Ok b /\ c' = c.
Proof. unfold io_lift. split; [intros [= -> ->]|intros [-> ->]]; done. Qed.

Lemma at_ok resp i b c c' : at_ resp i c = (Ok b, c') <-> get resp i = Some b /\ c' = c.
Proof. unfold at_. by rewrite io_lift_ok, or_panic_ok. Qed.

Lemma read_exact_ok n d c c' :
  0 <= n -> read_exact n c = (Ok d, c') <-> zlen d = n /\ talked c c' d [] 0.
Proof.
  intros Hn. unfold read_exact. destruct c as [r w l]; cbn [rd wr writes_left]. split.
  - destruct (Z.leb_spec n (zlen r)); [|done]. intros [= <- <-]. split; [by apply zlen_take|].
    split; cbn; [by rewrite take_drop|by rewrite app_nil_r|]. destruct l; [|done]. split; [lia|f_equal; lia].
  - intros [Hl [R W L]]; cbn in *. subst r. rewrite (proj2 (Z.leb_le _ _)) by zlen_lia.
    replace (Z.to_nat n) with (length d) by (unfold zlen in *; lia).
    rewrite take_app_length, drop_app_length. destruct c' as [r' w' l']; cbn in *.
    rewrite app_nil_r in W. subst w'. repeat f_equal. destruct l; [|done]. destruct L as [_ ->]. f_equal; lia.
Qed.

Lemma io_write_all_ok b u c c' : write_all b c = (Ok u, c') <-> talked c c' [] b 1.
Proof.
  destruct u, c as [r w l], c' as [r' w' l']. unfold write_all; cbn [rd wr writes_left]. split.
  - destruct l as [[|n]|]; [done|..]; intros [= <- <- <-]; split; cbn; try done. split; [lia|f_equal; lia].
  - intros [R W L]; cbn in *. subst. destruct l as [[|n]|]; [lia| |by rewrite L].
    destruct L as [_ ->]. repeat f_equal. lia.
Qed.

(** The method negotiation, RFC 1928 and RFC 1929. *)
Definition valid_creds (creds : option (bytes * bytes)) : Prop :=
  match creds with
  | Some (user, pass) => 0 < zlen user <= 255 /\ 0 < zlen pass <= 255
  | None => True
  end.
Definition auth_sent (creds : option (bytes * bytes)) : bytes :=
  match creds with
  | Some (user, pass) =>
      map byte_of_Z [5; 2; 0; 2]
      ++ [byte_of_Z 1] ++ [byte_of_Z (zlen user)] ++ user ++ [byte_of_Z (zlen pass)] ++ pass
  | None => map byte_of_Z [5; 1; 0]
  end.
Definition auth_got (creds : option (bytes * bytes)) : bytes :=
  match creds with Some _ => map byte_of_Z [5; 2; 1; 0] | None => map byte_of_Z [5; 0] end.
Definition auth_writes (creds : option (bytes * bytes)) : nat :=
  match creds with Some _ => 2 | None => 1 end.

(** Decomposes a successful [io] computation. *)
Ltac io_inv :=
  repeat match goal with
  | H : io_bind _ _ _ = (Ok _, _) |- _ =>
      let a := fresh "a" in let c := fresh "c" in let H1 := fresh "H" in
      apply io_bind_ok in H as (a & c & H1 & H); cbn beta iota zeta in H
  | H : io_ret _ _ = (Ok _, _) |- _ => apply io_ret_ok in H as [? ->]
  | H : io_err _ _ = (Ok _, _) |- _ => apply io_err_ok in H as []
  | H : io_lift _ _ = (Ok _, _) |- _ => apply io_lift_ok in H as [H ->]
  | H : at_ _ _ _ = (Ok _, _) |- _ => apply at_ok in H as [H ->]
  | H : write_all _ _ = (Ok _, _) |- _ => apply io_write_all_ok in H
  | H : read_exact _ _ = (Ok _, _) |- _ => apply read_exact_ok in H as [? H]; [|lia]
  | H : (if ?b then _ else _) _ = (Ok _, _) |- _ => let E := fresh "E" in destruct b eqn:E
  end.

Lemma pair_of_gets (l : bytes) a b : zlen l = 2 -> get l 0 = Some a -> get l 1 = Some b -> l = [a; b].
Proof.
  unfold zlen. destruct l as [|x [|y [|]]]; cbn [length]; try lia.
  intros _ H1 H2. change (Some x = Some a) in H1. change (Some y = Some b) in H2. congruence.
Qed.
Lemma quad_of_gets (l : bytes) a b c d :
  zlen l = 4 -> get l 0 = Some a -> get l 1 = Some b -> get l 2 = Some c -> get l 3 = Some d -> l = [a; b; c; d].
Proof.
  unfold zlen. destruct l as [|x [|y [|z [|w [|]]]]]; cbn [length]; try lia.
  intros _ H1 H2 H3 H4. change (Some x = Some a) in H1. change (Some y = Some b) in H2.
  change (Some z = Some c) in H3. change (Some w = Some d) in H4. congruence.
Qed.
Lemma single_of_get (l : bytes) a : zlen l = 1 -> get l 0 = Some a -> l = [a].
Proof.
  unfold zlen. destruct l as [|x [|]]; cbn [length]; try lia.
  intros _ H1. change (Some x = Some a) in H1. congruence.
Qed.

(** Runs the first action of a conversation that is known to take place. *)
Lemma run_write {B} b (g : unit -> io B) x c c' got sent k :
  (forall c1, talked c1 c' got sent k -> g tt c1 = (Ok x, c')) ->
  talked c c' got (b ++ sent) (1 + k) -> io_bind (write_all b) g c = (Ok x, c').
Proof.
  intros Hg Ht. destruct (talked_split c c' [] got b sent 1 k Ht) as (c1 & H1 & H2).
  apply io_bind_ok. exists tt, c1. split; [by apply io_write_all_ok|auto].
Qed.

Lemma run_last_write {B} b (g : unit -> io B) x c c' got :
  (forall c1, talked c1 c' got [] 0 -> g tt c1 = (Ok x, c')) ->
  talked c c' got b 1 -> io_bind (write_all b) g c = (Ok x, c').
Proof. intros Hg Ht. rewrite <- (app_nil_r b) in Ht. by eapply run_write. Qed.

Lemma run_read {B} n d (g : bytes -> io B) x c c' got sent k :
  zlen d = n -> (forall c1, talked c1 c' got sent k -> g d c1 = (Ok x, c')) ->
  talked c c' (d ++ got) sent k -> io_bind (read_exact n) g c = (Ok x, c').
Proof.
  intros Hd Hg Ht. destruct (talked_split c c' d got [] sent 0 k Ht) as (c1 & H1 & H2).
  apply io_bind_ok. exists d, c1. split; [|auto]. apply read_exact_ok; [rewrite <- Hd; apply zlen_nonneg|done].
Qed.

Lemma run_at {B} resp i b (g : byte -> io B) c : get resp i = Some b -> io_bind (at_ resp i) g c = g b c.
Proof. intros H. unfold io_bind, at_, io_lift. by rewrite H. Qed.

Lemma run_lift {A B} (r : socks_res A) a (g : A -> io B) c : r = Ok a -> io_bind (io_lift r) g c = g a c.
Proof. intros ->. done. Qed.

Lemma socks5_auth_ok creds u c c' :
  socks5_auth creds c = (Ok u, c') <->
  valid_creds creds /\ talked c c' (auth_got creds) (auth_sent creds) (auth_writes creds).
Proof.
  destruct u, creds as [[user pass]|]; cbn [valid_creds auth_got auth_sent auth_writes socks5_auth].
  - pose proof (zlen_nonneg user). pose proof (zlen_nonneg pass).
    assert (bool_decide (user = []) || (255 <? zlen user) || bool_decide (pass = []) || (255 <? zlen pass) = false <->
      0 < zlen user <= 255 /\ 0 < zlen pass <= 255) as Hv.
    { rewrite !orb_false_iff, !bool_decide_eq_false, !Z.ltb_ge.
      destruct user, pass; zlen_simpl; split; try (intros [[[? ?] ?] ?]); try (intros [? ?]); try done; try lia;
        repeat split; try done; zlen_lia. }
    destruct (_ || _) eqn:Ev.
    + rewrite io_err_ok. split; [done|]. intros [Hc _]. by apply Hv in Hc.
    + split.
      * intros H1. split; [by apply Hv|]. io_inv.
        apply negb_false_iff in E. apply orb_false_iff in E2 as [E2%negb_false_iff E3%negb_false_iff].
        apply byte_eqb in E as ->, E1 as ->, E2 as ->, E3 as ->; try lia.
        assert (a0 = map byte_of_Z [5; 2]) as -> by (by apply pair_of_gets).
        assert (a4 = map byte_of_Z [1; 0]) as -> by (by apply pair_of_gets).
        pose proof (talked_app _ _ _ _ _ _ _ _ _ H2 H3) as T1.
        pose proof (talked_app _ _ _ _ _ _ _ _ _ H7 H8) as T2.
        pose proof (talked_app _ _ _ _ _ _ _ _ _ T1 T2) as T. rewrite !app_nil_r in T. exact T.
      * intros [_ Ht]. eapply (run_write _ _ _ _ _ (map byte_of_Z [5; 2; 1; 0])); [|exact Ht].
        intros c1 Ht1. eapply (run_read 2 (map byte_of_Z [5; 2])); [done| |exact Ht1].
        intros c2 Ht2. rewrite (run_at _ _ (byte_of_Z 5)) by done.
        change (negb (u8 (byte_of_Z 5) =? 5)) with false. cbn iota.
        rewrite (run_at _ _ (byte_of_Z 2)) by done.
        change (u8 (byte_of_Z 2) =? 0) with false. change (u8 (byte_of_Z 2) =? 2) with true. cbn iota.
        eapply run_last_write; [|exact Ht2].
        intros c3 Ht3. eapply (run_read 2 (map byte_of_Z [1; 0])); [done| |exact Ht3].
        intros c4 Ht4. rewrite (run_at _ _ (byte_of_Z 1)), (run_at _ _ (byte_of_Z 0)) by done.
        change (negb (u8 (byte_of_Z 1) =? 1) || negb (u8 (byte_of_Z 0) =? 0)) with false. cbn iota.
        apply talked_nil in Ht4 as ->. done.
  - split.
    + intros H1. split; [done|]. io_inv. apply negb_false_iff, bool_decide_eq_true in E as ->.
      exact (talked_app _ _ _ _ _ _ _ _ _ H H0).
    + intros [_ Ht]. eapply run_last_write; [|exact Ht].
      intros c1 Ht1. eapply (run_read 2 (map byte_of_Z [5; 0])); [done| |exact Ht1].
      intros c2 Ht2. rewrite bool_decide_eq_true_2 by done. cbn [negb]. apply talked_nil in Ht2 as ->. done.
Qed.

(** The head of a successful reply. *)
Lemma read_reply_head_ok atyp c c' :
  read_reply_head c = (Ok atyp, c') <-> talked c c' (map byte_of_Z [5; 0; 0] ++ [atyp]) [] 0.
Proof.
  unfold read_reply_head. split.
  - intros H. io_inv. apply negb_false_iff in E, E0, E1.
    apply byte_eqb in E as ->, E0 as ->, E1 as ->; try lia.
    assert (a = map byte_of_Z [5; 0; 0] ++ [atyp]) as <- by (by apply quad_of_gets). done.
  - intros Ht. rewrite <- (app_nil_r (_ ++ [atyp])) in Ht.
    eapply (run_read 4); [|intros c1 Ht1|exact Ht]; [done|].
    rewrite (run_at _ _ (byte_of_Z 5)) by done. change (negb (u8 (byte_of_Z 5) =? 5)) with false. cbn iota.
    rewrite (run_at _ _ (byte_of_Z 0)) by done. change (negb (u8 (byte_of_Z 0) =? 0)) with false. cbn iota.
    rewrite (run_at _ _ (byte_of_Z 0)) by done. change (negb (u8 (byte_of_Z 0) =? 0)) with false. cbn iota.
    apply at_ok. split; [done|]. by apply talked_nil in Ht1.
Qed.

Lemma run_reply_head {B} (g : byte -> io B) x c c' atyp got sent k :
  (forall c1, talked c1 c' got sent k -> g atyp c1 = (Ok x, c')) ->
  talked c c' (map byte_of_Z [5; 0; 0] ++ atyp :: got) sent k -> io_bind read_reply_head g c = (Ok x, c').
Proof.
  intros Hg Ht. destruct (talked_split c c' (map byte_of_Z [5; 0; 0] ++ [atyp]) got [] sent 0 k) as (c1 & H1 & H2).
  { by rewrite <- app_assoc. }
  apply io_bind_ok. exists atyp, c1. split; [by apply read_reply_head_ok|auto].
Qed.

(** The body of an address field after its type byte. *)
Definition wire_body (w : wire_addr) : bytes := drop 1 (encode_wire w).

Lemma encode_wire_body w : exists b, encode_wire w = b :: wire_body w /\
  b = byte_of_Z (match w with WireIp {| sa_ip := V4 _ |} => 1 | WireIp _ => 4 | WireDomain _ _ => 3 end).
Proof. destruct w as [[[ip|ip] port]|host port]; eexists; split; done. Qed.

(** Any bytes of the right length are an address and a port. *)
Lemma field_of_bytes d n :
  0 <= n -> zlen d = n + 2 ->
  exists ip port, d = ip ++ port_bytes port /\ zlen ip = n /\ 0 <= port <= U16_MAX.
Proof.
  intros Hn Hd. exists (take (Z.to_nat n) d).
  assert (zlen (drop (Z.to_nat n) d) = 2) as H2 by (unfold zlen in *; rewrite length_drop; lia).
  destruct (drop (Z.to_nat n) d) as [|p0 [|p1 [|]]] eqn:E; try (exfalso; zlen_lia).
  exists (u16_from_be p0 p1). rewrite <- port_of_bytes, <- E, take_drop.
  split; [done|]. split; [apply zlen_take; lia|apply u16_from_be_range].
Qed.

Lemma wire_of_v4 d : zlen d = 6 -> exists w, wf_wire w /\ encode_wire w = byte_of_Z 1 :: d.
Proof.
  intros (ip & port & -> & Hl & Hp)%(field_of_bytes d 4); [|lia].
  destruct (ip_of_bytes ip 4 Hl) as [E Hr]. exists (WireIp {| sa_ip := V4 (from_be_bytes ip); sa_port := port |}).
  split; [split; [exact Hr|exact Hp]|]. cbn [encode_wire]. by rewrite <- E.
Qed.

Lemma wire_of_v6 d : zlen d = 18 -> exists w, wf_wire w /\ encode_wire w = byte_of_Z 4 :: d.
Proof.
  intros (ip & port & -> & Hl & Hp)%(field_of_bytes d 16); [|lia].
  destruct (ip_of_bytes ip 16 Hl) as [E Hr]. exists (WireIp {| sa_ip := V6 (from_be_bytes ip); sa_port := port |}).
  split; [split; [exact Hr|exact Hp]|]. cbn [encode_wire]. by rewrite <- E.
Qed.

Lemma wire_of_domain l d :
  zlen d = u8 l + 2 ->
  exists host port, wf_wire (WireDomain host port) /\ d = host ++ port_bytes port /\ zlen host = u8 l /\
    encode_wire (WireDomain host port) = byte_of_Z 3 :: l :: d.
Proof.
  intros (host & port & -> & Hl & Hp)%(field_of_bytes d (u8 l)); [|byte_bounds; lia].
  exists host, port. byte_bounds. split; [split; [lia|exact Hp]|]. split; [done|]. split; [done|].
  cbn [encode_wire]. by rewrite Hl, byte_of_Z_u8.
Qed.


(** A successful read of [n] bytes, in a branch known to take place. *)
Lemma read_then {B} n (g : bytes -> io B) x c c' :
  0 <= n -> io_bind (read_exact n) g c = (Ok x, c') ->
  exists d c1, zlen d = n /\ talked c c1 d [] 0 /\ g d c1 = (Ok x, c').
Proof.
  intros Hn H. apply io_bind_ok in H as (d & c1 & H1 & H2). apply read_exact_ok in H1 as [? ?]; [|done]. eauto 6.
Qed.

(** The length byte of a domain. *)
Lemma len_then {B} (g : byte -> io B) x c c' :
  (do! l := read_exact 1 in do! l0 := at_ l 0 in g l0)%res c = (Ok x, c') <->
  exists l c1, talked c c1 [l] [] 0 /\ g l c1 = (Ok x, c').
Proof.
  split.
  - intros (d & c1 & Hd & Ht & H)%read_then; [|lia]. apply io_bind_ok in H as (l & c2 & Hg & H).
    apply at_ok in Hg as [Hg ->]. apply single_of_get with (a := l) in Hd as ->; [|done]. eauto.
  - intros (l & c1 & Ht & H). apply io_bind_ok. exists [l], c1. split; [by apply read_exact_ok|].
    by rewrite (run_at _ _ l).
Qed.

Lemma skip_wire_ok atyp u c c' :
  (do! n := skip_len atyp in do! _ := read_exact n in io_ret tt)%res c = (Ok u, c') <->
  exists w, wf_wire w /\ exists d, encode_wire w = atyp :: d /\ talked c c' d [] 0.
Proof.
  destruct u. unfold skip_len. split.
  - intros (n & c1 & Hn & (d & c2 & Hd & H)%io_bind_ok)%io_bind_ok. apply io_ret_ok in H as [_ ->].
    destruct (u8 atyp =? 1) eqn:E1; [|destruct (u8 atyp =? 4) eqn:E4; [|destruct (u8 atyp =? 3) eqn:E3; [|done]]].
    + apply io_ret_ok in Hn as [<- ->]. apply read_exact_ok in Hd as [Hl Ht]; [|lia].
      apply byte_eqb in E1 as ->; [|lia]. destruct (wire_of_v4 d Hl) as (w & ? & ?). eauto.
    + apply io_ret_ok in Hn as [<- ->]. apply read_exact_ok in Hd as [Hl Ht]; [|lia].
      apply byte_eqb in E4 as ->; [|lia]. destruct (wire_of_v6 d Hl) as (w & ? & ?). eauto.
    + apply byte_eqb in E3 as ->; [|lia]. apply len_then in Hn as (l & c3 & Ht1 & Hn).
      apply io_ret_ok in Hn as [<- ->]. apply read_exact_ok in Hd as [Hl Ht]; [|byte_bounds; lia].
      destruct (wire_of_domain l d Hl) as (h & p & ? & _ & _ & ?).
      exists (WireDomain h p). split; [done|]. exists (l :: d). split; [done|].
      exact (talked_app _ _ _ _ _ _ _ _ _ Ht1 Ht).
  - intros (w & Hw & d & Ew & Ht). destruct w as [[[ip|ip] port]|host port]; cbn [encode_wire] in Ew;
      injection Ew as <- <-.
    + apply io_bind_ok. exists 6, c. split; [done|]. apply io_bind_ok. exists (to_be_bytes 4 ip ++ port_bytes port), c'.
      split; [|done]. by apply read_exact_ok.
    + apply io_bind_ok. exists 18, c. split; [done|]. apply io_bind_ok. exists (to_be_bytes 16 ip ++ port_bytes port), c'.
      split; [|done]. by apply read_exact_ok.
    + destruct Hw as [Hh Hp]. pose proof (zlen_nonneg host).
      destruct (talked_split c c' [byte_of_Z (zlen host)] (host ++ port_bytes port) [] [] 0 0 Ht) as (c1 & H1 & H2).
      apply io_bind_ok. exists (zlen host + 2), c1. split.
      * apply len_then. exists (byte_of_Z (zlen host)), c1. split; [done|]. by rewrite len_byte by lia.
      * apply io_bind_ok. exists (host ++ port_bytes port), c'. split; [|done].
        apply read_exact_ok; [lia|]. split; [zlen_lia|done].
Qed.

(** [socks5_connect] succeeds exactly on a conversation that negotiates, sends
    the CONNECT request for the target, and reads a success reply of any
    address to its last byte. *)
Lemma socks5_connect_ok target creds u c c' :
  socks5_connect target creds c = (Ok u, c') <->
  valid_creds creds /\
  exists addr w, push_target target = Ok addr /\ wf_wire w /\
    talked c c' (auth_got creds ++ map byte_of_Z [5; 0; 0] ++ encode_wire w)
      (auth_sent creds ++ map byte_of_Z [5; 1; 0] ++ addr) (auth_writes creds + 1).
Proof.
  unfold socks5_connect. split.
  - intros (? & c0 & [Hv Ht]%socks5_auth_ok & H1)%io_bind_ok. split; [done|].
    apply io_bind_ok in H1 as (addr & c1 & Haddr & H1). apply io_lift_ok in Haddr as [Haddr ->].
    apply io_bind_ok in H1 as (? & c2 & Hw & H1). apply io_write_all_ok in Hw.
    apply io_bind_ok in H1 as (atyp & c3 & Hh & H1). apply read_reply_head_ok in Hh.
    apply skip_wire_ok in H1 as (w & Hwf & d & Ew & Hd). exists addr, w. split; [done|]. split; [done|].
    pose proof (talked_app _ _ _ _ _ _ _ _ _ Ht (talked_app _ _ _ _ _ _ _ _ _ Hw
      (talked_app _ _ _ _ _ _ _ _ _ Hh Hd))) as T. by rewrite !app_nil_r in T; rewrite Ew.
  - intros (Hv & addr & w & Haddr & Hwf & Ht).
    destruct (encode_wire_body w) as (b & Ew & _). rewrite Ew in Ht.
    destruct (talked_split _ _ _ _ _ _ _ _ Ht) as (c1 & H1 & H2).
    apply io_bind_ok. exists tt, c1. split; [by apply socks5_auth_ok|].
    rewrite (run_lift _ addr) by done. eapply run_last_write; [|exact H2]. intros c2 H3.
    eapply run_reply_head; [|exact H3]. intros c3 H4. destruct u. apply skip_wire_ok. eauto 6.
Qed.

(** The relay address that a reply names. *)
Definition wire_relay (lookup_host : bytes -> Z -> option SocketAddr) (w : wire_addr) : option SocketAddr :=
  match w with
  | WireIp a => Some a
  | WireDomain host port => if utf8_valid host then lookup_host host port else None
  end.

(** An address and a port out of one buffer. *)
Lemma ip_port_ok {B} n (k : bytes -> Z -> B) d x c c' :
  0 <= n -> zlen d = n + 2 ->
  (do! ip := io_lift (or_panic (slice d 0 n)) in
   do! port := io_lift (read_port d n) in io_ret (k ip port))%res c = (Ok x, c') <->
  exists ip port, d = ip ++ port_bytes port /\ zlen ip = n /\ 0 <= port <= U16_MAX /\ x = k ip port /\ c' = c.
Proof.
  intros Hn Hd.
  assert (forall ip port, d = ip ++ port_bytes port -> zlen ip = n -> 0 <= port <= U16_MAX ->
    slice d 0 n = Some ip /\ read_port d n = Ok port) as Hread.
  { intros ip port -> Hl Hp. split.
    - apply (slice_at _ [] ip (port_bytes port)); [done|done|lia].
    - apply read_port_ok; [done|]. split; [|done].
      apply (slice_at _ ip (port_bytes port) []); [by rewrite app_nil_r|lia|zlen_lia]. }
  split.
  - intros H. destruct (field_of_bytes d n Hn Hd) as (ip & port & E & Hl & Hp).
    destruct (Hread ip port E Hl Hp) as [-> ->] in H. exists ip, port.
    injection H as <- <-. done.
  - intros (ip & port & E & Hl & Hp & -> & ->). destruct (Hread ip port E Hl Hp) as [-> ->]. done.
Qed.

(** The domain branch of [read_relay_addr] on the bytes after the length. *)
Lemma domain_tail_ok (lookup_host : bytes -> Z -> option SocketAddr) host port a c c' :
  0 <= port <= U16_MAX ->
  (do! h := io_lift (or_panic (slice (host ++ port_bytes port) 0 (zlen host))) in
   if negb (utf8_valid h) then io_err Socks5Error.RelayDomain
   else
     do! p := io_lift (read_port (host ++ port_bytes port) (zlen host)) in
     io_lift (ok_or Socks5Error.Resolve (lookup_host h p)))%res c = (Ok a, c') <->
  wire_relay lookup_host (WireDomain host port) = Some a /\ c' = c.
Proof.
  intros Hp. pose proof (zlen_nonneg host).
  assert (slice (host ++ port_bytes port) 0 (zlen host) = Some host) as Hs.
  { apply (slice_at _ [] host (port_bytes port)); [done|done|lia]. }
  assert (read_port (host ++ port_bytes port) (zlen host) = Ok port) as Hr.
  { apply read_port_ok; [done|]. split; [|done].
    apply (slice_at _ host (port_bytes port) []); [by rewrite app_nil_r|done|zlen_lia]. }
  rewrite (run_lift _ host) by (by rewrite Hs). cbn [wire_relay].
  destruct (utf8_valid host); cbn [negb]; [|by rewrite io_err_ok; split; [|intros [? ?]]].
  rewrite (run_lift _ port) by done. rewrite io_lift_ok. by destruct (lookup_host host port) as [r|]; cbn;
    split; intros [[= <-] ->].
Qed.

Lemma read_relay_addr_ok lookup_host atyp a c c' :
  read_relay_addr lookup_host atyp c = (Ok a, c') <->
  exists w, wf_wire w /\ wire_relay lookup_host w = Some a /\
    exists d, encode_wire w = atyp :: d /\ talked c c' d [] 0.
Proof.
  unfold read_relay_addr. split.
  - intros H. destruct (u8 atyp =? 1) eqn:E1; [|destruct (u8 atyp =? 4) eqn:E4; [|destruct (u8 atyp =? 3) eqn:E3]].
    + apply byte_eqb in E1 as ->; [|lia]. apply read_then in H as (d & c1 & Hl & Ht & H); [|lia].
      apply (ip_port_ok 4 (fun ip port => {| sa_ip := V4 (from_be_bytes ip); sa_port := port |})) in H
        as (ip & port & -> & Hip & Hp & -> & ->); [|lia|done].
      destruct (ip_of_bytes ip 4 Hip) as [E Hr]. eexists (WireIp {| sa_ip := V4 _; sa_port := _ |}).
      split; [split; [exact Hr|exact Hp]|]. split; [done|]. eexists. split; [|exact Ht]. cbn [encode_wire]. by rewrite <- E.
    + apply byte_eqb in E4 as ->; [|lia]. apply read_then in H as (d & c1 & Hl & Ht & H); [|lia].
      apply (ip_port_ok 16 (fun ip port => {| sa_ip := V6 (from_be_bytes ip); sa_port := port |})) in H
        as (ip & port & -> & Hip & Hp & -> & ->); [|lia|done].
      destruct (ip_of_bytes ip 16 Hip) as [E Hr]. eexists (WireIp {| sa_ip := V6 _; sa_port := _ |}).
      split; [split; [exact Hr|exact Hp]|]. split; [done|]. eexists. split; [|exact Ht]. cbn [encode_wire]. by rewrite <- E.
    + apply byte_eqb in E3 as ->; [|lia]. apply len_then in H as (l & c1 & Ht1 & H). cbn zeta in H. byte_bounds.
      apply read_then in H as (d & c2 & Hl & Ht & H); [|lia].
      destruct (wire_of_domain l d Hl) as (host & port & Hwf & -> & Hh & E). rewrite <- Hh in H.
      apply domain_tail_ok in H as [Hr ->]; [|apply Hwf]. exists (WireDomain host port).
      split; [done|]. split; [done|]. eexists. split; [exact E|]. exact (talked_app _ _ _ _ _ _ _ _ _ Ht1 Ht).
    + by apply io_err_ok in H.
  - intros (w & Hw & Hr & d & Ew & Ht). destruct w as [[[ip|ip] port]|host port]; cbn [encode_wire] in Ew;
      injection Ew as <- <-.
    + cbn [wire_relay] in Hr. injection Hr as <-. destruct Hw as [Hip Hp]. cbn [sa_ip sa_port] in *.
      change (u8 (byte_of_Z 1) =? 1) with true. cbn iota. apply io_bind_ok. exists (to_be_bytes 4 ip ++ port_bytes port), c'.
      split; [apply read_exact_ok; [lia|done]|].
      apply (ip_port_ok 4 (fun ip port => {| sa_ip := V4 (from_be_bytes ip); sa_port := port |})); [lia|done|].
      exists (to_be_bytes 4 ip), port. split_and!; try done; try lia. cbn beta. by rewrite from_to_be, Z.mod_small by exact Hip.
    + cbn [wire_relay] in Hr. injection Hr as <-. destruct Hw as [Hip Hp]. cbn [sa_ip sa_port] in *.
      change (u8 (byte_of_Z 4) =? 1) with false. change (u8 (byte_of_Z 4) =? 4) with true. cbn iota.
      apply io_bind_ok. exists (to_be_bytes 16 ip ++ port_bytes port), c'. split; [apply read_exact_ok; [lia|done]|].
      apply (ip_port_ok 16 (fun ip port => {| sa_ip := V6 (from_be_bytes ip); sa_port := port |})); [lia|done|].
      exists (to_be_bytes 16 ip), port. split_and!; try done; try lia. cbn beta. by rewrite from_to_be, Z.mod_small by exact Hip.
    + destruct Hw as [Hh Hp]. pose proof (zlen_nonneg host).
      change (u8 (byte_of_Z 3) =? 1) with false. change (u8 (byte_of_Z 3) =? 4) with false.
      change (u8 (byte_of_Z 3) =? 3) with true. cbn iota.
      destruct (talked_split c c' [byte_of_Z (zlen host)] (host ++ port_bytes port) [] [] 0 0 Ht) as (c1 & H1 & H2).
      apply len_then. exists (byte_of_Z (zlen host)), c1. split; [done|]. cbn zeta. rewrite len_byte by lia.
      apply io_bind_ok. exists (host ++ port_bytes port), c'. split; [apply read_exact_ok; [lia|split; [zlen_lia|done]]|].
      by apply domain_tail_ok.
Qed.

Lemma socks5_udp_associate_ok lookup_host socks5_addr creds relay c c' :
  socks5_udp_associate_for_client lookup_host socks5_addr creds c = (Ok relay, c') <->
  valid_creds creds /\
  exists w a, wf_wire w /\ wire_relay lookup_host w = Some a /\ relay = effective_relay socks5_addr a /\
    talked c c' (auth_got creds ++ map byte_of_Z [5; 0; 0] ++ encode_wire w)
      (auth_sent creds ++ associate_request socks5_addr) (auth_writes creds + 1).
Proof.
  unfold socks5_udp_associate_for_client. split.
  - intros (? & c0 & [Hv Ht]%socks5_auth_ok & H1)%io_bind_ok. split; [done|].
    apply io_bind_ok in H1 as (? & c2 & Hw & H1). apply io_write_all_ok in Hw.
    apply io_bind_ok in H1 as (atyp & c3 & Hh & H1). apply read_reply_head_ok in Hh.
    apply io_bind_ok in H1 as (a & c4 & (w & Hwf & Hr & d & Ew & Hd)%read_relay_addr_ok & H1).
    apply io_ret_ok in H1 as [<- ->]. exists w, a. split; [done|]. split; [done|]. split; [done|].
    pose proof (talked_app _ _ _ _ _ _ _ _ _ Ht (talked_app _ _ _ _ _ _ _ _ _ Hw
      (talked_app _ _ _ _ _ _ _ _ _ Hh Hd))) as T. by rewrite !app_nil_r in T; rewrite Ew.
  - intros (Hv & w & a & Hwf & Hr & -> & Ht).
    destruct (encode_wire_body w) as (b & Ew & _). rewrite Ew in Ht.
    destruct (talked_split _ _ _ _ _ _ _ _ Ht) as (c1 & H1 & H2).
    apply io_bind_ok. exists tt, c1. split; [by apply socks5_auth_ok|].
    eapply run_last_write; [|exact H2]. intros c2 H3.
    eapply run_reply_head; [|exact H3]. intros c3 H4. apply io_bind_ok. exists a, c'.
    split; [|done]. apply read_relay_addr_ok. eauto 6.
Qed.

(** * No panics *)

Definition io_returns {A} (f : io A) : Prop := forall c, returns (fst (f c)).

Lemma io_returns_bind {A B} (f : io A) (g : A -> io B) :
  io_returns f -> (forall c a c', f c = (Ok a, c') -> io_returns (g a)) -> io_returns (io_bind f g).
Proof.
  intros Hf Hg c. specialize (Hf c). unfold io_bind. destruct (f c) as [[a|e| |] c1] eqn:E; try done.
  by apply (Hg c a c1).
Qed.

Lemma io_returns_ret {A} (a : A) : io_returns (io_ret a).
Proof. done. Qed.
Lemma io_returns_err {A} e : io_returns (A := A) (io_err e).
Proof. done. Qed.
Lemma io_returns_lift {A} (r : socks_res A) : returns r -> io_returns (io_lift r).
Proof. by intros ? ?. Qed.
Lemma io_returns_write b : io_returns (write_all b).
Proof. intros [r w [[|n]|]]; done. Qed.
Lemma io_returns_read n : io_returns (read_exact n).
Proof. intros c. unfold read_exact. by destruct (n <=? _). Qed.
Lemma io_returns_at resp i : 0 <= i < zlen resp -> io_returns (at_ resp i).
Proof. intros H. apply io_returns_lift. destruct (get_is_Some resp i) as [b ->]; [lia|lia|done]. Qed.
Lemma io_returns_if {A} (b : bool) (f g : io A) : io_returns f -> io_returns g -> io_returns (if b then f else g).
Proof. by destruct b. Qed.
#[export] Hint Resolve io_returns_ret io_returns_err io_returns_write io_returns_read io_returns_if : returns.

(** Walks a computation, keeping the lengths of the buffers read. *)
Ltac io_returns_tac :=
  repeat match goal with
  | |- io_returns (io_bind (read_exact ?n) _) =>
      let c := fresh "c" in let d := fresh "d" in let c' := fresh "c" in let H := fresh "Hd" in
      apply io_returns_bind; [apply io_returns_read|];
      intros c d c' H; apply read_exact_ok in H as [H _]; [|byte_bounds; lia]
  | |- io_returns (io_bind (at_ _ _) _) => apply io_returns_bind; [apply io_returns_at; lia|intros ? ? ? _]
  | |- io_returns (io_bind (write_all _) _) => apply io_returns_bind; [apply io_returns_write|intros ? ? ? _]
  | |- io_returns (if _ then _ else _) => apply io_returns_if
  | |- io_returns (at_ _ _) => apply io_returns_at; lia
  | |- io_returns _ => solve [auto with returns nocore]
  end.

Lemma socks5_auth_returns creds : io_returns (socks5_auth creds).
Proof. destruct creds as [[user pass]|]; unfold socks5_auth; io_returns_tac. Qed.

Lemma read_reply_head_returns : io_returns read_reply_head.
Proof. unfold read_reply_head. io_returns_tac. Qed.

Lemma skip_len_returns atyp : io_returns (skip_len atyp).
Proof. unfold skip_len. io_returns_tac. Qed.

Lemma push_target_returns target : returns (push_target target).
Proof. destruct target as [[[ip|ip] port]|host port]; cbn [push_target]; try done. by destruct (negb _). Qed.

Lemma socks5_connect_returns target creds : io_returns (socks5_connect target creds).
Proof.
  unfold socks5_connect. apply io_returns_bind; [apply socks5_auth_returns|intros _ _ _ _].
  apply io_returns_bind; [apply io_returns_lift, push_target_returns|intros _ addr _ _]. io_returns_tac.
  apply io_returns_bind; [apply read_reply_head_returns|intros _ atyp _ _].
  apply io_returns_bind; [apply skip_len_returns|intros ? n ? _].
  apply io_returns_bind; [apply io_returns_read|auto with returns].
Qed.

Lemma slice_returns (d : bytes) i j : 0 <= i <= j -> j <= zlen d -> returns (E := Socks5Error.Socks5Error) (or_panic (slice d i j)).
Proof. intros. destruct (slice_is_Some d i j) as (p & -> & _); [lia..|done]. Qed.

Lemma read_relay_addr_returns lookup_host atyp : io_returns (read_relay_addr lookup_host atyp).
Proof.
  unfold read_relay_addr. io_returns_tac; cbn zeta; io_returns_tac; cbn zeta; io_returns_tac; byte_bounds;
    (apply io_returns_bind; [apply io_returns_lift, slice_returns; lia|intros ? ? ? _]); io_returns_tac;
    (apply io_returns_bind; [apply io_returns_lift, read_port_returns; lia|intros ? ? ? _]); io_returns_tac.
  apply io_returns_lift. by destruct (lookup_host _ _).
Qed.

Lemma socks5_udp_associate_returns lookup_host socks5_addr creds :
  io_returns (socks5_udp_associate_for_client lookup_host socks5_addr creds).
Proof.
  unfold socks5_udp_associate_for_client. apply io_returns_bind; [apply socks5_auth_returns|intros _ _ _ _].
  io_returns_tac. apply io_returns_bind; [apply read_reply_head_returns|intros _ atyp _ _].
  apply io_returns_bind; [apply read_relay_addr_returns|auto with returns].
Qed.

(** * The properties of the SOCKS5 client *)

Definition wf_target (t : Socks5Target) : Prop :=
  match t with
  | TargetIp a => wf_addr a
  | TargetDomain _ port => 0 <= port <= U16_MAX
  end.
Definition target_wire (t : Socks5Target) : wire_addr :=
  match t with TargetIp a => WireIp a | TargetDomain host port => WireDomain host port end.

Lemma push_target_ok t addr :
  push_target t = Ok addr <->
  addr = encode_wire (target_wire t) /\
  match t with TargetDomain host _ => 0 < zlen host <= 255 | TargetIp _ => True end.
Proof.
  destruct t as [[[ip|ip] port]|host port]; cbn [push_target target_wire encode_wire octets].
  - split; [intros [= <-]|intros [-> _]]; done.
  - split; [intros [= <-]|intros [-> _]]; done.
  - assert (negb (bool_decide (host = []) || (255 <? zlen host)) = true <-> 0 < zlen host <= 255) as Hb.
    { rewrite negb_true_iff, orb_false_iff, bool_decide_eq_false, Z.ltb_ge. destruct host; zlen_simpl.
      - split; [by intros [? _]|intros; lia].
      - pose proof (zlen_nonneg host). split; [intros [_ ?]; lia|intros; split; [done|lia]]. }
    destruct (negb _) eqn:E.
    + split; [intros [= <-]|intros [-> _]; done]. split; [done|by apply Hb].
    + split; [done|]. intros [_ H]. by apply Hb in H.
Qed.

(** C39: The UDP parser accepts exactly the packets with a zero reserved field, no fragmentation, a well formed
    address field and any payload; it reports the address of the field, or the caller's fallback for a domain,
    and the whole payload. On every other packet it returns an error, and it never panics. *)
Theorem socks5_udp_packet_exact pkt fallback_src :
  returns (parse_socks5_udp_packet_with_fallback_src pkt fallback_src) /\
  forall src payload,
    parse_socks5_udp_packet_with_fallback_src pkt fallback_src = Ok (src, payload) <->
    exists w, wf_wire w /\ pkt = map byte_of_Z [0; 0; 0] ++ encode_wire w ++ payload /\ src = wire_src w fallback_src.
Proof.
  split; [apply parse_udp_returns|]. intros src payload. split.
  - apply parse_udp_inv.
  - intros (w & Hw & -> & ->). by apply parse_udp_encode.
Qed.

(** A packet built for a target is parsed back to the target's address (the fallback for a domain) and the
    same payload; building fails exactly for a domain that is empty or longer than 255 bytes. *)
Theorem socks5_udp_roundtrip target payload fallback_src :
  wf_target target ->
  match build_socks5_udp_packet target payload with
  | Ok pkt =>
      parse_socks5_udp_packet_with_fallback_src pkt fallback_src =
        Ok (wire_src (target_wire target) fallback_src, payload) /\
      zlen pkt <= 262 + zlen payload
  | Err e => e = Socks5Error.DomainLength /\ exists host port, target = TargetDomain host port /\ ~ 0 < zlen host <= 255
  | Panic | Diverge => False
  end.
Proof.
  intros Hwf. unfold build_socks5_udp_packet. pose proof (push_target_returns target) as Hr.
  destruct (push_target target) as [addr|e| |] eqn:E; [|clear Hr|done|done]; cbn [res_bind].
  - apply push_target_ok in E as [-> Hd]. split.
    + apply parse_udp_encode. destruct target as [a|host port]; [done|]. split; [lia|done].
    + zlen_simpl. destruct target as [[[ip|ip] port]|host port]; cbn [target_wire encode_wire]; zlen_lia.
  - destruct target as [[[ip|ip] port]|host port]; try done. split.
    + cbn [push_target] in E. by destruct (negb _); simplify_eq.
    + exists host, port. split; [done|]. intros Hh.
      assert (push_target (TargetDomain host port) = Ok (encode_wire (WireDomain host port))) as E2
        by (by apply push_target_ok). by rewrite E in E2.
Qed.

Example socks5_udp_roundtrip_witness :
  let target := TargetDomain (bs "a.example") 443 in
  wf_target target /\
  match build_socks5_udp_packet target [x07] with
  | Ok pkt =>
      parse_socks5_udp_packet_with_fallback_src pkt {| sa_ip := V4 5; sa_port := 6 |} =
        Ok ({| sa_ip := V4 5; sa_port := 6 |}, [x07]) /\ zlen pkt <= 263
  | _ => False
  end.
Proof.
  cbv zeta. split; [unfold wf_target, U16_MAX; lia|].
  exact (socks5_udp_roundtrip (TargetDomain (bs "a.example") 443) [x07] {| sa_ip := V4 5; sa_port := 6 |}
    ltac:(unfold wf_target, U16_MAX; lia)).
Defined.

(** C38: [socks5_connect] succeeds exactly when the credentials and the target are representable and the proxy
    answers with the negotiation's replies and a success reply of any address; it then has sent the
    negotiation and one CONNECT request for the target and nothing else, and has consumed the reply and not a
    byte of what follows it. It never panics. *)
Theorem socks5_connect_exact target creds c :
  returns (fst (socks5_connect target creds c)) /\
  forall c',
    socks5_connect target creds c = (Ok tt, c') <->
    valid_creds creds /\
    match target with TargetDomain host _ => 0 < zlen host <= 255 | TargetIp _ => True end /\
    exists w, wf_wire w /\
      talked c c' (auth_got creds ++ map byte_of_Z [5; 0; 0] ++ encode_wire w)
        (auth_sent creds ++ map byte_of_Z [5; 1; 0] ++ encode_wire (target_wire target)) (auth_writes creds + 1).
Proof.
  split; [apply socks5_connect_returns|]. intros c'. rewrite socks5_connect_ok. split.
  - intros (Hv & addr & w & [-> Hd]%push_target_ok & Hw & Ht). eauto.
  - intros (Hv & Hd & w & Hw & Ht). split; [done|]. eexists _, w. split; [by apply push_target_ok|]. done.
Qed.

(** [socks5_udp_associate_for_client] succeeds exactly when the credentials are representable and the proxy
    answers the negotiation and the ASSOCIATE request with a success reply whose address is an address or a
    domain that resolves; the relay is that address, with the proxy's own IP in place of an unspecified one and
    the port kept. It never panics. *)
Theorem socks5_udp_associate_exact lookup_host socks5_addr creds c :
  returns (fst (socks5_udp_associate_for_client lookup_host socks5_addr creds c)) /\
  forall relay c',
    socks5_udp_associate_for_client lookup_host socks5_addr creds c = (Ok relay, c') <->
    valid_creds creds /\
    exists w a, wf_wire w /\ wire_relay lookup_host w = Some a /\ relay = effective_relay socks5_addr a /\
      talked c c' (auth_got creds ++ map byte_of_Z [5; 0; 0] ++ encode_wire w)
        (auth_sent creds ++ associate_request socks5_addr) (auth_writes creds + 1).
Proof.
  split; [apply socks5_udp_associate_returns|]. intros relay c'. apply socks5_udp_associate_ok.
Qed.
