(* ===== verification/Ordered.v ===== *)
(** Iterator searches and the stable sort the routing tables are built with:
    [iter().find], [find_map] and [sort_by_key(|x| Reverse(k))], and what a
    search of a sorted table finds in terms of the unsorted one. *)

From Stdlib Require Import Sorting.Sorted.
From S2P Require Import Prelude Bytes.

Section Search.
Context {A : Type}.

(** [iter().find(p)] *)
Fixpoint find (p : A -> bool) (l : list A) : option A :=
  match l with
  | [] => None
  | x :: l => if p x then Some x else find p l
  end.

(** [iter().find_map(f)] *)
Fixpoint find_map {B} (f : A -> option B) (l : list A) : option B :=
  match l with
  | [] => None
  | x :: l => match f x with Some r => Some r | None => find_map f l end
  end.

Definition is_some {B} (o : option B) : bool := match o with Some _ => true | None => false end.

Lemma find_map_ext {B} (f g : A -> option B) l : (forall x, f x = g x) -> find_map f l = find_map g l.
Proof. intros H. induction l as [|x l IH]; [done|]. cbn. by rewrite H, IH. Qed.
Lemma find_map_find {B} (f : A -> option B) l :
  find_map f l = match find (fun x => is_some (f x)) l with Some x => f x | None => None end.
Proof. induction l as [|x l IH]; cbn; [done|]. destruct (f x) eqn:E; cbn; [done|apply IH]. Qed.

Lemma find_ext (p q : A -> bool) l : (forall x, x ∈ l -> p x = q x) -> find p l = find q l.
Proof.
  induction l as [|x l IH]; intros H; cbn; [done|]. rewrite (H x), IH; [done|..]; [|left].
  intros y Hy. apply H. by right.
Qed.

Lemma find_filter (p q : A -> bool) l :
  find p (filter (fun x => q x = true) l) = find (fun x => q x && p x) l.
Proof.
  induction l as [|x l IH]; [done|]. rewrite filter_cons. cbn [find]. destruct (q x) eqn:E.
  - rewrite decide_True by done. cbn [find andb]. by rewrite IH.
  - rewrite decide_False by congruence. apply IH.
Qed.

Lemma find_Some p l x : find p l = Some x -> x ∈ l /\ p x = true.
Proof.
  induction l as [|y l IH]; cbn; [done|]. destruct (p y) eqn:E.
  - intros [= ->]. split; [left|done].
  - intros [? ?]%IH. split; [by right|done].
Qed.

Lemma find_None p l : find p l = None <-> forall x, x ∈ l -> p x = false.
Proof.
  induction l as [|y l IH]; cbn.
  - split; [intros _ x H; by apply not_elem_of_nil in H|done].
  - destruct (p y) eqn:E.
    + split; [done|]. intros H. specialize (H y ltac:(left)). congruence.
    + rewrite IH. split; intros H x Hx; [apply elem_of_cons in Hx as [->|]|apply H; right]; auto.
Qed.

(** * Sorting *)

Context (key : A -> Z).

(** Inserts an element that stood before those of [l] in the input. *)
Fixpoint insert_desc (x : A) (l : list A) : list A :=
  match l with
  | [] => [x]
  | y :: l' => if key y <=? key x then x :: l else y :: insert_desc x l'
  end.

(** [sort_by_key(|x| Reverse(key(x)))], which is stable. *)
Definition sort_desc (l : list A) : list A := foldr insert_desc [] l.

Lemma insert_desc_perm x l : insert_desc x l ≡ₚ x :: l.
Proof.
  induction l as [|y l IH]; cbn; [done|]. destruct (_ <=? _); [done|]. rewrite IH. apply Permutation_swap.
Qed.

Lemma sort_desc_perm l : sort_desc l ≡ₚ l.
Proof. induction l as [|x l IH]; cbn; [done|]. by rewrite insert_desc_perm, IH. Qed.

Definition desc (x y : A) : Prop := key y <= key x.

Lemma insert_desc_sorted x l : StronglySorted desc l -> StronglySorted desc (insert_desc x l).
Proof.
  induction 1 as [|y l Hl IH Hy]; cbn; [repeat constructor|]. destruct (Z.leb_spec (key y) (key x)).
  - constructor; [by constructor|]. constructor; [done|]. eapply Forall_impl; [exact Hy|]. unfold desc. lia.
  - constructor; [done|]. rewrite insert_desc_perm. constructor; [unfold desc; lia|done].
Qed.

Lemma sort_desc_sorted l : StronglySorted desc (sort_desc l).
Proof. induction l; cbn; [constructor|by apply insert_desc_sorted]. Qed.

Lemma find_insert p x l :
  StronglySorted desc l ->
  find p (insert_desc x l) =
  if p x then match find p l with
              | Some y => if key y <=? key x then Some x else Some y
              | None => Some x
              end
  else find p l.
Proof.
  induction 1 as [|y l Hl IH Hy]; cbn [insert_desc find]; [by destruct (p x)|].
  destruct (Z.leb_spec (key y) (key x)) as [H|H]; cbn [find].
  - destruct (p x); [|done]. destruct (p y); [by rewrite (proj2 (Z.leb_le _ _))|].
    destruct (find p l) as [z|] eqn:E; [|done]. apply find_Some in E as [Hz _].
    rewrite Forall_forall in Hy. specialize (Hy z Hz). unfold desc in Hy. by rewrite (proj2 (Z.leb_le _ _)) by lia.
  - destruct (p y) eqn:E; [|exact IH]. destruct (p x); [|done]. by rewrite (proj2 (Z.leb_gt _ _)) by lia.
Qed.

(** [x] is the element of the input that a search of the sorted table finds:
    of the elements with [p] the first one with the greatest key. *)
Definition foremost (p : A -> bool) (l : list A) (x : A) : Prop :=
  exists i, l !! i = Some x /\ p x = true /\
    forall j y, l !! j = Some y -> p y = true -> key y < key x \/ key y = key x /\ (i <= j)%nat.

Lemma foremost_unique p l x y : foremost p l x -> foremost p l y -> x = y.
Proof.
  intros (i & Hi & Hp & Hm) (j & Hj & Hq & Hn). destruct (Hm j y Hj Hq), (Hn i x Hi Hp); try lia.
  assert (i = j) as -> by lia. congruence.
Qed.

Lemma foremost_here p a l :
  p a = true -> (forall y, y ∈ l -> p y = true -> key y <= key a) -> foremost p (a :: l) a.
Proof.
  intros Ha Hle. exists O. split; [done|]. split; [done|]. intros [|j] z Hz Hpz; cbn in Hz.
  - injection Hz as <-. right. lia.
  - specialize (Hle z (list_elem_of_lookup_2 _ _ _ Hz) Hpz). lia.
Qed.

Lemma foremost_there p a l y :
  foremost p l y -> (p a = true -> key a < key y) -> foremost p (a :: l) y.
Proof.
  intros (i & Hi & Hp & Hmax) Ha. exists (S i). split; [done|]. split; [done|].
  intros [|j] z Hz Hpz; cbn in Hz; [injection Hz as <-; left; auto|].
  destruct (Hmax j z Hz Hpz) as [|[? ?]]; [by left|right; split; [done|lia]].
Qed.

Lemma find_sorted_foremost p l x : find p (sort_desc l) = Some x -> foremost p l x.
Proof.
  revert x; induction l as [|a l IH]; intros x; cbn [sort_desc foldr]; [done|].
  fold (sort_desc l). rewrite find_insert by apply sort_desc_sorted.
  destruct (p a) eqn:Ha; [|intros H%IH; apply foremost_there; [done|congruence]].
  destruct (find p (sort_desc l)) as [y|] eqn:E.
  - specialize (IH y eq_refl). destruct (Z.leb_spec (key y) (key a)) as [Hle|Hlt]; intros [= <-].
    + apply foremost_here; [done|]. intros z (j & Hj)%list_elem_of_lookup_1 Hz.
      destruct IH as (i & _ & _ & Hm). destruct (Hm j z Hj Hz); lia.
    + by apply foremost_there.
  - intros [= <-]. apply foremost_here; [done|]. intros z Hin Hz.
    rewrite <- (sort_desc_perm l) in Hin. apply find_None with (x := z) in E; [congruence|done].
Qed.

Lemma find_sorted p l x : find p (sort_desc l) = Some x <-> foremost p l x.
Proof.
  split; [apply find_sorted_foremost|]. intros H. destruct (find p (sort_desc l)) as [y|] eqn:E.
  - f_equal. apply (foremost_unique p l); [by apply find_sorted_foremost|done].
  - destruct H as (i & Hi & Hp & _). apply find_None with (x := x) in E; [congruence|].
    rewrite sort_desc_perm. by eapply list_elem_of_lookup_2.
Qed.

(** A search that succeeds on something of the table succeeds. *)
Lemma find_sorted_None p l : find p (sort_desc l) = None <-> forall x, x ∈ l -> p x = false.
Proof. rewrite find_None. split; intros H x Hx; apply H; [by rewrite sort_desc_perm|by rewrite <- sort_desc_perm]. Qed.
End Search.
