(* ===== verification/Domains.v ===== *)
(** Domain names and domain rules: [canonical_domain] and
    [domain_matches_suffix] of [src/src/util.rs], [DomainSet],
    [DomainRouteTable] and the geosite rules of [src/src/state.rs]. *)

From Stdlib Require Import Strings.Byte Strings.String Sorting.Sorted.
From S2P Require Import Prelude Bytes Ordered.

Abbreviation dot := "."%byte.

(** * Canonical names *)

Definition canonical_domain (domain : bytes) : bytes :=
  to_ascii_lowercase (trim_end_byte dot (trim_start_byte dot domain)).

Definition domain_matches_suffix (domain suffix : bytes) : bool :=
  let d_norm := canonical_domain domain in
  let s_norm := canonical_domain suffix in
  let d_len := zlen d_norm in
  let s_len := zlen s_norm in
  if d_len <? s_len then false
  else if d_len =? s_len then bool_decide (d_norm = s_norm)
  else if ends_with s_norm d_norm then
    let prev_char_idx := d_len - s_len - 1 in
    match get d_norm prev_char_idx with
    | Some c => Byte.eqb c dot
    | None => false
    end
  else false.

(** * Sets of domains *)

Record DomainSet := { ds_exact : gset bytes; ds_suffixes : gset bytes }.

(** [raw.strip_prefix('.')] *)
Definition strip_dot (raw : bytes) : option bytes :=
  match raw with
  | b :: stripped => if Byte.eqb b dot then Some stripped else None
  | [] => None
  end.

Definition domain_set_add (s : DomainSet) (raw : bytes) : DomainSet :=
  match strip_dot raw with
  | Some stripped =>
      let norm := canonical_domain stripped in
      if bool_decide (norm = []) then s
      else {| ds_exact := ds_exact s; ds_suffixes := {[norm]} ∪ ds_suffixes s |}
  | None =>
      let norm := canonical_domain raw in
      if bool_decide (norm = []) then s
      else {| ds_exact := {[norm]} ∪ ds_exact s; ds_suffixes := ds_suffixes s |}
  end.
Definition domain_set_compile (domains : list bytes) : DomainSet :=
  foldl domain_set_add {| ds_exact := ∅; ds_suffixes := ∅ |} domains.

Definition domain_set_is_empty (s : DomainSet) : bool :=
  bool_decide (ds_exact s = ∅) && bool_decide (ds_suffixes s = ∅).

(** The text after the first dot: [candidate.find('.')], [&candidate[pos + 1..]]. *)
Definition after_dot (candidate : bytes) : option bytes := option_map snd (split_once dot candidate).

(** The loop of [matches_canonical]. *)
Fixpoint suffix_loop (fuel : nat) (suffixes : gset bytes) (candidate : bytes) : option bool :=
  match fuel with
  | O => None
  | S fuel =>
      if bool_decide (candidate ∈ suffixes) then Some true
      else match after_dot candidate with
           | Some candidate => suffix_loop fuel suffixes candidate
           | None => Some false
           end
  end.

(** [None] would be a loop that does not end. *)
Definition matches_canonical (s : DomainSet) (domain : bytes) : option bool :=
  if bool_decide (domain ∈ ds_exact s) then Some true
  else suffix_loop (S (length domain)) (ds_suffixes s) domain.

(** * Tables of routes *)

Record DomainRouteTable := { rt_exact : gmap bytes bytes; rt_suffixes : list (bytes * bytes) }.

Definition table_lookup (t : DomainRouteTable) (domain : bytes) : option bytes :=
  let domain := canonical_domain domain in
  match rt_exact t !! domain with
  | Some group => Some group
  | None => option_map snd (find (fun e => domain_matches_suffix domain e.1) (rt_suffixes t))
  end.

Module RouteError.
Inductive RouteError :=
  | InvalidNet (s : bytes)
  | EmptyPattern (pattern : bytes).
End RouteError.
Abbreviation route_res := (res RouteError.RouteError).

(** One pattern of a [client_domain_routes] table. *)
Definition add_pattern (t : DomainRouteTable) (e : bytes * bytes) : route_res DomainRouteTable :=
  let '(domain_key, group) := e in
  match strip_dot domain_key with
  | Some stripped =>
      let suffix_norm := canonical_domain stripped in
      ensure negb (bool_decide (suffix_norm = [])) else RouteError.EmptyPattern domain_key in
      Ok {| rt_exact := rt_exact t; rt_suffixes := rt_suffixes t ++ [(suffix_norm, group)] |}
  | None =>
      let exact_norm := canonical_domain domain_key in
      ensure negb (bool_decide (exact_norm = [])) else RouteError.EmptyPattern domain_key in
      Ok {| rt_exact := <[exact_norm := group]> (rt_exact t); rt_suffixes := rt_suffixes t |}
  end.

Fixpoint add_patterns (t : DomainRouteTable) (patterns : list (bytes * bytes)) : route_res DomainRouteTable :=
  match patterns with
  | [] => Ok t
  | e :: patterns => let? t := add_pattern t e in add_patterns t patterns
  end.

(** The table of one client, from the entries of its map in the order they
    are traversed. *)
Definition build_table (patterns : list (bytes * bytes)) : route_res DomainRouteTable :=
  let? t := add_patterns {| rt_exact := ∅; rt_suffixes := [] |} patterns in
  Ok {| rt_exact := rt_exact t; rt_suffixes := sort_desc (fun e => zlen e.1) (rt_suffixes t) |}.

(** * Geosite rules *)

(** The generated [geosite::Domain]; its attributes are not used. *)
Record GeoDomain := { gd_type : Z; gd_value : bytes }.

Inductive GeositeDomainType := Plain | Regex | Domain | Full | Unknown (t : Z).
Definition geosite_domain_type (value : Z) : GeositeDomainType :=
  match value with 0 => Plain | 1 => Regex | 2 => Domain | 3 => Full | other => Unknown other end.

Definition geosite_domain_match (rule : GeoDomain) (domain : bytes) : bool :=
  let domain := canonical_domain domain in
  let value := canonical_domain (gd_value rule) in
  match geosite_domain_type (gd_type rule) with
  | Plain => negb (bool_decide (value = [])) && contains_sub value domain
  | Regex => false
  | Domain => domain_matches_suffix domain value
  | Full => negb (bool_decide (value = [])) && bool_decide (domain = value)
  | Unknown _ => false
  end.

Record CompiledGeositeTag := { cg_exact : gset bytes; cg_suffixes : gset bytes; cg_plain : list bytes }.

Definition compile_rule (c : CompiledGeositeTag) (rule : GeoDomain) : CompiledGeositeTag :=
  let value := canonical_domain (gd_value rule) in
  if bool_decide (value = []) then c
  else match geosite_domain_type (gd_type rule) with
       | Full => {| cg_exact := {[value]} ∪ cg_exact c; cg_suffixes := cg_suffixes c; cg_plain := cg_plain c |}
       | Domain => {| cg_exact := cg_exact c; cg_suffixes := {[value]} ∪ cg_suffixes c; cg_plain := cg_plain c |}
       | Plain => {| cg_exact := cg_exact c; cg_suffixes := cg_suffixes c; cg_plain := cg_plain c ++ [value] |}
       | _ => c
       end.
Definition compile_geosite (index : gmap bytes (list GeoDomain)) : gmap bytes CompiledGeositeTag :=
  (fun rules => foldl compile_rule {| cg_exact := ∅; cg_suffixes := ∅; cg_plain := [] |} rules) <$> index.

(** Whether what follows some dot of the name is in the set. *)
Fixpoint dot_suffix_in (suffixes : gset bytes) (domain : bytes) : bool :=
  match domain with
  | [] => false
  | ch :: rest =>
      if Byte.eqb ch dot && bool_decide (rest ∈ suffixes) then true else dot_suffix_in suffixes rest
  end.

Definition compiled_geosite_contains (compiled : gmap bytes CompiledGeositeTag) (tag domain : bytes) : bool :=
  match compiled !! tag with
  | None => false
  | Some ct =>
      let domain := canonical_domain domain in
      if bool_decide (domain ∈ cg_exact ct) then true
      else if bool_decide (domain ∈ cg_suffixes ct) then true
      else if dot_suffix_in (cg_suffixes ct) domain then true
      else existsb (fun plain => contains_sub plain domain) (cg_plain ct)
  end.

(** * Lemmas *)

(** [d] is [s] or a subdomain of it. *)
Definition under (s d : bytes) : Prop := d = s \/ exists l, d = l ++ dot :: s.

(** Canonical names: lower case, no dot at either end. *)
Record canonical (d : bytes) : Prop := {
  canonical_lower : to_ascii_lowercase d = d;
  canonical_head : forall r, d <> dot :: r;
  canonical_last : forall r, d <> r ++ [dot];
}.

Lemma lower_dot b : lower_byte b = dot <-> b = dot.
Proof. destruct b; vm_compute; split; congruence. Qed.
Lemma lower_byte_idem b : lower_byte (lower_byte b) = lower_byte b.
Proof. by destruct b. Qed.

Lemma rev_replicate {A} n (c : A) : rev (replicate n c) = replicate n c.
Proof. rewrite rev_alt. apply reverse_replicate. Qed.

Lemma trim_start_dot_spec c s : exists n, s = replicate n c ++ trim_start_byte c s /\ forall r, trim_start_byte c s <> c :: r.
Proof.
  induction s as [|b s (n & E & H)]; cbn; [by exists O|]. destruct (eqb_spec b c) as [->|Hne].
  - exists (S n). split; [cbn; by f_equal|done].
  - exists O. split; [done|]. congruence.
Qed.

Lemma trim_end_dot_spec c s : exists n, s = trim_end_byte c s ++ replicate n c /\ forall r, trim_end_byte c s <> r ++ [c].
Proof.
  unfold trim_end_byte. destruct (trim_start_dot_spec c (rev s)) as (n & E & H). exists n. split.
  - rewrite <- (rev_involutive s) at 1. rewrite E at 1. rewrite rev_app_distr, rev_replicate. done.
  - intros r Hr. apply (f_equal (@rev byte)) in Hr. rewrite rev_involutive, rev_app_distr in Hr. by apply H in Hr.
Qed.

Lemma trim_start_byte_id c s : (forall r, s <> c :: r) -> trim_start_byte c s = s.
Proof.
  destruct s as [|b s]; [done|]. intros H. cbn. destruct (eqb_spec b c) as [->|]; [by destruct (H s)|done].
Qed.

Lemma trim_end_byte_id c s : (forall r, s <> r ++ [c]) -> trim_end_byte c s = s.
Proof.
  intros H. unfold trim_end_byte. rewrite trim_start_byte_id; [apply rev_involutive|].
  intros r E. apply (f_equal (@rev byte)) in E. rewrite rev_involutive in E. by apply (H (rev r)).
Qed.

Lemma lower_snoc_dot l r : to_ascii_lowercase l = r ++ [dot] -> exists l', l = l' ++ [dot].
Proof.
  unfold to_ascii_lowercase. intros (l1 & l2 & -> & H1 & H2)%map_eq_app.
  destruct l2 as [|b [|]]; try done. cbn in H2. injection H2 as H2.
  apply lower_dot in H2 as ->. eauto.
Qed.

Lemma lower_cons_dot l r : to_ascii_lowercase l = dot :: r -> exists l', l = dot :: l'.
Proof. destruct l as [|b l]; [done|]. cbn. intros H. injection H as Hb _. apply lower_dot in Hb as ->. by exists l. Qed.

Lemma canonical_domain_canonical d : canonical (canonical_domain d).
Proof.
  unfold canonical_domain.
  destruct (trim_start_dot_spec dot d) as (n & _ & Hs). set (s := trim_start_byte dot d) in *.
  destruct (trim_end_dot_spec dot s) as (m & E & He). set (e := trim_end_byte dot s) in *. split.
  - unfold to_ascii_lowercase. rewrite map_map. apply map_ext. apply lower_byte_idem.
  - intros r (l & ->)%lower_cons_dot. by destruct (Hs (l ++ replicate m dot)).
  - intros r (l & ->)%lower_snoc_dot. by apply (He l).
Qed.

Lemma canonical_domain_id d : canonical d -> canonical_domain d = d.
Proof.
  intros [Hl Hh Ht]. unfold canonical_domain. by rewrite trim_start_byte_id, trim_end_byte_id, Hl.
Qed.

Lemma canonical_domain_idem d : canonical_domain (canonical_domain d) = canonical_domain d.
Proof. apply canonical_domain_id, canonical_domain_canonical. Qed.

Lemma canonical_nil : canonical [].
Proof. split; [done|done|]. by intros []. Qed.

Lemma under_nil d : canonical d -> under [] d <-> d = [].
Proof.
  intros Hd. unfold under. split; [|by left]. intros [|(l & E)]; [done|]. by apply (canonical_last _ Hd) in E.
Qed.

Lemma domain_matches_suffix_spec d s :
  domain_matches_suffix d s = true <-> under (canonical_domain s) (canonical_domain d).
Proof.
  unfold domain_matches_suffix, under. set (d' := canonical_domain d). set (s' := canonical_domain s).
  destruct (Z.ltb_spec (zlen d') (zlen s')) as [Hlt|Hge].
  { split; [done|]. intros [E|(l & E)]; rewrite E in Hlt; zlen_lia. }
  destruct (Z.eqb_spec (zlen d') (zlen s')) as [Heq|Hne].
  { rewrite bool_decide_eq_true. split; [by left|]. intros [|(l & E)]; [done|]. rewrite E in Heq. zlen_lia. }
  destruct (ends_with s' d') eqn:E.
  - apply ends_with_spec in E as (l & E). destruct l as [|b l _] using rev_ind; [by rewrite E in Hne|].
    assert (get d' (zlen d' - zlen s' - 1) = Some b) as ->.
    { apply (get_at _ l s'); [by rewrite E, <- app_assoc|]. rewrite E. zlen_lia. }
    destruct (eqb_spec b dot) as [->|Hb]; split; try done.
    + intros _. right. exists l. by rewrite E, <- app_assoc.
    + intros [E2|(r & E2)]; [by rewrite E2 in Hne|]. rewrite E, <- app_assoc in E2. cbn in E2.
      assert (length l = length r) as El.
      { apply (f_equal length) in E2. rewrite !length_app in E2. cbn in E2. lia. }
      apply app_inj_1 in E2 as [_ [= ?]]; done.
  - split; [done|]. intros [E2|(l & E2)]; [by rewrite E2 in Hne|].
    assert (ends_with s' d' = true) by (apply ends_with_spec; exists (l ++ [dot]); by rewrite E2, <- app_assoc).
    congruence.
Qed.

(** * Subdomains *)

Lemma strict_cons s b d :
  (exists l, b :: d = l ++ dot :: s) <-> b = dot /\ d = s \/ exists l, d = l ++ dot :: s.
Proof.
  split.
  - intros ([|c l] & E); cbn in E; injection E as -> ->; [by left|right; eauto].
  - intros [[-> ->]|(l & ->)]; [by exists []|by exists (b :: l)].
Qed.

Lemma after_dot_cons b d : after_dot (b :: d) = if Byte.eqb b dot then Some d else after_dot d.
Proof. unfold after_dot. cbn [split_once]. destruct (Byte.eqb b dot); [done|]. by destruct (split_once dot d) as [[]|]. Qed.

Lemma strict_after_dot s d : (exists l, d = l ++ dot :: s) <-> exists d', after_dot d = Some d' /\ under s d'.
Proof.
  induction d as [|b d IH].
  - split; [by intros ([] & ?)|by intros (d' & ? & _)].
  - rewrite strict_cons, after_dot_cons. destruct (eqb_spec b dot) as [->|Hne].
    + split.
      * intros [[_ ->]|H]; eexists; (split; [done|]); [by left|by right].
      * intros (d' & [= <-] & [|]); [by left|by right].
    + rewrite <- IH. split; [by intros [[? _]|]|by right].
Qed.

Lemma after_dot_length d d' : after_dot d = Some d' -> (length d' < length d)%nat.
Proof.
  induction d as [|b d IH]; [done|]. rewrite after_dot_cons. destruct (Byte.eqb b dot); cbn [length].
  - intros [= <-]. lia.
  - intros H%IH. lia.
Qed.

Lemma suffix_loop_spec suffixes fuel d :
  (length d < fuel)%nat ->
  exists b, suffix_loop fuel suffixes d = Some b /\ (b = true <-> exists s, s ∈ suffixes /\ under s d).
Proof.
  revert d; induction fuel as [|fuel IH]; intros d Hf; [lia|]. cbn [suffix_loop].
  destruct (bool_decide_reflect (d ∈ suffixes)) as [Hin|Hni].
  { exists true. split; [done|]. split; [|done]. intros _. exists d. split; [done|by left]. }
  destruct (after_dot d) as [d'|] eqn:E.
  - destruct (IH d') as (b & -> & Hb); [apply after_dot_length in E; lia|]. exists b. split; [done|].
    rewrite Hb. split; intros (s & Hs & Hu); exists s; (split; [done|]).
    + right. apply strict_after_dot. eauto.
    + destruct Hu as [->|Hu]; [done|]. apply strict_after_dot in Hu as (d2 & E2 & ?). congruence.
  - exists false. split; [done|]. split; [done|]. intros (s & Hs & [->|Hu]); [done|].
    apply strict_after_dot in Hu as (d2 & E2 & _). congruence.
Qed.

Lemma dot_suffix_in_spec suffixes d :
  dot_suffix_in suffixes d = true <-> exists s, s ∈ suffixes /\ exists l, d = l ++ dot :: s.
Proof.
  induction d as [|b d IH]; cbn [dot_suffix_in].
  { split; [done|]. by intros (s & _ & [] & ?). }
  setoid_rewrite strict_cons. destruct (eqb_spec b dot) as [->|Hne]; cbn [andb].
  - destruct (bool_decide_reflect (d ∈ suffixes)) as [Hin|Hni].
    + split; [|done]. intros _. exists d. split; [done|]. by left.
    + rewrite IH. split; intros (s & Hs & H); exists s; (split; [done|]); [by right|].
      destruct H as [[_ ->]|]; done.
  - rewrite IH. split; intros (s & Hs & H); exists s; (split; [done|]); [by right|]. by destruct H as [[? _]|].
Qed.

(** What a configured pattern matches: a leading dot covers the domain and its
    subdomains, a pattern that normalises to nothing covers nothing. *)
Definition pattern_name (raw : bytes) : bytes := canonical_domain (default raw (strip_dot raw)).
Definition pattern_matches (raw d : bytes) : Prop :=
  pattern_name raw <> [] /\
  match strip_dot raw with
  | Some _ => under (pattern_name raw) d
  | None => d = pattern_name raw
  end.

Lemma domain_set_add_spec s raw :
  (forall n, n ∈ ds_exact (domain_set_add s raw) <->
     n ∈ ds_exact s \/ n <> [] /\ strip_dot raw = None /\ n = pattern_name raw) /\
  (forall n, n ∈ ds_suffixes (domain_set_add s raw) <->
     n ∈ ds_suffixes s \/ n <> [] /\ is_Some (strip_dot raw) /\ n = pattern_name raw).
Proof.
  unfold domain_set_add, pattern_name. destruct (strip_dot raw) as [stripped|]; cbn [default];
    set (norm := canonical_domain _); (destruct (bool_decide_reflect (norm = [])) as [E|E]; cbn [ds_exact ds_suffixes]);
    split; intros n; rewrite ?elem_of_union, ?elem_of_singleton, ?is_Some_alt; intuition congruence.
Qed.

Lemma exists_cons {A} (P : A -> Prop) x l :
  (exists y, y ∈ x :: l /\ P y) <-> P x \/ exists y, y ∈ l /\ P y.
Proof.
  setoid_rewrite elem_of_cons. split.
  - intros (y & [->|] & ?); eauto.
  - intros [|(y & ? & ?)]; eauto.
Qed.

Lemma domain_set_fold_spec domains s :
  (forall n, n ∈ ds_exact (foldl domain_set_add s domains) <->
     n ∈ ds_exact s \/ exists raw, raw ∈ domains /\ n <> [] /\ strip_dot raw = None /\ n = pattern_name raw) /\
  (forall n, n ∈ ds_suffixes (foldl domain_set_add s domains) <->
     n ∈ ds_suffixes s \/ exists raw, raw ∈ domains /\ n <> [] /\ is_Some (strip_dot raw) /\ n = pattern_name raw).
Proof.
  revert s; induction domains as [|raw domains IH]; intros s; cbn [foldl].
  { split; intros n; split; try (by left); intros [|(raw & H & _)]; try done; by apply not_elem_of_nil in H. }
  destruct (IH (domain_set_add s raw)) as [He Hs]. destruct (domain_set_add_spec s raw) as [Ae As].
  split; intros n; rewrite ?He, ?Hs, ?Ae, ?As, exists_cons; tauto.
Qed.

(** [d] is matched by one of the patterns. *)
Definition set_matches (domains : list bytes) (d : bytes) : Prop := exists raw, raw ∈ domains /\ pattern_matches raw d.

Lemma domain_set_spec domains d :
  exists b, matches_canonical (domain_set_compile domains) d = Some b /\ (b = true <-> set_matches domains d).
Proof.
  destruct (domain_set_fold_spec domains {| ds_exact := ∅; ds_suffixes := ∅ |}) as [He Hs].
  fold (domain_set_compile domains) in He, Hs. unfold matches_canonical, set_matches, pattern_matches.
  destruct (bool_decide_reflect (d ∈ ds_exact (domain_set_compile domains))) as [Hin|Hni].
  - exists true. split; [done|]. split; [|done]. intros _. apply He in Hin as [Hin|(raw & Hraw & Hn & E & ->)].
    + by apply not_elem_of_empty in Hin.
    + exists raw. by rewrite E.
  - destruct (suffix_loop_spec (ds_suffixes (domain_set_compile domains)) (S (length d)) d) as (b & -> & Hb); [lia|].
    exists b. split; [done|]. rewrite Hb. setoid_rewrite Hs. split.
    + intros (n & [Hn|(raw & Hraw & Hne & [x E] & ->)] & Hu); [by apply not_elem_of_empty in Hn|].
      exists raw. by rewrite E.
    + intros (raw & Hraw & Hne & Hm). destruct (strip_dot raw) as [stripped|] eqn:E.
      * exists (pattern_name raw). split; [|done]. right. exists raw. eauto.
      * destruct Hni. apply He. right. exists raw. subst. eauto.
Qed.

(** The same as a test, on any spelling of the name. *)
Definition pattern_covers (d raw : bytes) : bool :=
  negb (bool_decide (pattern_name raw = [])) &&
  (if is_some (strip_dot raw) then domain_matches_suffix d (pattern_name raw)
   else bool_decide (canonical_domain d = pattern_name raw)).
Definition listed (domains : list bytes) (d : bytes) : bool := existsb (pattern_covers d) domains.

Lemma pattern_covers_spec d raw : pattern_covers d raw = true <-> pattern_matches raw (canonical_domain d).
Proof.
  unfold pattern_covers, pattern_matches. rewrite andb_true_iff, negb_true_iff, bool_decide_eq_false.
  destruct (strip_dot raw) eqn:E; cbn [is_some]; [|by rewrite bool_decide_eq_true].
  rewrite domain_matches_suffix_spec. unfold pattern_name. by rewrite canonical_domain_idem.
Qed.

Lemma domain_set_listed domains d :
  matches_canonical (domain_set_compile domains) (canonical_domain d) = Some (listed domains d).
Proof.
  destruct (domain_set_spec domains (canonical_domain d)) as (b & -> & Hb). f_equal. apply eq_true_iff_eq.
  rewrite Hb. unfold listed, set_matches. rewrite existsb_exists.
  split; intros (raw & Hin & Hm); exists raw; apply pattern_covers_spec in Hm;
    by rewrite ?list_elem_of_In in *.
Qed.

(** * Geosite *)

Lemma geosite_fold_spec rules c :
  (forall n, n ∈ cg_exact (foldl compile_rule c rules) <-> n ∈ cg_exact c \/
     exists r, r ∈ rules /\ geosite_domain_type (gd_type r) = Full /\ n <> [] /\ n = canonical_domain (gd_value r)) /\
  (forall n, n ∈ cg_suffixes (foldl compile_rule c rules) <-> n ∈ cg_suffixes c \/
     exists r, r ∈ rules /\ geosite_domain_type (gd_type r) = Domain /\ n <> [] /\ n = canonical_domain (gd_value r)) /\
  (forall n, n ∈ cg_plain (foldl compile_rule c rules) <-> n ∈ cg_plain c \/
     exists r, r ∈ rules /\ geosite_domain_type (gd_type r) = Plain /\ n <> [] /\ n = canonical_domain (gd_value r)).
Proof.
  revert c; induction rules as [|r rules IH]; intros c; cbn [foldl].
  { split_and!; intros n; split; try (by left); intros [|(r & H & _)]; try done; by apply not_elem_of_nil in H. }
  destruct (IH (compile_rule c r)) as (He & Hs & Hp).
  split_and!; intros n; rewrite ?He, ?Hs, ?Hp, exists_cons; unfold compile_rule;
    set (v := canonical_domain (gd_value r)); destruct (bool_decide_reflect (v = []));
    destruct (geosite_domain_type (gd_type r)); cbn [cg_exact cg_suffixes cg_plain];
    rewrite ?elem_of_union, ?elem_of_singleton, ?elem_of_app, ?list_elem_of_singleton; intuition congruence.
Qed.

(** What a rule covers. *)
Definition rule_covers (r : GeoDomain) (d : bytes) : Prop :=
  match geosite_domain_type (gd_type r) with
  | Full => canonical_domain (gd_value r) <> [] /\ canonical_domain d = canonical_domain (gd_value r)
  | Domain => under (canonical_domain (gd_value r)) (canonical_domain d)
  | Plain => canonical_domain (gd_value r) <> [] /\ contains_sub (canonical_domain (gd_value r)) (canonical_domain d) = true
  | _ => False
  end.

Lemma geosite_match_spec r d : geosite_domain_match r d = true <-> rule_covers r d.
Proof.
  unfold geosite_domain_match, rule_covers. destruct (geosite_domain_type (gd_type r)).
  - by rewrite andb_true_iff, negb_true_iff, bool_decide_eq_false.
  - done.
  - by rewrite domain_matches_suffix_spec, !canonical_domain_idem.
  - by rewrite andb_true_iff, negb_true_iff, bool_decide_eq_false, bool_decide_eq_true.
  - done.
Qed.

Lemma geosite_contains_spec index tag d :
  compiled_geosite_contains (compile_geosite index) tag d = true <->
  exists r, r ∈ default [] (index !! tag) /\ canonical_domain (gd_value r) <> [] /\ geosite_domain_match r d = true.
Proof.
  unfold compiled_geosite_contains, compile_geosite. rewrite lookup_fmap.
  destruct (index !! tag) as [rules|]; cbn [fmap option_fmap option_map default];
    [|split; [done|]; by intros (r & H%not_elem_of_nil & _)].
  destruct (geosite_fold_spec rules {| cg_exact := ∅; cg_suffixes := ∅; cg_plain := [] |}) as (He & Hs & Hp).
  set (ct := foldl _ _ _) in *. setoid_rewrite geosite_match_spec. unfold rule_covers. split.
  - destruct (bool_decide_reflect (canonical_domain d ∈ cg_exact ct)) as [Hin|_].
    { intros _. apply He in Hin as [H%not_elem_of_empty|(r & Hr & Ht & Hn & E)]; [done|].
      exists r. rewrite Ht, <- E. auto. }
    assert (forall n, n ∈ cg_suffixes ct -> under n (canonical_domain d) ->
      exists r, r ∈ rules /\ canonical_domain (gd_value r) <> [] /\ rule_covers r d) as Hsuf.
    { intros n Hin Hu. apply Hs in Hin as [H%not_elem_of_empty|(r & Hr & Ht & Hn & ->)]; [done|]. unfold rule_covers. exists r. by rewrite Ht. }
    destruct (bool_decide_reflect (canonical_domain d ∈ cg_suffixes ct)) as [Hin|_].
    { intros _. apply (Hsuf _ Hin). by left. }
    destruct (dot_suffix_in _ _) eqn:Edot.
    { intros _. apply dot_suffix_in_spec in Edot as (n & Hin & Hl). apply (Hsuf n Hin). by right. }
    intros (v & Hin & Hc)%existsb_exists. apply list_elem_of_In in Hin.
    apply Hp in Hin as [H%not_elem_of_nil|(r & Hr & Ht & Hn & ->)]; [done|]. exists r. by rewrite Ht.
  - intros (r & Hr & Hn & Hm).
    destruct (bool_decide_reflect (canonical_domain d ∈ cg_exact ct)) as [|Hne]; [done|].
    destruct (bool_decide_reflect (canonical_domain d ∈ cg_suffixes ct)) as [|Hns]; [done|].
    destruct (dot_suffix_in _ _) eqn:Edot; [done|].
    destruct (geosite_domain_type (gd_type r)) eqn:Ht; try done.
    + apply existsb_exists. exists (canonical_domain (gd_value r)). split; [|apply Hm].
      apply list_elem_of_In, Hp. right. eauto.
    + destruct Hm as [E|Hl].
      * destruct Hns. apply Hs. right. exists r. by rewrite E.
      * assert (dot_suffix_in (cg_suffixes ct) (canonical_domain d) = true); [|congruence].
        apply dot_suffix_in_spec. exists (canonical_domain (gd_value r)). split; [|done]. apply Hs. right. eauto.
    + destruct Hne. apply He. right. exists r. destruct Hm as [_ ->]. done.
Qed.

(** * Tables of routes *)

(** The entries of either kind, under their canonical names. *)
Definition exact_entries (patterns : list (bytes * bytes)) : list (bytes * bytes) :=
  omap (fun e => match strip_dot e.1 with Some _ => None | None => Some (pattern_name e.1, e.2) end) patterns.
Definition suffix_entries (patterns : list (bytes * bytes)) : list (bytes * bytes) :=
  omap (fun e => match strip_dot e.1 with Some _ => Some (pattern_name e.1, e.2) | None => None end) patterns.

Lemma exact_entries_spec patterns n g :
  (n, g) ∈ exact_entries patterns <-> exists k, (k, g) ∈ patterns /\ strip_dot k = None /\ pattern_name k = n.
Proof.
  unfold exact_entries. rewrite list_elem_of_omap. split.
  - intros ([k g'] & Hin & E); cbn in E. destruct (strip_dot k) eqn:Ek; [done|]. injection E as <- <-. eauto.
  - intros (k & Hin & E & <-). exists (k, g). cbn. by rewrite E.
Qed.

Lemma suffix_entries_spec patterns n g :
  (n, g) ∈ suffix_entries patterns <-> exists k, (k, g) ∈ patterns /\ is_Some (strip_dot k) /\ pattern_name k = n.
Proof.
  unfold suffix_entries. rewrite list_elem_of_omap. split.
  - intros ([k g'] & Hin & E); cbn in E. destruct (strip_dot k) eqn:Ek; [|done]. injection E as <- <-. eauto.
  - intros (k & Hin & [x E] & <-). exists (k, g). cbn. by rewrite E.
Qed.

Definition put (m : gmap bytes bytes) (e : bytes * bytes) : gmap bytes bytes := <[e.1 := e.2]> m.

Lemma puts_lookup es m n :
  match foldl put m es !! n with
  | Some g => (n, g) ∈ es \/ m !! n = Some g
  | None => (forall g, (n, g) ∉ es) /\ m !! n = None
  end.
Proof.
  revert m; induction es as [|[k g] es IH]; intros m; cbn [foldl].
  { destruct (m !! n); [by right|]. split; [|done]. intros g. apply not_elem_of_nil. }
  change (put m (k, g)) with (<[k := g]> m). specialize (IH (<[k := g]> m)).
  destruct (foldl put (<[k := g]> m) es !! n) as [g'|]; setoid_rewrite elem_of_cons.
  - destruct IH as [|IH]; [by left; right|]. destruct (decide (k = n)) as [->|Hne].
    + rewrite lookup_insert_eq in IH. injection IH as ->. by left; left.
    + rewrite lookup_insert_ne in IH by done. by right.
  - destruct IH as [Hn IH]. destruct (decide (k = n)) as [->|Hne]; [by rewrite lookup_insert_eq in IH|].
    rewrite lookup_insert_ne in IH by done. split; [|done]. intros g' [|]; [congruence|]. by apply (Hn g').
Qed.

Lemma add_patterns_ok patterns t :
  match add_patterns t patterns with
  | Ok t' =>
      (forall k g, (k, g) ∈ patterns -> pattern_name k <> []) /\
      rt_exact t' = foldl put (rt_exact t) (exact_entries patterns) /\
      rt_suffixes t' = rt_suffixes t ++ suffix_entries patterns
  | Err e => exists k g, (k, g) ∈ patterns /\ pattern_name k = [] /\ e = RouteError.EmptyPattern k
  | Panic | Diverge => False
  end.
Proof.
  revert t; induction patterns as [|[k g] patterns IH]; intros t; cbn [add_patterns].
  { split_and!; [by intros ? ? H%not_elem_of_nil|done|by rewrite app_nil_r]. }
  unfold add_pattern, exact_entries, suffix_entries. cbn [omap list_omap fst snd]. unfold pattern_name at 2 4.
  destruct (strip_dot k) as [stripped|] eqn:Ek; cbn [default];
    match goal with |- context [bool_decide (?n = [])] =>
      destruct (bool_decide_reflect (n = [])) as [E|E]; cbn [negb res_bind] end.
  1,3: exists k, g; split_and!; [left|unfold pattern_name; by rewrite Ek|done].
  all: match goal with |- context [add_patterns ?t' _] => specialize (IH t') end;
    destruct (add_patterns _ _) as [t'|e| |]; [|destruct IH as (k' & g' & ? & ? & ?); exists k', g'; split; [by right|done]|done|done];
    destruct IH as (Hn & He & Hs); cbn [rt_exact rt_suffixes] in *; split_and!.
  1,4: intros k' g' [[= -> ->]|]%elem_of_cons; [unfold pattern_name; by rewrite Ek|by eapply Hn].
  all: try done.
  rewrite Hs, <- app_assoc. cbn [app]. assert (pattern_name k = canonical_domain stripped) as -> by (unfold pattern_name; by rewrite Ek). done.
Qed.

(** Patterns of one kind with one canonical name agree on the group. *)
Definition patterns_agree (patterns : list (bytes * bytes)) : Prop :=
  forall k1 g1 k2 g2, (k1, g1) ∈ patterns -> (k2, g2) ∈ patterns ->
    is_some (strip_dot k1) = is_some (strip_dot k2) -> pattern_name k1 = pattern_name k2 -> g1 = g2.

(** The group of a canonical name: that of its exact pattern, else that of the
    longest suffix pattern over it. *)
Definition exact_answer (patterns : list (bytes * bytes)) (d g : bytes) : Prop :=
  exists k, (k, g) ∈ patterns /\ strip_dot k = None /\ pattern_name k = d.
Definition suffix_answer (patterns : list (bytes * bytes)) (d g : bytes) : Prop :=
  exists k, (k, g) ∈ patterns /\ is_Some (strip_dot k) /\ under (pattern_name k) d /\
    forall k' g', (k', g') ∈ patterns -> is_Some (strip_dot k') -> under (pattern_name k') d ->
      zlen (pattern_name k') <= zlen (pattern_name k).
Definition table_answer (patterns : list (bytes * bytes)) (d g : bytes) : Prop :=
  exact_answer patterns d g \/ (forall g', ~ exact_answer patterns d g') /\ suffix_answer patterns d g.

#[export] Instance patterns_agree_perm : Proper ((≡ₚ) ==> iff) patterns_agree.
Proof. intros l l' E. unfold patterns_agree. by setoid_rewrite E. Qed.
#[export] Instance exact_answer_perm : Proper ((≡ₚ) ==> eq ==> eq ==> iff) exact_answer.
Proof. intros l l' E d ? <- g ? <-. unfold exact_answer. by setoid_rewrite E. Qed.
#[export] Instance suffix_answer_perm : Proper ((≡ₚ) ==> eq ==> eq ==> iff) suffix_answer.
Proof. intros l l' E d ? <- g ? <-. unfold suffix_answer. by setoid_rewrite E. Qed.
#[export] Instance table_answer_perm : Proper ((≡ₚ) ==> eq ==> eq ==> iff) table_answer.
Proof. intros l l' E d ? <- g ? <-. unfold table_answer. by setoid_rewrite E. Qed.

Lemma under_app s d : under s d -> exists l, d = l ++ s.
Proof. intros [->|(l & ->)]; [by exists []|]. exists (l ++ [dot]). by rewrite <- app_assoc. Qed.

Lemma under_same_length s1 s2 d : under s1 d -> under s2 d -> zlen s1 = zlen s2 -> s1 = s2.
Proof.
  intros (l1 & ->)%under_app (l2 & E)%under_app Hl. apply app_inj_2 in E as [_ ->]; [done|].
  unfold zlen in Hl. lia.
Qed.

Lemma is_some_Some {A} (o : option A) : is_some o = true <-> is_Some o.
Proof. destruct o; cbn; split; try done. Qed.

Lemma exact_lookup patterns d g :
  patterns_agree patterns ->
  foldl put ∅ (exact_entries patterns) !! d = Some g <-> exact_answer patterns d g.
Proof.
  intros Hag. pose proof (puts_lookup (exact_entries patterns) ∅ d) as H. unfold exact_answer. split.
  - intros E. rewrite E in H. destruct H as [H%exact_entries_spec|H]; [done|by rewrite lookup_empty in H].
  - intros (k & Hin & Ek & En).
    destruct (foldl put ∅ _ !! d) as [g'|].
    + destruct H as [(k' & Hin' & Ek' & En')%exact_entries_spec|H]; [|by rewrite lookup_empty in H].
      f_equal. apply (Hag k' g' k g); [done|done|by rewrite Ek, Ek'|congruence].
    + destruct H as [H _]. destruct (H g). apply exact_entries_spec. eauto.
Qed.

Lemma suffix_lookup patterns d g :
  patterns_agree patterns ->
  option_map snd (find (fun e => domain_matches_suffix (canonical_domain d) e.1)
    (sort_desc (fun e => zlen e.1) (suffix_entries patterns))) = Some g <->
  suffix_answer patterns (canonical_domain d) g.
Proof.
  intros Hag. assert (forall n, canonical_domain (pattern_name n) = pattern_name n) as Hc
    by (intros; apply canonical_domain_idem).
  assert (forall n g', (n, g') ∈ suffix_entries patterns ->
    domain_matches_suffix (canonical_domain d) n = true <-> under n (canonical_domain d)) as Hm.
  { intros n g' (k & _ & _ & <-)%suffix_entries_spec.
    by rewrite domain_matches_suffix_spec, canonical_domain_idem, Hc. }
  set (p := fun e : bytes * bytes => _). split.
  - destruct (find p _) as [[n g']|] eqn:E; [|done]. cbn. intros [= ->].
    apply find_sorted in E as (i & Hi & Hp & Hmax). apply list_elem_of_lookup_2 in Hi as Hin.
    unfold p in Hp; cbn in Hp. rewrite (Hm n g Hin) in Hp.
    apply suffix_entries_spec in Hin as (k & Hin & Hk & <-). exists k. split_and!; try done.
    intros k' g' Hin' Hk' Hu. assert ((pattern_name k', g') ∈ suffix_entries patterns) as Hs
      by (apply suffix_entries_spec; eauto).
    destruct (list_elem_of_lookup_1 _ _ Hs) as (j & Hj).
    destruct (Hmax j _ Hj) as [|[? _]]; unfold p; cbn in *; [by apply (Hm _ g')|lia|lia].
  - intros (k & Hin & Hk & Hu & Hmax).
    assert ((pattern_name k, g) ∈ suffix_entries patterns) as Hs by (apply suffix_entries_spec; eauto).
    destruct (find p _) as [[n g']|] eqn:E.
    + apply find_sorted in E as (i & Hi & Hp & Hmax'). apply list_elem_of_lookup_2 in Hi as Hin'.
      unfold p in Hp; cbn in Hp. rewrite (Hm n g' Hin') in Hp.
      apply suffix_entries_spec in Hin' as (k' & Hin' & Hk' & <-). cbn. f_equal.
      specialize (Hmax k' g' Hin' Hk' Hp). destruct (list_elem_of_lookup_1 _ _ Hs) as (j & Hj).
      assert (zlen (pattern_name k) <= zlen (pattern_name k')).
      { destruct (Hmax' j _ Hj) as [|[? _]]; unfold p; cbn in *; [by apply (Hm _ g)|lia|lia]. }
      apply (Hag k' g' k g); [done|done|..].
      * by rewrite (proj2 (is_some_Some _) Hk), (proj2 (is_some_Some _) Hk').
      * eapply under_same_length; [done..|lia].
    + apply find_sorted_None with (x := (pattern_name k, g)) in E; [|done].
      unfold p in E; cbn in E. apply (Hm _ g Hs) in Hu. congruence.
Qed.

Lemma table_lookup_spec patterns t d g :
  patterns_agree patterns -> build_table patterns = Ok t ->
  table_lookup t d = Some g <-> table_answer patterns (canonical_domain d) g.
Proof.
  intros Hag. unfold build_table. pose proof (add_patterns_ok patterns {| rt_exact := ∅; rt_suffixes := [] |}) as H.
  destruct (add_patterns _ patterns) as [t'| | |]; try done. cbn [res_bind]. intros [= <-].
  destruct H as (_ & He & Hs). unfold table_lookup, table_answer; cbn [rt_exact rt_suffixes app] in *.
  rewrite He, Hs, <- suffix_lookup by done. pose proof (exact_lookup patterns (canonical_domain d)) as Hx.
  destruct (foldl put ∅ _ !! canonical_domain d) as [g0|].
  - split; [intros [= ->]; left; by apply Hx|]. intros [H%Hx|[H _]]; [done|done|].
    destruct (H g0). by apply Hx.
  - split; [|by intros [H%Hx|[_ H]]]. intros H. right. split; [|done]. by intros g' H'%Hx.
Qed.

(** * The properties of the domain rules *)

(** A domain set always answers, and it matches a name exactly when one of its patterns does: a plain pattern its
    own name, a pattern with a leading dot the name and all its subdomains, label by label. *)
Theorem domain_set_exact domains d :
  exists b, matches_canonical (domain_set_compile domains) (canonical_domain d) = Some b /\
    (b = true <->
     exists raw, raw ∈ domains /\ pattern_name raw <> [] /\
       match strip_dot raw with
       | Some _ => under (pattern_name raw) (canonical_domain d)
       | None => canonical_domain d = pattern_name raw
       end).
Proof. exact (domain_set_spec domains (canonical_domain d)). Qed.

(** The compiled geosite sets answer a name like the rule-by-rule reference [geosite_domain_match], whatever the
    spelling of the name, as long as something is left of it in canonical form. *)
Theorem geosite_compiled_equiv index tag d :
  canonical_domain d <> [] ->
  compiled_geosite_contains (compile_geosite index) tag d =
  existsb (fun r => geosite_domain_match r d) (default [] (index !! tag)).
Proof.
  intros Hd. apply eq_true_iff_eq. rewrite geosite_contains_spec, existsb_exists. split.
  - intros (r & Hr & _ & Hm). exists r. split; [by apply list_elem_of_In|done].
  - intros (r & Hr%list_elem_of_In & Hm). exists r. split; [done|]. split; [|done]. intros Ev.
    apply geosite_match_spec in Hm. unfold rule_covers in Hm. rewrite Ev in Hm.
    destruct (geosite_domain_type (gd_type r)); try done; try by destruct Hm.
    apply under_nil in Hm; [done|apply canonical_domain_canonical].
Qed.

Example geosite_compiled_equiv_witness :
  let index := <[bs "cn" := [{| gd_type := 2; gd_value := bs "Example.CN." |}]]> (∅ : gmap bytes (list GeoDomain)) in
  canonical_domain (bs "www.example.cn") <> [] /\
  compiled_geosite_contains (compile_geosite index) (bs "cn") (bs "www.example.cn") =
  existsb (fun r => geosite_domain_match r (bs "www.example.cn")) (default [] (index !! bs "cn")).
Proof.
  cbv zeta. split; [by vm_compute|].
  exact (geosite_compiled_equiv _ (bs "cn") (bs "www.example.cn") ltac:(by vm_compute)).
Defined.

(** The route table of a client answers every name by its exact pattern, and without one by the longest suffix
    pattern over it, in whatever order the patterns were read; building it fails exactly for a pattern with an
    empty name. *)
Theorem domain_table_exact patterns :
  patterns_agree patterns ->
  match build_table patterns with
  | Ok t =>
      (forall k g, (k, g) ∈ patterns -> pattern_name k <> []) /\
      forall d g, table_lookup t d = Some g <-> table_answer patterns (canonical_domain d) g
  | Err e => exists k g, (k, g) ∈ patterns /\ pattern_name k = [] /\ e = RouteError.EmptyPattern k
  | Panic | Diverge => False
  end.
Proof.
  intros Hag. pose proof (table_lookup_spec patterns) as Ht. unfold build_table in *.
  pose proof (add_patterns_ok patterns {| rt_exact := ∅; rt_suffixes := [] |}) as H.
  destruct (add_patterns _ patterns) as [t'|e| |]; try done. cbn [res_bind] in *. split; [apply H|].
  intros d g. by apply Ht.
Qed.

Definition example_patterns : list (bytes * bytes) :=
  [(bs ".example.com", bs "wide"); (bs "a.Example.com.", bs "exact"); (bs ".b.example.com", bs "narrow")].

Lemma example_patterns_agree : patterns_agree example_patterns.
Proof.
  intros k1 g1 k2 g2. unfold example_patterns. rewrite !elem_of_cons, !elem_of_nil.
  intros [[= -> ->]|[[= -> ->]|[[= -> ->]|[]]]] [[= -> ->]|[[= -> ->]|[[= -> ->]|[]]]]; by vm_compute.
Qed.

Example domain_table_exact_witness :
  patterns_agree example_patterns /\
  match build_table example_patterns with
  | Ok t =>
      (forall k g, (k, g) ∈ example_patterns -> pattern_name k <> []) /\
      forall d g, table_lookup t d = Some g <-> table_answer example_patterns (canonical_domain d) g
  | _ => False
  end.
Proof.
  split; [exact example_patterns_agree|]. exact (domain_table_exact example_patterns example_patterns_agree).
Defined.
