(* ===== verification/Routes.v ===== *)
(** The client routing tables of [src/src/state.rs]: [ClientCidrRoutes], their
    construction from the configuration in [AppState::build], and
    [lookup_upstream_group]. *)

From Stdlib Require Import Strings.Byte Strings.String.
From S2P Require Import Prelude Bytes Ordered Domains Config.

(** * Networks *)

(** The networks of the ipnet crate over [w]-bit addresses: [prefix_len()],
    [network()] and [contains(ip)]. *)
Class NetOps (w : Z) := {
  Net : Type;
  prefix_len : Net -> Z;
  network : Net -> Z;
  net_contains : Net -> Z -> bool;
}.
Arguments Net w {_}.

(** What the crate documents: a network holds the addresses that share its
    first [prefix_len] bits, and [network] has the other bits cleared. *)
Class NetLaws (w : Z) {ops : NetOps w} : Prop := {
  prefix_len_range : forall n : Net w, 0 <= prefix_len n <= w;
  network_masked : forall n : Net w,
    network n = Z.shiftl (Z.shiftr (network n) (w - prefix_len n)) (w - prefix_len n);
  contains_spec : forall (n : Net w) ip,
    net_contains n ip = true <-> Z.shiftr ip (w - prefix_len n) = Z.shiftr (network n) (w - prefix_len n);
}.

Lemma contains_both {w} `{NetLaws w} (n m : Net w) ip :
  net_contains n ip = true -> net_contains m ip = true -> prefix_len n = prefix_len m -> network n = network m.
Proof.
  rewrite !contains_spec. intros Hn Hm E. rewrite (network_masked n), (network_masked m), <- Hn, <- Hm. by rewrite E.
Qed.

Section Routes.
Context `{ops4 : !NetOps 32} `{ops6 : !NetOps 128}.

(** [IpNet] *)
Inductive IpNet := NetV4 (n : Net 32) | NetV6 (n : Net 128).

(** * The table *)

Record ClientCidrRoutes (T : Type) := { v4 : list (Net 32 * T); v6 : list (Net 128 * T) }.
#[local] Arguments v4 {T} _.
#[local] Arguments v6 {T} _.

Definition routes_new {T} : ClientCidrRoutes T := {| v4 := []; v6 := [] |}.
Definition routes_insert {T} (r : ClientCidrRoutes T) (net : IpNet) (value : T) : ClientCidrRoutes T :=
  match net with
  | NetV4 n => {| v4 := v4 r ++ [(n, value)]; v6 := v6 r |}
  | NetV6 n => {| v4 := v4 r; v6 := v6 r ++ [(n, value)] |}
  end.
Definition routes_finalize {T} (r : ClientCidrRoutes T) : ClientCidrRoutes T :=
  {| v4 := sort_desc (fun e => prefix_len e.1) (v4 r); v6 := sort_desc (fun e => prefix_len e.1) (v6 r) |}.
Definition routes_lookup {T} (r : ClientCidrRoutes T) (ip : IpAddr) : option T :=
  match ip with
  | V4 ip => option_map snd (find (fun e => net_contains e.1 ip) (v4 r))
  | V6 ip => option_map snd (find (fun e => net_contains e.1 ip) (v6 r))
  end.
Definition find_map_matching {T R} (r : ClientCidrRoutes T) (ip : IpAddr) (f : T -> option R) : option R :=
  match ip with
  | V4 ip => find_map (fun e => f e.2) (filter (fun e => net_contains e.1 ip = true) (v4 r))
  | V6 ip => find_map (fun e => f e.2) (filter (fun e => net_contains e.1 ip = true) (v6 r))
  end.

(** The tables of [AppRuntime]. *)
Record RouteTables := {
  client_routes : ClientCidrRoutes bytes;
  client_domain_routes : ClientCidrRoutes DomainRouteTable;
  client_dst_ip_routes : ClientCidrRoutes (ClientCidrRoutes bytes);
}.

(** * Construction *)

Section Build.
(** [str::parse::<IpNet>] of the ipnet crate, [str::parse::<IpAddr>] and
    [IpNet::from(ip)]. *)
Context (parse_ip_net : bytes -> option IpNet) (parse_ip_addr : bytes -> option IpAddr) (net_of_addr : IpAddr -> IpNet).
(** The order in which a [HashMap] is traversed. *)
Context (hash_iter : forall V, gmap bytes V -> list (bytes * V)).

Definition parse_ip_or_cidr (s : bytes) : route_res IpNet :=
  match parse_ip_net s with
  | Some net => Ok net
  | None => let? ip := ok_or (RouteError.InvalidNet s) (parse_ip_addr s) in Ok (net_of_addr ip)
  end.

(** The loop over the entries of a table; [value] is what its body does with
    the entry's value. *)
Fixpoint insert_entries {V T} (value : V -> route_res T) (routes : ClientCidrRoutes T)
    (entries : list (bytes * V)) : route_res (ClientCidrRoutes T) :=
  match entries with
  | [] => Ok routes
  | (ip_str, v) :: entries =>
      let? net := parse_ip_or_cidr ip_str in
      let? t := value v in
      insert_entries value (routes_insert routes net t) entries
  end.
Definition build_routes {V T} (value : V -> route_res T) (m : gmap bytes V) : route_res (ClientCidrRoutes T) :=
  let? routes := insert_entries value routes_new (hash_iter V m) in
  Ok (routes_finalize routes).

Definition build_client_routes (c : Config.Config) : route_res (ClientCidrRoutes bytes) :=
  build_routes Ok (Config.client_routes c).
Definition build_client_domain_routes (c : Config.Config) : route_res (ClientCidrRoutes DomainRouteTable) :=
  build_routes (fun domain_map => build_table (hash_iter bytes domain_map)) (Config.client_domain_routes c).
Definition build_client_dst_ip_routes (c : Config.Config) : route_res (ClientCidrRoutes (ClientCidrRoutes bytes)) :=
  build_routes (build_routes Ok) (Config.client_dst_ip_routes c).

Definition build_tables (c : Config.Config) : route_res RouteTables :=
  let? client := build_client_routes c in
  let? domain := build_client_domain_routes c in
  let? dst_ip := build_client_dst_ip_routes c in
  Ok {| client_routes := client; client_domain_routes := domain; client_dst_ip_routes := dst_ip |}.
End Build.

(** * Choosing the group *)

(** [AppState::lookup_upstream_group] *)
Definition lookup_upstream_group (rt : RouteTables) (client_ip dst_ip : IpAddr) (domain : option bytes) : bytes :=
  match find_map_matching (client_dst_ip_routes rt) client_ip (fun t => routes_lookup t dst_ip) with
  | Some group => group
  | None =>
      match domain with
      | Some domain_str =>
          match find_map_matching (client_domain_routes rt) client_ip (fun t => table_lookup t domain_str) with
          | Some group => group
          | None => default (bs "default") (routes_lookup (client_routes rt) client_ip)
          end
      | None => default (bs "default") (routes_lookup (client_routes rt) client_ip)
      end
  end.

(** [AppState::need_upstream_domain_sniff] *)
Definition need_upstream_domain_sniff (c : Config.Config) (rt : RouteTables) (client_ip : IpAddr) : bool :=
  negb (bool_decide (Config.client_domain_routes c = ∅))
  && is_some (routes_lookup (client_domain_routes rt) client_ip).

(** * Searching a finished table *)

Definition net_len (net : IpNet) : Z := match net with NetV4 n => prefix_len n | NetV6 n => prefix_len n end.
Definition net_has (net : IpNet) (ip : IpAddr) : bool :=
  match net, ip with NetV4 n, V4 ip => net_contains n ip | NetV6 n, V6 ip => net_contains n ip | _, _ => false end.
(** Two spellings of one network. *)
Definition same_net (a b : IpNet) : Prop :=
  match a, b with
  | NetV4 n, NetV4 m => prefix_len n = prefix_len m /\ network n = network m
  | NetV6 n, NetV6 m => prefix_len n = prefix_len m /\ network n = network m
  | _, _ => False
  end.

(** [r] is an answer of the most specific network over [ip] that has one. *)
Definition best {V R} (E : IpNet -> V -> Prop) (ip : IpAddr) (P : V -> R -> Prop) (r : R) : Prop :=
  exists net v, E net v /\ net_has net ip = true /\ P v r /\
    forall net' v' r', E net' v' -> net_has net' ip = true -> P v' r' -> net_len net' <= net_len net.

Lemma best_iff {V V' R} (E : IpNet -> V -> Prop) (E' : IpNet -> V' -> Prop) (P : V -> R -> Prop) (P' : V' -> R -> Prop) ip r :
  (forall net r, (exists v, E net v /\ P v r) <-> (exists v, E' net v /\ P' v r)) ->
  best E ip P r <-> best E' ip P' r.
Proof.
  intros H. unfold best. split; intros (net & v & Hin & Hc & Hp & Hmax).
  - destruct (proj1 (H net r)) as (v' & ? & ?); [eauto|]. exists net, v'. split_and!; try done.
    intros net' u r' Hu Hcu Hpu. destruct (proj2 (H net' r')) as (u' & ? & ?); [eauto|]. by eapply Hmax.
  - destruct (proj2 (H net r)) as (v' & ? & ?); [eauto|]. exists net, v'. split_and!; try done.
    intros net' u r' Hu Hcu Hpu. destruct (proj1 (H net' r')) as (u' & ? & ?); [eauto|]. by eapply Hmax.
Qed.

Lemma search_sorted {w} {ops : NetOps w} {laws : NetLaws w} {T R} (l : list (Net w * T)) ip (f : T -> option R) r :
  (forall n v m u, (n, v) ∈ l -> (m, u) ∈ l -> prefix_len n = prefix_len m -> network n = network m -> v = u) ->
  find_map (fun e => f e.2) (filter (fun e => net_contains e.1 ip = true) (sort_desc (fun e => prefix_len e.1) l)) = Some r <->
  exists n v, (n, v) ∈ l /\ net_contains n ip = true /\ f v = Some r /\
    forall m u r', (m, u) ∈ l -> net_contains m ip = true -> f u = Some r' -> prefix_len m <= prefix_len n.
Proof.
  intros Hag. rewrite find_map_find, find_filter.
  set (p := fun e : Net w * T => _).
  assert (forall n v, p (n, v) = true <-> net_contains n ip = true /\ is_Some (f v)) as Hp.
  { intros n v. unfold p; cbn. by rewrite andb_true_iff, is_some_Some. }
  split.
  - destruct (find p _) as [[n v]|] eqn:Ef; [|done]. cbn. intros Hr.
    apply find_sorted in Ef as (i & Hi & [Hc _]%Hp & Hmax). exists n, v.
    split; [by eapply list_elem_of_lookup_2|]. split_and!; try done.
    intros m u r' (j & Hj)%list_elem_of_lookup_1 Hcm Hu.
    destruct (Hmax j _ Hj) as [|[? _]]; cbn in *; [apply Hp; eauto|lia|lia].
  - intros (n & v & Hin & Hc & Hr & Hmax). destruct (find p _) as [[m u]|] eqn:Ef.
    + cbn. apply find_sorted in Ef as (i & Hi & [Hcm [r' Hu]]%Hp & Hmax').
      apply list_elem_of_lookup_2 in Hi as Hin'. specialize (Hmax m u r' Hin' Hcm Hu).
      destruct (list_elem_of_lookup_1 _ _ Hin) as (j & Hj).
      assert (prefix_len n = prefix_len m) as El.
      { destruct (Hmax' j _ Hj) as [|[? _]]; cbn in *; [apply Hp; eauto|lia|lia]. }
      assert (v = u) as -> by (eapply Hag; eauto using contains_both). done.
    + apply find_sorted_None with (x := (n, v)) in Ef; [|done].
      assert (p (n, v) = true) by (apply Hp; eauto). congruence.
Qed.

(** The entries of either family, in order. *)
Definition part4 {T} (es : list (IpNet * T)) : list (Net 32 * T) :=
  omap (fun e => match e.1 with NetV4 n => Some (n, e.2) | NetV6 _ => None end) es.
Definition part6 {T} (es : list (IpNet * T)) : list (Net 128 * T) :=
  omap (fun e => match e.1 with NetV4 _ => None | NetV6 n => Some (n, e.2) end) es.

Lemma part4_spec {T} (es : list (IpNet * T)) n v : (n, v) ∈ part4 es <-> (NetV4 n, v) ∈ es.
Proof.
  unfold part4. rewrite list_elem_of_omap. split.
  - intros ([[m|m] u] & Hin & Eq); cbn in Eq; [|done]. by injection Eq as <- <-.
  - intros Hin. by exists (NetV4 n, v).
Qed.
Lemma part6_spec {T} (es : list (IpNet * T)) n v : (n, v) ∈ part6 es <-> (NetV6 n, v) ∈ es.
Proof.
  unfold part6. rewrite list_elem_of_omap. split.
  - intros ([[m|m] u] & Hin & Eq); cbn in Eq; [done|]. by injection Eq as <- <-.
  - intros Hin. by exists (NetV6 n, v).
Qed.

Definition entries_agree {T} (es : list (IpNet * T)) : Prop :=
  forall n v m u, (n, v) ∈ es -> (m, u) ∈ es -> same_net n m -> v = u.

Lemma find_map_matching_spec `{!NetLaws 32} `{!NetLaws 128} {T R} (es : list (IpNet * T)) ip (f : T -> option R) r :
  entries_agree es ->
  find_map_matching (routes_finalize {| v4 := part4 es; v6 := part6 es |}) ip f = Some r <->
  best (fun net v => (net, v) ∈ es) ip (fun v r => f v = Some r) r.
Proof.
  intros Hag. unfold find_map_matching, routes_finalize, best. cbn [v4 v6]. destruct ip as [ip|ip].
  - rewrite search_sorted.
    2:{ intros n v m u Hn%part4_spec Hm%part4_spec ? ?. by apply (Hag _ _ _ _ Hn Hm). }
    split.
    + intros (n & v & Hin%part4_spec & Hc & Hr & Hmax). exists (NetV4 n), v. split_and!; try done.
      intros [m|m] u r' Hu Hcu Hr'; [|done]. by apply part4_spec in Hu; eapply Hmax.
    + intros ([n|n] & v & Hin & Hc & Hr & Hmax); [|done]. exists n, v. split_and!; try done; [by apply part4_spec|].
      intros m u r' Hu%part4_spec Hcu Hr'. by apply (Hmax (NetV4 m) u r').
  - rewrite search_sorted.
    2:{ intros n v m u Hn%part6_spec Hm%part6_spec ? ?. by apply (Hag _ _ _ _ Hn Hm). }
    split.
    + intros (n & v & Hin%part6_spec & Hc & Hr & Hmax). exists (NetV6 n), v. split_and!; try done.
      intros [m|m] u r' Hu Hcu Hr'; [done|]. by apply part6_spec in Hu; eapply Hmax.
    + intros ([n|n] & v & Hin & Hc & Hr & Hmax); [done|]. exists n, v. split_and!; try done; [by apply part6_spec|].
      intros m u r' Hu%part6_spec Hcu Hr'. by apply (Hmax (NetV6 m) u r').
Qed.

(** A single lookup is the search that accepts every value. *)
Lemma routes_lookup_find {T} (r : ClientCidrRoutes T) ip : routes_lookup r ip = find_map_matching r ip Some.
Proof.
  destruct ip as [ip|ip]; cbn; rewrite find_map_find, find_filter; cbn;
    (erewrite find_ext; [|intros x _; symmetry; apply andb_true_r]); by destruct (find _ _).
Qed.

(** * Tables built from a configuration *)

Section BuildLemmas.
Context (parse_ip_net : bytes -> option IpNet) (parse_ip_addr : bytes -> option IpAddr) (net_of_addr : IpAddr -> IpNet).
Context (hash_iter : forall V, gmap bytes V -> list (bytes * V)).
Abbreviation parse := (parse_ip_or_cidr parse_ip_net parse_ip_addr net_of_addr).
Abbreviation build := (build_routes parse_ip_net parse_ip_addr net_of_addr hash_iter).

(** A failed construction names an entry it could not use. *)
Definition builds {V T} (value : V -> route_res T) (e : bytes * V) (x : IpNet * T) : Prop :=
  parse e.1 = Ok x.1 /\ value e.2 = Ok x.2.

Lemma insert_entries_ok {V T} (value : V -> route_res T) (entries : list (bytes * V)) routes r :
  insert_entries parse_ip_net parse_ip_addr net_of_addr value routes entries = Ok r <->
  exists es, Forall2 (builds value) entries es /\ r = {| v4 := v4 routes ++ part4 es; v6 := v6 routes ++ part6 es |}.
Proof.
  revert routes; induction entries as [|[k v] entries IH]; intros routes; cbn [insert_entries].
  - split.
    + intros [= <-]. exists []. split; [constructor|]. destruct routes; cbn. by rewrite !app_nil_r.
    + intros (es & Hes%Forall2_nil_inv_l & ->). subst. destruct routes; cbn. by rewrite !app_nil_r.
  - rewrite res_bind_ok. split.
    + intros (net & Hk & (t & Hv & (es & Hes & ->)%IH)%res_bind_ok). exists ((net, t) :: es). split; [by constructor|].
      destruct net; cbn [routes_insert v4 v6 part4 part6 omap list_omap fst snd]; by rewrite <- app_assoc.
    + intros (es & Hes & ->). inversion Hes as [|? [net t] ? es' [Hk Hv] Hes' E1 E2]; subst. cbn in Hk, Hv.
      exists net. split; [done|]. apply res_bind_ok. exists t. split; [done|]. apply IH. exists es'. split; [done|].
      destruct net; cbn [routes_insert v4 v6 part4 part6 omap list_omap fst snd]; by rewrite <- app_assoc.
Qed.

(** What a map of the configuration says of a network. *)
Definition says {V} (m : gmap bytes V) (net : IpNet) (v : V) : Prop := exists k, m !! k = Some v /\ parse k = Ok net.
(** Spellings of one network in a map carry one value. *)
Definition nets_agree {V} (m : gmap bytes V) : Prop :=
  forall n v n' v', says m n v -> says m n' v' -> same_net n n' -> v = v'.

Context (hash_iter_perm : forall V (m : gmap bytes V), hash_iter V m ≡ₚ map_to_list m).

Lemma build_routes_ok {V T} (value : V -> route_res T) (m : gmap bytes V) r :
  build value m = Ok r ->
  (forall k v, m !! k = Some v -> (exists net, parse k = Ok net) /\ exists t, value v = Ok t) /\
  exists es, r = routes_finalize {| v4 := part4 es; v6 := part6 es |} /\
    (nets_agree m -> entries_agree es) /\
    forall net t, (net, t) ∈ es <-> exists v, says m net v /\ value v = Ok t.
Proof.
  unfold build_routes. intros (routes & (es & Hes & ->)%insert_entries_ok & [= <-])%res_bind_ok.
  assert (forall k v, (k, v) ∈ hash_iter V m <-> m !! k = Some v) as Hiter.
  { intros k v. by rewrite hash_iter_perm, elem_of_map_to_list. }
  assert (forall net t, (net, t) ∈ es <-> exists v, says m net v /\ value v = Ok t) as Hspec.
  { intros net t. split.
    - intros (i & Hi)%list_elem_of_lookup_1. destruct (Forall2_lookup_r _ _ _ _ _ Hes Hi) as ([k v] & Hk & Hp & Hv).
      exists v. split; [|done]. exists k. split; [|done]. apply Hiter. by eapply list_elem_of_lookup_2.
    - intros (v & (k & Hk%Hiter & Hp) & Hv). apply list_elem_of_lookup_1 in Hk as (i & Hi).
      destruct (Forall2_lookup_l _ _ _ _ _ Hes Hi) as ([net' t'] & Hj & Hp' & Hv'); cbn in *.
      assert (net' = net) as -> by congruence. assert (t' = t) as -> by congruence. by eapply list_elem_of_lookup_2. }
  split.
  - intros k v Hk%Hiter. apply list_elem_of_lookup_1 in Hk as (i & Hi).
    destruct (Forall2_lookup_l _ _ _ _ _ Hes Hi) as ([net t] & _ & Hp & Hv). eauto.
  - exists es. split; [done|]. split; [|exact Hspec].
    intros Hag n t n' t' (v & Hs & Hv)%Hspec (v' & Hs' & Hv')%Hspec Hsame.
    assert (v = v') as -> by (by eapply Hag). congruence.
Qed.

(** A search of a built table in terms of the configuration. *)
Lemma built_search `{!NetLaws 32} `{!NetLaws 128} {V T R} (value : V -> route_res T) m r ip (f : T -> option R) x :
  nets_agree m -> build value m = Ok r ->
  find_map_matching r ip f = Some x <-> best (says m) ip (fun v x => exists t, value v = Ok t /\ f t = Some x) x.
Proof.
  intros Hag (_ & es & -> & He & Hspec)%build_routes_ok. rewrite find_map_matching_spec by auto.
  apply best_iff. intros net y. setoid_rewrite Hspec. split.
  - intros (t & (v & Hs & Hv) & Hf). eauto.
  - intros (v & Hs & t & Hv & Hf). eauto.
Qed.

Lemma built_lookup `{!NetLaws 32} `{!NetLaws 128} {V} (m : gmap bytes V) r ip x :
  nets_agree m -> build Ok m = Ok r -> routes_lookup r ip = Some x <-> best (says m) ip eq x.
Proof.
  intros Hag Hb. rewrite routes_lookup_find, built_search by done. apply best_iff. intros net y. split.
  - intros (v & Hs & t & [= ->] & [= ->]). eauto.
  - intros (v & Hs & ->). exists y. split; [done|]. by exists y.
Qed.

Lemma insert_entries_returns {V T} (value : V -> route_res T) (entries : list (bytes * V)) routes :
  (forall v, returns (value v)) -> returns (insert_entries parse_ip_net parse_ip_addr net_of_addr value routes entries).
Proof.
  intros Hv. revert routes; induction entries as [|[k v] entries IH]; intros routes; cbn [insert_entries]; [done|].
  apply returns_bind; [|intros net _; apply returns_bind; auto].
  unfold parse_ip_or_cidr. destruct (parse_ip_net k); [done|]. by destruct (parse_ip_addr k).
Qed.

Lemma build_routes_returns {V T} (value : V -> route_res T) (m : gmap bytes V) :
  (forall v, returns (value v)) -> returns (build value m).
Proof. intros Hv. unfold build_routes. apply returns_bind; [by apply insert_entries_returns|done]. Qed.

Lemma build_routes_succeeds {V T} (value : V -> route_res T) (m : gmap bytes V) :
  (forall k v, m !! k = Some v -> (exists net, parse k = Ok net) /\ exists t, value v = Ok t) ->
  exists r, build value m = Ok r.
Proof.
  intros H. unfold build_routes. assert (forall k v, (k, v) ∈ hash_iter V m -> m !! k = Some v) as Hiter.
  { intros k v. by rewrite hash_iter_perm, elem_of_map_to_list. }
  assert (exists es, Forall2 (builds value) (hash_iter V m) es) as (es & Hes).
  { induction (hash_iter V m) as [|[k v] l IH]; [by exists []; constructor|].
    destruct IH as (es & Hes); [intros; apply Hiter; by right|].
    destruct (H k v) as [[net Hk] [t Ht]]; [apply Hiter; by left|]. exists ((net, t) :: es). by constructor. }
  eexists. apply res_bind_ok. eexists. split; [|done]. apply insert_entries_ok. eauto.
Qed.

(** * The group of a connection *)

Definition or_else (P Q : bytes -> Prop) (g : bytes) : Prop := P g \/ (forall g', ~ P g') /\ Q g.

Lemma or_else_option (o : option bytes) (P Q : bytes -> Prop) k g :
  (forall g, o = Some g <-> P g) -> (k = g <-> Q g) ->
  match o with Some x => x | None => k end = g <-> or_else P Q g.
Proof.
  unfold or_else. intros HP HQ. destruct o as [x|].
  - split; [intros ->; left; by apply HP|]. intros [H%HP|[H _]]; [congruence|]. destruct (H x). by apply HP.
  - rewrite HQ. split; [|by intros [H%HP|[_ H]]]. intros H. right. split; [|done]. by intros g' H'%HP.
Qed.

Definition dst_answer (c : Config.Config) (client_ip dst_ip : IpAddr) : bytes -> Prop :=
  best (says (Config.client_dst_ip_routes c)) client_ip (fun inner => best (says inner) dst_ip eq).
Definition domain_answer (c : Config.Config) (client_ip : IpAddr) (domain : bytes) : bytes -> Prop :=
  best (says (Config.client_domain_routes c)) client_ip
    (fun domain_map => table_answer (map_to_list domain_map) (canonical_domain domain)).
Definition client_answer (c : Config.Config) (client_ip : IpAddr) : bytes -> Prop :=
  best (says (Config.client_routes c)) client_ip eq.

(** Destination routes first, then domain routes, then client routes. *)
Definition group_answer (c : Config.Config) (client_ip dst_ip : IpAddr) (domain : option bytes) : bytes -> Prop :=
  let by_client := or_else (client_answer c client_ip) (eq (bs "default")) in
  or_else (dst_answer c client_ip dst_ip)
    match domain with
    | Some d => or_else (domain_answer c client_ip d) by_client
    | None => by_client
    end.

(** Different spellings of one network or domain are configured alike. *)
Record tables_agree (c : Config.Config) : Prop := {
  agree_client : nets_agree (Config.client_routes c);
  agree_domain : nets_agree (Config.client_domain_routes c);
  agree_dst : nets_agree (Config.client_dst_ip_routes c);
  agree_patterns k m : Config.client_domain_routes c !! k = Some m -> patterns_agree (map_to_list m);
  agree_inner k m : Config.client_dst_ip_routes c !! k = Some m -> nets_agree m;
}.

(** [best] with answers that agree where the map holds them. *)
Lemma best_says {V R : Type} (m : gmap bytes V) (ip : IpAddr) (P P' : V -> R -> Prop) r :
  (forall k v, m !! k = Some v -> forall x, P v x <-> P' v x) -> best (says m) ip P r <-> best (says m) ip P' r.
Proof.
  intros H. apply best_iff. intros net x.
  split; intros (v & (k & Hk & Hp) & HP); exists v; (split; [by exists k|]); by apply (H k v Hk).
Qed.

Lemma group_exact `{!NetLaws 32} `{!NetLaws 128} c rt client_ip dst_ip domain g :
  tables_agree c -> build_tables parse_ip_net parse_ip_addr net_of_addr hash_iter c = Ok rt ->
  lookup_upstream_group rt client_ip dst_ip domain = g <-> group_answer c client_ip dst_ip domain g.
Proof.
  intros [Ac Ad At Ap Ai]. unfold build_tables. rewrite res_bind_ok. intros (client & Hc & H).
  apply res_bind_ok in H as (dom & Hd & H). apply res_bind_ok in H as (dst & Ht & [= <-]).
  unfold lookup_upstream_group, group_answer. cbn [client_routes client_domain_routes client_dst_ip_routes].
  assert (forall g, default (bs "default") (routes_lookup client client_ip) = g <->
    or_else (client_answer c client_ip) (eq (bs "default")) g) as Hclient.
  { intros g'. apply or_else_option; [|done]. intros x. by apply built_lookup. }
  apply or_else_option.
  - intros x. unfold build_client_dst_ip_routes in Ht. rewrite (built_search _ _ _ _ _ _ At Ht).
    destruct (build_routes_ok _ _ _ Ht) as [Hall _].
    apply best_says. intros k inner Hk y. destruct (Hall k inner Hk) as (_ & t & Hb).
    rewrite Hb. rewrite <- (built_lookup inner t dst_ip y (Ai k inner Hk) Hb). split; [by intros (? & [= <-] & ?)|eauto].
  - destruct domain as [d|]; [|apply Hclient]. apply or_else_option; [|apply Hclient].
    intros x. unfold build_client_domain_routes in Hd. rewrite (built_search _ _ _ _ _ _ Ad Hd).
    destruct (build_routes_ok _ _ _ Hd) as [Hall _].
    apply best_says. intros k m Hk y. destruct (Hall k m Hk) as (_ & t & Hb).
    rewrite Hb, <- (hash_iter_perm _ m), <- (table_lookup_spec _ t d y); [split; [by intros (? & [= <-] & ?)|eauto]|..|done].
    rewrite hash_iter_perm. by eapply Ap.
Qed.

(** C5: A connection is sent to the group of the most specific client network whose table has the destination, else
    of the most specific one whose table has the domain, else of the most specific client network with a group, else
    to "default"; the answer does not depend on the order in which the maps were traversed. *)
Theorem upstream_group_exact `{!NetLaws 32} `{!NetLaws 128} c rt client_ip dst_ip domain g :
  tables_agree c -> build_tables parse_ip_net parse_ip_addr net_of_addr hash_iter c = Ok rt ->
  lookup_upstream_group rt client_ip dst_ip domain = g <-> group_answer c client_ip dst_ip domain g.
Proof. apply group_exact. Qed.

Definition keys_parse {V} (m : gmap bytes V) : Prop := forall k v, m !! k = Some v -> exists net, parse k = Ok net.
(** A configuration that [AppState::build] can make tables of. *)
Record buildable (c : Config.Config) : Prop := {
  buildable_client : keys_parse (Config.client_routes c);
  buildable_domain : keys_parse (Config.client_domain_routes c);
  buildable_dst : keys_parse (Config.client_dst_ip_routes c);
  buildable_patterns k m p g :
    Config.client_domain_routes c !! k = Some m -> m !! p = Some g -> pattern_name p <> [];
  buildable_inner k m : Config.client_dst_ip_routes c !! k = Some m -> keys_parse m;
}.

Lemma build_flat_ok (m : gmap bytes bytes) : (exists r, build Ok m = Ok r) <-> keys_parse m.
Proof.
  split.
  - intros (r & [H _]%build_routes_ok) k v Hk. by apply (H k v).
  - intros H. apply build_routes_succeeds. intros k v Hk. split; [by eapply H|eauto].
Qed.

Lemma build_table_ok (m : gmap bytes bytes) :
  (exists t, build_table (hash_iter bytes m) = Ok t) <-> forall p g, m !! p = Some g -> pattern_name p <> [].
Proof.
  assert (forall p g, (p, g) ∈ hash_iter bytes m <-> m !! p = Some g) as Hiter.
  { intros p g. by rewrite hash_iter_perm, elem_of_map_to_list. }
  unfold build_table. pose proof (add_patterns_ok (hash_iter bytes m) {| rt_exact := ∅; rt_suffixes := [] |}) as H.
  destruct (add_patterns _ _) as [t|e| |]; try done; cbn [res_bind].
  - destruct H as (H & _). split; [|by eauto]. intros _ p g Hp%Hiter. by eapply H.
  - destruct H as (p & g & Hp%Hiter & E & ->). split; [by intros [? ?]|]. intros H. by destruct (H p g Hp).
Qed.

(** The route tables are built exactly when every address of the configuration parses and every domain pattern
    has a name; a table that cannot be built is an error, not a panic. *)
Theorem route_tables_buildable c :
  returns (build_tables parse_ip_net parse_ip_addr net_of_addr hash_iter c) /\
  ((exists rt, build_tables parse_ip_net parse_ip_addr net_of_addr hash_iter c = Ok rt) <-> buildable c).
Proof.
  unfold build_tables, build_client_routes, build_client_domain_routes, build_client_dst_ip_routes. split.
  { apply returns_bind; [by apply build_routes_returns|intros ? _]. apply returns_bind; [|intros ? _].
    - apply build_routes_returns. intros m. unfold build_table.
      pose proof (add_patterns_ok (hash_iter bytes m) {| rt_exact := ∅; rt_suffixes := [] |}) as H.
      by destruct (add_patterns _ _).
    - apply returns_bind; [|done]. apply build_routes_returns. intros m. by apply build_routes_returns. }
  split.
  - intros (rt & H). apply res_bind_ok in H as (client & Hc & H).
    apply res_bind_ok in H as (dom & [Hd _]%build_routes_ok & H).
    apply res_bind_ok in H as (dst & [Ht _]%build_routes_ok & _). split.
    + by apply build_flat_ok; exists client.
    + intros k m Hk. by apply Hd in Hk as [? _].
    + intros k m Hk. by apply Ht in Hk as [? _].
    + intros k m p g Hk. apply Hd in Hk as [_ Hb]. by apply build_table_ok.
    + intros k m Hk. apply Ht in Hk as [_ Hb]. by apply build_flat_ok.
  - intros [Bc Bd Bt Bp Bi]. apply build_flat_ok in Bc as (client & Hc).
    destruct (build_routes_succeeds (fun m => build_table (hash_iter bytes m)) (Config.client_domain_routes c)) as (dom & Hd).
    { intros k m Hk. split; [by eapply Bd|]. apply build_table_ok. intros p g. by eapply Bp. }
    destruct (build_routes_succeeds (build Ok) (Config.client_dst_ip_routes c)) as (dst & Ht).
    { intros k m Hk. split; [by eapply Bt|]. apply build_flat_ok. by eapply Bi. }
    eexists. rewrite Hc. cbn [res_bind]. rewrite Hd. cbn [res_bind]. by rewrite Ht.
Qed.
End BuildLemmas.
End Routes.

(** * An instance *)

(** Networks as an address and a prefix length, for the examples. *)
Definition cut (w : Z) (n : Z * Z) : Z := w - Z.max 0 (Z.min w n.2).
Definition pair_net (w : Z) : NetOps w := {|
  Net := Z * Z;
  prefix_len n := Z.max 0 (Z.min w n.2);
  network n := Z.shiftl (Z.shiftr n.1 (cut w n)) (cut w n);
  net_contains n ip := Z.shiftr ip (cut w n) =? Z.shiftr n.1 (cut w n);
|}.

Lemma shiftr_shiftl_cancel z k : 0 <= k -> Z.shiftr (Z.shiftl z k) k = z.
Proof. intros. rewrite Z.shiftr_shiftl_l, Z.sub_diag by lia. apply Z.shiftl_0_r. Qed.

Lemma pair_net_laws w : 0 <= w -> NetLaws w (ops := pair_net w).
Proof.
  intros Hw. assert (forall n, 0 <= cut w n) as Hc by (intros [? ?]; unfold cut; cbn; lia).
  split; cbn -[Z.shiftl Z.shiftr].
  - lia.
  - intros n. fold (cut w n). by rewrite shiftr_shiftl_cancel.
  - intros n ip. fold (cut w n). by rewrite shiftr_shiftl_cancel, Z.eqb_eq.
Qed.

Definition net4 (a b c d len : Z) : IpNet (ops4 := pair_net 32) (ops6 := pair_net 128) :=
  NetV4 (ops4 := pair_net 32) (from_be_bytes (map byte_of_Z [a; b; c; d]), len).
Definition example_nets (s : bytes) : option (IpNet (ops4 := pair_net 32) (ops6 := pair_net 128)) :=
  if bool_decide (s = bs "10.0.0.0/8") then Some (net4 10 0 0 0 8)
  else if bool_decide (s = bs "10.1.0.0/16") then Some (net4 10 1 0 0 16) else None.
Definition example_routes : gmap bytes bytes :=
  <[bs "10.0.0.0/8" := bs "wide"]> (<[bs "10.1.0.0/16" := bs "narrow"]> ∅).
Definition example_config : Config.Config := routed_config [] false false example_routes ∅ ∅.
Definition example_build (c : Config.Config) : route_res (RouteTables (ops4 := pair_net 32) (ops6 := pair_net 128)) :=
  build_tables (ops4 := pair_net 32) (ops6 := pair_net 128) example_nets (fun _ => None)
    (fun _ => net4 0 0 0 0 0) (fun V m => map_to_list m) c.

Lemma example_tables_agree :
  tables_agree (ops4 := pair_net 32) (ops6 := pair_net 128) example_nets (fun _ => None) (fun _ => net4 0 0 0 0 0) example_config.
Proof.
  split; cbn; try (by intros ? ? ?%lookup_empty_Some); try (by intros ? ? ? ? (? & ?%lookup_empty_Some & _)).
  intros n v n' v' (k & Hk & Hn) (k' & Hk' & Hn'). unfold example_routes in *.
  rewrite !lookup_insert_Some, lookup_empty in Hk, Hk'.
  destruct Hk as [[<- <-]|[_ [[<- <-]|[_ ?]]]]; [..|done]; destruct Hk' as [[<- <-]|[_ [[<- <-]|[_ ?]]]]; try done;
    vm_compute in Hn, Hn'; injection Hn as <-; injection Hn' as <-; intros [H _]; by vm_compute in H.
Qed.

Example upstream_group_exact_witness :
  match example_build example_config with
  | Ok rt =>
      lookup_upstream_group rt (V4 (from_be_bytes (map byte_of_Z [10; 1; 2; 3]))) (V4 8) None = bs "narrow" <->
      group_answer (ops4 := pair_net 32) (ops6 := pair_net 128) example_nets (fun _ => None) (fun _ => net4 0 0 0 0 0)
        example_config (V4 (from_be_bytes (map byte_of_Z [10; 1; 2; 3]))) (V4 8) None (bs "narrow")
  | _ => False
  end /\ match example_build example_config with
  | Ok rt => lookup_upstream_group rt (V4 (from_be_bytes (map byte_of_Z [10; 1; 2; 3]))) (V4 8) None = bs "narrow"
  | _ => False end.
Proof.
  split; [|by vm_compute].
  destruct (example_build example_config) as [rt|e| |] eqn:E; [|vm_compute in E; discriminate..].
  exact (upstream_group_exact (ops4 := pair_net 32) (ops6 := pair_net 128) example_nets (fun _ => None)
    (fun _ => net4 0 0 0 0 0) (fun V m => map_to_list m) (fun V m => reflexivity _)
    (NetLaws0 := pair_net_laws 32 ltac:(lia)) (NetLaws1 := pair_net_laws 128 ltac:(lia)) example_config rt _ _ _ _ example_tables_agree E).
Defined.

Example route_tables_buildable_witness :
  returns (example_build example_config) /\
  ((exists rt, example_build example_config = Ok rt) <->
   buildable (ops4 := pair_net 32) (ops6 := pair_net 128) example_nets (fun _ => None) (fun _ => net4 0 0 0 0 0) example_config).
Proof.
  exact (route_tables_buildable (ops4 := pair_net 32) (ops6 := pair_net 128) example_nets (fun _ => None)
    (fun _ => net4 0 0 0 0 0) (fun V m => map_to_list m) (fun V m => reflexivity _) example_config).
Defined.
