(* ===== verification/Rules.v ===== *)
(** Address rules: the address lists and their tries ([src/src/util.rs],
    [src/src/state.rs]), local addresses, and the country of an address. *)

From Stdlib Require Import Strings.Byte Strings.String.
From S2P Require Import Prelude Bytes Ordered Domains Routes Config Cli.

Module RulesError.
Inductive RulesError :=
  | ReadFile
  | EmptyEntry
  | InvalidNet (s : bytes)
  | HostNet (s : bytes)
  | TriePrefix.
End RulesError.
Abbreviation rules_res := (res RulesError.RulesError).

(** * Address lists *)

(** [str::lines]: split at line feeds, without a final empty piece and without
    the carriage returns before them. *)
Definition strip_cr (line : bytes) : bytes :=
  match rev line with
  | b :: r => if Byte.eqb b "013" then rev r else line
  | [] => []
  end.
Fixpoint line_pieces (pieces : list bytes) : list bytes :=
  match pieces with
  | [] => []
  | [last] => if bool_decide (last = []) then [] else [last]
  | p :: pieces => strip_cr p :: line_pieces pieces
  end.
Definition lines (s : bytes) : list bytes := line_pieces (split_byte "010"%byte s).

(** [content] is what [read_to_string] gives for the configured path. *)
Definition load_ip_list_from_file (base : list bytes) (path : option bytes)
    (read_to_string : bytes -> option bytes) : rules_res (list bytes) :=
  match path with
  | None => Ok base
  | Some p =>
      let? content := ok_or RulesError.ReadFile (read_to_string p) in
      Ok (base ++ map trim (filter (fun l => trim l <> []) (lines content)))
  end.

(** * Local addresses *)

(** [is_loopback], [is_link_local], [is_broadcast], [is_unspecified] of
    [Ipv4Addr]; [is_loopback], [is_unspecified], [is_unicast_link_local] of
    [Ipv6Addr], on the address as a number. *)
Definition is_must_direct_local_ipv4 (ip : Z) : bool :=
  (Z.shiftr ip 24 =? 127) || (Z.shiftr ip 16 =? 256 * 169 + 254) || (ip =? U32_MAX) || (ip =? 0).
Definition is_must_direct_local_ipv6 (ip : Z) : bool :=
  (ip =? 1) || (ip =? 0) || (Z.land (Z.shiftr ip 112) 0xffc0 =? 0xfe80).
Definition is_must_direct_local_ip (ip : IpAddr) : bool :=
  match ip with V4 ip => is_must_direct_local_ipv4 ip | V6 ip => is_must_direct_local_ipv6 ip end.

(** * Tries *)

(** The prefix sets of the iptrie crate over [w]-bit addresses: a prefix is an
    address and a length, and [lookup] finds the longest prefix over an
    address. *)
Class TrieOps (w : Z) := {
  Prefix : Type;
  prefix_new : Z -> Z -> option Prefix;
  prefix_addr : Prefix -> Z;
  prefix_bits : Prefix -> Z;
  Trie : Type;
  trie_of : list Prefix -> Trie;
  trie_lookup_bits : Trie -> Z -> Z;
}.
Arguments Prefix w {_}.
Arguments Trie w {_}.

Definition prefix_covers {w} {ops : TrieOps w} (p : Prefix w) (ip : Z) : Prop :=
  Z.shiftr ip (w - prefix_bits p) = Z.shiftr (prefix_addr p) (w - prefix_bits p).

(** What the crate documents: a prefix is made of a masked address; the
    top-level prefix of length 0 is always in the set, so a lookup always finds
    something. *)
Class TrieLaws (w : Z) {ops : TrieOps w} : Prop := {
  prefix_new_masked a len :
    0 <= len <= w -> a = Z.shiftl (Z.shiftr a (w - len)) (w - len) -> is_Some (prefix_new a len);
  prefix_new_ok a len p : prefix_new a len = Some p -> prefix_addr p = a /\ prefix_bits p = len;
  prefix_bits_range (p : Prefix w) : 0 <= prefix_bits p <= w;
  lookup_longest ps ip p : p ∈ ps -> prefix_covers p ip -> prefix_bits p <= trie_lookup_bits (trie_of ps) ip;
  lookup_found ps ip :
    trie_lookup_bits (trie_of ps) ip = 0 \/
    exists p, p ∈ ps /\ prefix_covers p ip /\ prefix_bits p = trie_lookup_bits (trie_of ps) ip;
}.

Definition trie_contains {w} {ops : TrieOps w} (trie : Trie w) (ip : Z) : bool :=
  negb (trie_lookup_bits trie ip =? 0).

Section Rules.
Context `{ops4 : !NetOps 32} `{ops6 : !NetOps 128} `{tries4 : !TrieOps 32} `{tries6 : !TrieOps 128}.
(** [str::parse::<IpNet>], [str::parse::<IpAddr>], [IpNet::new]. *)
Context (parse_ip_net : bytes -> option IpNet) (parse_ip_addr : bytes -> option IpAddr)
  (ip_net_new : IpAddr -> Z -> option IpNet).

Definition parse_ip_net_entry (raw : bytes) : rules_res IpNet :=
  let s := trim raw in
  ensure negb (bool_decide (s = [])) else RulesError.EmptyEntry in
  match parse_ip_net s with
  | Some net => Ok net
  | None =>
      let? ip := ok_or (RulesError.InvalidNet raw) (parse_ip_addr s) in
      let prefix_len := match ip with V4 _ => 32 | V6 _ => 128 end in
      ok_or (RulesError.HostNet raw) (ip_net_new ip prefix_len)
  end.
Fixpoint parse_ip_net_list (l : list bytes) : rules_res (list IpNet) :=
  match l with
  | [] => Ok []
  | raw :: l => let? net := parse_ip_net_entry raw in let? nets := parse_ip_net_list l in Ok (net :: nets)
  end.

Fixpoint split_nets (v4 : list (Prefix 32)) (v6 : list (Prefix 128)) (nets : list IpNet)
    : rules_res (list (Prefix 32) * list (Prefix 128)) :=
  match nets with
  | [] => Ok (v4, v6)
  | NetV4 n :: nets =>
      let? p := ok_or RulesError.TriePrefix (prefix_new (network n) (prefix_len n)) in
      split_nets (v4 ++ [p]) v6 nets
  | NetV6 n :: nets =>
      let? p := ok_or RulesError.TriePrefix (prefix_new (network n) (prefix_len n)) in
      split_nets v4 (v6 ++ [p]) nets
  end.
Definition build_ip_tries (nets : list IpNet) : rules_res (Trie 32 * Trie 128) :=
  let? (v4, v6) := split_nets [] [] nets in
  Ok (trie_of v4, trie_of v6).

(** [AppState::is_direct_country_ip]: [country_of] is the reader's [lookup] and
    the decoding of the record's [country.iso_code]. *)
Definition is_direct_country_ip (mmdb : option (IpAddr -> option bytes)) (c : Config.Config) (ip : IpAddr) : bool :=
  match mmdb with
  | None => false
  | Some country_of =>
      match country_of ip with
      | Some code => existsb (fun c => eq_ignore_ascii_case c code) (Config.direct_countries c)
      | None => false
      end
  end.

(** * Lemmas *)

Lemma trie_contains_spec {w} {ops : TrieOps w} {laws : TrieLaws w} ps ip :
  trie_contains (trie_of ps) ip = true <-> exists p, p ∈ ps /\ prefix_covers p ip /\ prefix_bits p <> 0.
Proof.
  unfold trie_contains. rewrite negb_true_iff, Z.eqb_neq. split.
  - intros Hne. destruct (lookup_found ps ip) as [|(p & Hp & Hc & E)]; [done|]. exists p. by rewrite E.
  - intros (p & Hp & Hc & Hb). pose proof (lookup_longest ps ip p Hp Hc). pose proof (prefix_bits_range p). lia.
Qed.

(** The prefix made of a network. *)
Definition prefix_of {w} {nops : NetOps w} {ops : TrieOps w} (n : Net w) (p : Prefix w) : Prop :=
  prefix_addr p = network n /\ prefix_bits p = prefix_len n.

Lemma prefix_of_net {w} {nops : NetOps w} {nlaws : NetLaws w} {ops : TrieOps w} {laws : TrieLaws w} (n : Net w) :
  exists p, prefix_new (network n) (prefix_len n) = Some p /\ prefix_of n p /\
    forall ip, prefix_covers p ip <-> net_contains n ip = true.
Proof.
  destruct (prefix_new_masked (network n) (prefix_len n)) as [p E]; [apply prefix_len_range|apply network_masked|].
  exists p. split; [done|]. apply prefix_new_ok in E as [Ea Eb]. split; [done|].
  intros ip. unfold prefix_covers. by rewrite Ea, Eb, contains_spec.
Qed.

(** Whether a network of the list is over the address, and is not everything. *)
Definition nets_cover (nets : list IpNet) (ip : IpAddr) : bool :=
  existsb (fun net => net_has net ip && negb (net_len net =? 0)) nets.

Lemma split_nets_ok `{!NetLaws 32} `{!NetLaws 128} `{!TrieLaws 32} `{!TrieLaws 128} nets v4 v6 :
  exists v4' v6', split_nets v4 v6 nets = Ok (v4 ++ v4', v6 ++ v6') /\
    (forall ip, trie_contains (trie_of v4') ip = nets_cover nets (V4 ip)) /\
    (forall ip, trie_contains (trie_of v6') ip = nets_cover nets (V6 ip)).
Proof.
  assert (forall {w} {ops : TrieOps w} {laws : TrieLaws w} ip, trie_contains (trie_of []) ip = false) as Hnil.
  { intros w ops laws ip. apply not_true_iff_false. by intros (p & H%not_elem_of_nil & _)%trie_contains_spec. }
  assert (forall {w} {nops : NetOps w} {ops : TrieOps w} {laws : TrieLaws w} (n : Net w) p ps ip, prefix_of n p ->
    (prefix_covers p ip <-> net_contains n ip = true) ->
    trie_contains (trie_of (p :: ps)) ip = net_contains n ip && negb (prefix_len n =? 0) || trie_contains (trie_of ps) ip) as Hcons.
  { intros w nops ops laws n p ps ip [_ Hb] Hc. apply eq_true_iff_eq.
    rewrite orb_true_iff, andb_true_iff, negb_true_iff, Z.eqb_neq, !trie_contains_spec, exists_cons, Hc, Hb. done. }
  revert v4 v6; induction nets as [|[n|n] nets IH]; intros v4 v6; cbn [split_nets].
  - exists [], []. rewrite !app_nil_r. split; [done|]. split; intros ip; by rewrite Hnil.
  - destruct (prefix_of_net n) as (p & -> & Hp & Hc). cbn [ok_or res_bind].
    destruct (IH (v4 ++ [p]) v6) as (v4' & v6' & -> & H4 & H6). exists (p :: v4'), v6'.
    split; [by rewrite <- app_assoc|]. split; intros ip; cbn; [by rewrite (Hcons _ _ _ _ n), H4|apply H6].
  - destruct (prefix_of_net n) as (p & -> & Hp & Hc). cbn [ok_or res_bind].
    destruct (IH v4 (v6 ++ [p])) as (v4' & v6' & -> & H4 & H6). exists v4', (p :: v6').
    split; [by rewrite <- app_assoc|]. split; intros ip; cbn; [apply H4|by rewrite (Hcons _ _ _ _ n), H6].
Qed.

(** The tries of a list of networks hold exactly what the list covers. *)
Lemma build_ip_tries_ok `{!NetLaws 32} `{!NetLaws 128} `{!TrieLaws 32} `{!TrieLaws 128} nets :
  exists t4 t6, build_ip_tries nets = Ok (t4, t6) /\
    (forall ip, trie_contains t4 ip = nets_cover nets (V4 ip)) /\
    (forall ip, trie_contains t6 ip = nets_cover nets (V6 ip)).
Proof.
  destruct (split_nets_ok nets [] []) as (v4 & v6 & E & H4 & H6). exists (trie_of v4), (trie_of v6).
  unfold build_ip_tries. rewrite E. done.
Qed.

(** C40: The tries built from a list of networks hold an address exactly when some network of the list other than the
    whole address space is over it; building them from networks never fails. *)
Theorem force_list_exact `{!NetLaws 32} `{!NetLaws 128} `{!TrieLaws 32} `{!TrieLaws 128} nets ip :
  match build_ip_tries nets with
  | Ok (t4, t6) =>
      match ip with V4 ip => trie_contains t4 ip | V6 ip => trie_contains t6 ip end =
      existsb (fun net => net_has net ip && negb (net_len net =? 0)) nets
  | _ => False
  end.
Proof. destruct (build_ip_tries_ok nets) as (t4 & t6 & -> & H4 & H6). destruct ip; [apply H4|apply H6]. Qed.
End Rules.

(** * An instance *)

(** Prefix sets as lists, for the examples. *)
Definition pair_covers (w ip : Z) (p : Z * Z) : bool := Z.shiftr ip (cut w p) =? Z.shiftr p.1 (cut w p).
Definition pair_trie (w : Z) : TrieOps w := {|
  Prefix := Z * Z;
  prefix_new a len := if (0 <=? len) && (len <=? w) then Some (a, len) else None;
  prefix_addr p := p.1;
  prefix_bits p := Z.max 0 (Z.min w p.2);
  Trie := list (Z * Z);
  trie_of ps := ps;
  trie_lookup_bits ps ip := foldr Z.max 0 (map (fun p => Z.max 0 (Z.min w p.2)) (List.filter (pair_covers w ip) ps));
|}.

Lemma max_of_le l x : x ∈ l -> x <= foldr Z.max 0 l.
Proof.
  induction l as [|y l IH]; [by intros H%not_elem_of_nil|]. intros [->|H]%elem_of_cons; cbn; [lia|].
  specialize (IH H). lia.
Qed.
Lemma max_of_in l : foldr Z.max 0 l = 0 \/ foldr Z.max 0 l ∈ l.
Proof.
  induction l as [|y l IH]; [by left|]. cbn [foldr]. destruct (Z.max_spec y (foldr Z.max 0 l)) as [[_ ->]|[_ ->]].
  - destruct IH; [by left|right; by right].
  - right. by left.
Qed.

Lemma pair_trie_laws w : 0 <= w -> TrieLaws w (ops := pair_trie w).
Proof.
  intros Hw.
  assert (forall ps ip p, p ∈ List.filter (pair_covers w ip) ps <-> p ∈ ps /\ pair_covers w ip p = true) as Hf.
  { intros ps ip p. by rewrite !list_elem_of_In, filter_In. }
  assert (forall ip p, prefix_covers (ops := pair_trie w) p ip <-> pair_covers w ip p = true) as Hc.
  { intros ip p. unfold prefix_covers, pair_covers. by rewrite Z.eqb_eq. }
  split.
  - intros a len Hlen _. cbn. rewrite (proj2 (Z.leb_le _ _)), (proj2 (Z.leb_le _ _)) by lia. by eexists.
  - intros a len p. cbn. destruct (Z.leb_spec 0 len), (Z.leb_spec len w); cbn; intros [= <-]. cbn. lia.
  - intros p. cbn. lia.
  - intros ps ip p Hp Hcov%Hc. cbn. apply max_of_le, list_elem_of_fmap. exists p. split; [done|]. by apply Hf.
  - intros ps ip. cbn. destruct (max_of_in (map (fun p => Z.max 0 (Z.min w p.2)) (List.filter (pair_covers w ip) ps))) as [|Hin];
      [by left|right]. apply list_elem_of_fmap in Hin as (p & E & [Hp Hcov]%Hf). exists p. split; [done|].
    split; [by apply Hc|]. symmetry. exact E.
Qed.


(** The whole IPv4 space on a force list matches nothing. *)
Example force_list_exact_witness :
  match build_ip_tries (ops4 := pair_net 32) (ops6 := pair_net 128) (tries4 := pair_trie 32) (tries6 := pair_trie 128)
    [net4 0 0 0 0 0] with
  | Ok (t4, t6) =>
      trie_contains (ops := pair_trie 32) t4 8 =
      existsb (fun net : IpNet (ops4 := pair_net 32) (ops6 := pair_net 128) => net_has net (V4 8) && negb (net_len net =? 0))
        [net4 0 0 0 0 0] /\ trie_contains (ops := pair_trie 32) t4 8 = false
  | _ => False
  end.
Proof.
  split; [|by vm_compute].
  exact (force_list_exact (ops4 := pair_net 32) (ops6 := pair_net 128) (tries4 := pair_trie 32) (tries6 := pair_trie 128)
    (NetLaws0 := pair_net_laws 32 ltac:(lia)) (NetLaws1 := pair_net_laws 128 ltac:(lia))
    (TrieLaws0 := pair_trie_laws 32 ltac:(lia)) (TrieLaws1 := pair_trie_laws 128 ltac:(lia))
    [net4 0 0 0 0 0] (V4 8)).
Defined.
