(* ===== verification/State.v ===== *)
(** The routing state, [AppState] in [src/src/state.rs]: the decision to go
    direct, its cache, the cache of chosen upstreams, and the construction of
    the state from the configuration.

    An operation reads the clock once: [now] is its [Instant], in nanoseconds.
    The fields of tasks, sockets and listeners are not modelled. *)

From Stdlib Require Import Strings.Byte Strings.String.
From S2P Require Import Prelude Bytes Ordered Domains Routes Rules Config Cli.

Section State.
Context `{ops4 : !NetOps 32} `{ops6 : !NetOps 128} `{tries4 : !TrieOps 32} `{tries6 : !TrieOps 128}.
(** [Arc<Upstream>] *)
Context {Upstream : Type}.

Abbreviation DirectCache := (gmap (IpAddr * option bytes) (bool * Z)).
Abbreviation UpstreamCache := (gmap (IpAddr * IpAddr * option bytes) (Upstream * Z)).

Record AppState := {
  mmdb : option (IpAddr -> option bytes);
  config : Config.Config;
  force_direct_v4 : Trie 32;
  force_direct_v6 : Trie 128;
  force_socks5_v4 : Trie 32;
  force_socks5_v6 : Trie 128;
  force_direct_domains : DomainSet;
  force_socks5_domains : DomainSet;
  proxy_mode : Z;
  tables : RouteTables;
  direct_cache : DirectCache;
  route_cache_ttl : Z;
  upstream_cache : UpstreamCache;
  compiled_geosite : option (gmap bytes CompiledGeositeTag);
}.
#[local] Arguments Build_AppState : clear implicits.

Definition set_direct_cache (st : AppState) (c : DirectCache) : AppState := {|
  mmdb := mmdb st; config := config st;
  force_direct_v4 := force_direct_v4 st; force_direct_v6 := force_direct_v6 st;
  force_socks5_v4 := force_socks5_v4 st; force_socks5_v6 := force_socks5_v6 st;
  force_direct_domains := force_direct_domains st; force_socks5_domains := force_socks5_domains st;
  proxy_mode := proxy_mode st; tables := tables st; direct_cache := c;
  route_cache_ttl := route_cache_ttl st; upstream_cache := upstream_cache st; compiled_geosite := compiled_geosite st |}.
Definition set_upstream_cache (st : AppState) (c : UpstreamCache) : AppState := {|
  mmdb := mmdb st; config := config st;
  force_direct_v4 := force_direct_v4 st; force_direct_v6 := force_direct_v6 st;
  force_socks5_v4 := force_socks5_v4 st; force_socks5_v6 := force_socks5_v6 st;
  force_direct_domains := force_direct_domains st; force_socks5_domains := force_socks5_domains st;
  proxy_mode := proxy_mode st; tables := tables st; direct_cache := direct_cache st;
  route_cache_ttl := route_cache_ttl st; upstream_cache := c; compiled_geosite := compiled_geosite st |}.

Definition normalize_domain (domain : option bytes) : option bytes := option_map canonical_domain domain.

(** [entry.1.elapsed() < ttl]; [elapsed] saturates at zero. *)
Definition fresh (now ttl at_ : Z) : bool := sat_sub now at_ <? ttl.

(** [if len >= max { retain(fresh) }; insert] on a cache. *)
Definition cache_insert `{Countable K} {V} (max now ttl : Z) (c : gmap K (V * Z)) (k : K) (v : V) : gmap K (V * Z) :=
  let c := if max <=? Z.of_nat (size c) then filter (fun e => fresh now ttl e.2.2 = true) c else c in
  <[k := (v, now)]> c.

(** * Going direct *)

Definition need_geosite_sniff (st : AppState) : bool :=
  if negb (domain_set_is_empty (force_direct_domains st)) || negb (domain_set_is_empty (force_socks5_domains st))
  then true
  else if is_some (compiled_geosite st)
       && (negb (bool_decide (Config.proxy_geosite_tags (config st) = []))
           || negb (bool_decide (Config.direct_geosite_tags (config st) = [])))
       && match proxy_mode_from_u8 (proxy_mode st) with Smart => true | _ => false end
  then true else false.

(** The rules on the domain, in order; [None] when no rule decides. *)
Definition domain_rules (st : AppState) (domain : option bytes) : option bool :=
  match domain with
  | None => None
  | Some domain =>
      let canonical := canonical_domain domain in
      if bool_decide (matches_canonical (force_socks5_domains st) canonical = Some true) then Some false
      else if bool_decide (matches_canonical (force_direct_domains st) canonical = Some true) then Some true
      else match compiled_geosite st with
           | None => None
           | Some compiled =>
               if existsb (fun tag => compiled_geosite_contains compiled tag domain)
                    (Config.proxy_geosite_tags (config st)) then Some false
               else if existsb (fun tag => compiled_geosite_contains compiled tag domain)
                         (Config.direct_geosite_tags (config st)) then Some true
               else None
           end
  end.

Definition ip_rules (st : AppState) (ip : IpAddr) : bool :=
  match ip with
  | V4 ipv4 =>
      if trie_contains (force_socks5_v4 st) ipv4 then false
      else if trie_contains (force_direct_v4 st) ipv4 then true
      else (Config.direct_local_ip (config st) && is_must_direct_local_ip ip)
           || is_direct_country_ip (mmdb st) (config st) ip
  | V6 ipv6 =>
      if trie_contains (force_socks5_v6 st) ipv6 then false
      else if trie_contains (force_direct_v6 st) ipv6 then true
      else (Config.direct_local_ip (config st) && is_must_direct_local_ip ip)
           || is_direct_country_ip (mmdb st) (config st) ip
  end.

Definition direct_cache_insert_with_key (now : Z) (st : AppState) (ip : IpAddr) (normalized : option bytes)
    (direct : bool) : AppState :=
  set_direct_cache st
    (cache_insert (Config.route_cache_max (config st)) now (route_cache_ttl st) (direct_cache st) (ip, normalized) direct).

Definition should_direct (now : Z) (st : AppState) (ip : IpAddr) (domain : option bytes) : bool * AppState :=
  match proxy_mode_from_u8 (proxy_mode st) with
  | Global => (false, st)
  | Bypass => (true, st)
  | Smart =>
      let cache_active := negb (route_cache_ttl st =? 0) in
      let normalized := if cache_active then normalize_domain domain else None in
      match domain_rules st domain with
      | Some direct => (direct, st)
      | None =>
          let key := (ip, normalized) in
          let cached := if cache_active then direct_cache st !! key else None in
          match cached with
          | Some (direct, at_) =>
              if fresh now (route_cache_ttl st) at_ then (direct, st)
              else
                let st := set_direct_cache st (delete key (direct_cache st)) in
                let result := ip_rules st ip in
                (result, direct_cache_insert_with_key now st ip normalized result)
          | None =>
              let result := ip_rules st ip in
              (result, if cache_active then direct_cache_insert_with_key now st ip normalized result else st)
          end
      end
  end.

(** * The cache of upstreams *)

Definition get_cached_upstream (now : Z) (st : AppState) (client_ip target_ip : IpAddr) (domain : option bytes)
    : option Upstream * AppState :=
  if route_cache_ttl st =? 0 then (None, st)
  else
    let key := (client_ip, target_ip, normalize_domain domain) in
    match upstream_cache st !! key with
    | Some (up, at_) =>
        if fresh now (route_cache_ttl st) at_ then (Some up, st)
        else (None, set_upstream_cache st (delete key (upstream_cache st)))
    | None => (None, st)
    end.

Definition cache_upstream (now : Z) (st : AppState) (client_ip target_ip : IpAddr) (domain : option bytes)
    (up : Upstream) : AppState :=
  if route_cache_ttl st =? 0 then st
  else set_upstream_cache st
    (cache_insert (Config.route_cache_max (config st)) now (route_cache_ttl st) (upstream_cache st)
      (client_ip, target_ip, normalize_domain domain) up).

Definition remove_cached_upstream (st : AppState) (client_ip target_ip : IpAddr) (domain : option bytes) : AppState :=
  set_upstream_cache st (delete (client_ip, target_ip, normalize_domain domain) (upstream_cache st)).

Definition socks5_credentials (c : Config.Config) : option (bytes * bytes) :=
  match Config.socks5_user c, Config.socks5_password c with
  | Some u, Some p => Some (u, p)
  | _, _ => None
  end.

(** * Construction *)

Inductive BuildError :=
  | MmdbFile
  | GeositeFile
  | AddressRules (e : RulesError.RulesError)
  | UpstreamIds (e : ConfigError.ConfigError)
  | ClientRoutes (e : RouteError.RouteError).

Section Build.
(** The files: text files, MMDB readers (maxminddb) and decoded geosite lists
    (prost), by path. *)
Context (read_to_string : bytes -> option bytes) (read_mmdb : bytes -> option (IpAddr -> option bytes))
  (read_geosite : bytes -> option (list (bytes * list GeoDomain))).
(** [str::parse] of networks and addresses, [IpNet::new], [IpNet::from]. *)
Context (parse_ip_net : bytes -> option IpNet) (parse_ip_addr : bytes -> option IpAddr)
  (ip_net_new : IpAddr -> Z -> option IpNet) (net_of_addr : IpAddr -> IpNet).
(** [str::to_lowercase], and the order in which a [HashMap] is traversed. *)
Context (to_lowercase : bytes -> bytes) (hash_iter : forall V, gmap bytes V -> list (bytes * V)).

Definition load_mmdb (c : Config.Config) : res BuildError (option (IpAddr -> option bytes)) :=
  match Config.mmdb_path c with
  | None => Ok None
  | Some path =>
      if bool_decide (path = []) then Ok None
      else let? reader := ok_or MmdbFile (read_mmdb path) in Ok (Some reader)
  end.

(** The entries of the configured tags, by lower-case tag; a later entry of a
    tag replaces an earlier one. *)
Definition geosite_index (c : Config.Config) (entries : list (bytes * list GeoDomain)) : gmap bytes (list GeoDomain) :=
  let needed_lower := map to_lowercase (Config.proxy_geosite_tags c ++ Config.direct_geosite_tags c) in
  foldl (fun index e => <[to_lowercase e.1 := e.2]> index) ∅
    (filter (fun e => to_lowercase e.1 ∈ needed_lower) entries).
Definition load_geosite (c : Config.Config) : res BuildError (option (gmap bytes (list GeoDomain))) :=
  match Config.geosite_path c with
  | None => Ok None
  | Some path =>
      let? entries := ok_or GeositeFile (read_geosite path) in
      Ok (Some (geosite_index c entries))
  end.

Definition load_nets (base : list bytes) (path : option bytes) : rules_res (list IpNet) :=
  let? l := load_ip_list_from_file base path read_to_string in
  parse_ip_net_list parse_ip_net parse_ip_addr ip_net_new l.

(** [AppState::build] *)
Definition app_state_build (c : Config.Config) : res BuildError AppState :=
  let? mmdb := load_mmdb c in
  let? direct_list := res_map_err AddressRules
    (load_ip_list_from_file (Config.force_direct_ips c) (Config.force_direct_ips_file c) read_to_string) in
  let? socks5_list := res_map_err AddressRules
    (load_ip_list_from_file (Config.force_socks5_ips c) (Config.force_socks5_ips_file c) read_to_string) in
  let? direct_nets := res_map_err AddressRules (parse_ip_net_list parse_ip_net parse_ip_addr ip_net_new direct_list) in
  let? socks5_nets := res_map_err AddressRules (parse_ip_net_list parse_ip_net parse_ip_addr ip_net_new socks5_list) in
  let? (force_direct_v4, force_direct_v6) := res_map_err AddressRules (build_ip_tries direct_nets) in
  let? (force_socks5_v4, force_socks5_v6) := res_map_err AddressRules (build_ip_tries socks5_nets) in
  let? _ := res_map_err UpstreamIds (check_upstream_ids c) in
  let? geosite := load_geosite c in
  let? tables := res_map_err ClientRoutes (build_tables parse_ip_net parse_ip_addr net_of_addr hash_iter c) in
  Ok {|
    mmdb := mmdb;
    config := c;
    force_direct_v4 := force_direct_v4;
    force_direct_v6 := force_direct_v6;
    force_socks5_v4 := force_socks5_v4;
    force_socks5_v6 := force_socks5_v6;
    force_direct_domains := domain_set_compile (Config.force_direct_domains c);
    force_socks5_domains := domain_set_compile (Config.force_socks5_domains c);
    proxy_mode := proxy_mode_as_u8 (Config.proxy_mode c);
    tables := tables;
    direct_cache := ∅;
    route_cache_ttl := Config.route_cache_ttl_secs c * 1000000000;
    upstream_cache := ∅;
    compiled_geosite := option_map compile_geosite geosite;
  |}.
End Build.

(** * The cache of decisions *)

(** The decision without a cache. *)
Definition decide_direct (st : AppState) (ip : IpAddr) (domain : option bytes) : bool :=
  match proxy_mode_from_u8 (proxy_mode st) with
  | Global => false
  | Bypass => true
  | Smart => match domain_rules st domain with Some direct => direct | None => ip_rules st ip end
  end.

(** Cached decisions are those of the address rules. *)
Definition coherent (st : AppState) : Prop :=
  map_Forall (fun (k : IpAddr * option bytes) (e : bool * Z) => e.1 = ip_rules st k.1) (direct_cache st).

Lemma cache_insert_lookup `{Countable K} {V} max now ttl (c : gmap K (V * Z)) k v k' :
  cache_insert max now ttl c k v !! k' =
  if decide (k = k') then Some (v, now)
  else match c !! k' with
       | Some (u, t) => if (max <=? Z.of_nat (size c)) && negb (fresh now ttl t) then None else Some (u, t)
       | None => None
       end.
Proof.
  unfold cache_insert. destruct (decide (k = k')) as [->|Hne]; [by rewrite lookup_insert_eq|].
  rewrite lookup_insert_ne by done. destruct (max <=? _); cbn [andb]; [|by destruct (c !! k') as [[]|]].
  destruct (c !! k') as [[u t]|] eqn:E.
  - destruct (fresh now ttl t) eqn:Ef; cbn [negb].
    + by apply map_lookup_filter_Some.
    + apply map_lookup_filter_None. right. intros x Hx. rewrite E in Hx. injection Hx as <-. cbn. congruence.
  - apply map_lookup_filter_None. by left.
Qed.

Lemma cache_insert_size `{Countable K} {V} max now ttl (c : gmap K (V * Z)) k v :
  Z.of_nat (size (cache_insert max now ttl c k v)) <=
  Z.max max (1 + Z.of_nat (size (filter (fun e : K * (V * Z) => fresh now ttl e.2.2 = true) c))).
Proof.
  unfold cache_insert. destruct (Z.leb_spec max (Z.of_nat (size c))).
  - rewrite map_size_insert. destruct (_ !! k); unfold id; lia.
  - rewrite map_size_insert. destruct (_ !! k); unfold id; lia.
Qed.

Lemma coherent_insert now st ip n : coherent st -> coherent (direct_cache_insert_with_key now st ip n (ip_rules st ip)).
Proof.
  intros Hc k [b t]. cbn [direct_cache direct_cache_insert_with_key set_direct_cache].
  rewrite cache_insert_lookup. destruct (decide _) as [<-|_]; [by intros [= <- <-]|].
  destruct (direct_cache st !! k) as [[u t']|] eqn:E; [|done]. destruct (_ && _); [done|]. intros [= <- <-].
  exact (Hc k _ E).
Qed.

Lemma coherent_delete st k : coherent st -> coherent (set_direct_cache st (delete k (direct_cache st))).
Proof.
  intros Hc k' e. cbn [direct_cache set_direct_cache]. intros [_ He]%lookup_delete_Some. exact (Hc k' e He).
Qed.

Lemma should_direct_decides now st ip domain :
  coherent st ->
  fst (should_direct now st ip domain) = decide_direct st ip domain /\
  coherent (snd (should_direct now st ip domain)) /\
  snd (should_direct now st ip domain) = set_direct_cache st (direct_cache (snd (should_direct now st ip domain))).
Proof.
  intros Hc. unfold should_direct, decide_direct.
  assert (st = set_direct_cache st (direct_cache st)) as Hst by (by destruct st).
  destruct (proxy_mode_from_u8 (proxy_mode st)); [|done|done].
  destruct (domain_rules st domain); [done|]. cbv zeta.
  set (n := if negb (route_cache_ttl st =? 0) then normalize_domain domain else None).
  destruct (route_cache_ttl st =? 0); cbn [negb] in *; [done|].
  destruct (direct_cache st !! (ip, n)) as [[direct t]|] eqn:E.
  - destruct (fresh now (route_cache_ttl st) t).
    + split; [exact (Hc _ _ E)|done].
    + split; [done|]. split; [|done].
      apply (coherent_insert now (set_direct_cache st (delete (ip, n) (direct_cache st))) ip n). by apply coherent_delete.
  - split; [done|]. split; [by apply coherent_insert|done].
Qed.

(** * Histories *)

(** [runtime.proxy_mode.store(m.as_u8())] *)
Definition store_proxy_mode (st : AppState) (m : ProxyMode) : AppState := {|
  mmdb := mmdb st; config := config st;
  force_direct_v4 := force_direct_v4 st; force_direct_v6 := force_direct_v6 st;
  force_socks5_v4 := force_socks5_v4 st; force_socks5_v6 := force_socks5_v6 st;
  force_direct_domains := force_direct_domains st; force_socks5_domains := force_socks5_domains st;
  proxy_mode := proxy_mode_as_u8 m; tables := tables st; direct_cache := direct_cache st;
  route_cache_ttl := route_cache_ttl st; upstream_cache := upstream_cache st; compiled_geosite := compiled_geosite st |}.

Inductive Op :=
  | ShouldDirect (ip : IpAddr) (domain : option bytes)
  | GetUpstream (client_ip target_ip : IpAddr) (domain : option bytes)
  | CacheUpstream (client_ip target_ip : IpAddr) (domain : option bytes) (up : Upstream)
  | RemoveUpstream (client_ip target_ip : IpAddr) (domain : option bytes)
  | StoreMode (m : ProxyMode).
Inductive Answer := Direct (b : bool) | Chosen (up : option Upstream) | Done.

Definition step (now : Z) (st : AppState) (op : Op) : Answer * AppState :=
  match op with
  | ShouldDirect ip domain => let '(b, st) := should_direct now st ip domain in (Direct b, st)
  | GetUpstream c t d => let '(up, st) := get_cached_upstream now st c t d in (Chosen up, st)
  | CacheUpstream c t d up => (Done, cache_upstream now st c t d up)
  | RemoveUpstream c t d => (Done, remove_cached_upstream st c t d)
  | StoreMode m => (Done, store_proxy_mode st m)
  end.
Fixpoint run (st : AppState) (ops : list (Z * Op)) : list Answer * AppState :=
  match ops with
  | [] => ([], st)
  | (now, op) :: ops =>
      let '(a, st) := step now st op in
      let '(answers, st) := run st ops in (a :: answers, st)
  end.

(** The abstract state: the mode, and every upstream ever cached and not
    removed, with the time of caching; nothing is evicted. *)
Record Ideal := { ideal_mode : Z; ideal_writes : UpstreamCache }.
Definition ideal_step (now : Z) (w : Ideal) (op : Op) : Ideal :=
  match op with
  | CacheUpstream c t d up =>
      {| ideal_mode := ideal_mode w; ideal_writes := <[(c, t, normalize_domain d) := (up, now)]> (ideal_writes w) |}
  | RemoveUpstream c t d =>
      {| ideal_mode := ideal_mode w; ideal_writes := delete (c, t, normalize_domain d) (ideal_writes w) |}
  | StoreMode m => {| ideal_mode := proxy_mode_as_u8 m; ideal_writes := ideal_writes w |}
  | ShouldDirect _ _ | GetUpstream _ _ _ => w
  end.

(** The decision of the rules in some mode. *)
Definition decide_in (st : AppState) (mode : Z) (ip : IpAddr) (domain : option bytes) : bool :=
  match proxy_mode_from_u8 mode with
  | Global => false
  | Bypass => true
  | Smart => match domain_rules st domain with Some direct => direct | None => ip_rules st ip end
  end.
Definition ideal_answer (st0 : AppState) (now : Z) (w : Ideal) (op : Op) : Answer :=
  match op with
  | ShouldDirect ip domain => Direct (decide_in st0 (ideal_mode w) ip domain)
  | GetUpstream c t d =>
      Chosen match ideal_writes w !! (c, t, normalize_domain d) with
             | Some (up, at_) => if fresh now (route_cache_ttl st0) at_ then Some up else None
             | None => None
             end
  | _ => Done
  end.
Fixpoint ideal_run (st0 : AppState) (w : Ideal) (ops : list (Z * Op)) : list Answer :=
  match ops with
  | [] => []
  | (now, op) :: ops => ideal_answer st0 now w op :: ideal_run st0 (ideal_step now w op) ops
  end.

(** What never changes in one generation of the state. *)
Definition same_rules (st0 st : AppState) : Prop :=
  route_cache_ttl st = route_cache_ttl st0 /\
  (forall ip, ip_rules st ip = ip_rules st0 ip) /\ (forall d, domain_rules st d = domain_rules st0 d).

Record simulates (st0 st : AppState) (w : Ideal) (now : Z) : Prop := {
  sim_rules : same_rules st0 st;
  sim_coherent : coherent st;
  sim_mode : proxy_mode st = ideal_mode w;
  sim_cached k e : upstream_cache st !! k = Some e -> route_cache_ttl st <> 0 -> ideal_writes w !! k = Some e;
  sim_fresh k up t now' : now <= now' -> ideal_writes w !! k = Some (up, t) ->
    fresh now' (route_cache_ttl st) t = true -> upstream_cache st !! k = Some (up, t);
}.

Lemma fresh_earlier now now' ttl t : now <= now' -> fresh now' ttl t = true -> fresh now ttl t = true.
Proof. unfold fresh, sat_sub. rewrite !Z.ltb_lt. lia. Qed.

Lemma fresh_zero now t : fresh now 0 t = false.
Proof. unfold fresh, sat_sub. apply Z.ltb_ge. lia. Qed.

Lemma simulates_later st0 st w now now' : now <= now' -> simulates st0 st w now -> simulates st0 st w now'.
Proof. intros Hle [? ? ? ? Hf]. split; try done. intros. eapply Hf; [|done..]. lia. Qed.

Lemma sim_set_direct st0 st w now c :
  simulates st0 st w now -> coherent (set_direct_cache st c) -> simulates st0 (set_direct_cache st c) w now.
Proof. intros [? ? ? ? ?] ?. by split. Qed.

(** A change of the upstream cache that follows one of the ideal state. *)
Lemma sim_set_upstream st0 st w now now' c writes :
  simulates st0 st w now ->
  (forall k e, c !! k = Some e -> route_cache_ttl st <> 0 -> writes !! k = Some e) ->
  (forall k up t now2, now' <= now2 -> writes !! k = Some (up, t) -> fresh now2 (route_cache_ttl st) t = true ->
     c !! k = Some (up, t)) ->
  simulates st0 (set_upstream_cache st c) {| ideal_mode := ideal_mode w; ideal_writes := writes |} now'.
Proof. intros [? ? ? ? ?] ? ?. by split. Qed.

Lemma get_simulates st0 st w now client_ip target_ip d :
  simulates st0 st w now ->
  Chosen (fst (get_cached_upstream now st client_ip target_ip d)) = ideal_answer st0 now w (GetUpstream client_ip target_ip d) /\
  simulates st0 (snd (get_cached_upstream now st client_ip target_ip d)) w now.
Proof.
  intros Hs. pose proof Hs as [[Ettl _] _ _ Hc Hf]. unfold get_cached_upstream. cbn [ideal_answer]. rewrite <- Ettl in *.
  set (k := (client_ip, target_ip, normalize_domain d)).
  destruct (Z.eqb_spec (route_cache_ttl st) 0) as [Ez|Ez].
  - split; [|done]. rewrite Ez. destruct (ideal_writes w !! k) as [[up t]|]; [|done]. by rewrite fresh_zero.
  - destruct (upstream_cache st !! k) as [[up t]|] eqn:E.
    + rewrite (Hc k _ E Ez). destruct (fresh now (route_cache_ttl st) t) eqn:Ef; [done|]. split; [done|].
      destruct w as [m writes]. apply (sim_set_upstream st0 st {| ideal_mode := m; ideal_writes := writes |} now); [done|..].
      * intros k' e [_ He]%lookup_delete_Some. by apply Hc.
      * intros k' up' t' now2 Hle Hw Hfr. rewrite lookup_delete_ne; [by eapply Hf|]. intros <-.
        pose proof (Hc k _ E Ez) as Hk. cbn [ideal_writes] in Hk. rewrite Hk in Hw. injection Hw as <- <-. apply (fresh_earlier now) in Hfr; [congruence|done].
    + split; [|done]. cbn [fst]. destruct (ideal_writes w !! k) as [[up t]|] eqn:Ew; [|done].
      destruct (fresh now (route_cache_ttl st) t) eqn:Ef; [|done]. rewrite (Hf k up t now) in E; [done|lia|done|done].
Qed.

Lemma step_simulates st0 st w now op :
  simulates st0 st w now ->
  fst (step now st op) = ideal_answer st0 now w op /\ simulates st0 (snd (step now st op)) (ideal_step now w op) now.
Proof.
  intros Hs. pose proof Hs as [Hr Hcoh Hm Hc Hf]. destruct op as [ip d|c t d|c t d up|c t d|m]; cbn [step].
  - destruct (should_direct_decides now st ip d Hcoh) as (Hd & Hcoh' & Hst).
    destruct (should_direct now st ip d) as [b st']; cbn [fst snd] in *. split.
    + cbn [ideal_answer]. f_equal. rewrite Hd. unfold decide_direct, decide_in. rewrite Hm.
      destruct Hr as (_ & Hip & Hdom). by rewrite Hdom, Hip.
    + cbn [ideal_step]. rewrite Hst in Hcoh' |- *. by apply sim_set_direct.
  - pose proof (get_simulates st0 st w now c t d Hs) as [Ha Hs'].
    by destruct (get_cached_upstream now st c t d) as [up st'].
  - split; [done|]. cbn [snd ideal_step]. unfold cache_upstream. set (k := (c, t, normalize_domain d)).
    destruct (Z.eqb_spec (route_cache_ttl st) 0) as [Ez|Ez].
    + split; cbn; try done. intros k' up' t' now' _ _. by rewrite Ez, fresh_zero.
    + apply (sim_set_upstream _ _ _ now); [done|..].
      * intros k' e. rewrite cache_insert_lookup, lookup_insert. destruct (decide _) as [<-|Hne]; [done|].
        destruct (upstream_cache st !! k') as [[u t']|] eqn:E; [|done]. destruct (_ && _); [done|].
        intros [= <-] _. by apply Hc.
      * intros k' up' t' now2 Hle. rewrite cache_insert_lookup, lookup_insert. destruct (decide _) as [<-|Hne]; [done|].
        intros Hw Hfr. rewrite (Hf k' up' t' now2 Hle Hw Hfr). rewrite (fresh_earlier now now2) by done.
        by rewrite andb_false_r.
  - split; [done|]. cbn [snd ideal_step]. apply (sim_set_upstream _ _ _ now); [done|..].
    + intros k' e [Hne He]%lookup_delete_Some ?. rewrite lookup_delete_ne by done. by apply Hc.
    + intros k' up' t' now2 Hle [Hne Hw]%lookup_delete_Some Hfr. rewrite lookup_delete_ne by done. by eapply Hf.
  - split; [done|]. by split.
Qed.

Lemma run_simulates st0 st w now ops :
  simulates st0 st w now -> Forall (fun e => now <= e.1) ops ->
  (forall i j a b, (i < j)%nat -> ops !! i = Some a -> ops !! j = Some b -> a.1 <= b.1) ->
  fst (run st ops) = ideal_run st0 w ops.
Proof.
  revert st w now; induction ops as [|[t op] ops IH]; intros st w now Hs Hnow Hmono; cbn [run ideal_run]; [done|].
  inversion Hnow as [|? ? Ht Hnow']; subst; cbn in Ht.
  apply (simulates_later _ _ _ _ t) in Hs; [|done]. destruct (step_simulates st0 st w t op Hs) as [Ha Hs'].
  destruct (step t st op) as [a st']. cbn [fst snd] in *.
  specialize (IH st' (ideal_step t w op) t Hs'). destruct (run st' ops) as [answers st''] eqn:E. cbn [fst] in *.
  rewrite Ha. f_equal. apply IH.
  - apply Forall_forall. intros [t' op'] (i & Hi)%list_elem_of_lookup_1. by apply (Hmono O (S i) (t, op) (t', op')); [lia|..].
  - intros i j x y Hij Hi Hj. by apply (Hmono (S i) (S j)); [lia|..].
Qed.

(** * The state that the program builds *)

Section Built.
Context (read_to_string : bytes -> option bytes) (read_mmdb : bytes -> option (IpAddr -> option bytes))
  (read_geosite : bytes -> option (list (bytes * list GeoDomain))).
Context (parse_ip_net : bytes -> option IpNet) (parse_ip_addr : bytes -> option IpAddr)
  (ip_net_new : IpAddr -> Z -> option IpNet) (net_of_addr : IpAddr -> IpNet).
Context (to_lowercase : bytes -> bytes) (hash_iter : forall V, gmap bytes V -> list (bytes * V)).
Abbreviation build := (app_state_build read_to_string read_mmdb read_geosite parse_ip_net parse_ip_addr
  ip_net_new net_of_addr to_lowercase hash_iter).
Abbreviation nets_of := (load_nets read_to_string parse_ip_net parse_ip_addr ip_net_new).

(** One of the tags has a rule over the name. *)
Definition tag_covers (index : gmap bytes (list GeoDomain)) (d tag : bytes) : bool :=
  existsb (fun r => negb (bool_decide (canonical_domain (gd_value r) = [])) && geosite_domain_match r d)
    (default [] (index !! tag)).

(** The decision that a configuration asks for, with the files read. *)
Definition domain_decision (c : Config.Config) (geosite : option (gmap bytes (list GeoDomain))) (d : bytes) : option bool :=
  if listed (Config.force_socks5_domains c) d then Some false
  else if listed (Config.force_direct_domains c) d then Some true
  else match geosite with
       | None => None
       | Some index =>
           if existsb (tag_covers index d) (Config.proxy_geosite_tags c) then Some false
           else if existsb (tag_covers index d) (Config.direct_geosite_tags c) then Some true
           else None
       end.
(** Some network of the list is over the address. *)
Definition nets_list (nets : list IpNet) (ip : IpAddr) : bool := existsb (fun net => net_has net ip) nets.
Definition address_decision (c : Config.Config) (country : option (IpAddr -> option bytes))
    (direct_nets socks5_nets : list IpNet) (ip : IpAddr) : bool :=
  if nets_list socks5_nets ip then false
  else if nets_list direct_nets ip then true
  else (Config.direct_local_ip c && is_must_direct_local_ip ip) || is_direct_country_ip country c ip.
Definition config_decision (c : Config.Config) (country : option (IpAddr -> option bytes))
    (geosite : option (gmap bytes (list GeoDomain))) (direct_nets socks5_nets : list IpNet)
    (mode : ProxyMode) (ip : IpAddr) (domain : option bytes) : bool :=
  match mode with
  | Global => false
  | Bypass => true
  | Smart =>
      match (match domain with Some d => domain_decision c geosite d | None => None end) with
      | Some direct => direct
      | None => address_decision c country direct_nets socks5_nets ip
      end
  end.

(** The networks of a list that are not the whole address space, which are all
    that the tries see. *)
Definition proper_nets (nets : list IpNet) : list IpNet := filter (fun net => net_len net <> 0) nets.
Lemma nets_cover_proper nets ip : nets_cover nets ip = nets_list (proper_nets nets) ip.
Proof.
  unfold nets_cover, nets_list, proper_nets. induction nets as [|net nets IH]; [done|]. cbn [existsb]. rewrite IH, filter_cons.
  destruct (Z.eqb_spec (net_len net) 0) as [E|E]; [rewrite decide_False by (by intros H)|rewrite decide_True by done; cbn [existsb]];
    by rewrite ?andb_false_r, ?andb_true_r.
Qed.

Lemma existsb_ext_in {A} (f g : A -> bool) l : (forall x, f x = g x) -> existsb f l = existsb g l.
Proof. intros H. induction l as [|x l IH]; cbn; [done|]. by rewrite H, IH. Qed.

Lemma contains_tag index d tag : compiled_geosite_contains (compile_geosite index) tag d = tag_covers index d tag.
Proof.
  apply eq_true_iff_eq. rewrite geosite_contains_spec. unfold tag_covers. rewrite existsb_exists.
  setoid_rewrite andb_true_iff. setoid_rewrite negb_true_iff. setoid_rewrite bool_decide_eq_false.
  split; intros (r & Hin & H); exists r; by rewrite ?list_elem_of_In in *.
Qed.

Lemma mode_roundtrip m : proxy_mode_from_u8 (proxy_mode_as_u8 m) = m.
Proof. by destruct m. Qed.

Lemma build_inv `{!NetLaws 32} `{!NetLaws 128} `{!TrieLaws 32} `{!TrieLaws 128} c st :
  build c = Ok st ->
  exists direct_nets socks5_nets geosite,
    nets_of (Config.force_direct_ips c) (Config.force_direct_ips_file c) = Ok direct_nets /\
    nets_of (Config.force_socks5_ips c) (Config.force_socks5_ips_file c) = Ok socks5_nets /\
    load_geosite read_geosite to_lowercase c = Ok geosite /\ load_mmdb read_mmdb c = Ok (mmdb st) /\
    config st = c /\ route_cache_ttl st = Config.route_cache_ttl_secs c * 1000000000 /\
    proxy_mode st = proxy_mode_as_u8 (Config.proxy_mode c) /\ direct_cache st = ∅ /\ upstream_cache st = ∅ /\
    build_tables parse_ip_net parse_ip_addr net_of_addr hash_iter c = Ok (tables st) /\
    (forall ip, ip_rules st ip = address_decision c (mmdb st) (proper_nets direct_nets) (proper_nets socks5_nets) ip) /\
    (forall d, domain_rules st d = match d with Some d => domain_decision c geosite d | None => None end).
Proof.
  unfold app_state_build. intros H.
  apply res_bind_ok in H as (country & Hm & H). apply res_bind_ok in H as (dl & Hdl%res_map_err_ok & H).
  apply res_bind_ok in H as (sl & Hsl%res_map_err_ok & H). apply res_bind_ok in H as (dn & Hdn%res_map_err_ok & H).
  apply res_bind_ok in H as (sn & Hsn%res_map_err_ok & H).
  destruct (build_ip_tries_ok dn) as (d4 & d6 & Ed & Hd4 & Hd6).
  destruct (build_ip_tries_ok sn) as (s4 & s6 & Es & Hs4 & Hs6). rewrite Ed, Es in H. cbn [res_map_err res_bind] in H.
  apply res_bind_ok in H as (? & _ & H). apply res_bind_ok in H as (geosite & Hg & H).
  apply res_bind_ok in H as (tabs & Htabs%res_map_err_ok & [= <-]).
  exists dn, sn, geosite. unfold load_nets. rewrite Hdl, Hsl. cbn [res_bind].
  split_and!; try done.
  - intros [ip|ip]; unfold ip_rules, address_decision; rewrite <- !nets_cover_proper; cbn; by rewrite ?Hs4, ?Hs6, ?Hd4, ?Hd6.
  - intros [d|]; [|done]. unfold domain_rules, domain_decision; cbn. rewrite !domain_set_listed.
    assert (forall b, bool_decide (Some b = Some true) = b) as Hb by (by intros []). rewrite !Hb.
    destruct geosite as [index|]; cbn; [|done].
    by rewrite !(existsb_ext_in (fun tag => compiled_geosite_contains (compile_geosite index) tag d) (tag_covers index d))
      by (intros; apply contains_tag).
Qed.

(** C6: The state that the program builds decides a connection as its configuration says: the mode, then the domain
    lists and geosite tags (proxy before direct), then the address lists with their files (proxy before direct), then
    local addresses and countries. This holds of every configuration whose address lists do not name a whole address
    space; of any other it decides like the configuration without these entries, which the program ignores. *)
Theorem built_state_decides `{!NetLaws 32} `{!NetLaws 128} `{!TrieLaws 32} `{!TrieLaws 128} c st :
  build c = Ok st ->
  exists direct_nets socks5_nets geosite,
    nets_of (Config.force_direct_ips c) (Config.force_direct_ips_file c) = Ok direct_nets /\
    nets_of (Config.force_socks5_ips c) (Config.force_socks5_ips_file c) = Ok socks5_nets /\
    load_geosite read_geosite to_lowercase c = Ok geosite /\ load_mmdb read_mmdb c = Ok (mmdb st) /\
    (Forall (fun net => net_len net <> 0) (direct_nets ++ socks5_nets) -> forall now ip domain,
      fst (should_direct now st ip domain) =
      config_decision c (mmdb st) geosite direct_nets socks5_nets (Config.proxy_mode c) ip domain) /\
    forall now ip domain,
      fst (should_direct now st ip domain) =
      config_decision c (mmdb st) geosite (proper_nets direct_nets) (proper_nets socks5_nets) (Config.proxy_mode c) ip domain.
Proof.
  intros (dn & sn & geosite & Hd & Hs & Hg & Hm & _ & _ & Emode & Hdc & _ & _ & Hip & Hdom)%build_inv.
  exists dn, sn, geosite. do 4 (split; [done|]).
  assert (forall now ip domain, fst (should_direct now st ip domain) =
    config_decision c (mmdb st) geosite (proper_nets dn) (proper_nets sn) (Config.proxy_mode c) ip domain) as Hall.
  { intros now ip domain. assert (coherent st) as Hc by (intros k e; by rewrite Hdc, lookup_empty).
    destruct (should_direct_decides now st ip domain Hc) as [-> _].
    unfold decide_direct, config_decision. by rewrite Emode, mode_roundtrip, Hdom, Hip. }
  split; [|done]. intros [Hfd Hfs]%Forall_app now ip domain. rewrite Hall. unfold proper_nets.
  rewrite !filter_all; [done|..]; by apply Forall_forall.
Qed.

(** C4: Over any history of routing operations at non-decreasing times, the built state with its bounded caches answers
    exactly like the ideal state that caches nothing about decisions and never evicts an upstream: a cached
    decision is what the rules say in the mode of the moment, and a cached upstream is found from its caching until
    its removal or the end of its time to live. *)
Theorem route_history_exact `{!NetLaws 32} `{!NetLaws 128} `{!TrieLaws 32} `{!TrieLaws 128} c st ops :
  build c = Ok st ->
  (forall i j a b, (i < j)%nat -> ops !! i = Some a -> ops !! j = Some b -> a.1 <= b.1) ->
  fst (run st ops) =
  ideal_run st {| ideal_mode := proxy_mode_as_u8 (Config.proxy_mode c); ideal_writes := ∅ |} ops.
Proof.
  intros (_ & _ & _ & _ & _ & _ & _ & _ & _ & Emode & Hdc & Huc & _)%build_inv Hmono.
  destruct ops as [|[t op] ops]; [done|]. apply (run_simulates _ _ _ t); [|constructor; [done|]|done].
  - split; [by split|intros k e; by rewrite Hdc, lookup_empty|done|..].
    + intros k e. by rewrite Huc, lookup_empty.
    + intros k up t' now' _. cbn. by rewrite lookup_empty.
  - apply Forall_forall. intros [t' op'] (i & Hi)%list_elem_of_lookup_1. by apply (Hmono O (S i) (t, op) (t', op')); [lia|..].
Qed.
End Built.

(** An insertion into either cache leaves it within [route_cache_max], or with nothing but the new entry and entries
    that are still fresh; when every entry is fresh nothing is dropped, so a new key makes the cache grow whatever
    [route_cache_max] is. *)
Theorem route_cache_bound `{Countable K} {V} max now ttl (c : gmap K (V * Z)) k v :
  let fresh_entries := filter (fun e : K * (V * Z) => fresh now ttl e.2.2 = true) c in
  Z.of_nat (size (cache_insert max now ttl c k v)) <= Z.max max (1 + Z.of_nat (size fresh_entries)) /\
  (fresh_entries = c -> c !! k = None -> size (cache_insert max now ttl c k v) = S (size c)).
Proof.
  cbv zeta. split; [apply cache_insert_size|]. intros Hall Hk. unfold cache_insert.
  assert ((if max <=? Z.of_nat (size c) then filter (fun e : K * (V * Z) => fresh now ttl e.2.2 = true) c else c) = c) as ->
    by (by destruct (max <=? _)).
  by apply map_size_insert_None.
Qed.
End State.

(** * An instance *)

Definition example_state_config : Config.Config := file_config [example_upstream (bs "u") None] false false.
Definition example_build_state (c : Config.Config)
    : res BuildError (AppState (ops4 := pair_net 32) (ops6 := pair_net 128) (tries4 := pair_trie 32)
        (tries6 := pair_trie 128) (Upstream := Z)) :=
  app_state_build (ops4 := pair_net 32) (ops6 := pair_net 128) (tries4 := pair_trie 32) (tries6 := pair_trie 128)
    (fun _ => None) (fun _ => None) (fun _ => None) example_nets (fun _ => None) (fun _ _ => None)
    (fun _ => net4 0 0 0 0 0) (fun s => s) (fun V m => map_to_list m) c.

Definition localhost : IpAddr := V4 (from_be_bytes (map byte_of_Z [127; 0; 0; 1])).

(** Nothing is listed; a local address goes direct. *)
Example built_state_decides_witness :
  match example_build_state example_state_config with
  | Ok st =>
      fst (should_direct 0 st localhost None) = true /\
      exists geosite, forall now ip domain,
        fst (should_direct now st ip domain) =
        config_decision (ops4 := pair_net 32) (ops6 := pair_net 128) example_state_config (mmdb st) geosite [] [] Smart ip domain
  | _ => False
  end.
Proof.
  assert (match example_build_state example_state_config with
          | Ok st => fst (should_direct 0 st localhost None) = true | _ => False end) as Hlocal by (by vm_compute).
  destruct (example_build_state example_state_config) as [st|e| |] eqn:E; [|done..]. split; [exact Hlocal|].
  destruct (built_state_decides (ops4 := pair_net 32) (ops6 := pair_net 128) (tries4 := pair_trie 32)
    (tries6 := pair_trie 128) (Upstream := Z)
    (fun _ => None) (fun _ => None) (fun _ => None) example_nets (fun _ => None) (fun _ _ => None)
    (fun _ => net4 0 0 0 0 0) (fun s => s) (fun V m => map_to_list m)
    (NetLaws0 := pair_net_laws 32 ltac:(lia)) (NetLaws1 := pair_net_laws 128 ltac:(lia))
    (TrieLaws0 := pair_trie_laws 32 ltac:(lia)) (TrieLaws1 := pair_trie_laws 128 ltac:(lia))
    example_state_config st E) as (dn & sn & g & Hd & Hs & _ & _ & H & _).
  vm_compute in Hd, Hs. injection Hd as <-. injection Hs as <-. exists g. apply H. constructor.
Defined.

(** Cached at 0 s, found at 1 s, gone at 6 s. *)
Definition example_ops : list (Z * Op (Upstream := Z)) :=
  [(0, CacheUpstream (V4 1) (V4 2) None 7); (1000000000, GetUpstream (V4 1) (V4 2) None);
   (1000000000, ShouldDirect localhost None); (6000000000, GetUpstream (V4 1) (V4 2) None)].

Lemma example_ops_ordered i j a b :
  (i < j)%nat -> example_ops !! i = Some a -> example_ops !! j = Some b -> a.1 <= b.1.
Proof.
  intros Hij Hi Hj. assert (j < length example_ops)%nat as Hl by (by eapply lookup_lt_Some). cbn in Hl.
  destruct i as [|[|[|i]]], j as [|[|[|[|j]]]]; try lia; cbn in Hi, Hj; injection Hi as <-; injection Hj as <-; cbn; lia.
Qed.

Example route_history_exact_witness :
  match example_build_state example_state_config with
  | Ok st =>
      fst (run st example_ops) = ideal_run st {| ideal_mode := 0; ideal_writes := ∅ |} example_ops /\
      fst (run st example_ops) = [Done; Chosen (Some 7); Direct true; Chosen None]
  | _ => False
  end.
Proof.
  assert (match example_build_state example_state_config with
          | Ok st => fst (run st example_ops) = [Done; Chosen (Some 7); Direct true; Chosen None] | _ => False end)
    as Hrun by (by vm_compute).
  destruct (example_build_state example_state_config) as [st|e| |] eqn:E; [|done..]. split; [|exact Hrun].
  exact (route_history_exact (ops4 := pair_net 32) (ops6 := pair_net 128) (tries4 := pair_trie 32)
    (tries6 := pair_trie 128) (Upstream := Z)
    (fun _ => None) (fun _ => None) (fun _ => None) example_nets (fun _ => None) (fun _ _ => None)
    (fun _ => net4 0 0 0 0 0) (fun s => s) (fun V m => map_to_list m)
    (NetLaws0 := pair_net_laws 32 ltac:(lia)) (NetLaws1 := pair_net_laws 128 ltac:(lia))
    (TrieLaws0 := pair_trie_laws 32 ltac:(lia)) (TrieLaws1 := pair_trie_laws 128 ltac:(lia))
    example_state_config st example_ops E example_ops_ordered).
Defined.

Example route_cache_bound_witness :
  let c : gmap Z (Z * Z) := <[1 := (10, 0)]> ∅ in
  let fresh_entries := filter (fun e : Z * (Z * Z) => fresh 1 5 e.2.2 = true) c in
  Z.of_nat (size (cache_insert 1 1 5 c 2 20)) <= Z.max 1 (1 + Z.of_nat (size fresh_entries)) /\
  (fresh_entries = c -> c !! 2 = None -> size (cache_insert 1 1 5 c 2 20) = S (size c)) /\
  size (cache_insert 1 1 5 c 2 20) = 2%nat.
Proof.
  cbv zeta. pose proof (route_cache_bound (K := Z) 1 1 5 (<[1 := (10, 0)]> ∅) 2 20) as [H1 H2].
  split; [exact H1|]. split; [exact H2|]. by vm_compute.
Defined.
