(* ===== verification/Scores.v ===== *)
(** One upstream proxy, [src/src/upstream.rs]: its measurements, the scores
    computed from them and the updates of the scoring tasks. The atomics of the
    source are fields; [now] is [now_secs()], read once per operation. *)

From Stdlib Require Import Strings.Byte Strings.String QArith.QArith_base.
From coqutil Require Import Datatypes.RecordSetters.
From S2P Require Import Prelude Bytes Float64 Config.
Import OCamlLikeNotations.
#[local] Open Scope Z_scope.

(** Code that returns no error but could panic. *)
Abbreviation checked := (res Empty_set).

(** Arithmetic on [u32] and [u64] that panics out of range. *)
Definition u32 (z : Z) : checked Z := if (0 <=? z) && (z <=? U32_MAX) then Ok z else Panic.
Definition u64 (z : Z) : checked Z := if (0 <=? z) && (z <=? U64_MAX) then Ok z else Panic.
Definition as_u32 (x : f64) : Z := f64_as_uint U32_MAX x.
Definition as_u64 (x : f64) : Z := f64_as_uint U64_MAX x.

Definition DEFAULT_SCORE : Z := 75.
Definition DEFAULT_QUIC_STALE_SECS : Z := 180.
Definition MINIMAL_SCORE : Z := 10.

Module Upstream.
Record Upstream := {
  id : bytes;
  addr : SocketAddr;
  groups : list bytes;
  gain : f64;
  registry : list (Z * Z);
  tcp_score : Z;
  tcp_score_initialized : bool;
  last_total_recv : Z;
  last_total_sent : Z;
  last_check_secs : Z;
  tcp_info_initialized : bool;
  health_failures : Z;
  quic_uplink_score : Z;
  quic_downlink_score : Z;
  quic_uplink_last_update_secs : Z;
  quic_downlink_last_update_secs : Z;
  quic_weight : Z;
  quic_stale_secs : Z;
  throughput_rate_mibs : f64;
  throughput_updated_secs : Z;
  probe_quality : f64;
  probe_quality_updated_secs : Z;
}.
End Upstream.
Abbreviation upstream := Upstream.Upstream.

(** [Upstream::new] *)
Definition upstream_new (id : bytes) (addr : SocketAddr) (groups : list bytes) (gain : f64) : upstream := {|
  Upstream.id := id;
  Upstream.addr := addr;
  Upstream.groups := groups;
  Upstream.gain := gain;
  Upstream.registry := [];
  Upstream.tcp_score := DEFAULT_SCORE;
  Upstream.tcp_score_initialized := false;
  Upstream.last_total_recv := 0;
  Upstream.last_total_sent := 0;
  Upstream.last_check_secs := 0;
  Upstream.tcp_info_initialized := false;
  Upstream.health_failures := 0;
  Upstream.quic_uplink_score := DEFAULT_SCORE;
  Upstream.quic_downlink_score := DEFAULT_SCORE;
  Upstream.quic_uplink_last_update_secs := 0;
  Upstream.quic_downlink_last_update_secs := 0;
  Upstream.quic_weight := 40;
  Upstream.quic_stale_secs := DEFAULT_QUIC_STALE_SECS;
  Upstream.throughput_rate_mibs := f64_zero;
  Upstream.throughput_updated_secs := 0;
  Upstream.probe_quality := f64_zero;
  Upstream.probe_quality_updated_secs := 0;
|}.

Definition set_quic_weight (up : upstream) (w : Z) : upstream := { up with Upstream.quic_weight := clamp 0 100 w }.
Definition set_quic_stale_secs (up : upstream) (secs : Z) : upstream :=
  { up with Upstream.quic_stale_secs := Z.max secs 1 }.

(** [track]: [token] is the identity of the new [Arc]. *)
Definition track (up : upstream) (token fd : Z) : upstream :=
  { up with Upstream.registry := Upstream.registry up ++ [(token, fd)] }.

(** * Scores *)

(** The closure [decay] of [quic_score_effective_at]. *)
Definition decay (now stale_secs score last_update_secs : Z) : checked (option Z) :=
  if last_update_secs =? 0 then Ok None
  else
    let elapsed := sat_sub now last_update_secs in
    if stale_secs <=? elapsed then Ok (Some MINIMAL_SCORE)
    else
      let? remaining := u64 (stale_secs - elapsed) in
      let factor := f64_div (f64_of_Z remaining) (f64_of_Z stale_secs) in
      let decayed := as_u32 (f64_mul (f64_of_Z score) factor) in
      Ok (Some (Z.max decayed MINIMAL_SCORE)).

Definition quic_score_effective_at (up : upstream) (now : Z) : checked Z :=
  let stale_secs := Upstream.quic_stale_secs up in
  let? uplink := decay now stale_secs (Upstream.quic_uplink_score up) (Upstream.quic_uplink_last_update_secs up) in
  let? downlink :=
    decay now stale_secs (Upstream.quic_downlink_score up) (Upstream.quic_downlink_last_update_secs up) in
  match uplink, downlink with
  | Some u, Some d => let? s := u32 (u + d) in Ok (s / 2)
  | Some u, None => Ok u
  | None, Some d => Ok d
  | None, None => Ok DEFAULT_SCORE
  end.

Definition score_at (up : upstream) (now : Z) : checked Z :=
  let tcp := Upstream.tcp_score up in
  let? quic := quic_score_effective_at up now in
  let tcp_valid := Upstream.tcp_score_initialized up in
  let quic_valid :=
    (0 <? Upstream.quic_uplink_last_update_secs up) || (0 <? Upstream.quic_downlink_last_update_secs up) in
  let qw := Upstream.quic_weight up in
  let? tw := u32 (100 - qw) in
  match tcp_valid, quic_valid with
  | true, true =>
      let? t := u32 (tcp * tw) in
      let? q := u32 (quic * qw) in
      let? s := u32 (t + q) in Ok (s / 100)
  | false, true => Ok quic
  | true, false => Ok tcp
  | false, false => Ok DEFAULT_SCORE
  end.

Definition effective_score_at (up : upstream) (now : Z) : checked Z :=
  let? raw_score := score_at up now in
  let eff := f64_mul (f64_of_Z raw_score) (Upstream.gain up) in
  Ok (as_u64 (f64_clamp (f64_of_Z 1) (f64_of_Z 10000000) eff)).

(** [calc_throughput_score], the duration in seconds and nanoseconds. *)
Definition calc_throughput_score (total_bytes secs nanos : Z) : checked (option Z) :=
  if total_bytes <? 1024 * 16 then Ok None
  else
    let secs := f64_add (f64_of_Z secs) (f64_div (f64_of_Z nanos) (f64_of_Z 1000000000)) in
    if f64_le secs f64_zero then Ok None
    else
      let bps := f64_div (f64_of_Z total_bytes) secs in
      let mib_per_sec := f64_div (f64_div bps (f64_of_Z 1024)) (f64_of_Z 1024) in
      let at_least n := f64_le (f64_of_Z n) mib_per_sec in
      let part lo span range :=
        as_u32 (f64_mul (f64_div (f64_sub mib_per_sec lo) span) (f64_of_Z range)) in
      let? score :=
        if at_least 50 then Ok 1000
        else if at_least 10 then u32 (800 + part (f64_of_Z 10) (f64_of_Z 40) 200)
        else if at_least 5 then u32 (600 + part (f64_of_Z 5) (f64_of_Z 5) 200)
        else if at_least 1 then u32 (300 + part (f64_of_Z 1) (f64_of_Z 4) 300)
        else if f64_le (f64_ratio 1 10) mib_per_sec then u32 (100 + part (f64_ratio 1 10) (f64_ratio 9 10) 200)
        else Ok (as_u32 (f64_mul (f64_div mib_per_sec (f64_ratio 1 10)) (f64_of_Z 100))) in
      Ok (Some (clamp 0 1000 score)).

(** [calc_quic_score] *)
Definition calc_quic_score (rtt_ms loss_rate : f64) (mtu : Z) : option Z :=
  if negb (f64_is_finite rtt_ms) || f64_lt rtt_ms f64_zero || negb (f64_is_finite loss_rate)
     || f64_lt loss_rate f64_zero then None
  else
    let base := 1000 in
    let loss := as_u32 (f64_round (f64_mul loss_rate (f64_of_Z 100))) in
    let loss_penalty :=
      if loss =? 0 then 0 else if loss <=? 2 then 60 else if loss <=? 5 then 200
      else if loss <=? 10 then 500 else if loss <=? 20 then 750 else 900 in
    let rtt := as_u32 rtt_ms in
    let rtt_penalty :=
      if rtt <=? 80 then 0 else if rtt <=? 150 then 40 else if rtt <=? 250 then 100
      else if rtt <=? 400 then 180 else 300 in
    let mtu_penalty :=
      if 1400 <=? mtu then 0 else if 1300 <=? mtu then 60 else if 1280 <=? mtu then 120
      else if 1200 <=? mtu then 250 else 450 in
    Some (Z.max (sat_sub (sat_sub (sat_sub base loss_penalty) rtt_penalty) mtu_penalty) 50).

(** [relative_score] *)
Definition relative_score (value max : f64) : Z :=
  if f64_le max f64_zero || f64_le value f64_zero then 0
  else as_u32 (f64_clamp f64_zero (f64_of_Z 1000) (f64_mul (f64_div value max) (f64_of_Z 1000))).

(** [probe_quality]; [exp] is that of the platform's math library. *)
Definition probe_quality (exp : f64 -> f64) (rtt_ms loss_rate : f64) (mtu : Z) : option f64 :=
  if negb (f64_is_finite rtt_ms) || f64_lt rtt_ms f64_zero || negb (f64_is_finite loss_rate)
     || negb (f64_le f64_zero loss_rate && f64_le loss_rate f64_one) then None
  else
    let rtt_q := f64_div f64_one (f64_add f64_one (f64_div rtt_ms (f64_of_Z 50))) in
    let loss_q := exp (f64_mul (SpecFloat.SFopp loss_rate) (f64_of_Z 10)) in
    let mtu_q := f64_div (f64_of_Z (Z.min mtu 1400)) (f64_of_Z 1400) in
    Some (f64_clamp f64_zero f64_one (f64_mul (f64_mul rtt_q loss_q) mtu_q)).

(** * Updates *)

(** [update_link_score] on the score and time of one direction. *)
Definition update_link_score (now : Z) (raw : option Z) (score last_update : Z) : checked (Z * Z) :=
  match raw with
  | None => Ok (score, last_update)
  | Some raw =>
      let raw := clamp 0 1000 raw in
      if sat_sub now last_update <? 5 then Ok (score, last_update)
      else
        let? old3 := u32 (score * 3) in
        let? raw7 := u32 (raw * 7) in
        let? s := u32 (old3 + raw7) in
        Ok (s / 10, now)
  end.
Definition update_uplink_score (now : Z) (up : upstream) (raw : option Z) : checked upstream :=
  let? (score, last) :=
    update_link_score now raw (Upstream.quic_uplink_score up) (Upstream.quic_uplink_last_update_secs up) in
  Ok { up with Upstream.quic_uplink_score := score; Upstream.quic_uplink_last_update_secs := last }.
Definition update_downlink_score (now : Z) (up : upstream) (raw : option Z) : checked upstream :=
  let? (score, last) :=
    update_link_score now raw (Upstream.quic_downlink_score up) (Upstream.quic_downlink_last_update_secs up) in
  Ok { up with Upstream.quic_downlink_score := score; Upstream.quic_downlink_last_update_secs := last }.

Definition set_probe_quality (now : Z) (up : upstream) (q : f64) (link : option bytes) : upstream :=
  let up := { up with Upstream.probe_quality := q } in
  let up :=
    if bool_decide (link = Some (bs "downlink"))
    then { up with Upstream.quic_downlink_last_update_secs := now }
    else { up with Upstream.quic_uplink_last_update_secs := now } in
  { up with Upstream.probe_quality_updated_secs := now }.

Definition penalize (now : Z) (up : upstream) : upstream :=
  { up with
    Upstream.tcp_score := DEFAULT_SCORE;
    Upstream.tcp_score_initialized := true;
    Upstream.quic_uplink_score := DEFAULT_SCORE;
    Upstream.quic_downlink_score := DEFAULT_SCORE;
    Upstream.quic_uplink_last_update_secs := now;
    Upstream.quic_downlink_last_update_secs := now }.

(** * The scoring tasks *)

(** The sums over the connections that still answer [getsockopt]. *)
Fixpoint sum_infos (infos : list (option (Z * Z))) (r s n : Z) : checked (Z * Z * Z) :=
  match infos with
  | [] => Ok (r, s, n)
  | None :: infos => sum_infos infos r s n
  | Some (received, acked) :: infos =>
      let? r := u64 (r + received) in
      let? s := u64 (s + acked) in
      sum_infos infos r s (n + 1)
  end.

(** One round of [run_score_task]. [held] tells whether a connection's token
    is still held, [info] is [get_tcp_info_ext_raw]. *)
Definition score_round (held : Z -> bool) (info : Z -> option (Z * Z)) (relative_mode : bool) (now : Z)
    (up : upstream) : checked upstream :=
  let entries := filter (fun e => held e.1 = true) (Upstream.registry up) in
  let up := { up with Upstream.registry := entries } in
  let? (recv, sent, alive) := sum_infos (map (fun e => info e.2) entries) 0 0 0 in
  if alive =? 0 then Ok up
  else
    let prev_recv := Upstream.last_total_recv up in
    let prev_sent := Upstream.last_total_sent up in
    let prev_secs := Upstream.last_check_secs up in
    let initialized := Upstream.tcp_info_initialized up in
    let up := { up with
      Upstream.last_total_recv := recv;
      Upstream.last_total_sent := sent;
      Upstream.last_check_secs := now;
      Upstream.tcp_info_initialized := true } in
    if negb initialized then Ok up
    else
      let delta_recv := sat_sub recv prev_recv in
      let delta_sent := sat_sub sent prev_sent in
      let? delta_bytes := u64 (delta_recv + delta_sent) in
      let delta_secs := Z.max (sat_sub now prev_secs) 1 in
      if 1024 * 16 <=? delta_bytes then
        if relative_mode then
          let mib_per_sec :=
            f64_div (f64_div (f64_div (f64_of_Z delta_bytes) (f64_of_Z 1024)) (f64_of_Z 1024)) (f64_of_Z delta_secs) in
          let old_rate := Upstream.throughput_rate_mibs up in
          let new_rate :=
            if f64_eq old_rate f64_zero then mib_per_sec
            else f64_add (f64_mul old_rate (f64_ratio 1 2)) (f64_mul mib_per_sec (f64_ratio 1 2)) in
          Ok { up with Upstream.throughput_rate_mibs := new_rate; Upstream.throughput_updated_secs := now }
        else
          let? score := calc_throughput_score delta_bytes delta_secs 0 in
          match score with
          | None => Ok up
          | Some raw =>
              let old := Upstream.tcp_score up in
              let? old5 := u32 (old * 5) in
              let? raw5 := u32 (raw * 5) in
              let? sum := u32 (old5 + raw5) in
              Ok { up with Upstream.tcp_score := sum / 10; Upstream.tcp_score_initialized := true }
          end
      else Ok up.

(** One upstream in a round of [run_health_check_task], after the probe. *)
Definition health_result (fail_threshold now : Z) (alive : bool) (up : upstream) : checked upstream :=
  if alive then
    let failures := Upstream.health_failures up in
    let up := { up with Upstream.health_failures := 0 } in
    if fail_threshold <=? failures
    then Ok { up with Upstream.tcp_score := 300; Upstream.tcp_score_initialized := true }
    else Ok up
  else
    let? f := u32 (Upstream.health_failures up + 1) in
    let up := { up with Upstream.health_failures := f } in
    if f =? fail_threshold then Ok (penalize now up) else Ok up.

(** The snapshot that [run_relative_score_task] takes of one upstream. *)
Definition recent (now stale_secs last : Z) : bool := (0 <? last) && (sat_sub now last <? stale_secs).
Definition snap_rate (now stale_secs : Z) (up : upstream) : option f64 :=
  if recent now stale_secs (Upstream.throughput_updated_secs up) then Some (Upstream.throughput_rate_mibs up) else None.
Definition snap_q (now stale_secs : Z) (up : upstream) : option f64 :=
  if recent now stale_secs (Upstream.probe_quality_updated_secs up) then Some (Upstream.probe_quality up) else None.
(** The maximum over the snapshots, from 0.0. *)
Definition max_snap (snaps : list (option f64)) : f64 :=
  foldl (fun m s => match s with Some v => f64_max m v | None => m end) f64_zero snaps.
Definition max_ema (ema max : f64) : f64 :=
  if f64_lt f64_zero max then
    if f64_eq ema f64_zero then max
    else f64_add (f64_mul ema (f64_ratio 9 10)) (f64_mul max (f64_ratio 1 10))
  else ema.

(** The seed of an upstream without a throughput sample. *)
Definition cold_start (max_q_ema : f64) (q : option f64) (up : upstream) : upstream :=
  if negb (Upstream.tcp_score_initialized up) && f64_lt f64_zero max_q_ema then
    let seed :=
      match q with
      | Some q => relative_score q max_q_ema
      | None => relative_score (f64_mul max_q_ema (f64_ratio 1 2)) max_q_ema
      end in
    { up with Upstream.tcp_score := seed; Upstream.tcp_score_initialized := true }
  else up.

(** Writing the relative scores of one upstream. *)
Definition write_relative (max_rate_ema max_q_ema : f64) (rate q : option f64) (up : upstream) : checked upstream :=
  let up :=
    match q with
    | Some q =>
        if f64_lt f64_zero max_q_ema then
          let rel_quic := relative_score q max_q_ema in
          { up with Upstream.quic_uplink_score := rel_quic; Upstream.quic_downlink_score := rel_quic }
        else up
    | None => up
    end in
  match rate with
  | Some rate =>
      if f64_lt f64_zero max_rate_ema then
        let rel_tcp := relative_score rate max_rate_ema in
        let? sum := u32 (Upstream.tcp_score up + rel_tcp) in
        Ok { up with Upstream.tcp_score := sum / 2; Upstream.tcp_score_initialized := true }
      else Ok (cold_start max_q_ema q up)
  | None => Ok (cold_start max_q_ema q up)
  end.

Fixpoint write_all_relative (max_rate_ema max_q_ema : f64) (now stale_secs : Z) (ups : list upstream)
    : checked (list upstream) :=
  match ups with
  | [] => Ok []
  | up :: ups =>
      let? up := write_relative max_rate_ema max_q_ema (snap_rate now stale_secs up) (snap_q now stale_secs up) up in
      let? ups := write_all_relative max_rate_ema max_q_ema now stale_secs ups in
      Ok (up :: ups)
  end.

(** One round of [run_relative_score_task]; the averages persist. *)
Definition relative_round (now stale_secs : Z) (emas : f64 * f64) (ups : list upstream)
    : checked (f64 * f64 * list upstream) :=
  let max_rate := max_snap (map (snap_rate now stale_secs) ups) in
  let max_q := max_snap (map (snap_q now stale_secs) ups) in
  let max_rate_ema := max_ema (fst emas) max_rate in
  let max_q_ema := max_ema (snd emas) max_q in
  let? ups := write_all_relative max_rate_ema max_q_ema now stale_secs ups in
  Ok (max_rate_ema, max_q_ema, ups).

(** * The invariant of the scores *)

Definition in_score (z : Z) : Prop := 0 <= z <= 1000.

Record wf_upstream (up : upstream) : Prop := {
  wf_tcp : in_score (Upstream.tcp_score up);
  wf_uplink : in_score (Upstream.quic_uplink_score up);
  wf_downlink : in_score (Upstream.quic_downlink_score up);
  wf_weight : 0 <= Upstream.quic_weight up <= 100;
  wf_stale : 1 <= Upstream.quic_stale_secs up < 2 ^ 53;
  wf_recv : 0 <= Upstream.last_total_recv up;
  wf_sent : 0 <= Upstream.last_total_sent up;
  wf_failures : 0 <= Upstream.health_failures up <= U32_MAX;
  wf_times : 0 <= Upstream.quic_uplink_last_update_secs up /\ 0 <= Upstream.quic_downlink_last_update_secs up;
  wf_gain : f64_is_finite (Upstream.gain up) = true /\ f64_le (Upstream.gain up) f64_zero = false;
}.

Lemma u32_ok z : 0 <= z <= U32_MAX -> u32 z = Ok z.
Proof. intros. unfold u32. by rewrite (proj2 (Z.leb_le _ _)), (proj2 (Z.leb_le _ _)) by lia. Qed.
Lemma u64_ok z : 0 <= z <= U64_MAX -> u64 z = Ok z.
Proof. intros. unfold u64. by rewrite (proj2 (Z.leb_le _ _)), (proj2 (Z.leb_le _ _)) by lia. Qed.

(** Runs the checked arithmetic whose range is known. *)
Ltac run_checked := repeat (first [rewrite u32_ok by (unfold_ints; nia) | rewrite u64_ok by (unfold_ints; nia)]; cbn [res_bind]).

Lemma decay_ok now stale score last :
  0 <= now <= U64_MAX -> 0 <= last -> 1 <= stale < 2 ^ 53 -> in_score score ->
  exists o, decay now stale score last = Ok o /\ (o = None <-> last = 0) /\
    forall s, o = Some s -> MINIMAL_SCORE <= s <= Z.max MINIMAL_SCORE score /\ (stale <= now - last -> s = MINIMAL_SCORE).
Proof.
  intros Hnow Hlast Hstale Hs. unfold decay. destruct (Z.eqb_spec last 0) as [->|Hne].
  { exists None. split_and!; done. }
  destruct (Z.leb_spec stale (sat_sub now last)) as [Hle|Hlt].
  { exists (Some MINIMAL_SCORE). split; [done|]. split; [by split|]. intros s [= <-]. unfold MINIMAL_SCORE. lia. }
  unfold sat_sub in *. rewrite u64_ok by (unfold U64_MAX; lia). cbn [res_bind]. eexists. split; [done|]. split; [by split|].
  intros s [= <-]. set (left := stale - Z.max 0 (now - last)) in *.
  assert (upto (f64_div (f64_of_Z left) (f64_of_Z stale)) 1) as Hf by (apply (upto_div _ left); [apply within_of_Z|..]; lia).
  assert (upto (f64_mul (f64_of_Z score) (f64_div (f64_of_Z left) (f64_of_Z stale))) score) as Hm.
  { apply (upto_mul _ _ score 1); [apply within_of_Z|done|..]; unfold in_score in Hs; lia. }
  apply (as_uint_within U32_MAX) in Hm; [|done]. unfold as_u32. split; lia.
Qed.

Lemma quic_score_ok up now :
  wf_upstream up -> 0 <= now <= U64_MAX ->
  exists s, quic_score_effective_at up now = Ok s /\ MINIMAL_SCORE <= s <= 1000.
Proof.
  intros [_ Wu Wd _ Ws _ _ _ [Hu Hd] _] Hn. unfold quic_score_effective_at.
  destruct (decay_ok now _ _ _ Hn Hu Ws Wu) as (u & -> & _ & Bu). destruct (decay_ok now _ _ _ Hn Hd Ws Wd) as (d & -> & _ & Bd).
  cbn [res_bind]. unfold in_score, MINIMAL_SCORE, DEFAULT_SCORE in *.
  destruct u as [u|], d as [d|]; [destruct (Bu u eq_refl), (Bd d eq_refl); run_checked|destruct (Bu u eq_refl)|destruct (Bd d eq_refl)|];
    eexists; (split; [done|]); [|lia..].
  split; [apply Z.div_le_lower_bound|apply Z.div_le_upper_bound]; lia.
Qed.

Lemma score_at_ok up now :
  wf_upstream up -> 0 <= now <= U64_MAX ->
  exists s, score_at up now = Ok s /\ in_score s.
Proof.
  intros Hw Hn. unfold score_at. destruct (quic_score_ok up now Hw Hn) as (q & -> & Hq).
  destruct Hw as [Wt _ _ Ww _ _ _ _ _ _]. cbn [res_bind]. unfold in_score, MINIMAL_SCORE, DEFAULT_SCORE in *. run_checked.
  destruct (Upstream.tcp_score_initialized up), (_ || _); run_checked; eexists; (split; [done|]); try lia.
  split; [apply Z.div_le_lower_bound|apply Z.div_le_upper_bound]; nia.
Qed.

Lemma mul_gain_not_nan n g :
  0 <= n < 2 ^ 53 -> f64_is_finite g = true -> f64_le g f64_zero = false -> f64_mul (f64_of_Z n) g <> SpecFloat.S754_nan.
Proof.
  intros Hn Hf Hg. pose proof (within_of_Z n Hn) as Hw.
  destruct (f64_of_Z n) as [s|s| |[] m e], g as [t|t| |[] k f]; try done; try (by destruct Hw as (? & ? & _));
    try (by apply within_finite_neg in Hw).
  by apply round_not_nan.
Qed.

Lemma effective_score_ok up now :
  wf_upstream up -> 0 <= now <= U64_MAX ->
  exists e, effective_score_at up now = Ok e /\ 1 <= e <= 10000000.
Proof.
  intros Hw Hn. unfold effective_score_at. destruct (score_at_ok up now Hw Hn) as (s & -> & Hs).
  cbn [res_bind]. eexists. split; [done|]. unfold as_u64, in_score in *.
  destruct (clamp_cast_Z 1 10000000 (f64_mul (f64_of_Z s) (Upstream.gain up)) U64_MAX) as [H1 H2]; [lia|lia|done|].
  split; [|done]. apply H2, mul_gain_not_nan; [lia|apply Hw..].
Qed.

(** * The bounds of the measures *)

Lemma throughput_part lo d range n x :
  upto (f64_sub x lo) n -> 0 < d < 2 ^ 53 -> n <= d -> 0 <= range < 2 ^ 53 ->
  0 <= as_u32 (f64_mul (f64_div (f64_sub x lo) (f64_of_Z d)) (f64_of_Z range)) <= range.
Proof.
  intros Hx Hd Hn Hr. apply as_uint_within; [|done]. apply (upto_mul _ _ 1 range); [|by apply within_of_Z|lia|lia].
  by apply (upto_div _ n); [| |lia|].
Qed.

Lemma calc_throughput_ok total secs nanos :
  exists o, calc_throughput_score total secs nanos = Ok o /\ forall s, o = Some s -> in_score s.
Proof.
  unfold calc_throughput_score. destruct (total <? _); [by eexists|]. destruct (f64_le _ f64_zero); [by eexists|].
  cbv zeta. set (mib := f64_div (f64_div _ (f64_of_Z 1024)) (f64_of_Z 1024)).
  match goal with |- context [res_bind ?r _] => assert (exists z, r = Ok z) as (z & ->) end.
  { destruct (f64_le (f64_of_Z 50) mib) eqn:E50; [by eexists|].
    destruct (f64_le (f64_of_Z 10) mib) eqn:E10.
    { pose proof (between_Z 10 50 mib ltac:(lia) ltac:(lia) E10 E50) as H.
      pose proof (throughput_part _ 40 200 _ mib H ltac:(lia) ltac:(lia) ltac:(lia)). rewrite u32_ok by (unfold U32_MAX; lia). eauto. }
    destruct (f64_le (f64_of_Z 5) mib) eqn:E5.
    { pose proof (between_Z 5 10 mib ltac:(lia) ltac:(lia) E5 E10) as H.
      pose proof (throughput_part _ 5 200 _ mib H ltac:(lia) ltac:(lia) ltac:(lia)). rewrite u32_ok by (unfold U32_MAX; lia). eauto. }
    destruct (f64_le (f64_of_Z 1) mib) eqn:E1.
    { pose proof (between_Z 1 5 mib ltac:(lia) ltac:(lia) E1 E5) as H.
      pose proof (throughput_part _ 4 300 _ mib H ltac:(lia) ltac:(lia) ltac:(lia)). rewrite u32_ok by (unfold U32_MAX; lia). eauto. }
    destruct (f64_le (f64_ratio 1 10) mib) eqn:E01; [|by eexists].
    pose proof (between_tenth mib E01 E1) as H.
    assert (upto (f64_mul (f64_div (f64_sub mib (f64_ratio 1 10)) (f64_ratio 9 10)) (f64_of_Z 200)) 400) as H2
      by (apply (upto_mul _ _ 2 200); [done|by apply within_of_Z|lia|lia]).
    apply (as_uint_within U32_MAX) in H2; [|done]. unfold as_u32. rewrite u32_ok by (unfold U32_MAX in *; lia). eauto. }
  cbn [res_bind]. eexists. split; [done|]. intros s [= <-]. unfold in_score, clamp. lia.
Qed.

Lemma calc_quic_range rtt loss mtu s : calc_quic_score rtt loss mtu = Some s -> 50 <= s <= 1000.
Proof.
  unfold calc_quic_score. destruct (_ || _); [done|]. cbv zeta. intros [= <-].
  repeat match goal with |- context [if ?b then _ else _] => destruct b end; unfold sat_sub; lia.
Qed.

Lemma relative_range v m : in_score (relative_score v m).
Proof.
  unfold relative_score, in_score. destruct (_ || _); [lia|].
  assert (0 <= as_u32 (f64_clamp f64_zero (f64_of_Z 1000) (f64_mul (f64_div v m) (f64_of_Z 1000)))) by (by apply as_uint_range).
  split; [done|]. by apply (clamp_cast_Z 0 1000).
Qed.

(** * Every update keeps the invariant *)

(** The operations on an upstream after its creation. *)
Inductive ScoreOp :=
  | Track (token fd : Z)
  | ScoreRound (held : Z -> bool) (info : Z -> option (Z * Z)) (relative_mode : bool)
  | UplinkReport (raw : option Z)
  | DownlinkReport (raw : option Z)
  | ProbeReport (q : f64) (link : option bytes)
  | Penalize
  | HealthResult (fail_threshold : Z) (alive : bool)
  | WriteRelative (max_rate_ema max_q_ema : f64) (rate q : option f64).
Definition score_step (now : Z) (up : upstream) (op : ScoreOp) : checked upstream :=
  match op with
  | Track token fd => Ok (track up token fd)
  | ScoreRound held info relative_mode => score_round held info relative_mode now up
  | UplinkReport raw => update_uplink_score now up raw
  | DownlinkReport raw => update_downlink_score now up raw
  | ProbeReport q link => Ok (set_probe_quality now up q link)
  | Penalize => Ok (penalize now up)
  | HealthResult fail_threshold alive => health_result fail_threshold now alive up
  | WriteRelative max_rate_ema max_q_ema rate q => write_relative max_rate_ema max_q_ema rate q up
  end.

(** The byte counters of the kernel, summed, and the count of failed probes
    stay in their machine integers. *)
Definition total_bytes (f : Z * Z -> Z) (infos : list (option (Z * Z))) : Z :=
  foldr (fun i t => default 0 (f <$> i) + t) 0 infos.
Definition op_fits (up : upstream) (op : ScoreOp) : Prop :=
  match op with
  | ScoreRound held info _ =>
      let infos := map (fun e => info e.2) (filter (fun e => held e.1 = true) (Upstream.registry up)) in
      Forall (fun i => match i with Some (r, s) => 0 <= r /\ 0 <= s | None => True end) infos /\
      total_bytes fst infos + total_bytes snd infos <= U64_MAX
  | HealthResult _ _ => Upstream.health_failures up < U32_MAX
  | _ => True
  end.

Lemma total_bytes_cons f i infos : total_bytes f (i :: infos) = default 0 (f <$> i) + total_bytes f infos.
Proof. done. Qed.

Lemma total_bytes_nonneg infos :
  Forall (fun i => match i with Some (r, s) => 0 <= r /\ 0 <= s | None => True end) infos ->
  0 <= total_bytes fst infos /\ 0 <= total_bytes snd infos.
Proof.
  induction 1 as [|[[r s]|] infos Hi _ [IHr IHs]]; rewrite ?total_bytes_cons; [done| |done].
  change (default 0 (fst <$> Some (r, s))) with r. change (default 0 (snd <$> Some (r, s))) with s. lia.
Qed.

Lemma sum_infos_ok infos r s n :
  Forall (fun i => match i with Some (r, s) => 0 <= r /\ 0 <= s | None => True end) infos ->
  0 <= r -> 0 <= s -> (r + total_bytes fst infos) + (s + total_bytes snd infos) <= U64_MAX ->
  exists k, sum_infos infos r s n = Ok (r + total_bytes fst infos, s + total_bytes snd infos, k) /\
    0 <= total_bytes fst infos /\ 0 <= total_bytes snd infos.
Proof.
  intros Hall. revert r s n. induction Hall as [|[[a b]|] infos Hi Hall IH]; intros r s n Hr Hs Hfit;
    cbn [sum_infos]; rewrite ?total_bytes_cons in *.
  - exists n. cbn. by rewrite !Z.add_0_r.
  - destruct Hi as [Ha Hb].
    change (default 0 (fst <$> Some (a, b))) with a in *. change (default 0 (snd <$> Some (a, b))) with b in *.
    assert (0 <= total_bytes fst infos /\ 0 <= total_bytes snd infos) as [Hf Hg].
    { by apply total_bytes_nonneg. }
    rewrite !u64_ok by lia. cbn [res_bind].
    destruct (IH (r + a) (s + b) (n + 1)) as (k & -> & _ & _); [lia..|]. exists k. split; [by rewrite !Z.add_assoc|lia].
  - change (default 0 (fst <$> None)) with 0 in *. change (default 0 (snd <$> None)) with 0 in *. by apply IH.
Qed.

Lemma blend_score a b x y d : in_score a -> in_score b -> 0 <= x -> 0 <= y -> 0 < d -> x + y <= d -> in_score ((a * x + b * y) / d).
Proof.
  unfold in_score. intros Ha Hb Hx Hy Hd Hxy. split; [apply Z.div_pos; nia|]. apply Z.div_le_upper_bound; nia.
Qed.

Lemma update_link_ok now raw score last :
  0 <= now -> in_score score -> 0 <= last ->
  exists s l, update_link_score now raw score last = Ok (s, l) /\ in_score s /\ 0 <= l.
Proof.
  intros Hn Hs Hl. unfold update_link_score. destruct raw as [raw|]; [|eauto 6]. cbv zeta.
  destruct (_ <? 5); [eauto 6|]. assert (in_score (clamp 0 1000 raw)) as Hr by (unfold in_score, clamp; lia).
  unfold in_score in Hs, Hr. rewrite !u32_ok by (unfold U32_MAX; lia).
  cbn [res_bind]. rewrite u32_ok by (unfold U32_MAX; lia). cbn [res_bind]. eexists _, _. split; [done|]. split; [|done]. by apply blend_score.
Qed.

(** Rebuilds the invariant field by field after an update. *)
Ltac wf_update :=
  match goal with Hw : wf_upstream ?up |- _ => destruct Hw; destruct up; cbn in *; split; cbn in *; try done; try (unfold in_score, constant in *; lia) end.

Lemma penalize_wf now up : 0 <= now -> wf_upstream up -> wf_upstream (penalize now up).
Proof. intros Hn Hw. unfold penalize, DEFAULT_SCORE. wf_update. Qed.

(** The configured part of an upstream. *)
Definition same_upstream (up up' : upstream) : Prop :=
  Upstream.id up' = Upstream.id up /\ Upstream.addr up' = Upstream.addr up /\
  Upstream.groups up' = Upstream.groups up /\ Upstream.gain up' = Upstream.gain up.

Definition keeps (up : upstream) (r : checked upstream) : Prop :=
  exists up', r = Ok up' /\ wf_upstream up' /\ same_upstream up up'.

Lemma keeps_ok up up' : wf_upstream up' -> same_upstream up up' -> keeps up (Ok up').
Proof. intros. by exists up'. Qed.

Lemma score_round_keeps held info relative_mode now up :
  wf_upstream up -> 0 <= now -> op_fits up (ScoreRound held info relative_mode) ->
  keeps up (score_round held info relative_mode now up).
Proof.
  intros Hw Hn [Hall Hfit]. unfold score_round. cbv zeta.
  destruct (total_bytes_nonneg _ Hall) as [Hr0 Hs0].
  destruct (sum_infos_ok _ 0 0 0 Hall ltac:(lia) ltac:(lia) ltac:(lia)) as (k & -> & _). rewrite !Z.add_0_l. cbn [res_bind].
  set (r := total_bytes fst _) in *. set (s := total_bytes snd _) in *. clearbody r s.
  destruct (k =? 0); [apply keeps_ok; [wf_update|by destruct up]|].
  destruct (negb _); [apply keeps_ok; [wf_update|by destruct up]|].
  match goal with |- keeps _ (res_bind (u64 ?d) _) => assert (0 <= d <= U64_MAX) as Hd end.
  { destruct Hw. destruct up; cbn in *. unfold sat_sub. lia. }
  rewrite u64_ok by exact Hd. cbn [res_bind].
  destruct (_ <=? _); [|apply keeps_ok; [wf_update|by destruct up]].
  destruct relative_mode; [apply keeps_ok; [wf_update|by destruct up]|].
  match goal with |- keeps _ (res_bind (calc_throughput_score ?a ?b ?c) _) =>
    destruct (calc_throughput_ok a b c) as ([raw|] & -> & Hraw) end; cbn [res_bind];
    [specialize (Hraw raw eq_refl)|apply keeps_ok; [wf_update|by destruct up]].
  match goal with |- context [u32 (?old * 5)] => assert (in_score old) as Hold by (destruct Hw; by destruct up) end.
  pose proof (blend_score _ raw 5 5 10 Hold Hraw ltac:(lia) ltac:(lia) ltac:(lia) ltac:(lia)) as Hb.
  unfold in_score in Hold, Hraw. rewrite !u32_ok by (unfold U32_MAX; lia). cbn [res_bind].
  rewrite u32_ok by (unfold U32_MAX; lia). cbn [res_bind]. apply keeps_ok; [wf_update|by destruct up].
Qed.

Lemma health_result_keeps threshold now alive up :
  wf_upstream up -> 0 <= now -> Upstream.health_failures up < U32_MAX ->
  keeps up (health_result threshold now alive up).
Proof.
  intros Hw Hn Hf. pose proof (wf_failures up Hw) as Hf0. unfold health_result. destruct alive; cbv zeta.
  - destruct (_ <=? _); (apply keeps_ok; [wf_update|by destruct up]).
  - rewrite u32_ok by lia. cbn [res_bind].
    assert (wf_upstream { up with Upstream.health_failures := Upstream.health_failures up + 1 }) as Hw' by wf_update.
    destruct (_ =? _); (apply keeps_ok; [|by destruct up]); [by apply penalize_wf|done].
Qed.

Lemma write_relative_keeps max_rate_ema max_q_ema rate q up :
  wf_upstream up -> keeps up (write_relative max_rate_ema max_q_ema rate q up).
Proof.
  intros Hw. unfold write_relative. cbv zeta. set (up1 := match q with Some _ => _ | None => _ end).
  assert (wf_upstream up1 /\ same_upstream up up1) as [Hw1 Hs1].
  { unfold up1. destruct q as [q|]; [|done]. destruct (f64_lt _ _); [|done].
    pose proof (relative_range q max_q_ema). set (z := relative_score q max_q_ema) in *. clearbody z.
    split; [wf_update|by destruct up]. }
  clearbody up1. assert (keeps up (Ok (cold_start max_q_ema q up1))) as Hcold.
  { unfold cold_start. destruct (_ && _); [|by apply keeps_ok].
    set (z := match q with Some _ => _ | None => _ end). assert (in_score z) as Hz by (destruct q; apply relative_range).
    clearbody z. apply keeps_ok; [wf_update|by destruct up1]. }
  destruct rate as [rate|]; [|done]. destruct (f64_lt _ _); [|done].
  pose proof (relative_range rate max_rate_ema) as Hr. set (z := relative_score rate max_rate_ema) in *. clearbody z.
  pose proof (wf_tcp up1 Hw1) as Ht. pose proof (blend_score _ _ 1 1 2 Ht Hr ltac:(lia) ltac:(lia) ltac:(lia) ltac:(lia)) as Hb.
  rewrite !Z.mul_1_r in Hb. unfold in_score in Ht, Hr. rewrite u32_ok by (unfold U32_MAX; lia). cbn [res_bind].
  apply keeps_ok; [wf_update|by destruct up1].
Qed.

Lemma score_step_keeps now up op :
  wf_upstream up -> 0 <= now <= U64_MAX -> op_fits up op -> keeps up (score_step now up op).
Proof.
  intros Hw [Hn _] Hfit. pose proof Hw as [_ Hu Hd _ _ _ _ _ [Hut Hdt] _].
  destruct op; cbn [score_step].
  - apply keeps_ok; [wf_update|by destruct up].
  - by apply score_round_keeps.
  - unfold update_uplink_score. destruct (update_link_ok now raw _ _ Hn Hu Hut) as (s & l & -> & ? & ?).
    apply keeps_ok; [wf_update|by destruct up].
  - unfold update_downlink_score. destruct (update_link_ok now raw _ _ Hn Hd Hdt) as (s & l & -> & ? & ?).
    apply keeps_ok; [wf_update|by destruct up].
  - unfold set_probe_quality. apply keeps_ok; destruct (bool_decide _); [wf_update..|by destruct up|by destruct up].
  - apply keeps_ok; [by apply penalize_wf|by destruct up].
  - by apply health_result_keeps.
  - by apply write_relative_keeps.
Qed.

Lemma upstream_new_wf id addr groups gain weight stale :
  f64_is_finite gain = true -> f64_le gain f64_zero = false -> stale < 2 ^ 53 ->
  wf_upstream (set_quic_stale_secs (set_quic_weight (upstream_new id addr groups gain) weight) stale).
Proof.
  intros Hf Hg Hs. split; unfold in_score; cbn; unfold constant, clamp, DEFAULT_SCORE, U32_MAX; try lia; done.
Qed.

(** * Histories of an upstream *)

(** The operations on one upstream, each with the time it reads. *)
Fixpoint run_scores (up : upstream) (l : list (Z * ScoreOp)) : checked upstream :=
  match l with
  | [] => Ok up
  | (now, op) :: l => let? up := score_step now up op in run_scores up l
  end.
Fixpoint ops_fit (up : upstream) (l : list (Z * ScoreOp)) : Prop :=
  match l with
  | [] => True
  | (now, op) :: l =>
      0 <= now <= U64_MAX /\ op_fits up op /\ forall up', score_step now up op = Ok up' -> ops_fit up' l
  end.

Lemma run_scores_keeps up l : wf_upstream up -> ops_fit up l -> keeps up (run_scores up l).
Proof.
  revert up. induction l as [|[now op] l IH]; intros up Hw; cbn [ops_fit run_scores]; [intros _; by apply keeps_ok|].
  intros (Hn & Hop & Hl). destruct (score_step_keeps now up op Hw Hn Hop) as (up' & E & Hw' & Hs).
  rewrite E. cbn [res_bind]. destruct (IH up' Hw' (Hl up' E)) as (up2 & E2 & Hw2 & Hs2).
  exists up2. split_and!; [done|done|]. destruct Hs as (? & ? & ? & ?), Hs2 as (? & ? & ? & ?). split_and!; congruence.
Qed.

Lemma blend_between a b w :
  0 <= w <= 100 -> Z.min a b <= (a * (100 - w) + b * w) / 100 <= Z.max a b.
Proof. intros Hw. split; [apply Z.div_le_lower_bound|apply Z.div_le_upper_bound]; nia. Qed.

(** The failed probes in a row after an operation. *)
Definition failures_after (n : Z) (op : ScoreOp) : Z :=
  match op with HealthResult _ alive => if alive then 0 else n + 1 | _ => n end.

Lemma res_bind_inv {E A B} (r : res E A) (f : A -> res E B) b :
  res_bind r f = Ok b -> exists a, r = Ok a /\ f a = Ok b.
Proof. apply res_bind_ok. Qed.

(** Follows an update that succeeded to the fields it wrote. *)
Ltac score_inv H :=
  repeat first
    [ apply res_bind_inv in H as (? & ? & H)
    | match type of H with
      | context [match ?o with _ => _ end] => destruct o eqn:?; [..|try discriminate H]
      | context [if ?b then _ else _] => destruct b
      end ]; try discriminate H.

Lemma u32_inv z x : u32 z = Ok x -> x = z.
Proof. unfold u32. destruct (_ && _); [by intros [= <-]|done]. Qed.

Lemma score_round_failures held info m now up up' :
  score_round held info m now up = Ok up' -> Upstream.health_failures up' = Upstream.health_failures up.
Proof. unfold score_round. cbv zeta. intros H. score_inv H; injection H as <-; by destruct up. Qed.

Lemma score_step_failures now up op up' :
  score_step now up op = Ok up' -> Upstream.health_failures up' = failures_after (Upstream.health_failures up) op.
Proof.
  destruct op; cbn [score_step failures_after]; intros H.
  - injection H as <-. by destruct up.
  - by apply score_round_failures in H.
  - unfold update_uplink_score in H. score_inv H. injection H as <-. by destruct up.
  - unfold update_downlink_score in H. score_inv H. injection H as <-. by destruct up.
  - injection H as <-. unfold set_probe_quality. destruct (bool_decide _); by destruct up.
  - injection H as <-. by destruct up.
  - unfold health_result in H. cbv zeta in H. destruct alive.
    + destruct (_ <=? _); injection H as <-; by destruct up.
    + apply res_bind_inv in H as (f & Hf & H). apply u32_inv in Hf as ->.
      destruct (_ =? _); injection H as <-; by destruct up.
  - unfold write_relative, cold_start in H. cbv zeta in H. score_inv H; injection H as <-; by destruct up.
Qed.

Lemma run_scores_app up l1 l2 up1 :
  run_scores up l1 = Ok up1 -> run_scores up (l1 ++ l2) = run_scores up1 l2.
Proof.
  revert up. induction l1 as [|[now op] l1 IH]; intros up; cbn [run_scores app]; [by intros [= ->]|].
  intros (up' & E & H)%res_bind_inv. rewrite E. cbn [res_bind]. by apply IH.
Qed.

(** * Theorems *)

(** C25: the type of a live upstream: started from [Upstream::new] and the
    configuration of the set with a finite positive gain, no sequence of
    tracked connections, score rounds, probe reports, health results,
    penalties and relative scores overflows or panics; every score stays in
    0..1000, the weight in 0..100, the measurements and times nonnegative, and
    the id, address, groups and gain never change. The effective score read at
    any time afterwards is a number in 1..10,000,000. *)
Theorem score_history_typed id addr groups gain weight stale l now :
  f64_is_finite gain = true -> f64_le gain f64_zero = false -> stale < 2 ^ 53 -> 0 <= now <= U64_MAX ->
  let up := set_quic_stale_secs (set_quic_weight (upstream_new id addr groups gain) weight) stale in
  ops_fit up l ->
  exists up' e, run_scores up l = Ok up' /\ wf_upstream up' /\
    Upstream.id up' = id /\ Upstream.addr up' = addr /\ Upstream.groups up' = groups /\ Upstream.gain up' = gain /\
    effective_score_at up' now = Ok e /\ 1 <= e <= 10000000.
Proof.
  intros Hf Hg Hs Hn up Hl. destruct (run_scores_keeps up l (upstream_new_wf _ _ _ _ _ _ Hf Hg Hs) Hl) as (up' & E & Hw & H).
  destruct (effective_score_ok up' now Hw Hn) as (e & Ee & He). exists up', e. split; [done|]. split; [done|].
  destruct H as (-> & -> & -> & ->). by rewrite Ee.
Qed.

Definition example_score_ops : list (Z * ScoreOp) :=
  [(10, Track 1 4); (12, ScoreRound (fun _ => true) (fun _ => Some (1000, 1000)) false);
   (14, ScoreRound (fun _ => true) (fun _ => Some (41000000, 1000)) false);
   (20, UplinkReport (calc_quic_score (f64_of_Z 100) (f64_ratio 1 50) 1400)); (30, HealthResult 2 false);
   (31, HealthResult 2 false); (40, WriteRelative f64_one f64_one (Some f64_one) None)].

Lemma score_history_typed_witness :
  exists up' e,
    run_scores (set_quic_stale_secs (set_quic_weight (upstream_new (bs "u") {| sa_ip := V4 1; sa_port := 1080 |} [] f64_one) 40) 180)
      example_score_ops = Ok up' /\ wf_upstream up' /\
    Upstream.id up' = bs "u" /\ Upstream.addr up' = {| sa_ip := V4 1; sa_port := 1080 |} /\ Upstream.groups up' = [] /\
    Upstream.gain up' = f64_one /\ effective_score_at up' 41 = Ok e /\ 1 <= e <= 10000000.
Proof.
  apply (score_history_typed (bs "u") {| sa_ip := V4 1; sa_port := 1080 |} [] f64_one 40 180 example_score_ops 41);
    [reflexivity|reflexivity|lia|unfold U64_MAX; lia|].
  set (up := set_quic_stale_secs _ _). vm_compute in up. subst up. unfold example_score_ops.
  repeat (cbn [ops_fit]; split; [by unfold U64_MAX|]; split;
    [cbn; by repeat constructor|let up' := fresh "up" in let E := fresh in
      intros up' E; vm_compute in E; injection E as E; subst up']).
  done.
Defined.

Definition is_health (op : ScoreOp) : bool := if op is HealthResult _ _ then true else false.

(** The result of a failing probe, told by the failures in a row. *)
Definition failed_probe (threshold now n : Z) (up : upstream) : upstream :=
  let up' := { up with Upstream.health_failures := n + 1 } in
  if n + 1 =? threshold then penalize now up' else up'.
Definition answered_probe (threshold n : Z) (up : upstream) : upstream :=
  let up' := { up with Upstream.health_failures := 0 } in
  if threshold <=? n then { up' with Upstream.tcp_score := 300; Upstream.tcp_score_initialized := true } else up'.

(** The health check counts failed probes in a row: after any history of a
    well-formed upstream whose counter was [n0], interleaved with every other
    update in any order, a further failing probe raises the count and
    penalises the upstream exactly when the count reaches the threshold, and a
    successful one clears the count and resets the TCP score to 300 exactly
    when the threshold had been reached; neither changes anything else. *)
Theorem health_check_counts up0 l up now threshold :
  wf_upstream up0 -> ops_fit up0 l -> run_scores up0 l = Ok up -> Upstream.health_failures up < U32_MAX ->
  let n := foldl failures_after (Upstream.health_failures up0) (map snd l) in
  Upstream.health_failures up = n /\
  health_result threshold now false up = Ok (failed_probe threshold now n up) /\
  health_result threshold now true up = Ok (answered_probe threshold n up).
Proof.
  intros Hw Hl Hrun Hf n. destruct (run_scores_keeps up0 l Hw Hl) as (up' & E & Hw' & _).
  rewrite Hrun in E. injection E as <-.
  assert (Upstream.health_failures up = n) as Hn.
  { subst n. clear Hw Hl Hw' Hf. revert up0 Hrun. induction l as [|[t op] l IH]; intros up0; cbn [run_scores map foldl snd].
    - by intros [= ->].
    - intros (up1 & E & H)%res_bind_inv. rewrite (IH up1 H). by rewrite (score_step_failures t up0 op up1 E). }
  split; [done|]. clearbody n. subst n. pose proof (wf_failures up Hw').
  unfold health_result, failed_probe, answered_probe. cbv zeta. rewrite u32_ok by lia. cbn [res_bind].
  split; [destruct (_ =? threshold)|destruct (threshold <=? _)]; done.
Qed.

Lemma penalized_score now up :
  wf_upstream up -> 0 < now <= U64_MAX ->
  exists s, score_at (penalize now up) now = Ok s /\ MINIMAL_SCORE <= s <= DEFAULT_SCORE.
Proof.
  intros Hw Hn. unfold score_at, quic_score_effective_at. destruct up. unfold penalize. destruct Hw; cbn in *. unfold constant.
  destruct (decay_ok now quic_stale_secs DEFAULT_SCORE now) as (o & -> & Ho & Bo); [lia..|unfold in_score, DEFAULT_SCORE; lia|].
  destruct o as [q|]; [|exfalso; destruct Ho as [Ho _]; specialize (Ho eq_refl); lia].
  destruct (Bo q eq_refl) as [Bq _]. cbn [res_bind]. rewrite (proj2 (Z.ltb_lt 0 now)) by lia. cbn [orb].
  unfold MINIMAL_SCORE, DEFAULT_SCORE in *. rewrite u32_ok by (unfold U32_MAX; lia). cbn [res_bind].
  replace (q + q) with (q * 2) by lia. rewrite Z.div_mul by lia. run_checked. eexists. split; [done|].
  pose proof (blend_between 75 q quic_weight wf_weight0). lia.
Qed.

(** A dead upstream is found out: as long as every probe fails, then
    whatever connection, report and relative-score updates run in between, an
    upstream whose count is below the threshold is penalised within the
    remaining number of probes, at the probe that reaches the threshold: its
    score becomes the base of a new upstream, at most 75, from whatever it
    was, so that other members of its groups outweigh it. *)
Theorem dead_upstream_penalized up l threshold :
  wf_upstream up -> ops_fit up l -> Upstream.health_failures up < threshold ->
  Forall (fun e => 0 < e.1 /\ match e.2 with HealthResult t alive => t = threshold /\ alive = false | _ => True end) l ->
  threshold - Upstream.health_failures up <=
    Z.of_nat (length (filter (fun e => is_health e.2 = true) l)) ->
  exists l1 now l2 up1 up2 s,
    l = l1 ++ (now, HealthResult threshold false) :: l2 /\
    run_scores up l1 = Ok up1 /\ Upstream.health_failures up1 = threshold - 1 /\
    run_scores up (l1 ++ [(now, HealthResult threshold false)]) = Ok up2 /\
    Upstream.tcp_score up2 = DEFAULT_SCORE /\ score_at up2 now = Ok s /\ MINIMAL_SCORE <= s <= DEFAULT_SCORE.
Proof.
  intros Hw Hfit Hlt Hall. revert up Hw Hfit Hlt. induction l as [|[now op] l IH]; intros up Hw Hfit Hlt Hcount.
  { cbn in Hcount. lia. }
  destruct Hfit as (Hn & Hop & Hfit). apply Forall_cons in Hall as [[Hpos Hfail] Hall]. cbn [fst snd] in *.
  destruct (score_step_keeps now up op Hw Hn Hop) as (up' & E & Hw' & _). specialize (Hfit up' E).
  pose proof (score_step_failures now up op up' E) as Hf.
  rewrite filter_cons in Hcount. cbn [snd] in Hcount.
  assert (Upstream.health_failures up' < threshold ->
    threshold - Upstream.health_failures up' <=
      Z.of_nat (length (filter (fun e => is_health e.2 = true) l)) ->
    exists l1 now' l2 up1 up2 s,
      (now, op) :: l = l1 ++ (now', HealthResult threshold false) :: l2 /\
      run_scores up l1 = Ok up1 /\ Upstream.health_failures up1 = threshold - 1 /\
      run_scores up (l1 ++ [(now', HealthResult threshold false)]) = Ok up2 /\
      Upstream.tcp_score up2 = DEFAULT_SCORE /\ score_at up2 now' = Ok s /\ MINIMAL_SCORE <= s <= DEFAULT_SCORE) as Hlater.
  { intros H1 H2. destruct (IH Hall up' Hw' Hfit H1 H2) as (l1 & now' & l2 & up1 & up2 & s & -> & R1 & F1 & R2 & T2 & S2 & Hs).
    exists ((now, op) :: l1), now', l2, up1, up2, s. cbn [app run_scores]. rewrite E. cbn [res_bind]. by repeat (split; [done|]). }
  destruct op; cbn [failures_after] in Hf; try (apply Hlater; by rewrite Hf).
  destruct Hfail as [-> ->]. cbn [is_health] in Hcount. rewrite decide_True in Hcount by done. cbn [length] in Hcount.
  destruct (decide (Upstream.health_failures up + 1 = threshold)) as [Ht|Ht]; [|apply Hlater; rewrite Hf; lia].
  exists [], now, l, up, up'. destruct (penalized_score now { up with Upstream.health_failures := threshold } ) as (s & Es & Bs).
  { clear - Hw Hop Ht. wf_update. }
  { lia. }
  exists s. cbn [app run_scores]. rewrite E. split_and!; try done; try lia.
  all: cbn [score_step] in E; unfold health_result in E; cbv zeta in E; pose proof (wf_failures up Hw);
    cbn in Hop; rewrite u32_ok in E by lia; cbn [res_bind] in E; rewrite Ht, Z.eqb_refl in E; injection E as <-; try done. all: by destruct up.
Qed.

Lemma health_check_counts_witness :
  let up := upstream_new (bs "u") {| sa_ip := V4 1; sa_port := 1080 |} [] f64_one in
  exists up', run_scores up [(5, HealthResult 2 false)] = Ok up' /\ Upstream.health_failures up' = 1 /\
    health_result 2 6 false up' = Ok (failed_probe 2 6 1 up') /\ health_result 2 6 true up' = Ok (answered_probe 2 1 up').
Proof.
  intros up. eexists. split; [vm_compute; reflexivity|].
  apply (health_check_counts up [(5, HealthResult 2 false)] _ 6 2); [|..|vm_compute; reflexivity|done].
  - by apply (upstream_new_wf _ _ _ f64_one 40 180).
  - split; [done|]. split; [done|]. by intros up' _.
Defined.

Lemma dead_upstream_penalized_witness :
  let up := upstream_new (bs "u") {| sa_ip := V4 1; sa_port := 1080 |} [] f64_one in
  let l := [(5, HealthResult 2 false); (6, Track 1 4); (7, HealthResult 2 false)] in
  exists l1 now l2 up1 up2 s,
    l = l1 ++ (now, HealthResult 2 false) :: l2 /\
    run_scores up l1 = Ok up1 /\ Upstream.health_failures up1 = 2 - 1 /\
    run_scores up (l1 ++ [(now, HealthResult 2 false)]) = Ok up2 /\
    Upstream.tcp_score up2 = DEFAULT_SCORE /\ score_at up2 now = Ok s /\ MINIMAL_SCORE <= s <= DEFAULT_SCORE.
Proof.
  intros up l. apply dead_upstream_penalized.
  - by apply (upstream_new_wf _ _ _ f64_one 40 180).
  - split; [done|]. split; [done|]. intros up1 E1. vm_compute in E1. injection E1 as <-.
    split; [done|]. split; [done|]. intros up2 E2. vm_compute in E2. injection E2 as <-.
    split; [done|]. split; [done|]. by intros ? _.
  - done.
  - by repeat constructor.
  - vm_compute. discriminate.
Defined.

(** What the score measures: for a well-formed upstream the probe score is
    75 before any report, in 10..1000 otherwise, and exactly 10 once no
    direction has reported for the stale time; the score is the throughput
    score or the probe score when only one was measured, the default when
    none was, and lies between the two when both were. *)
Theorem score_composition up now :
  wf_upstream up -> 0 <= now <= U64_MAX ->
  let reported d := d <> 0 in
  let stale d := d = 0 \/ Upstream.quic_stale_secs up <= now - d in
  let u := Upstream.quic_uplink_last_update_secs up in
  let d := Upstream.quic_downlink_last_update_secs up in
  exists q s, quic_score_effective_at up now = Ok q /\ score_at up now = Ok s /\
    MINIMAL_SCORE <= q <= 1000 /\
    (u = 0 -> d = 0 -> q = DEFAULT_SCORE) /\
    (reported u \/ reported d -> stale u -> stale d -> q = MINIMAL_SCORE) /\
    if Upstream.tcp_score_initialized up then
      if (0 <? u) || (0 <? d) then Z.min (Upstream.tcp_score up) q <= s <= Z.max (Upstream.tcp_score up) q
      else s = Upstream.tcp_score up
    else s = q.
Proof.
  intros Hw Hn reported stale u d. destruct (quic_score_ok up now Hw Hn) as (q & Eq & Hq), (score_at_ok up now Hw Hn) as (s & Es & _).
  exists q, s. split; [done|]. split; [done|]. split; [done|].
  pose proof Hw as [Wt Wu Wd Ww Ws _ _ _ [Hu Hd] _]. fold u d in Hu, Hd.
  match goal with |- ?A /\ ?B /\ ?C => cut ((A /\ B) /\ C); [tauto|] end. split.
  - clear Es. unfold quic_score_effective_at in Eq. fold u d in Eq.
    destruct (decay_ok now _ _ u Hn Hu Ws Wu) as (ou & Eu & Nu & Bu), (decay_ok now _ _ d Hn Hd Ws Wd) as (od & Ed & Nd & Bd).
    rewrite Eu, Ed in Eq. cbn [res_bind] in Eq. split.
    + intros Hu0 Hd0. rewrite (proj2 Nu Hu0), (proj2 Nd Hd0) in Eq. congruence.
    + subst reported stale. cbn beta. intros Hr Su Sd.
      assert (forall x, ou = Some x -> x = MINIMAL_SCORE) as Mu.
      { intros x ->. destruct Su as [Su|Su]; [by apply Nu in Su|]. by apply (Bu x eq_refl). }
      assert (forall x, od = Some x -> x = MINIMAL_SCORE) as Md.
      { intros x ->. destruct Sd as [Sd|Sd]; [by apply Nd in Sd|]. by apply (Bd x eq_refl). }
      destruct ou as [x|]; [rewrite (Mu x eq_refl) in Eq|]; (destruct od as [y|]; [rewrite (Md y eq_refl) in Eq|]);
        try (vm_compute in Eq; by injection Eq as <-). exfalso. destruct Hr as [Hr|Hr]; [exact (Hr (proj1 Nu eq_refl))|exact (Hr (proj1 Nd eq_refl))].
  - unfold score_at in Es. rewrite Eq in Es. cbn [res_bind] in Es. fold u d in Es.
    unfold in_score, MINIMAL_SCORE in *. rewrite u32_ok in Es by (unfold U32_MAX; lia). cbn [res_bind] in Es.
    destruct (Upstream.tcp_score_initialized up); destruct ((0 <? u) || (0 <? d)) eqn:Ev; try congruence.
    + rewrite !u32_ok in Es by (unfold U32_MAX; nia). cbn [res_bind] in Es. rewrite u32_ok in Es by (unfold U32_MAX; nia).
      cbn [res_bind] in Es. injection Es as <-. by apply blend_between.
    + apply orb_false_iff in Ev as [?%Z.ltb_ge ?%Z.ltb_ge]. injection Es as <-.
      assert (u = 0) as Hu0 by lia. assert (d = 0) as Hd0 by lia. unfold quic_score_effective_at in Eq. fold u d in Eq.
      rewrite Hu0, Hd0 in Eq. cbn in Eq. congruence.
Qed.

Lemma score_composition_witness :
  let up := penalize 5 (upstream_new (bs "u") {| sa_ip := V4 1; sa_port := 1080 |} [] f64_one) in
  exists q s, quic_score_effective_at up 500 = Ok q /\ score_at up 500 = Ok s /\ q = MINIMAL_SCORE /\ s = 49.
Proof.
  intros up. destruct (score_composition up 500) as (q & s & Eq & Es & _ & _ & H & _).
  - apply penalize_wf; [done|]. by apply (upstream_new_wf _ _ _ f64_one 40 180).
  - by unfold U64_MAX.
  - exists q, s. split; [done|]. split; [done|]. split; [apply H; [by left|right; vm_compute; discriminate..]|].
    vm_compute in Es. congruence.
Defined.
