(* ===== verification/Stats.v ===== *)
(** The statistics of picks, [PickStats] of [src/src/upstream.rs]: counts per
    upstream in a queue of time buckets, refined from the plain list of the
    picks that are still in the window. *)

From Stdlib Require Import Strings.String Sorting.Sorted.
From S2P Require Import Prelude Bytes Ordered Float64 Config Scores.
#[local] Open Scope Z_scope.

Module PickStatsBucket.
Record PickStatsBucket := { start_secs : Z; counts : list Z }.
End PickStatsBucket.
Abbreviation Bucket := PickStatsBucket.PickStatsBucket.

Definition PICK_STATS_BUCKET_SECS : Z := 10.

(** [PickStats] and its [PickStatsInner]. *)
Module PickStats.
Record PickStats := {
  window_secs : Z;
  bucket_secs : Z;
  indexes : gmap bytes nat;
  upstream_ids : list bytes;
  buckets : list Bucket;
  totals : list Z;
  last_log_secs : Z;
}.
End PickStats.
Abbreviation Stats := PickStats.PickStats.
Definition set_inner (ps : Stats) (buckets : list Bucket) (totals : list Z) : Stats := {|
  PickStats.window_secs := PickStats.window_secs ps;
  PickStats.bucket_secs := PickStats.bucket_secs ps;
  PickStats.indexes := PickStats.indexes ps;
  PickStats.upstream_ids := PickStats.upstream_ids ps;
  PickStats.buckets := buckets;
  PickStats.totals := totals;
  PickStats.last_log_secs := PickStats.last_log_secs ps;
|}.
Definition set_last_log (ps : Stats) (now : Z) : Stats := {|
  PickStats.window_secs := PickStats.window_secs ps;
  PickStats.bucket_secs := PickStats.bucket_secs ps;
  PickStats.indexes := PickStats.indexes ps;
  PickStats.upstream_ids := PickStats.upstream_ids ps;
  PickStats.buckets := PickStats.buckets ps;
  PickStats.totals := PickStats.totals ps;
  PickStats.last_log_secs := now;
|}.

(** [collect] into a [HashMap]: the last index of an id stays. *)
Definition index_ids (ids : list bytes) : gmap bytes nat :=
  foldl (fun m e => <[e.2 := e.1]> m) ∅ (imap pair ids).

Definition pick_stats_new (window_secs : Z) (upstream_ids : list bytes) : Stats := {|
  PickStats.window_secs := window_secs;
  PickStats.bucket_secs := Z.max (Z.min PICK_STATS_BUCKET_SECS window_secs) 1;
  PickStats.indexes := index_ids upstream_ids;
  PickStats.upstream_ids := upstream_ids;
  PickStats.buckets := [];
  PickStats.totals := replicate (length upstream_ids) 0;
  PickStats.last_log_secs := 0;
|}.

Definition u64_sat_add (a b : Z) : Z := Z.min U64_MAX (a + b).

(** The subtraction of an expired bucket; its [debug_assert] is a panic. *)
Fixpoint expire (totals counts : list Z) : checked (list Z) :=
  match totals, counts with
  | total :: totals, cnt :: counts =>
      if cnt <=? total then let? rest := expire totals counts in Ok (sat_sub total cnt :: rest) else Panic
  | _, _ => Ok totals
  end.

(** The loop that drops the buckets out of the window. *)
Fixpoint evict (bucket_secs cutoff : Z) (buckets : list Bucket) (totals : list Z) : checked (list Bucket * list Z) :=
  match buckets with
  | b :: rest =>
      if u64_sat_add (PickStatsBucket.start_secs b) bucket_secs <=? cutoff then
        let? totals := expire totals (PickStatsBucket.counts b) in
        evict bucket_secs cutoff rest totals
      else Ok (buckets, totals)
  | [] => Ok (buckets, totals)
  end.

(** The current bucket, found or pushed at the back. *)
Definition current_bucket (n : nat) (bucket_start : Z) (buckets : list Bucket) : list Bucket :=
  let use_existing :=
    match last buckets with Some b => bucket_start <? PickStatsBucket.start_secs b | None => false end in
  let other :=
    match last buckets with Some b => negb (PickStatsBucket.start_secs b =? bucket_start) | None => true end in
  if negb use_existing && other then
    buckets ++ [{| PickStatsBucket.start_secs := bucket_start; PickStatsBucket.counts := replicate n 0 |}]
  else buckets.

(** [v[i] += 1] on a [Vec<u64>] *)
Definition bump (i : nat) (v : list Z) : checked (list Z) :=
  let? c := or_panic (v !! i) in
  let? c := u64 (c + 1) in
  Ok (<[i := c]> v).

Definition record_at (ps : Stats) (now : Z) (upstream_index : nat) : checked Stats :=
  let bucket_start := now / PickStats.bucket_secs ps * PickStats.bucket_secs ps in
  let cutoff := sat_sub now (PickStats.window_secs ps) in
  let n := length (PickStats.upstream_ids ps) in
  let? (buckets, totals) :=
    evict (PickStats.bucket_secs ps) cutoff (PickStats.buckets ps) (PickStats.totals ps) in
  let buckets := current_bucket n bucket_start buckets in
  let? bucket := or_panic (last buckets) in
  let? counts := bump upstream_index (PickStatsBucket.counts bucket) in
  let bucket :=
    {| PickStatsBucket.start_secs := PickStatsBucket.start_secs bucket; PickStatsBucket.counts := counts |} in
  let? totals := bump upstream_index totals in
  Ok (set_inner ps (<[pred (length buckets) := bucket]> buckets) totals).

(** [record_by_id]; the [debug_assert] on an unknown id is a panic. *)
Definition record_by_id (ps : Stats) (now : Z) (upstream_id : bytes) : checked (bool * Stats) :=
  match PickStats.indexes ps !! upstream_id with
  | None => Panic
  | Some idx => let? ps := record_at ps now idx in Ok (true, ps)
  end.

Definition counts (ps : Stats) : list (bytes * Z) :=
  sort_desc snd (filter (fun e => 0 < e.2) (zip (PickStats.upstream_ids ps) (PickStats.totals ps))).

Fixpoint sum_u64 (l : list Z) (acc : Z) : checked Z :=
  match l with [] => Ok acc | x :: l => let? acc := u64 (acc + x) in sum_u64 l acc end.

(** [maybe_log], with the total and the counts of the line it prints. *)
Definition maybe_log (ps : Stats) (now : Z) : checked (option (Z * list (bytes * Z)) * Stats) :=
  let last := PickStats.last_log_secs ps in
  if now <? last then Ok (None, set_last_log ps now)
  else if now - last <? 60 then Ok (None, ps)
  else
    let ps := set_last_log ps now in
    let cs := counts ps in
    match cs with
    | [] => Ok (None, ps)
    | _ => let? total := sum_u64 (map snd cs) 0 in Ok (Some (total, cs), ps)
    end.

(** * The picks in the window *)

(** The specification keeps every pick that counts, with the start of the
    bucket that holds it: a new one goes to the bucket of its time, or to the
    newest one when the clock went back. *)
Definition live_step (window bucket_secs : Z) (live : list (Z * nat)) (pick : Z * nat) : list (Z * nat) :=
  let '(now, i) := pick in
  let live := filter (fun e => sat_sub now window < e.1 + bucket_secs) live in
  let start := now / bucket_secs * bucket_secs in
  let start := match last live with Some e => Z.max e.1 start | None => start end in
  live ++ [(start, i)].

Definition picks_of (i : nat) (l : list nat) : Z := Z.of_nat (length (filter (eq i) l)).
Definition tally (n : nat) (l : list nat) : list Z := map (fun i => picks_of i l) (seq 0 n).

Lemma picks_of_app i a b : picks_of i (a ++ b) = picks_of i a + picks_of i b.
Proof. unfold picks_of. rewrite filter_app, length_app. lia. Qed.
Lemma picks_of_nonneg i l : 0 <= picks_of i l.
Proof. unfold picks_of. lia. Qed.
Lemma picks_of_one i j : picks_of i [j] = if decide (i = j) then 1 else 0.
Proof. unfold picks_of. rewrite filter_cons, filter_nil. by destruct (decide (i = j)). Qed.
Lemma picks_of_length i l : picks_of i l <= Z.of_nat (length l).
Proof. unfold picks_of. pose proof (length_filter (eq i) l). lia. Qed.

Lemma lookup_tally n l i : (i < n)%nat -> tally n l !! i = Some (picks_of i l).
Proof. intros Hi. unfold tally. by rewrite list_lookup_fmap, lookup_seq_lt. Qed.
Lemma length_tally n l : length (tally n l) = n.
Proof. unfold tally. by rewrite length_map, length_seq. Qed.
Lemma tally_ext n l v : length v = n -> (forall i, (i < n)%nat -> v !! i = Some (picks_of i l)) -> v = tally n l.
Proof.
  intros Hn Hv. apply list_eq. intros i. destruct (decide (i < n)%nat) as [Hi|Hi].
  - by rewrite Hv, lookup_tally.
  - by rewrite !lookup_ge_None_2 by (rewrite ?length_tally; lia).
Qed.
Lemma tally_nil n : tally n [] = replicate n 0.
Proof. symmetry. apply tally_ext; [apply length_replicate|]. intros i Hi. by rewrite lookup_replicate_2. Qed.

Lemma bump_tally n l i :
  (i < n)%nat -> Z.of_nat (length l) < U64_MAX -> bump i (tally n l) = Ok (tally n (l ++ [i])).
Proof.
  intros Hi Hl. unfold bump. rewrite lookup_tally by done. cbn [or_panic res_bind].
  pose proof (picks_of_nonneg i l). pose proof (picks_of_length i l). rewrite u64_ok by lia. cbn [res_bind]. f_equal.
  apply tally_ext; [by rewrite length_insert, length_tally|]. intros j Hj. rewrite picks_of_app, picks_of_one.
  destruct (decide (j = i)) as [->|Hne].
  - by rewrite list_lookup_insert_eq by (rewrite length_tally; lia).
  - by rewrite list_lookup_insert_ne, lookup_tally, Z.add_0_r by done.
Qed.

Lemma expire_map a b (l : list nat) :
  expire (map (fun i => picks_of i (a ++ b)) l) (map (fun i => picks_of i a) l) = Ok (map (fun i => picks_of i b) l).
Proof.
  induction l as [|i l IH]; [done|]. cbn [map expire]. rewrite IH, picks_of_app.
  pose proof (picks_of_nonneg i b). rewrite (proj2 (Z.leb_le _ _)) by lia. cbn [res_bind]. do 2 f_equal. unfold sat_sub. lia.
Qed.

(** The picks of each bucket, which the counts of the source forget. *)
Abbreviation Ghost := (list (Z * list nat)).
Definition ghost_buckets (n : nat) (gs : Ghost) : list Bucket :=
  map (fun g => {| PickStatsBucket.start_secs := g.1; PickStatsBucket.counts := tally n g.2 |}) gs.
Definition live_of (gs : Ghost) : list (Z * nat) := concat (map (fun g => map (pair g.1) g.2) gs).
Definition picks (gs : Ghost) : list nat := concat (map snd gs).
Definition ghost_ok (gs : Ghost) : Prop :=
  StronglySorted (fun g h => g.1 < h.1) gs /\ Forall (fun g => g.2 <> []) gs.

Lemma picks_live gs : picks gs = map snd (live_of gs).
Proof.
  induction gs as [|[s l] gs IH]; [done|]. unfold picks, live_of in *. cbn. rewrite map_app, IH. f_equal.
  rewrite map_map. cbn. by rewrite map_id.
Qed.

Definition keep (bucket_secs cutoff : Z) (g : Z * list nat) : Prop := cutoff < g.1 + bucket_secs.
#[global] Instance keep_decision b c g : Decision (keep b c g) := Z_lt_dec _ _.

Lemma evict_ghost n b cutoff gs :
  cutoff < U64_MAX -> ghost_ok gs ->
  evict b cutoff (ghost_buckets n gs) (tally n (picks gs)) =
    Ok (ghost_buckets n (filter (keep b cutoff) gs), tally n (picks (filter (keep b cutoff) gs))) /\
  ghost_ok (filter (keep b cutoff) gs).
Proof.
  intros Hc. induction gs as [|g gs IH]; [done|]. intros [Hs Hn]. inversion Hs as [|? ? Hs' Hg]; subst. inversion Hn as [|? ? Hg2 Hn']; subst.
  destruct (IH (conj Hs' Hn')) as [IH1 IH2]. cbn [ghost_buckets map evict PickStatsBucket.start_secs PickStatsBucket.counts].
  rewrite filter_cons. unfold u64_sat_add. destruct (Z.leb_spec (Z.min U64_MAX (g.1 + b)) cutoff) as [H|H].
  - rewrite decide_False by (unfold keep; lia). unfold picks at 1. cbn [map concat]. unfold tally. rewrite expire_map. exact (conj IH1 IH2).
  - assert (filter (keep b cutoff) gs = gs) as E.
    { clear - Hg H. induction Hg as [|h gs Hh _ IH]; [done|]. rewrite filter_cons, IH. rewrite decide_True; [done|]. unfold keep. lia. }
    rewrite decide_True by (unfold keep; lia). rewrite E. done.
Qed.

Lemma segment_filter b cutoff s l :
  filter (fun e : Z * nat => cutoff < e.1 + b) (map (pair s) l) = if decide (keep b cutoff (s, l)) then map (pair s) l else [].
Proof.
  induction l as [|i l IH]; cbn [map]; [by destruct (decide _)|]. rewrite filter_cons, IH. repeat case_decide; unfold keep in *; cbn [fst] in *; done || lia.
Qed.

Lemma live_filter b cutoff gs :
  live_of (filter (keep b cutoff) gs) = filter (fun e : Z * nat => cutoff < e.1 + b) (live_of gs).
Proof.
  induction gs as [|[s l] gs IH]; [done|]. rewrite filter_cons. unfold live_of in *. cbn [map concat fst snd].
  rewrite filter_app, <- IH, segment_filter. by destruct (decide (keep b cutoff (s, l))).
Qed.

(** The buckets after a pick. *)
Definition ghost_push (gs : Ghost) (start : Z) (i : nat) : Ghost :=
  match last gs with
  | Some g => if start <=? g.1 then <[pred (length gs) := (g.1, g.2 ++ [i])]> gs else gs ++ [(start, [i])]
  | None => gs ++ [(start, [i])]
  end.

Lemma insert_last {A} (l : list A) x y : <[pred (length (l ++ [x])) := y]> (l ++ [x]) = l ++ [y].
Proof. rewrite length_app, Nat.add_1_r. cbn [pred length]. rewrite insert_app_r_alt by lia. by rewrite Nat.sub_diag. Qed.

Lemma last_live gs : Forall (fun g => g.2 <> []) gs -> fst <$> last (live_of gs) = fst <$> last gs.
Proof.
  induction gs as [|[s l] gs _] using rev_ind; [done|]. intros (_ & Hl)%Forall_app. inversion Hl as [|? ? Hne _]; subst. cbn in Hne.
  unfold live_of. rewrite map_app, concat_app. cbn [map concat fst snd]. rewrite app_nil_r.
  destruct l as [|i l _] using rev_ind; [done|]. rewrite map_app, app_assoc. cbn [map]. by rewrite !last_snoc.
Qed.

Lemma sorted_snoc {A} (R : A -> A -> Prop) l x :
  StronglySorted R (l ++ [x]) <-> StronglySorted R l /\ Forall (fun y => R y x) l.
Proof.
  induction l as [|y l IH]; cbn [app]; [split; repeat constructor|]. split.
  - intros H. inversion H as [|? ? H1 H2]; subst. apply IH in H1 as [? ?]. apply Forall_app in H2 as [? Hx].
    inversion Hx; subst. split; by constructor.
  - intros [H1 H2]. inversion H1; subst. inversion H2; subst. constructor; [by apply IH|]. apply Forall_app. by repeat constructor.
Qed.

Lemma ghost_push_ok gs start i :
  ghost_ok gs -> ghost_ok (ghost_push gs start i) /\ picks (ghost_push gs start i) = picks gs ++ [i] /\
  live_of (ghost_push gs start i) =
    live_of gs ++ [(match last (live_of gs) with Some e => Z.max e.1 start | None => start end, i)].
Proof.
  intros [Hs Hn]. pose proof (last_live gs Hn) as Hlast. unfold ghost_push.
  destruct gs as [|[s l] gs _] using rev_ind.
  { split_and!; [|done..]. split; repeat constructor. done. }
  rewrite last_snoc in Hlast |- *. destruct (last (live_of _)) as [e|]; [|done]. injection Hlast as ->. cbn [fst snd].
  apply sorted_snoc in Hs as [Hs Hlt]. apply Forall_app in Hn as [Hn Hl]. inversion Hl as [|? ? Hne _]; subst. cbn in Hne, Hlt.
  destruct (Z.leb_spec start s) as [Hle|Hgt].
  - rewrite insert_last. split_and!.
    + split; [by apply sorted_snoc|]. apply Forall_app. split; [done|]. repeat constructor. cbn. by destruct l.
    + unfold picks. rewrite !map_app, !concat_app. cbn. by rewrite !app_nil_r, app_assoc.
    + unfold live_of. rewrite !map_app, !concat_app. cbn. rewrite !app_nil_r, map_app, app_assoc. by rewrite Z.max_l.
  - split_and!.
    + split; [apply sorted_snoc; split; [by apply sorted_snoc|]|].
      * apply Forall_app. split; [|by repeat constructor]. eapply Forall_impl; [exact Hlt|]. cbn. lia.
      * apply Forall_app. split; [by apply Forall_app|]. by repeat constructor.
    + unfold picks. rewrite map_app, concat_app. cbn. done.
    + unfold live_of. rewrite (map_app _ (gs ++ [(s, l)])), concat_app. cbn. by rewrite Z.max_r by lia.
Qed.

Lemma bucket_push n gs start i :
  (i < n)%nat -> Z.of_nat (length (picks gs)) < U64_MAX ->
  exists b c, last (current_bucket n start (ghost_buckets n gs)) = Some b /\ bump i (PickStatsBucket.counts b) = Ok c /\
    <[pred (length (current_bucket n start (ghost_buckets n gs))) :=
      {| PickStatsBucket.start_secs := PickStatsBucket.start_secs b; PickStatsBucket.counts := c |}]>
      (current_bucket n start (ghost_buckets n gs)) = ghost_buckets n (ghost_push gs start i).
Proof.
  intros Hi Hp. unfold current_bucket, ghost_push.
  destruct gs as [|[s l] gs _] using rev_ind.
  { cbn [ghost_buckets map last negb andb app]. eexists _, _. split; [done|]. cbn [PickStatsBucket.counts].
    rewrite <- tally_nil, bump_tally by done. split; [done|]. done. }
  assert (Z.of_nat (length l) < U64_MAX) as Hl.
  { unfold picks in Hp. rewrite map_app, concat_app, length_app in Hp. cbn in Hp. rewrite app_nil_r in Hp. lia. }
  unfold ghost_buckets. rewrite map_app. cbn [map]. rewrite !last_snoc. cbn [PickStatsBucket.start_secs fst snd].
  destruct (Z.leb_spec start s) as [Hle|Hgt].
  - assert (negb (start <? s) && negb (s =? start) = false) as ->.
    { destruct (Z.ltb_spec start s), (Z.eqb_spec s start); try done; lia. }
    rewrite last_snoc. eexists _, _. split; [done|]. cbn [PickStatsBucket.counts PickStatsBucket.start_secs].
    rewrite bump_tally by done. split; [done|]. rewrite !insert_last. by rewrite map_app.
  - rewrite (proj2 (Z.ltb_ge start s)), (proj2 (Z.eqb_neq s start)) by lia. cbn [negb andb].
    rewrite last_snoc. eexists _, _. split; [done|]. cbn [PickStatsBucket.counts PickStatsBucket.start_secs].
    rewrite <- tally_nil, bump_tally by done. split; [done|]. rewrite insert_last. by rewrite !map_app.
Qed.

(** * Refinement *)

Record stats_rel (ps : Stats) (gs : Ghost) : Prop := {
  rel_window : 0 < PickStats.window_secs ps;
  rel_buckets : PickStats.buckets ps = ghost_buckets (length (PickStats.upstream_ids ps)) gs;
  rel_totals : PickStats.totals ps = tally (length (PickStats.upstream_ids ps)) (picks gs);
  rel_ok : ghost_ok gs;
}.

Lemma stats_new_rel window ids : 0 < window -> stats_rel (pick_stats_new window ids) [].
Proof. intros Hw. split; [done|done|symmetry; apply tally_nil|]. split; constructor. Qed.

(** What [record_at] leaves alone. *)
Definition same_stats (ps ps' : Stats) : Prop :=
  PickStats.window_secs ps' = PickStats.window_secs ps /\ PickStats.bucket_secs ps' = PickStats.bucket_secs ps /\
  PickStats.indexes ps' = PickStats.indexes ps /\ PickStats.upstream_ids ps' = PickStats.upstream_ids ps /\
  PickStats.last_log_secs ps' = PickStats.last_log_secs ps.

Lemma record_at_rel ps gs now i :
  stats_rel ps gs -> 0 <= now <= U64_MAX -> (i < length (PickStats.upstream_ids ps))%nat ->
  Z.of_nat (length (live_of gs)) < U64_MAX ->
  exists ps' gs', record_at ps now i = Ok ps' /\ stats_rel ps' gs' /\ same_stats ps ps' /\
    live_of gs' = live_step (PickStats.window_secs ps) (PickStats.bucket_secs ps) (live_of gs) (now, i).
Proof.
  intros [Hw Hb Ht Hok] Hn Hi Hl. unfold record_at. rewrite Hb, Ht. set (n := length (PickStats.upstream_ids ps)) in *.
  set (b := PickStats.bucket_secs ps). set (cutoff := sat_sub now (PickStats.window_secs ps)).
  destruct (evict_ghost n b cutoff gs) as [-> Hok']; [unfold cutoff, sat_sub; lia|done|]. cbn [res_bind].
  set (gs1 := filter (keep b cutoff) gs) in *. set (start := now / b * b).
  assert (Z.of_nat (length (picks gs1)) < U64_MAX) as Hl1.
  { rewrite picks_live, length_map. subst gs1. rewrite live_filter.
    pose proof (length_filter (fun e : Z * nat => cutoff < e.1 + b) (live_of gs)). lia. }
  destruct (bucket_push n gs1 start i Hi Hl1) as (bk & c & -> & Hc & Hbs). cbn [or_panic res_bind]. rewrite Hc. cbn [res_bind].
  rewrite bump_tally by done. cbn [res_bind]. rewrite Hbs. destruct (ghost_push_ok gs1 start i Hok') as (Hok2 & Hp & Hlive).
  eexists _, (ghost_push gs1 start i). split; [done|]. split_and!; [|done..|].
  - split; cbn; [done|done|by rewrite Hp|done].
  - rewrite Hlive. unfold live_step. subst gs1. by rewrite live_filter.
Qed.

Fixpoint record_all (ps : Stats) (l : list (Z * nat)) : checked Stats :=
  match l with [] => Ok ps | (now, i) :: l => let? ps := record_at ps now i in record_all ps l end.

Lemma live_step_length w b live p : (length (live_step w b live p) <= S (length live))%nat.
Proof.
  destruct p as [now i]. unfold live_step. rewrite length_app. cbn.
  pose proof (length_filter (fun e : Z * nat => sat_sub now w < e.1 + b) live). lia.
Qed.

Lemma record_all_rel ps gs l :
  stats_rel ps gs -> Forall (fun e => 0 <= e.1 <= U64_MAX /\ (e.2 < length (PickStats.upstream_ids ps))%nat) l ->
  Z.of_nat (length (live_of gs) + length l) < U64_MAX ->
  exists ps' gs', record_all ps l = Ok ps' /\ stats_rel ps' gs' /\ same_stats ps ps' /\
    live_of gs' = foldl (live_step (PickStats.window_secs ps) (PickStats.bucket_secs ps)) (live_of gs) l.
Proof.
  intros Hrel Hl. revert ps gs Hrel Hl. induction l as [|[now i] l IH]; intros ps gs Hrel Hl Hlen; cbn [record_all foldl].
  { exists ps, gs. split_and!; done. }
  apply Forall_cons in Hl as [[Hn Hi] Hl]. cbn [length] in Hlen.
  destruct (record_at_rel ps gs now i Hrel Hn Hi) as (ps1 & gs1 & -> & Hrel1 & (E1 & E2 & E3 & E4 & E5) & El); [lia|].
  cbn [res_bind]. destruct (IH ps1 gs1 Hrel1) as (ps2 & gs2 & -> & Hrel2 & (F1 & F2 & F3 & F4 & F5) & Fl); [by rewrite E4|..].
  { rewrite El. pose proof (live_step_length (PickStats.window_secs ps) (PickStats.bucket_secs ps) (live_of gs) (now, i)). lia. }
  exists ps2, gs2. split; [done|]. split; [done|]. split; [split_and!; congruence|]. by rewrite Fl, E1, E2, El.
Qed.

(** A pick of the log whose bucket has not left the window. *)
Definition bucket_of (b : Z) (e : Z * nat) : Z * nat := (e.1 / b * b, e.2).
Definition in_window (w b now : Z) (e : Z * nat) : Prop := sat_sub now w < (bucket_of b e).1 + b.
#[global] Instance in_window_decision w b now e : Decision (in_window w b now e) := Z_lt_dec _ _.

Lemma filter_bucket_of w b now l :
  filter (fun e : Z * nat => sat_sub now w < e.1 + b) (map (bucket_of b) l) = map (bucket_of b) (filter (in_window w b now) l).
Proof.
  induction l as [|e l IH]; [done|]. cbn [map]. rewrite !filter_cons, IH.
  repeat case_decide; try done; unfold in_window in *; done.
Qed.

Lemma live_monotone w b l :
  0 < b -> 0 <= w -> Forall (fun e => 0 <= e.1) l -> StronglySorted (fun e f => e.1 <= f.1) l ->
  foldl (live_step w b) [] l =
    match last l with Some e => map (bucket_of b) (filter (in_window w b e.1) l) | None => [] end.
Proof.
  intros Hb Hw. induction l as [|[now i] l IH] using rev_ind; intros Hp Hs; [done|].
  apply Forall_app in Hp as [Hp Hnow]. apply Forall_inv in Hnow. cbn [fst] in Hnow. apply sorted_snoc in Hs as [Hs Hle]. rewrite foldl_snoc, last_snoc. cbn [fst].
  rewrite (IH Hp Hs). clear IH. unfold live_step.
  assert (filter (fun e : Z * nat => sat_sub now w < e.1 + b)
      match last l with Some e => map (bucket_of b) (filter (in_window w b e.1) l) | None => [] end =
    map (bucket_of b) (filter (in_window w b now) l)) as ->.
  { destruct (last l) as [e|] eqn:E; [|by apply last_None in E as ->]. rewrite filter_bucket_of. f_equal.
    rewrite list_filter_filter. apply list_filter_iff. intros f. split; [by intros [? ?]|]. intros Hf. split; [done|].
    unfold in_window, sat_sub in *. apply last_Some in E as [l' ->]. apply Forall_app in Hle as [_ Hle].
    apply Forall_inv in Hle. cbn in Hle. lia. }
  assert (in_window w b now (now, i)) as Hin.
  { unfold in_window, bucket_of, sat_sub. cbn. pose proof (Z.mod_pos_bound now b Hb). pose proof (Z.div_mod now b). nia. }
  rewrite filter_app, map_app, filter_cons, decide_True by done. f_equal. cbn. f_equal. f_equal.
  destruct (last _) as [f|] eqn:E; [|done].
  apply last_Some_elem_of in E. apply list_elem_of_fmap in E as (e & -> & [_ He]%list_elem_of_filter).
  rewrite Forall_forall in Hle. specialize (Hle e He). unfold bucket_of. cbn in *. rewrite Z.max_r; [done|].
  apply Z.mul_le_mono_nonneg_r; [lia|]. by apply Z.div_le_mono.
Qed.

Lemma elem_of_counts ps id c :
  (id, c) ∈ counts ps <->
    exists k, PickStats.upstream_ids ps !! k = Some id /\ PickStats.totals ps !! k = Some c /\ 0 < c.
Proof.
  unfold counts. rewrite (sort_desc_perm _ _), list_elem_of_filter. cbn [snd]. split.
  - intros [Hc H]. apply list_elem_of_lookup in H as [k Hk]. apply lookup_zip_with_Some in Hk as (x & y & [= <- <-] & Hx & Hy).
    by exists k.
  - intros (k & Hx & Hy & Hc). split; [done|]. apply list_elem_of_lookup. exists k. apply lookup_zip_with_Some. eauto.
Qed.

(** ** Recording by id, and the log line *)

Definition zsum (l : list Z) : Z := foldr Z.add 0 l.

Lemma zsum_cons x l : zsum (x :: l) = x + zsum l.
Proof. done. Qed.
Lemma zsum_nonneg l : Forall (fun x => 0 <= x) l -> 0 <= zsum l.
Proof. induction 1; rewrite ?zsum_cons; [done|lia]. Qed.

Lemma sum_u64_ok l acc :
  Forall (fun x => 0 <= x) l -> 0 <= acc -> acc + zsum l <= U64_MAX -> sum_u64 l acc = Ok (acc + zsum l).
Proof.
  intros Hl. revert acc. induction Hl as [|x l Hx Hl IH]; intros acc Ha Hs; cbn [sum_u64]; [by rewrite Z.add_0_r|].
  rewrite zsum_cons in *. pose proof (zsum_nonneg l Hl). rewrite u64_ok by lia. cbn [res_bind]. rewrite IH by lia. f_equal. lia.
Qed.

Lemma zsum_perm l k : l ≡ₚ k -> zsum l = zsum k.
Proof. induction 1; rewrite ?zsum_cons; lia. Qed.

Lemma zsum_picks ks l : NoDup ks -> zsum (map (fun i => picks_of i l) ks) <= Z.of_nat (length l).
Proof.
  intros Hd. induction l as [|x l IH].
  { induction ks as [|k ks IHk]; [done|]. inversion Hd; subst. cbn. by apply IHk. }
  assert (zsum (map (fun i => picks_of i (x :: l)) ks) <= zsum (map (fun i => picks_of i l) ks) + 1) as H; [|cbn [length]; lia].
  clear IH. assert (forall i, picks_of i (x :: l) = picks_of i l + if decide (i = x) then 1 else 0) as Hx.
  { intros i. change (x :: l) with ([x] ++ l). rewrite picks_of_app, picks_of_one. lia. }
  assert (zsum (map (fun i => picks_of i (x :: l)) ks) <=
    zsum (map (fun i => picks_of i l) ks) + if decide (x ∈ ks) then 1 else 0) as H; [|case_decide; lia].
  induction Hd as [|k ks Hk Hd IH]; cbn [map]; rewrite ?zsum_cons; [cbn; case_decide; lia|]. rewrite Hx. repeat case_decide; subst; try lia; set_solver.
Qed.

Lemma counts_sum ps gs :
  stats_rel ps gs -> Forall (fun x => 0 <= x) (map snd (counts ps)) /\ zsum (map snd (counts ps)) <= Z.of_nat (length (live_of gs)).
Proof.
  intros [_ _ Ht _]. split.
  { apply Forall_forall. intros x ([id c] & -> & H)%list_elem_of_fmap. apply elem_of_counts in H as (? & _ & _ & ?). cbn. lia. }
  unfold counts. erewrite zsum_perm by (apply Permutation_map, sort_desc_perm).
  rewrite <- (length_map snd (live_of gs)), <- picks_live. etrans; [|apply (zsum_picks (seq 0 (length (PickStats.upstream_ids ps))) _), NoDup_seq].
  rewrite Ht. clear Ht. unfold tally. generalize (seq 0 (length (PickStats.upstream_ids ps))) as ks.
  assert (forall ks, 0 <= zsum (map (fun i => picks_of i (picks gs)) ks)) as Hpos.
  { intros ks. apply zsum_nonneg, Forall_fmap, Forall_true. intros k. apply picks_of_nonneg. }
  induction (PickStats.upstream_ids ps) as [|id ids IH]; intros [|k ks]; cbn [map zip_with]; [done|apply (Hpos (k :: ks))|done|].
  rewrite filter_cons, zsum_cons. specialize (IH ks). pose proof (picks_of_nonneg k (picks gs)).
  case_decide; cbn [map snd]; rewrite ?zsum_cons; lia.
Qed.

Lemma lookup_index_ids ids : NoDup ids -> forall id i, index_ids ids !! id = Some i <-> ids !! i = Some id.
Proof.
  unfold index_ids. induction ids as [|x ids IH] using rev_ind; [done|]. intros Hd id i.
  apply NoDup_app in Hd as (Hd & Hx & _). rewrite imap_app, foldl_app. cbn [imap foldl fst snd compose].
  rewrite Nat.add_0_r, lookup_insert_Some, (IH Hd), lookup_app_Some. split.
  - intros [[<- <-]|[Hne H]]; [right|by left]. split; [lia|]. by rewrite Nat.sub_diag.
  - intros [H|[Hle H]].
    + right. split; [|done]. intros <-. apply list_elem_of_lookup_2 in H. by apply (Hx x H), list_elem_of_singleton.
    + left. apply list_lookup_singleton_Some in H as [? <-]. split; [done|lia].
Qed.

(** Statistics that hold at most [n] picks, of distinct upstreams [ids]. *)
Definition stats_wf (ids : list bytes) (n : Z) (ps : Stats) : Prop :=
  NoDup ids /\ PickStats.upstream_ids ps = ids /\ PickStats.indexes ps = index_ids ids /\
  exists gs, stats_rel ps gs /\ Z.of_nat (length (live_of gs)) <= n.

Lemma stats_new_wf ids window : NoDup ids -> 0 < window -> stats_wf ids 0 (pick_stats_new window ids).
Proof. intros Hd Hw. split_and!; try done. exists []. split; [by apply stats_new_rel|done]. Qed.

Lemma record_by_id_ok ids n ps now id :
  stats_wf ids n ps -> id ∈ ids -> 0 <= now <= U64_MAX -> n < U64_MAX ->
  exists ps', record_by_id ps now id = Ok (true, ps') /\ stats_wf ids (n + 1) ps'.
Proof.
  intros (Hd & Hids & Hix & gs & Hrel & Hlen) Hid Hn Hfit. apply list_elem_of_lookup in Hid as [i Hi].
  unfold record_by_id. rewrite Hix, (proj2 (lookup_index_ids ids Hd id i) Hi).
  destruct (record_at_rel ps gs now i Hrel Hn) as (ps' & gs' & -> & Hrel' & (_ & _ & E3 & E4 & _) & Hl); [|lia|].
  { rewrite Hids. by eapply lookup_lt_Some. }
  cbn [res_bind]. exists ps'. split; [done|]. split_and!; [done|congruence|congruence|]. exists gs'. split; [done|].
  rewrite Hl. pose proof (live_step_length (PickStats.window_secs ps) (PickStats.bucket_secs ps) (live_of gs) (now, i)). lia.
Qed.

Lemma set_last_log_wf ids n ps now : stats_wf ids n ps -> stats_wf ids n (set_last_log ps now).
Proof. intros (? & ? & ? & gs & [] & ?). split_and!; try done. exists gs. by split; [split|]. Qed.

Lemma maybe_log_ok ids n ps now :
  stats_wf ids n ps -> n <= U64_MAX -> exists line ps', maybe_log ps now = Ok (line, ps') /\ stats_wf ids n ps'.
Proof.
  intros Hwf Hn. unfold maybe_log. pose proof (set_last_log_wf ids n ps now Hwf) as Hwf'.
  destruct (now <? _); [by eexists _, _|]. destruct (_ <? 60); [by eexists _, _|]. cbv zeta.
  pose proof Hwf' as (_ & _ & _ & gs & Hrel & Hlen). destruct (counts_sum _ _ Hrel) as [Hpos Hsum].
  destruct (counts _); [by eexists _, _|]. rewrite sum_u64_ok by (done || lia). by eexists _, _.
Qed.

(** C23: the pick statistics implement their specification: for any nonempty
    window and any sequence of picks by index, recording them never panics
    (the subtraction of an expired bucket never underflows, whatever the
    clock does), the totals are the counts of the picks that are live in the
    plain list, and [counts] lists, in descending order, exactly the upstreams
    with such picks and their number. While the clock never goes back these
    are the picks whose ten-second bucket has not left the window. *)
Theorem pick_stats_refines window ids l :
  0 < window -> Forall (fun e => 0 <= e.1 <= U64_MAX /\ (e.2 < length ids)%nat) l -> Z.of_nat (length l) < U64_MAX ->
  let b := PickStats.bucket_secs (pick_stats_new window ids) in
  let live := foldl (live_step window b) [] l in
  exists ps, record_all (pick_stats_new window ids) l = Ok ps /\
    (forall i, (i < length ids)%nat -> PickStats.totals ps !! i = Some (picks_of i (map snd live))) /\
    (forall id c, (id, c) ∈ counts ps <-> exists i, ids !! i = Some id /\ c = picks_of i (map snd live) /\ 0 < c) /\
    StronglySorted (fun e f => f.2 <= e.2) (counts ps) /\
    (StronglySorted (fun e f => e.1 <= f.1) l ->
      live = match last l with Some e => map (bucket_of b) (filter (in_window window b e.1) l) | None => [] end).
Proof.
  intros Hw Hl Hlen b live.
  destruct (record_all_rel _ _ l (stats_new_rel window ids Hw) Hl) as (ps & gs & E & [_ _ Ht _] & (_ & _ & _ & Hids & _) & Hg); [done|].
  assert (forall i, (i < length ids)%nat -> PickStats.totals ps !! i = Some (picks_of i (map snd live))) as Htot.
  { intros i Hi. rewrite Ht, Hids, picks_live, Hg. by apply lookup_tally. }
  exists ps. split; [done|]. split; [done|]. split_and!.
  - intros id c. rewrite elem_of_counts, Hids. cbn [pick_stats_new PickStats.upstream_ids].
    split; intros (k & Hk & Hc & Hpos); exists k; (split; [done|]); split; try done.
    + rewrite Htot in Hc by (by apply lookup_lt_Some in Hk). congruence.
    + rewrite Htot by (by apply lookup_lt_Some in Hk). by subst.
  - apply (sort_desc_sorted snd).
  - intros Hs. apply live_monotone; [unfold b; cbn; lia|lia| |done].
    eapply Forall_impl; [exact Hl|]. cbn. lia.
Qed.

Lemma pick_stats_refines_witness :
  let ids := [bs "a"; bs "b"] in
  let l := [(3, 0%nat); (8, 1%nat); (15, 0%nat); (33, 0%nat)] in
  exists ps, record_all (pick_stats_new 20 ids) l = Ok ps /\ counts ps = [(bs "a", 2)] /\
    foldl (live_step 20 10) [] l = [(10, 0%nat); (30, 0%nat)].
Proof.
  intros ids l. destruct (pick_stats_refines 20 ids l) as (ps & E & _ & _ & _ & Hl).
  - lia.
  - by repeat constructor; unfold U64_MAX; cbn; try lia.
  - by unfold U64_MAX.
  - exists ps. split; [done|]. split.
    { change (counts ps) with (match (Ok ps : checked Stats) with Ok ps => counts ps | _ => [] end). rewrite <- E.
      vm_compute. reflexivity. }
    refine (eq_trans (Hl _) _); [repeat constructor; cbn; lia|reflexivity].
Defined.
