(* ===== verification/Picks.v ===== *)
(** The set of upstreams, [UpstreamSet] of [src/src/upstream.rs]: groups, the
    weighted choice of an upstream and the statistics of choices. An
    [Arc<Upstream>] is the index of the upstream in the set. The random numbers
    are those of the crate [fastrand]. *)

From Stdlib Require Import Strings.String Floats.SpecFloat.
From S2P Require Import Prelude Bytes Ordered Float64 Config Scores Stats.
#[local] Open Scope Z_scope.

(** What one pick draws from [fastrand]: [f32()], [usize(..n)] and [u64(..n)]. *)
Module Draw.
Record Draw := { f32 : spec_float; usize : Z -> Z; u64 : Z -> Z }.
End Draw.
Abbreviation draw := Draw.Draw.
(** The range that the crate documents, for nonempty ranges. *)
Definition draw_lawful (rand : draw) : Prop :=
  (forall n, 0 < n -> 0 <= Draw.usize rand n < n) /\ (forall n, 0 < n -> 0 <= Draw.u64 rand n < n).

(** 0.05 as an [f32] *)
Definition PICK_EXPLORE_RATIO : spec_float := SFdiv 24 128 (binary_normalize 24 128 5 0 false) (binary_normalize 24 128 100 0 false).

Module UpstreamSet.
Record UpstreamSet := {
  groups : gmap bytes (list nat);
  all_items : list upstream;
  current : gmap bytes (option bytes);
  tolerance : Z;
  pick_stats : option Stats;
}.
End UpstreamSet.
Abbreviation upstreams := UpstreamSet.UpstreamSet.
Definition set_current (us : upstreams) (current : gmap bytes (option bytes)) : upstreams := {|
  UpstreamSet.groups := UpstreamSet.groups us;
  UpstreamSet.all_items := UpstreamSet.all_items us;
  UpstreamSet.current := current;
  UpstreamSet.tolerance := UpstreamSet.tolerance us;
  UpstreamSet.pick_stats := UpstreamSet.pick_stats us;
|}.
Definition set_pick_stats (us : upstreams) (ps : option Stats) : upstreams := {|
  UpstreamSet.groups := UpstreamSet.groups us;
  UpstreamSet.all_items := UpstreamSet.all_items us;
  UpstreamSet.current := UpstreamSet.current us;
  UpstreamSet.tolerance := UpstreamSet.tolerance us;
  UpstreamSet.pick_stats := ps;
|}.

(** [groups.entry(group).or_default().push(up)] *)
Definition group_push (i : nat) (m : gmap bytes (list nat)) (group : bytes) : gmap bytes (list nat) :=
  partial_alter (fun o => Some (default [] o ++ [i])) group m.
Definition build_groups (items : list upstream) : gmap bytes (list nat) :=
  foldl (fun m e => foldl (group_push e.1) m (Upstream.groups e.2)) ∅ (imap pair items).

(** [UpstreamSet::new]; the error is that of an empty set. *)
Definition upstream_set_new (items : list upstream) (tolerance quic_weight quic_stale_secs pick_stats_window_secs : Z)
    : res unit upstreams :=
  match items with
  | [] => Err tt
  | _ =>
      Ok {|
        UpstreamSet.groups := build_groups items;
        UpstreamSet.all_items := map (fun up => set_quic_stale_secs (set_quic_weight up quic_weight) quic_stale_secs) items;
        UpstreamSet.current := ∅;
        UpstreamSet.tolerance := tolerance;
        UpstreamSet.pick_stats :=
          if 0 <? pick_stats_window_secs then Some (pick_stats_new pick_stats_window_secs (map Upstream.id items))
          else None;
      |}
  end.

Definition get (us : upstreams) (i : nat) : checked upstream := or_panic (UpstreamSet.all_items us !! i).

(** [record_pick_stats] *)
Definition record_pick_stats (now : Z) (us : upstreams) (chosen : nat) : checked upstreams :=
  match UpstreamSet.pick_stats us with
  | None => Ok us
  | Some stats =>
      let? up := get us chosen in
      let? (recorded, stats) := record_by_id stats now (Upstream.id up) in
      if recorded : bool then let? (_, stats) := maybe_log stats now in Ok (set_pick_stats us (Some stats))
      else Ok (set_pick_stats us (Some stats))
  end.

(** Making an upstream the current one of its group. *)
Definition choose (now : Z) (us : upstreams) (group : bytes) (chosen : nat) : checked (option nat * upstreams) :=
  let? up := get us chosen in
  let us := set_current us (<[group := Some (Upstream.id up)]> (UpstreamSet.current us)) in
  let? us := record_pick_stats now us chosen in
  Ok (Some chosen, us).

(** [effective_score] of each candidate, in order. *)
Fixpoint effective_scores (now : Z) (us : upstreams) (items : list nat) : checked (list Z) :=
  match items with
  | [] => Ok []
  | i :: items =>
      let? up := get us i in
      let? e := effective_score_at up now in
      let? es := effective_scores now us items in
      Ok (e :: es)
  end.

(** [max_by_key]: the last of the greatest. *)
Definition max_by_key (l : list (nat * Z)) : option (nat * Z) :=
  foldl (fun m x => match m with Some y => if x.2 <? y.2 then m else Some x | None => Some x end) None l.

Definition has_id (us : upstreams) (id : bytes) (i : nat) : bool :=
  match UpstreamSet.all_items us !! i with Some up => bool_decide (Upstream.id up = id) | None => false end.
Definition uninitialized (us : upstreams) (i : nat) : bool :=
  match UpstreamSet.all_items us !! i with Some up => negb (Upstream.tcp_score_initialized up) | None => false end.

Fixpoint squares (scores : list Z) : checked (list Z) :=
  match scores with
  | [] => Ok []
  | s :: scores => let? w := u64 (s * s) in let? ws := squares scores in Ok (w :: ws)
  end.

(** The loop of the weighted draw, and its index. *)
Fixpoint weighted_index (r : Z) (weights : list Z) : option nat :=
  match weights with
  | [] => None
  | w :: weights => if r <? w then Some 0%nat else S <$> weighted_index (r - w) weights
  end.

(** Step 3: a new choice, by the squares of the scores. *)
Definition reselect (rand : draw) (items : list nat) (scores : list Z) : checked nat :=
  let? weights := squares scores in
  let? total_weight := sum_u64 weights 0 in
  if total_weight =? 0 then or_panic (items !! Z.to_nat (Draw.usize rand (Z.of_nat (length items))))
  else
    match weighted_index (Draw.u64 rand total_weight) weights with
    | Some i => or_panic (items !! i)
    | None => or_panic (items !! 0%nat)
    end.

(** The sticky upstream of the group, among the candidates. *)
Definition sticky (us : upstreams) (items : list nat) (group : bytes) : option nat :=
  match UpstreamSet.current us !! group with
  | Some (Some id) => find (has_id us id) items
  | _ => None
  end.

Definition pick_weighted (now : Z) (rand : draw) (us : upstreams) (items : list nat) (group : bytes)
    : checked (option nat * upstreams) :=
  match items with
  | [] => Ok (None, us)
  | [i] => choose now us group i
  | _ =>
      let uninit := filter (fun i => uninitialized us i = true) items in
      if negb (bool_decide (uninit = [])) && SFltb (Draw.f32 rand) PICK_EXPLORE_RATIO then
        let? i := or_panic (uninit !! Z.to_nat (Draw.usize rand (Z.of_nat (length uninit)))) in
        choose now us group i
      else
        let? scores := effective_scores now us items in
        match max_by_key (zip items scores) with
        | None => Ok (None, us)
        | Some (best, best_eff) =>
            let again := let? i := reselect rand items scores in choose now us group i in
            match (if 0 <? UpstreamSet.tolerance us then sticky us items group else None) with
            | None => again
            | Some cur =>
                let? cur_up := get us cur in
                let? best_up := get us best in
                let? cur_eff := effective_score_at cur_up now in
                let? switch :=
                  if bool_decide (Upstream.id best_up = Upstream.id cur_up) then Ok false
                  else let? limit := u64 (cur_eff + UpstreamSet.tolerance us) in Ok (limit <? best_eff) in
                if switch : bool then again
                else let? us := record_pick_stats now us cur in Ok (Some cur, us)
            end
        end
  end.

Definition pick_from_group (now : Z) (rand : draw) (us : upstreams) (group : bytes) : checked (option nat * upstreams) :=
  match UpstreamSet.groups us !! group with
  | None => Ok (None, us)
  | Some items => pick_weighted now rand us items group
  end.

Definition pick (now : Z) (rand : draw) (us : upstreams) : checked (option nat * upstreams) :=
  pick_from_group now rand us (bs "default").

(** Membership of an upstream in the set of excluded ids. *)
Definition excluded (us : upstreams) (exclude : gset bytes) (i : nat) : bool :=
  match UpstreamSet.all_items us !! i with Some up => bool_decide (Upstream.id up ∈ exclude) | None => true end.

Definition pick_excluding_many_from_group (now : Z) (rand : draw) (us : upstreams) (group : bytes) (exclude : gset bytes)
    : checked (option nat * upstreams) :=
  match UpstreamSet.groups us !! group with
  | None => Ok (None, us)
  | Some items =>
      let candidates := filter (fun i => excluded us exclude i = false) items in
      match candidates with
      | [] => Ok (None, us)
      | _ => pick_weighted now rand us candidates group
      end
  end.

Definition find_by_id (us : upstreams) (id : bytes) : option nat :=
  find (has_id us id) (seq 0 (length (UpstreamSet.all_items us))).

(** * The invariant of the set *)

(** A set that has recorded at most [n] picks. 184,467 is the number of
    squares of the greatest score that a [u64] can add up. *)
Record wf_set (n : Z) (us : upstreams) : Prop := {
  ws_upstreams : Forall wf_upstream (UpstreamSet.all_items us);
  ws_ids : NoDup (map Upstream.id (UpstreamSet.all_items us));
  ws_groups g items : UpstreamSet.groups us !! g = Some items ->
    Forall (fun i => (i < length (UpstreamSet.all_items us))%nat) items /\ Z.of_nat (length items) <= 184467;
  ws_tolerance : 0 <= UpstreamSet.tolerance us <= U32_MAX;
  ws_stats ps : UpstreamSet.pick_stats us = Some ps ->
    exists k, stats_wf (map Upstream.id (UpstreamSet.all_items us)) k ps /\ k <= n;
}.

(** The part of the set that picks leave alone. *)
Definition same_set (us us' : upstreams) : Prop :=
  UpstreamSet.groups us' = UpstreamSet.groups us /\ UpstreamSet.all_items us' = UpstreamSet.all_items us /\
  UpstreamSet.tolerance us' = UpstreamSet.tolerance us.

(** * The weighted draw *)

Lemma weighted_index_some r ws :
  Forall (fun w => 0 <= w) ws -> 0 <= r < zsum ws -> exists i, weighted_index r ws = Some i /\ (i < length ws)%nat.
Proof.
  intros Hw. revert r. induction Hw as [|w ws Hw Hws IH]; intros r Hr; [cbn in Hr; lia|].
  rewrite zsum_cons in Hr. cbn [weighted_index length]. destruct (Z.ltb_spec r w); [exists 0%nat; split; [done|lia]|].
  destruct (IH (r - w)) as (i & -> & Hi); [lia|]. exists (S i). split; [done|lia].
Qed.

Lemma seqZ_shift w m : seqZ w m = map (Z.add w) (seqZ 0 m).
Proof. unfold seqZ. rewrite map_map. apply map_ext. lia. Qed.

(** Each index is hit by as many draws as its weight. *)
Lemma weighted_draws ws i :
  Forall (fun w => 0 <= w) ws ->
  Z.of_nat (length (filter (fun r => weighted_index r ws = Some i) (seqZ 0 (zsum ws)))) = default 0 (ws !! i).
Proof.
  intros Hw. revert i. induction Hw as [|w ws Hw Hws IH]; intros i; [done|].
  pose proof (zsum_nonneg ws Hws). rewrite zsum_cons. rewrite seqZ_app by lia. rewrite filter_app, length_app. rewrite Z.add_0_l.
  assert (forall r, r ∈ seqZ 0 w -> weighted_index r (w :: ws) = Some 0%nat) as H0.
  { intros r Hr%elem_of_seqZ. cbn. by rewrite (proj2 (Z.ltb_lt r w)) by lia. }
  assert (length (filter (fun r => weighted_index r (w :: ws) = Some i) (seqZ w (zsum ws))) =
    match i with O => 0%nat | S i => length (filter (fun r => weighted_index r ws = Some i) (seqZ 0 (zsum ws))) end) as ->.
  { rewrite seqZ_shift. assert (forall r, r ∈ seqZ 0 (zsum ws) -> 0 <= r) as Hpos by (intros r Hr%elem_of_seqZ; lia).
    revert Hpos. generalize (seqZ 0 (zsum ws)) as rs. induction rs as [|r rs IHr]; intros Hpos; [by destruct i|]. cbn [map]. rewrite !filter_cons.
    specialize (IHr ltac:(intros x Hx; apply Hpos; by right)). specialize (Hpos r ltac:(by left)).
    assert (weighted_index (w + r) (w :: ws) = S <$> weighted_index r ws) as E.
    { cbn. rewrite (proj2 (Z.ltb_ge (w + r) w)) by lia. do 2 f_equal. lia. }
    rewrite E. destruct i as [|i].
    - rewrite decide_False; [done|]. by destruct (weighted_index r ws).
    - rewrite filter_cons. destruct (decide (weighted_index r ws = Some i)) as [E2|E2].
      + rewrite E2, decide_True by done. cbn [length]. by rewrite IHr.
      + rewrite decide_False; [done|]. destruct (weighted_index r ws); [|done]. cbn. congruence. }
  destruct i as [|i].
  - rewrite filter_all by done. rewrite length_seqZ. cbn. lia.
  - change ((w :: ws) !! S i) with (ws !! i). rewrite <- (IH i). replace (filter (fun r => weighted_index r (w :: ws) = Some (S i)) (seqZ 0 w)) with (@nil Z); [done|].
    symmetry. revert H0. clear. generalize (seqZ 0 w) as rs. induction rs as [|r rs IHr]; intros H0; [done|]. rewrite filter_cons, decide_False.
    + apply IHr. intros x Hx. apply H0. by right.
    + by rewrite H0 by (by left).
Qed.

Lemma max_by_key_spec (l : list (nat * Z)) m :
  l <> [] \/ m <> None ->
  exists x, foldl (fun m x => match m with Some y => if x.2 <? y.2 then m else Some x | None => Some x end) m l = Some x /\
    (x ∈ l \/ m = Some x) /\ (forall y, y ∈ l \/ m = Some y -> y.2 <= x.2).
Proof.
  revert m. induction l as [|z l IH]; intros m H; cbn [foldl].
  - destruct m as [x|]; [|by destruct H]. exists x. split; [done|]. split; [by right|]. intros y [Hy|[= ->]]; [by apply elem_of_nil in Hy|done].
  - destruct m as [y|].
    + destruct (Z.ltb_spec z.2 y.2) as [Hlt|Hge].
      * destruct (IH (Some y)) as (x & -> & Hx & Hall); [by right|]. exists x. split; [done|]. split; [destruct Hx; [left; by right|by right]|].
        intros w [Hw|Hw]; [|by apply Hall; right]. apply elem_of_cons in Hw as [->|Hw]; [|by apply Hall; left].
        specialize (Hall y ltac:(by right)). lia.
      * destruct (IH (Some z)) as (x & -> & Hx & Hall); [by right|]. exists x. split; [done|].
        split; [destruct Hx as [Hx|[= ->]]; left; [by right|by left]|].
        intros w [Hw|[= <-]]; [apply elem_of_cons in Hw as [->|Hw]; apply Hall; [by right|by left]|].
        specialize (Hall z ltac:(by right)). lia.
    + destruct (IH (Some z)) as (x & -> & Hx & Hall); [by right|]. exists x. split; [done|].
      split; [destruct Hx as [Hx|[= ->]]; left; [by right|by left]|].
      intros w [Hw|Hw]; [|done]. apply elem_of_cons in Hw as [->|Hw]; apply Hall; [by right|by left].
Qed.

(** * One pick *)

Section Choice.
Context (n now : Z) (us : upstreams).
Hypothesis Hwf : wf_set n us.
Hypothesis Hn : n < U64_MAX.
Hypothesis Hnow : 0 <= now <= U64_MAX.

Abbreviation all := (UpstreamSet.all_items us).
Abbreviation in_range i := (i < length all)%nat.

Definition eff (i : nat) : Z :=
  match all !! i with
  | Some up => match effective_score_at up now with Ok e => e | _ => 0 end
  | None => 0
  end.

Lemma get_ok i : in_range i -> exists up, get us i = Ok up /\ all !! i = Some up.
Proof. intros [up Hup]%lookup_lt_is_Some_2. unfold get. rewrite Hup. eauto. Qed.

Lemma eff_ok i up : all !! i = Some up -> effective_score_at up now = Ok (eff i).
Proof.
  intros Hup. unfold eff. rewrite Hup.
  destruct (effective_score_ok up now) as (e & -> & _); [by eapply Forall_lookup_1; [apply Hwf|]|done|done].
Qed.
Lemma eff_range i : in_range i -> 1 <= eff i <= 10000000.
Proof.
  intros [up Hup]%lookup_lt_is_Some_2. pose proof (eff_ok i up Hup) as E.
  destruct (effective_score_ok up now) as (e & E' & He); [by eapply Forall_lookup_1; [apply Hwf|]|done|].
  rewrite E in E'. by injection E' as ->.
Qed.

Lemma effective_scores_ok items :
  Forall (fun i => in_range i) items -> effective_scores now us items = Ok (map eff items).
Proof.
  induction 1 as [|i items Hi _ IH]; [done|]. cbn [effective_scores map].
  destruct (get_ok i Hi) as (up & -> & Hup). cbn [res_bind]. rewrite (eff_ok i up Hup). cbn [res_bind]. by rewrite IH.
Qed.

Lemma record_pick_ok us1 i :
  wf_set n us1 -> (i < length (UpstreamSet.all_items us1))%nat ->
  exists us', record_pick_stats now us1 i = Ok us' /\ wf_set (n + 1) us' /\ same_set us1 us' /\
    UpstreamSet.current us' = UpstreamSet.current us1.
Proof.
  intros [Wu Wi Wg Wt Ws] Hi. unfold record_pick_stats. destruct (UpstreamSet.pick_stats us1) as [ps|] eqn:E.
  - destruct (Ws ps eq_refl) as (k & Hk & Hkn). apply lookup_lt_is_Some_2 in Hi as [up Hup].
    unfold get. rewrite Hup. cbn [or_panic res_bind].
    destruct (record_by_id_ok _ k ps now (Upstream.id up) Hk) as (ps' & -> & Hps'); [|done|lia|].
    { apply list_elem_of_fmap. exists up. split; [done|]. by eapply list_elem_of_lookup_2. }
    cbn [res_bind]. destruct (maybe_log_ok _ _ ps' now Hps') as (line & ps2 & -> & Hps2); [lia|]. cbn [res_bind].
    eexists. split; [done|]. split; [|by split_and!]. split; cbn; try done. intros ? [= <-]. exists (k + 1). split; [done|lia].
  - exists us1. split; [done|]. split; [|by split_and!]. split; try done. intros ps. by rewrite E.
Qed.

(** A pick that returned [i]. *)
Definition chose (us' : upstreams) (group : bytes) (i : nat) : Prop :=
  wf_set (n + 1) us' /\ same_set us us' /\
  (exists up, all !! i = Some up /\ UpstreamSet.current us' !! group = Some (Some (Upstream.id up))) /\
  forall g, g <> group -> UpstreamSet.current us' !! g = UpstreamSet.current us !! g.

Lemma choose_ok group i : in_range i -> exists us', choose now us group i = Ok (Some i, us') /\ chose us' group i.
Proof.
  intros Hi. unfold choose. destruct (get_ok i Hi) as (up & -> & Hup). cbn [res_bind].
  set (us1 := set_current us _). assert (wf_set n us1) as Hwf1 by (by destruct Hwf; split).
  destruct (record_pick_ok us1 i Hwf1 Hi) as (us' & -> & Hwf' & Hs & Hc). cbn [res_bind].
  exists us'. split; [done|]. split; [done|]. split; [done|]. rewrite Hc. unfold us1. cbn. split.
  - exists up. split; [done|]. apply lookup_insert_eq.
  - intros g Hg. by apply lookup_insert_ne.
Qed.

Definition weights (items : list nat) : list Z := map (fun i => eff i * eff i) items.

Lemma weights_nonneg items : Forall (fun w => 0 <= w) (weights items).
Proof. apply Forall_fmap, Forall_true. intros i. cbn. nia. Qed.

Lemma weights_bound items :
  Forall (fun i => in_range i) items ->
  zsum (weights items) <= 100000000000000 * Z.of_nat (length items) /\ (items <> [] -> 0 < zsum (weights items)).
Proof.
  induction 1 as [|i items Hi Hitems [IH _]]; [done|]. unfold weights in *. cbn [map length]. rewrite zsum_cons.
  pose proof (zsum_nonneg _ (weights_nonneg items)) as Hp. unfold weights in Hp. pose proof (eff_range i Hi). split; [nia|intros _; nia].
Qed.

Lemma squares_ok items : Forall (fun i => in_range i) items -> squares (map eff items) = Ok (weights items).
Proof.
  induction 1 as [|i items Hi _ IH]; [done|]. cbn [map squares]. pose proof (eff_range i Hi).
  rewrite u64_ok by (unfold U64_MAX; nia). cbn [res_bind]. by rewrite IH.
Qed.

Lemma reselect_eq rand items :
  Forall (fun i => in_range i) items -> items <> [] -> Z.of_nat (length items) <= 184467 ->
  reselect rand items (map eff items) =
    match weighted_index (Draw.u64 rand (zsum (weights items))) (weights items) with
    | Some i => or_panic (items !! i)
    | None => or_panic (items !! 0%nat)
    end.
Proof.
  intros Hi Hne Hlen. unfold reselect. rewrite squares_ok by done. cbn [res_bind].
  destruct (weights_bound items Hi) as [Hb Hp]. specialize (Hp Hne).
  rewrite sum_u64_ok by first [apply weights_nonneg|lia|unfold U64_MAX; lia]. cbn [res_bind]. rewrite Z.add_0_l.
  by rewrite (proj2 (Z.eqb_neq _ _)) by lia.
Qed.

Lemma reselect_ok rand items :
  Forall (fun i => in_range i) items -> items <> [] -> Z.of_nat (length items) <= 184467 -> draw_lawful rand ->
  exists i, reselect rand items (map eff items) = Ok i /\ i ∈ items.
Proof.
  intros Hi Hne Hlen [_ Hr]. rewrite reselect_eq by done. destruct (weights_bound items Hi) as [_ Hp].
  destruct (weighted_index_some (Draw.u64 rand (zsum (weights items))) (weights items)) as (k & -> & Hk);
    [apply weights_nonneg|by apply Hr, Hp|].
  unfold weights in Hk. rewrite length_map in Hk. apply lookup_lt_is_Some_2 in Hk as [i Hik]. rewrite Hik. exists i.
  split; [done|]. by eapply list_elem_of_lookup_2.
Qed.

(** ** The sticky upstream *)

Lemma has_id_unique i up j : all !! i = Some up -> has_id us (Upstream.id up) j = true -> j = i.
Proof.
  unfold has_id. intros Hi Hj. destruct (all !! j) as [up'|] eqn:E; [|done]. apply bool_decide_eq_true in Hj.
  eapply NoDup_lookup; [apply Hwf|by rewrite list_lookup_fmap, E|rewrite list_lookup_fmap, Hi; cbn; by rewrite Hj].
Qed.

Lemma sticky_Some items group j : sticky us items group = Some j -> j ∈ items /\ exists up, all !! j = Some up /\
  UpstreamSet.current us !! group = Some (Some (Upstream.id up)).
Proof.
  unfold sticky. destruct (_ !! group) as [[id|]|] eqn:E; try done. intros [Hj Hid]%find_Some. split; [done|].
  unfold has_id in Hid. destruct (all !! j) as [up|]; [|done]. apply bool_decide_eq_true in Hid. exists up. by subst.
Qed.

Lemma sticky_found items group j up :
  all !! j = Some up -> UpstreamSet.current us !! group = Some (Some (Upstream.id up)) -> j ∈ items ->
  sticky us items group = Some j.
Proof.
  intros Hup Hc Hj. unfold sticky. rewrite Hc. destruct (find _ items) as [k|] eqn:E.
  - apply find_Some in E as [_ Hk]. by rewrite (has_id_unique j up k Hup Hk).
  - rewrite find_None in E. specialize (E j Hj). unfold has_id in E. rewrite Hup in E. by apply bool_decide_eq_false in E.
Qed.

(** The upstream that stays: current, a candidate, and within the tolerance
    of every candidate. *)
Definition stays (items : list nat) (group : bytes) : option nat :=
  if 0 <? UpstreamSet.tolerance us then
    match sticky us items group with
    | Some j => if forallb (fun i => eff i <=? eff j + UpstreamSet.tolerance us) items then Some j else None
    | None => None
    end
  else None.

(** Whether the pick explores an upstream without a measurement. *)
Definition explores (rand : draw) (items : list nat) : bool :=
  existsb (uninitialized us) items && SFltb (Draw.f32 rand) PICK_EXPLORE_RATIO.

Lemma uninit_nil items : negb (bool_decide (filter (fun i => uninitialized us i = true) items = [])) = existsb (uninitialized us) items.
Proof.
  induction items as [|i items IH]; [done|]. cbn [existsb]. rewrite <- IH, filter_cons.
  destruct (uninitialized us i) eqn:E; [by rewrite decide_True by done|by rewrite decide_False].
Qed.

Lemma pick_weighted_eq rand items group :
  (2 <= length items)%nat -> Forall (fun i => in_range i) items -> explores rand items = false ->
  pick_weighted now rand us items group =
    match stays items group with
    | Some j => let? us := record_pick_stats now us j in Ok (Some j, us)
    | None => let? i := reselect rand items (map eff items) in choose now us group i
    end.
Proof.
  intros Hlen Hi Hx. unfold explores in Hx. rewrite <- uninit_nil in Hx. unfold pick_weighted.
  destruct items as [|i0 [|i1 rest]] eqn:Eitems; [cbn in Hlen; lia|cbn in Hlen; lia|]. rewrite <- Eitems in *.
  cbv zeta. rewrite Hx, effective_scores_ok by done. clear Hx. cbn [res_bind].
  destruct (max_by_key_spec (zip items (map eff items)) None) as ([best best_eff] & E & [Hb|?] & Hall); [by left; rewrite Eitems| |done].
  unfold max_by_key. rewrite E.
  assert (forall i e, (i, e) ∈ zip items (map eff items) <-> i ∈ items /\ e = eff i) as Hzip.
  { clear. intros i e. induction items as [|k items IH]; cbn; [by rewrite !elem_of_nil; split; [|intros []]|]. rewrite !elem_of_cons, IH. split.
    - intros [[= -> ->]|[? ->]]; [split; [by left|done]|split; [by right|done]].
    - intros [[->|?] ->]; [by left|right; done]. }
  apply Hzip in Hb as [Hb ->]. assert (forall i, i ∈ items -> eff i <= eff best) as Hbest.
  { intros i Hin. apply (Hall (i, eff i)). left. by apply Hzip. }
  unfold stays. destruct (0 <? UpstreamSet.tolerance us) eqn:Etol; [|done]. apply Z.ltb_lt in Etol.
  destruct (sticky us items group) as [j|] eqn:Ej; [|done]. apply sticky_Some in Ej as (Hj & up & Hup & _).
  rewrite Forall_forall in Hi. destruct (get_ok best (Hi best Hb)) as (bup & Eb & Hbup).
  destruct (get_ok j (Hi j Hj)) as (jup & Ejup & Hjup). rewrite Hup in Hjup. injection Hjup as <-.
  rewrite Ejup, Eb. cbn [res_bind]. rewrite (eff_ok j up Hup). cbn [res_bind].
  pose proof (eff_range j (Hi j Hj)) as Hej. pose proof (ws_tolerance _ _ Hwf) as Ht.
  assert (forallb (fun i => eff i <=? eff j + UpstreamSet.tolerance us) items = (eff best <=? eff j + UpstreamSet.tolerance us)) as ->.
  { destruct (Z.leb_spec (eff best) (eff j + UpstreamSet.tolerance us)) as [H|H].
    - apply forallb_forall. intros i Hin%list_elem_of_In. apply Z.leb_le. specialize (Hbest i Hin). lia.
    - apply not_true_is_false. rewrite forallb_forall. intros Hf. apply list_elem_of_In in Hb. specialize (Hf best Hb). lia. }
  case_bool_decide as Eid.
  - assert (best = j) as ->.
    { apply (has_id_unique j up best Hup). unfold has_id. rewrite Hbup. apply bool_decide_eq_true. exact Eid. }
    cbn [res_bind]. by rewrite (proj2 (Z.leb_le _ _)) by lia.
  - rewrite u64_ok by (unfold U64_MAX, U32_MAX in *; lia). cbn [res_bind]. rewrite Z.leb_antisym.
    by destruct (_ <? eff best).
Qed.
End Choice.

(** * Picks *)

Lemma pick_weighted_ok n now us rand items group :
  wf_set n us -> n < U64_MAX -> 0 <= now <= U64_MAX -> draw_lawful rand ->
  Forall (fun i => (i < length (UpstreamSet.all_items us))%nat) items -> Z.of_nat (length items) <= 184467 ->
  (items = [] /\ pick_weighted now rand us items group = Ok (None, us)) \/
  exists i us', i ∈ items /\ pick_weighted now rand us items group = Ok (Some i, us') /\ chose n us us' group i.
Proof.
  intros Hwf Hn Hnow Hr Hi Hlen. destruct items as [|i0 [|i1 rest]] eqn:E; [by left|right..].
  { apply Forall_inv in Hi. destruct (choose_ok n now us Hwf Hn Hnow group i0 Hi) as (us' & E' & H).
    exists i0, us'. split; [by left|done]. }
  rewrite <- E in *. assert (items <> []) as Hne by (by rewrite E). assert (2 <= length items)%nat as Hlen2 by (rewrite E; cbn; lia).
  destruct (explores us rand items) eqn:Hx.
  - unfold explores in Hx. rewrite <- uninit_nil in Hx. set (uninit := filter _ _) in Hx.
    assert (exists i, uninit !! Z.to_nat (Draw.usize rand (Z.of_nat (length uninit))) = Some i) as [i Hui].
    { apply andb_true_iff in Hx as [Hx _]. apply negb_true_iff, bool_decide_eq_false in Hx.
      assert (0 < length uninit)%nat by (destruct uninit; [done|cbn; lia]).
      apply lookup_lt_is_Some_2. destruct Hr as [Hr _]. specialize (Hr (Z.of_nat (length uninit)) ltac:(lia)). lia. }
    assert (i ∈ items) as Hin.
    { apply list_elem_of_lookup_2 in Hui. by apply list_elem_of_filter in Hui as [_ ?]. }
    destruct (choose_ok n now us Hwf Hn Hnow group i) as (us' & E' & H); [by rewrite Forall_forall in Hi; apply Hi|].
    exists i, us'. split; [done|]. split; [|done]. unfold pick_weighted. rewrite E at 1. fold uninit. cbv zeta. rewrite Hx, Hui. exact E'.
  - rewrite (pick_weighted_eq n now us Hwf Hnow) by done. destruct (stays now us items group) as [j|] eqn:Es.
    + unfold stays in Es. destruct (0 <? _); [|done]. destruct (sticky us items group) as [k|] eqn:Ek; [|done].
      destruct (forallb _ _); [|done]. injection Es as ->. apply sticky_Some in Ek as (Hj & up & Hup & Hc).
      destruct (record_pick_ok n now Hn Hnow us j Hwf) as (us' & -> & Hwf' & Hs & Ecur); [by eapply lookup_lt_Some|].
      cbn [res_bind]. exists j, us'. split; [done|]. split; [done|]. split; [done|]. split; [done|]. rewrite Ecur. split; [|done].
      by exists up.
    + destruct (reselect_ok n now us Hwf Hnow rand items Hi Hne Hlen Hr) as (i & -> & Hin). cbn [res_bind].
      destruct (choose_ok n now us Hwf Hn Hnow group i) as (us' & E' & H); [by rewrite Forall_forall in Hi; apply Hi|].
      exists i, us'. done.
Qed.

Lemma pick_excluding_none n us group now rand :
  wf_set n us -> pick_from_group now rand us group = pick_excluding_many_from_group now rand us group ∅.
Proof.
  intros Hwf. unfold pick_from_group, pick_excluding_many_from_group. destruct (_ !! group) as [items|] eqn:E; [|done].
  rewrite filter_all; [by destruct items|]. intros i Hi. apply (ws_groups _ _ Hwf) in E as [E _]. rewrite Forall_forall in E.
  destruct (lookup_lt_is_Some_2 _ _ (E i Hi)) as [up Hup]. unfold excluded. rewrite Hup. apply bool_decide_eq_false. set_solver.
Qed.

Lemma pick_excluding_ok n now us rand group exclude :
  wf_set n us -> n < U64_MAX -> 0 <= now <= U64_MAX -> draw_lawful rand ->
  exists o us', pick_excluding_many_from_group now rand us group exclude = Ok (o, us') /\ wf_set (n + 1) us' /\
    let members := default [] (UpstreamSet.groups us !! group) in
    match o with
    | None => us' = us /\ forall i up, i ∈ members -> UpstreamSet.all_items us !! i = Some up -> Upstream.id up ∈ exclude
    | Some i => exists up, i ∈ members /\ UpstreamSet.all_items us !! i = Some up /\ (Upstream.id up ∉ exclude) /\
        same_set us us' /\ UpstreamSet.current us' !! group = Some (Some (Upstream.id up)) /\
        forall g, g <> group -> UpstreamSet.current us' !! g = UpstreamSet.current us !! g
    end.
Proof.
  intros Hwf Hn Hnow Hr. unfold pick_excluding_many_from_group.
  assert (wf_set (n + 1) us) as Hwf1.
  { destruct Hwf as [? ? ? ? Hs]. split; try done. intros ps Hps. destruct (Hs ps Hps) as (k & ? & ?). exists k. split; [done|lia]. }
  destruct (UpstreamSet.groups us !! group) as [items|] eqn:E; cbn [default].
  2: { exists None, us. split; [done|]. split; [done|]. split; [done|]. intros i up Hi. by apply elem_of_nil in Hi. }
  destruct (ws_groups _ _ Hwf _ _ E) as [Hi Hlen]. set (candidates := filter _ items).
  assert (forall i, i ∈ candidates <-> excluded us exclude i = false /\ i ∈ items) as Hc by (intros i; unfold candidates; by rewrite list_elem_of_filter).
  destruct (pick_weighted_ok n now us rand candidates group Hwf Hn Hnow Hr) as [[Enil _]|(i & us' & Hin & Ep & Hch)].
  - apply Forall_forall. intros i Hin. apply Hc in Hin as [_ Hin]. rewrite Forall_forall in Hi. by apply Hi.
  - pose proof (length_filter (fun i => excluded us exclude i = false) items). fold candidates in H. lia.
  - rewrite Enil. exists None, us. split; [done|]. split; [done|]. split; [done|]. intros i up Hin Hup.
    destruct (excluded us exclude i) eqn:Ex; [|assert (i ∈ candidates) as H by (by apply Hc); rewrite Enil in H; by apply elem_of_nil in H].
    unfold excluded in Ex. rewrite Hup in Ex. by apply bool_decide_eq_true in Ex.
  - exists (Some i), us'. split; [destruct candidates; [by apply elem_of_nil in Hin|done]|]. destruct Hch as (Hwf' & Hs & (up & Hup & Hcur) & Hother).
    split; [done|]. exists up. apply Hc in Hin as [Hex Hin]. split; [done|]. split; [done|]. split; [|done].
    unfold excluded in Hex. rewrite Hup in Hex. by apply bool_decide_eq_false in Hex.
Qed.

(** Picking is safe: in a well-formed set, for every clock and every
    lawful random draw, a pick never panics or overflows (nor its statistics
    and log); it answers [None], changing nothing, exactly when the group is
    unknown or all its members are excluded, and otherwise a member of the
    group that is not excluded, which becomes the current upstream of that
    group and of no other. The set stays well-formed, so the same holds of the
    next pick. A pick without exclusions is the one that excludes nothing. *)
Theorem pick_safe n now us rand group exclude :
  wf_set n us -> n < U64_MAX -> 0 <= now <= U64_MAX -> draw_lawful rand ->
  pick_from_group now rand us group = pick_excluding_many_from_group now rand us group ∅ /\
  exists o us', pick_excluding_many_from_group now rand us group exclude = Ok (o, us') /\ wf_set (n + 1) us' /\
    let members := default [] (UpstreamSet.groups us !! group) in
    match o with
    | None => us' = us /\ forall i up, i ∈ members -> UpstreamSet.all_items us !! i = Some up -> Upstream.id up ∈ exclude
    | Some i => exists up, i ∈ members /\ UpstreamSet.all_items us !! i = Some up /\ (Upstream.id up ∉ exclude) /\
        same_set us us' /\ UpstreamSet.current us' !! group = Some (Some (Upstream.id up)) /\
        forall g, g <> group -> UpstreamSet.current us' !! g = UpstreamSet.current us !! g
    end.
Proof. intros Hwf Hn Hnow Hr. split; [by eapply pick_excluding_none|by apply pick_excluding_ok]. Qed.

(** The upstream that a pick returned. *)
Definition picked (r : checked (option nat * upstreams)) : option nat := match r with Ok (o, _) => o | _ => None end.

(** C21: which upstream a pick returns, when it does not explore: the current
    upstream of the group, if tolerance is on and no member's effective score
    exceeds its score by more than the tolerance; and otherwise, over the
    draws below the total of the squared scores, each member of the group
    exactly as many times as its score squared, so that every member keeps a
    positive share. *)
Theorem pick_distribution n now us rand group items :
  wf_set n us -> n < U64_MAX -> 0 <= now <= U64_MAX ->
  UpstreamSet.groups us !! group = Some items -> NoDup items -> (2 <= length items)%nat -> explores us rand items = false ->
  let score := eff now us in
  let total := zsum (map (fun i => score i * score i) items) in
  let with_draw r := {| Draw.f32 := Draw.f32 rand; Draw.usize := Draw.usize rand; Draw.u64 := fun _ => r |} in
  (forall j up, j ∈ items -> UpstreamSet.all_items us !! j = Some up ->
    UpstreamSet.current us !! group = Some (Some (Upstream.id up)) -> 0 < UpstreamSet.tolerance us ->
    (forall i, i ∈ items -> score i <= score j + UpstreamSet.tolerance us) ->
    picked (pick_from_group now rand us group) = Some j) /\
  ((forall j up, j ∈ items -> UpstreamSet.all_items us !! j = Some up ->
      UpstreamSet.current us !! group = Some (Some (Upstream.id up)) -> 0 < UpstreamSet.tolerance us ->
      exists i, i ∈ items /\ score j + UpstreamSet.tolerance us < score i) ->
    forall i, i ∈ items -> 0 < score i /\
      Z.of_nat (length (filter (fun r => picked (pick_from_group now (with_draw r) us group) = Some i) (seqZ 0 total)))
        = score i * score i).
Proof.
  intros Hwf Hn Hnow Hg Hd Hlen2 Hx score total with_draw. destruct (ws_groups _ _ Hwf _ _ Hg) as [Hi Hlen].
  unfold pick_from_group. rewrite Hg. pose proof Hi as Hi'. rewrite Forall_forall in Hi'. split.
  - intros j up Hj Hup Hc Htol Hall. rewrite (pick_weighted_eq n now us Hwf Hnow) by done. unfold stays.
    rewrite (proj2 (Z.ltb_lt _ _) Htol), (sticky_found n us Hwf items group j up Hup Hc Hj).
    rewrite (proj2 (forallb_forall _ _)) by (intros i Hin%list_elem_of_In; by apply Z.leb_le, Hall).
    destruct (record_pick_ok n now Hn Hnow us j Hwf (Hi' j Hj)) as (us' & -> & _). done.
  - intros Hno i Hin. pose proof (eff_range n now us Hwf Hnow i (Hi' i Hin)) as Hs. split; [unfold score; lia|].
    assert (stays now us items group = None) as Hstay.
    { unfold stays. destruct (Z.ltb_spec 0 (UpstreamSet.tolerance us)) as [Ht|]; [|done].
      destruct (sticky us items group) as [j|] eqn:Ej; [|done]. apply sticky_Some in Ej as (Hj & up & Hup & Hc).
      destruct (Hno j up Hj Hup Hc Ht) as (k & Hk & Hlt). destruct (forallb _ items) eqn:Ef; [|done].
      rewrite forallb_forall in Ef. apply list_elem_of_In in Hk. specialize (Ef k Hk). apply Z.leb_le in Ef. unfold score in Hlt. lia. }
    apply list_elem_of_lookup in Hin as [k Hk].
    transitivity (Z.of_nat (length (filter (fun r => weighted_index r (weights now us items) = Some k) (seqZ 0 total)))).
    + do 2 f_equal. apply filter_ext_in. intros r Hr%elem_of_seqZ.
      rewrite (pick_weighted_eq n now us Hwf Hnow) by done. rewrite Hstay.
      rewrite (reselect_eq n now us Hwf Hnow) by (done || by destruct items). cbn [Draw.u64 with_draw].
      destruct (weighted_index_some r (weights now us items)) as (k' & -> & Hk'); [apply weights_nonneg|by unfold total in Hr|].
      unfold weights in Hk'. rewrite length_map in Hk'. apply lookup_lt_is_Some_2 in Hk' as [i' Hi'k]. rewrite Hi'k. cbn [or_panic res_bind].
      destruct (choose_ok n now us Hwf Hn Hnow group i') as (us' & -> & _); [by apply Hi'; eapply list_elem_of_lookup_2|]. cbn [picked].
      split; intros [= <-]; [|congruence]. f_equal. by eapply NoDup_lookup.
    + unfold total. fold (weights now us items). rewrite weighted_draws by apply weights_nonneg.
      unfold weights. by rewrite list_lookup_fmap, Hk.
Qed.

(** * Construction *)

(** The occurrences of an upstream in a group, in the order of the
    configuration. *)
Definition group_members (items : list upstream) (g : bytes) : list nat :=
  concat (imap (fun i up => map (fun _ => i) (filter (eq g) (Upstream.groups up))) items).

Definition some_unless_nil {A} (l : list A) : option (list A) := match l with [] => None | _ => Some l end.

Lemma push_all_lookup i gs m g :
  foldl (group_push i) m gs !! g =
    some_unless_nil (default [] (m !! g) ++ map (fun _ => i) (filter (eq g) gs)) ∪ m !! g.
Proof.
  revert m. induction gs as [|g' gs IH]; intros m; cbn [foldl].
  { cbn. rewrite app_nil_r. by destruct (m !! g) as [[|]|]. }
  rewrite IH, filter_cons. unfold group_push. destruct (decide (g = g')) as [<-|Hne].
  - rewrite lookup_partial_alter_eq. cbn [from_option map]. set (d := default [] (m !! g)).
    change (id (d ++ [i])) with (d ++ [i]). rewrite <- app_assoc. destruct d; cbn; by destruct (m !! g).
  - by rewrite lookup_partial_alter_ne.
Qed.

Lemma build_groups_lookup items g : build_groups items !! g = some_unless_nil (group_members items g).
Proof.
  unfold build_groups, group_members. induction items as [|up items IH] using rev_ind; [done|].
  rewrite !imap_app, foldl_app, concat_app. cbn [imap foldl fst snd compose concat]. rewrite push_all_lookup, IH, app_nil_r.
  set (l := concat _). by destruct l; cbn; [destruct (map _ _)|].
Qed.

Lemma elem_of_group_members items g i :
  i ∈ group_members items g <-> exists up, items !! i = Some up /\ g ∈ Upstream.groups up.
Proof.
  unfold group_members. rewrite list_elem_of_In, in_concat. split.
  - intros (l & Hl & Hi). apply list_elem_of_In, elem_of_lookup_imap_1 in Hl as (k & up & -> & Hk).
    apply list_elem_of_In, list_elem_of_fmap in Hi as (g' & -> & [<- Hg]%list_elem_of_filter). by exists up.
  - intros (up & Hup & Hg). exists (map (fun _ => i) (filter (eq g) (Upstream.groups up))). split.
    + apply list_elem_of_In, list_elem_of_lookup. exists i. by rewrite list_lookup_imap, Hup.
    + apply list_elem_of_In, list_elem_of_fmap. exists g. split; [done|]. by apply list_elem_of_filter.
Qed.

Lemma upstream_set_new_exact items tolerance weight stale window :
  Forall (fun up => exists id addr groups gain, up = upstream_new id addr groups gain /\
    f64_is_finite gain = true /\ f64_le gain f64_zero = false) items ->
  NoDup (map Upstream.id items) -> (forall g, Z.of_nat (length (group_members items g)) <= 184467) ->
  0 <= tolerance <= U32_MAX -> stale < 2 ^ 53 ->
  (items = [] /\ upstream_set_new items tolerance weight stale window = Err tt) \/
  exists us, items <> [] /\ upstream_set_new items tolerance weight stale window = Ok us /\ wf_set 0 us /\
    map Upstream.id (UpstreamSet.all_items us) = map Upstream.id items /\ UpstreamSet.current us = ∅ /\
    (forall g i, i ∈ default [] (UpstreamSet.groups us !! g) <-> exists up, items !! i = Some up /\ g ∈ Upstream.groups up) /\
    (forall g, UpstreamSet.groups us !! g = None <-> forall up, up ∈ items -> g ∉ Upstream.groups up).
Proof.
  intros Hnew Hd Hlen Ht Hs. destruct (decide (items = [])) as [->|Hne]; [by left|right].
  set (conf := fun up => set_quic_stale_secs (set_quic_weight up weight) stale).
  assert (map Upstream.id (map conf items) = map Upstream.id items) as Hids by (rewrite map_map; done).
  assert (forall g, build_groups items !! g = None <-> group_members items g = []) as Hnone.
  { intros g. rewrite build_groups_lookup. by destruct (group_members items g). }
  eexists. split; [done|]. split; [by destruct items|]. split; [|split; [exact Hids|]; split; [done|]; split; cbn].
  - split; cbn; [|by rewrite map_map| |done|].
    + apply Forall_fmap. eapply Forall_impl; [exact Hnew|]. cbn. intros up (id & addr & gs & gain & -> & Hf & Hg).
      by apply upstream_new_wf.
    + intros g l. rewrite build_groups_lookup. intros Hl. assert (l = group_members items g) as ->.
      { destruct (group_members items g); cbn in Hl; congruence. }
      split; [|apply Hlen]. apply Forall_forall. intros i (up & Hup & _)%elem_of_group_members.
      rewrite length_map. by eapply lookup_lt_Some.
    + intros ps. destruct (Z.ltb_spec 0 window) as [Hw|]; [|done]. intros [= <-]. exists 0. split; [|done].
      rewrite map_map. exact (stats_new_wf (map Upstream.id items) window Hd Hw).
  - intros g i. rewrite build_groups_lookup, <- elem_of_group_members. by destruct (group_members items g).
  - intros g. rewrite Hnone. split.
    + intros Hg up Hup Hin. apply list_elem_of_lookup in Hup as [i Hi].
      assert (i ∈ group_members items g) as H by (apply elem_of_group_members; eauto). rewrite Hg in H. by apply elem_of_nil in H.
    + intros Hno. destruct (group_members items g) as [|i l] eqn:E; [done|].
      destruct (proj1 (elem_of_group_members items g i)) as (up & Hup & Hg); [rewrite E; by left|].
      exfalso. by apply (Hno up); [eapply list_elem_of_lookup_2|].
Qed.

(** ** Witnesses *)

Definition example_items : list upstream :=
  map (fun id => upstream_new (bs id) {| sa_ip := V4 1; sa_port := 1080 |} [bs "default"] f64_one) ["a"; "b"]%string.
Definition example_draw : draw := {| Draw.f32 := binary_normalize 24 128 1 0 false; Draw.usize := fun _ => 0; Draw.u64 := fun _ => 0 |}.

Lemma example_items_new :
  Forall (fun up => exists id addr groups gain, up = upstream_new id addr groups gain /\
    f64_is_finite gain = true /\ f64_le gain f64_zero = false) example_items.
Proof.
  apply Forall_fmap, Forall_true. intros id. cbn. eexists _, _, _, _. split; [reflexivity|]. by vm_compute.
Qed.
Lemma example_items_ids : NoDup (map Upstream.id example_items).
Proof. apply (bool_decide_unpack _); vm_compute; exact I. Qed.
Lemma example_items_groups g : Z.of_nat (length (group_members example_items g)) <= 184467.
Proof.
  unfold example_items, group_members. cbn [map imap]. change (Upstream.groups (upstream_new _ _ ?gs _)) with gs. cbn [concat].
  rewrite !filter_cons, filter_nil. by repeat (destruct (decide _); cbn).
Qed.

Lemma pick_safe_witness :
  exists us o us', upstream_set_new example_items 10 40 180 60 = Ok us /\
    pick_excluding_many_from_group 100 example_draw us (bs "default") {[bs "a"]} = Ok (o, us') /\ o = Some 1%nat.
Proof.
  destruct (upstream_set_new_exact example_items 10 40 180 60 example_items_new example_items_ids example_items_groups)
    as [[? _]|(us & _ & E & Hwf & _ & _ & _ & _)]; [by unfold U32_MAX|done|done|].
  destruct (pick_safe 0 100 us example_draw (bs "default") {[bs "a"]} Hwf) as (_ & o & us' & Ep & _); [done|done| |].
  { split; intros n Hn; cbn; lia. }
  exists us, o, us'. split; [done|]. split; [done|].
  change o with (picked (Ok (o, us'))). rewrite <- Ep. injection E as <-. vm_compute. reflexivity.
Defined.

Lemma pick_distribution_witness :
  exists us, upstream_set_new example_items 0 40 180 60 = Ok us /\ eff 100 us 1 = 75 /\
    Z.of_nat (length (filter (fun r => picked (pick_from_group 100
      {| Draw.f32 := Draw.f32 example_draw; Draw.usize := Draw.usize example_draw; Draw.u64 := fun _ => r |}
      us (bs "default")) = Some 1%nat) (seqZ 0 (zsum (map (fun i => eff 100 us i * eff 100 us i) [0; 1]%nat))))) = 75 * 75.
Proof.
  destruct (upstream_set_new_exact example_items 0 40 180 60 example_items_new example_items_ids example_items_groups)
    as [[? _]|(us & _ & E & Hwf & _ & _ & _ & _)]; [by unfold U32_MAX|done|done|].
  assert (eff 100 us 1 = 75) as He by (injection E as <-; vm_compute; reflexivity).
  exists us. split; [done|]. split; [done|]. rewrite <- He at 1 2.
  apply (pick_distribution 0 100 us example_draw (bs "default") [0; 1]%nat Hwf); [done|done| | |cbn; lia| | |by right; left].
  - injection E as <-. vm_compute. reflexivity.
  - apply (bool_decide_unpack _). vm_compute. exact I.
  - injection E as <-. vm_compute. reflexivity.
  - intros j up _ _ Hc. injection E as <-. vm_compute in Hc. done.
Defined.
