(* ===== verification/Probes.v ===== *)
(** Building the set of upstreams from a configuration ([cli.rs]), and its
    updates by probe reports and health checks ([upstream.rs]). *)

From Stdlib Require Import Strings.Byte Strings.String.
From S2P Require Import Prelude Bytes Ordered Float64 Config Cli Scores Stats Picks.
#[local] Open Scope Z_scope.

(** * From the configuration *)

(** [Config::build_upstream_set] *)
Definition build_upstream_set (c : Config.Config) : config_res upstreams :=
  let? _ := check_upstream_ids c in
  let items := map (fun u =>
    upstream_new (trim (UpstreamConfig.id u)) (UpstreamConfig.addr u) (built_groups u) (UpstreamConfig.gain u))
    (Config.upstream c) in
  res_map_err (fun _ => ConfigError.NoUpstream)
    (upstream_set_new items (Config.upstream_switch_tolerance c) (Config.quic_weight c) (Config.quic_stale_secs c)
      (Config.pick_stats_window_secs c)).

(** * Reports and health checks *)

(** The [Arc]s share one upstream: a write is seen by everyone. *)
Definition store (us : upstreams) (i : nat) (up : upstream) : upstreams := {|
  UpstreamSet.groups := UpstreamSet.groups us;
  UpstreamSet.all_items := <[i := up]> (UpstreamSet.all_items us);
  UpstreamSet.current := UpstreamSet.current us;
  UpstreamSet.tolerance := UpstreamSet.tolerance us;
  UpstreamSet.pick_stats := UpstreamSet.pick_stats us;
|}.

Module ShadowQuicReport.
Record ShadowQuicReport := {
  upstream_id : bytes;
  rtt_ms : f64;
  loss_rate : f64;
  mtu : Z;
  link : option bytes;
}.
End ShadowQuicReport.

(** One report of [run_upstream_stats_listener], once decoded. *)
Definition handle_report (exp : f64 -> f64) (now : Z) (disable_upstream_score enable_relative_scoring : bool)
    (us : upstreams) (rep : ShadowQuicReport.ShadowQuicReport) : checked upstreams :=
  if disable_upstream_score then Ok us
  else
    match find_by_id us (ShadowQuicReport.upstream_id rep) with
    | None => Ok us
    | Some i =>
        let? up := get us i in
        let rtt := ShadowQuicReport.rtt_ms rep in
        let loss := ShadowQuicReport.loss_rate rep in
        if enable_relative_scoring then
          match probe_quality exp rtt loss (ShadowQuicReport.mtu rep) with
          | Some q => Ok (store us i (set_probe_quality now up q (ShadowQuicReport.link rep)))
          | None => Ok us
          end
        else
          let score := calc_quic_score rtt loss (ShadowQuicReport.mtu rep) in
          let? up :=
            if bool_decide (ShadowQuicReport.link rep = Some (bs "downlink")) then update_downlink_score now up score
            else update_uplink_score now up score in
          Ok (store us i up)
    end.

(** The request of [check_upstream_health] and its reading of the reply. *)
Definition health_request (check_url : bytes) : bytes :=
  bs "HEAD / HTTP/1.1" ++ [x0d; x0a] ++ bs "Host: " ++ check_url ++ [x0d; x0a] ++ bs "Connection: close" ++ [x0d; x0a; x0d; x0a].
Fixpoint any_window (w buf : bytes) : bool :=
  match buf with
  | [] => false
  | _ :: rest => ((Nat.leb (length w) (length buf)) && bool_decide (take (length w) buf = w)) || any_window w rest
  end.
Definition health_reply (buf : bytes) : bool := (8 <=? zlen buf) && any_window (bs "HTTP/1.1") buf.

Lemma store_wf n us i up up' :
  wf_set n us -> UpstreamSet.all_items us !! i = Some up -> wf_upstream up' -> same_upstream up up' -> wf_set n (store us i up').
Proof.
  intros [Wu Wi Wg Wt Ws] Hi Hw (Hid & _).
  assert (map Upstream.id (<[i := up']> (UpstreamSet.all_items us)) = map Upstream.id (UpstreamSet.all_items us)) as E.
  { rewrite list_fmap_insert. apply list_insert_id. rewrite list_lookup_fmap, Hi. cbn. by rewrite Hid. }
  split; cbn; rewrite ?E, ?length_insert; try done. by apply Forall_insert.
Qed.

Lemma find_by_id_Some us id i : find_by_id us id = Some i -> exists up, UpstreamSet.all_items us !! i = Some up /\ Upstream.id up = id.
Proof.
  unfold find_by_id. intros [_ H]%find_Some. unfold has_id in H. destruct (_ !! i) as [up|]; [|done].
  apply bool_decide_eq_true in H. by exists up.
Qed.

(** A report never fails, keeps the set well-formed, and changes at most the
    reported upstream, as a probe report or a link report. *)
Lemma report_ok exp n now disabled relative us rep :
  wf_set n us -> 0 <= now <= U64_MAX ->
  exists us', handle_report exp now disabled relative us rep = Ok us' /\ wf_set n us' /\
    (us' = us \/ exists i up up', UpstreamSet.all_items us !! i = Some up /\
      Upstream.id up = ShadowQuicReport.upstream_id rep /\ us' = store us i up' /\ same_upstream up up').
Proof.
  intros Hwf Hn. unfold handle_report. destruct disabled; [by exists us; split_and!; [|done|left]|].
  destruct (find_by_id us _) as [i|] eqn:Ei; [|by exists us; split_and!; [|done|left]].
  apply find_by_id_Some in Ei as (up & Hup & Hid). unfold get. rewrite Hup. cbn [or_panic res_bind].
  assert (wf_upstream up) as Hw by (eapply Forall_lookup_1; [apply Hwf|done]).
  assert (forall op, op_fits up op -> exists up', score_step now up op = Ok up' /\ wf_set n (store us i up') /\ same_upstream up up') as Hstep.
  { intros op Hop. destruct (score_step_keeps now up op Hw Hn Hop) as (up' & E & Hw' & Hs). exists up'. split_and!; try done. by eapply store_wf. }
  cbv zeta. destruct relative.
  - destruct (probe_quality _ _ _ _) as [q|]; [|by exists us; split_and!; [|done|left]].
    destruct (Hstep (ProbeReport q (ShadowQuicReport.link rep)) I) as (up' & E & Hw' & Hs). injection E as <-.
    eexists. split; [done|]. split; [done|]. right. eauto 10.
  - destruct (bool_decide _);
      [destruct (Hstep (DownlinkReport (calc_quic_score (ShadowQuicReport.rtt_ms rep) (ShadowQuicReport.loss_rate rep) (ShadowQuicReport.mtu rep))) I) as (up' & E & Hw' & Hs)
      |destruct (Hstep (UplinkReport (calc_quic_score (ShadowQuicReport.rtt_ms rep) (ShadowQuicReport.loss_rate rep) (ShadowQuicReport.mtu rep))) I) as (up' & E & Hw' & Hs)];
      cbn [score_step] in E; rewrite E; cbn [res_bind]; eexists; (split; [done|]); (split; [done|]); right; eauto 10.
Qed.

Lemma any_window_spec w buf : w <> [] -> any_window w buf = true <-> exists a b, buf = a ++ w ++ b.
Proof.
  intros Hw. induction buf as [|x buf IH]; cbn [any_window].
  - split; [done|]. intros (a & b & E). by destruct a, w.
  - rewrite orb_true_iff, IH, andb_true_iff, Nat.leb_le, bool_decide_eq_true. split.
    + intros [[_ E]|(a & b & ->)]; [exists [], (drop (length w) (x :: buf)); cbn [app]; rewrite <- E at 1; by rewrite take_drop|by exists (x :: a), b].
    + intros ([|y a] & b & E); [left|right].
      * cbn in E. rewrite E, length_app, take_app_length. split; [lia|done].
      * injection E as -> ->. by exists a, b.
Qed.

Lemma health_reply_spec buf : health_reply buf = true <-> exists a b, buf = a ++ bs "HTTP/1.1" ++ b.
Proof.
  unfold health_reply. rewrite andb_true_iff, any_window_spec, Z.leb_le by done. split; [by intros [_ ?]|].
  intros (a & b & E). split; [|eauto]. rewrite E. unfold zlen. rewrite !length_app. cbn. lia.
Qed.

(** ** Identifiers *)

Lemma check_ids_spec ups : forall ids,
  check_ids ids ups = Ok tt <->
    Forall (fun u => trim (UpstreamConfig.id u) <> [] /\ trim (UpstreamConfig.id u) ∉ ids) ups /\
    NoDup (map (fun u => trim (UpstreamConfig.id u)) ups).
Proof.
  induction ups as [|u ups IH]; intros ids; cbn [check_ids map].
  { split; [intros _; split; constructor|done]. }
  rewrite Forall_cons, NoDup_cons, list_elem_of_fmap.
  destruct (bool_decide_reflect (trim (UpstreamConfig.id u) = [])) as [|Hne]; cbn [negb]; [split; [done|tauto]|].
  destruct (bool_decide_reflect (trim (UpstreamConfig.id u) ∈ ids)) as [|Hni]; cbn [negb]; [split; [done|tauto]|].
  rewrite IH. rewrite !Forall_forall. split.
  - intros [H Hd]. split; [split; [done|]|split; [|done]].
    + intros v Hv. destruct (H v Hv) as [? Hn]. split; [done|]. intros Hin. apply Hn. by apply elem_of_union_r.
    + intros (v & E & Hv). destruct (H v Hv) as [_ Hn]. rewrite <- E in Hn. apply Hn. apply elem_of_union_l. by apply elem_of_singleton.
  - intros [[_ H] [Hn Hd]]. split; [|done]. intros v Hv. destruct (H v Hv) as [? ?]. split; [done|].
    intros [E%elem_of_singleton|]%elem_of_union; [|done]. apply Hn. by exists v.
Qed.

Lemma check_upstream_ids_spec c :
  check_upstream_ids c = Ok tt <->
    Config.upstream c <> [] /\ Forall (fun u => trim (UpstreamConfig.id u) <> []) (Config.upstream c) /\
    NoDup (map (fun u => trim (UpstreamConfig.id u)) (Config.upstream c)).
Proof.
  unfold check_upstream_ids. rewrite ensure_ok, negb_true_iff, bool_decide_eq_false, check_ids_spec, !Forall_forall.
  split; intros (H1 & H2 & H3); (split; [done|]; split; [|done]); intros u Hu; specialize (H2 u Hu); [tauto|split; [done|set_solver]].
Qed.

Lemma check_upstream_ids_returns c : returns (check_upstream_ids c).
Proof.
  unfold check_upstream_ids. destruct (negb _); [|done]. generalize (∅ : gset bytes) as ids.
  induction (Config.upstream c) as [|u ups IH]; intros ids; [done|]. cbn [check_ids].
  destruct (negb _); [|done]. destruct (negb _); [|done]. apply IH.
Qed.

(** * Theorems *)

Lemma map_id_items c :
  map Upstream.id (map (fun u =>
    upstream_new (trim (UpstreamConfig.id u)) (UpstreamConfig.addr u) (built_groups u) (UpstreamConfig.gain u))
    (Config.upstream c)) = map (fun u => trim (UpstreamConfig.id u)) (Config.upstream c).
Proof. by rewrite map_map. Qed.

(** C26: the set built from an accepted configuration: when [validate] accepts
    it (in any traversal order of its maps) and no group has more than 184,467
    entries, [build_upstream_set] succeeds exactly when there is an upstream
    and the trimmed identifiers are nonempty and distinct, and never panics;
    the set is then well-formed, so every later pick and score is safe, has an
    upstream per entry with its trimmed identifier, and the members of a group
    are exactly the entries that name it, "default" standing for a missing
    list. *)
Theorem build_upstream_set_exact parse_ip_or_cidr parse_socket_addr hash_iter c :
  (forall V (m : gmap bytes V), hash_iter V m ≡ₚ map_to_list m) ->
  validate parse_ip_or_cidr parse_socket_addr hash_iter c = Ok tt ->
  0 <= Config.upstream_switch_tolerance c <= U32_MAX ->
  (forall g, Z.of_nat (length (group_members (map (fun u =>
    upstream_new (trim (UpstreamConfig.id u)) (UpstreamConfig.addr u) (built_groups u) (UpstreamConfig.gain u))
    (Config.upstream c)) g)) <= 184467) ->
  let ids := map (fun u => trim (UpstreamConfig.id u)) (Config.upstream c) in
  returns (build_upstream_set c) /\
  ((exists us, build_upstream_set c = Ok us) <-> ids <> [] /\ Forall (fun id => id <> []) ids /\ NoDup ids) /\
  forall us, build_upstream_set c = Ok us ->
    wf_set 0 us /\ map Upstream.id (UpstreamSet.all_items us) = ids /\ UpstreamSet.current us = ∅ /\
    forall g i, i ∈ default [] (UpstreamSet.groups us !! g) <->
      exists u, Config.upstream c !! i = Some u /\ g ∈ built_groups u.
Proof.
  intros Hiter Hval Htol Hlen ids. apply (validate_ok _ _ _ Hiter) in Hval. set (items := map _ (Config.upstream c)) in Hlen.
  assert (check_upstream_ids c = Ok tt <-> ids <> [] /\ Forall (fun id => id <> []) ids /\ NoDup ids) as Hids.
  { rewrite check_upstream_ids_spec. unfold ids. rewrite Forall_fmap. split; intros (H1 & H2 & H3); (split; [by destruct (Config.upstream c)|done]). }
  assert (map Upstream.id items = ids) as Eids by apply map_id_items.
  pose proof (check_upstream_ids_returns c) as Hret. unfold build_upstream_set. fold items.
  destruct (check_upstream_ids c) as [[]|e| |]; cbn [res_bind]; try done.
  2: { split; [done|]. split; [|done]. split; [by intros [? ?]|]. intros H. by apply Hids in H. }
  destruct (proj1 Hids eq_refl) as (Hne & Hnonempty & Hd).
  destruct (upstream_set_new_exact items (Config.upstream_switch_tolerance c) (Config.quic_weight c) (Config.quic_stale_secs c)
    (Config.pick_stats_window_secs c)) as [[E _]|(us & _ & -> & Hwf & Eus & Ecur & Hg & _)].
  - apply Forall_fmap, Forall_forall. intros u Hu. cbn. eexists _, _, _, _. split; [done|]. by apply (v_gain _ _ _ Hval).
  - by rewrite Eids.
  - done.
  - done.
  - destruct (v_quic_stale _ _ _ Hval). lia.
  - exfalso. apply Hne. by rewrite <- Eids, E.
  - cbn. split; [done|]. split; [split; [done|by eexists]|]. intros us' [= <-]. split; [done|].
    split; [by rewrite Eus|]. split; [done|]. intros g i. rewrite Hg. unfold items. split.
    + intros (up & Hup & Hin). rewrite list_lookup_fmap in Hup. destruct (Config.upstream c !! i) as [u|]; [|done].
      injection Hup as <-. by exists u.
    + intros (u & Hu & Hin). rewrite list_lookup_fmap, Hu. by eexists.
Qed.

Lemma build_upstream_set_exact_witness :
  exists us, build_upstream_set (file_config [example_upstream (bs " a ") None] false false) = Ok us /\ wf_set 0 us /\
    map Upstream.id (UpstreamSet.all_items us) = [bs "a"].
Proof.
  destruct (build_upstream_set_exact (fun _ => true) example_listen (fun V m => map_to_list m)
    (file_config [example_upstream (bs " a ") None] false false)) as (_ & Hiff & H).
  - done.
  - vm_compute. reflexivity.
  - vm_compute. by split.
  - intros g. cbn. rewrite app_nil_r. by destruct (decide _).
  - destruct (proj2 Hiff) as [us E]; [split; [vm_compute; discriminate|]; split; apply (bool_decide_unpack _); vm_compute; exact I|].
    destruct (H us E) as (Hwf & Hids & _). by exists us.
Defined.
