(* ===== verification/Monitors.v ===== *)
(** The tasks that measure the upstreams, [src/src/upstream.rs]: the listener
    for probe reports on a unix socket, and the health probe that speaks HTTP
    through an upstream; [Scores] has what they do to a score. *)

From Stdlib Require Import Strings.Byte Strings.String.
From S2P Require Import Prelude Bytes Ordered Float64 Config Cli Socks5 Scores Stats Picks Probes.
#[local] Open Scope Z_scope.

(** * The health probe *)

(** What a probe meets: the connection to the proxy, if it can be opened;
    whether the timeout is over before SOCKS5 is through, and before the answer
    is there; and what the one read gives of the answer ([None] is an error). *)
Record ProbeEnv := {
  dialled : option conn;
  connect_late : bool;
  read_late : bool;
  read_len : option Z;
}.
Definition HEALTH_BUFFER : Z := 1024.

(** [stream.read]: at most a buffer of what has arrived. *)
Definition read_some (n : Z) (c : conn) : bytes := take (Z.to_nat (Z.min n HEALTH_BUFFER)) (rd c).
Definition check_upstream_health (check_url : bytes) (creds : option (bytes * bytes)) (env : ProbeEnv) : bool :=
  match dialled env with
  | None => false
  | Some c =>
      match socks5_connect (TargetDomain check_url 80) creds c with
      | (Ok _, c) =>
          if connect_late env then false
          else
            match write_all (health_request check_url) c with
            | (Ok _, c) =>
                if read_late env then false
                else match read_len env with Some n => health_reply (read_some n c) | None => false end
            | _ => false
            end
      | _ => false
      end
  end.

(** * The listener for reports *)

(** A generation as the listener sees it. *)
Record Scored := { disable_upstream_score : bool; enable_relative_scoring : bool; scored_set : upstreams }.
Definition with_scored_set (g : Scored) (us : upstreams) : Scored :=
  {| disable_upstream_score := disable_upstream_score g; enable_relative_scoring := enable_relative_scoring g; scored_set := us |}.

(** Between two rounds of the loop: a datagram arrives at [now] while the
    generation [current] is in force; a receive fails, and the pause after it
    is cancelled or not; or the other tasks have changed the generations. *)
Inductive StatsEvent :=
  | Datagram (now : Z) (current : nat) (data : bytes)
  | RecvFails (cancelled : bool)
  | Elsewhere (gens : gmap nat Scored).
Definition STATS_BUFFER : nat := 2048.

Section Listener.
Context (exp : f64 -> f64) (from_slice : bytes -> option ShadowQuicReport.ShadowQuicReport).

Definition on_report (now : Z) (current : nat) (data : bytes) (gens : gmap nat Scored) : checked (gmap nat Scored) :=
  match from_slice (take STATS_BUFFER data) with
  | None => Ok gens
  | Some rep =>
      let? g := or_panic (gens !! current) in
      let? us := handle_report exp now (disable_upstream_score g) (enable_relative_scoring g) (scored_set g) rep in
      Ok (<[current := with_scored_set g us]> gens)
  end.

(** The loop, up to the events at which it is cancelled. *)
Fixpoint stats_loop (evs : list StatsEvent) (gens : gmap nat Scored) : checked (gmap nat Scored) :=
  match evs with
  | [] | RecvFails true :: _ => Ok gens
  | RecvFails false :: evs => stats_loop evs gens
  | Elsewhere gens :: evs => stats_loop evs gens
  | Datagram now current data :: evs =>
      let? gens := on_report now current data gens in
      stats_loop evs gens
  end.

(** [remove_file], whose error is ignored, on whether the file is there. *)
Definition remove_file (succeeds file : bool) : bool := if succeeds then false else file.
(** The task. [stale] says whether an earlier run left its file, [removes_first]
    and [removes_last] whether the removals before and after succeed; to bind
    fails, for one, where a file is. The first component of the result is whether
    a file is left. *)
Definition run_upstream_stats_listener (stale removes_first removes_last bind_ok chmod_ok : bool) (evs : list StatsEvent) (gens : gmap nat Scored)
    : checked (bool * gmap nat Scored) :=
  let file := remove_file removes_first stale in
  if file || negb bind_ok then Ok (file, gens)
  else
    let file := true in
    if negb chmod_ok then Ok (remove_file removes_last file, gens)
    else
      let? gens := stats_loop evs gens in
      Ok (remove_file removes_last file, gens).

(** ** What the listener keeps *)

(** The sets are well-formed and the datagrams come under a generation that is
    there. *)
Definition wf_gens (n : Z) (gens : gmap nat Scored) : Prop := map_Forall (fun _ g => wf_set n (scored_set g)) gens.
Fixpoint wf_events (n : Z) (there : gset nat) (evs : list StatsEvent) : Prop :=
  match evs with
  | [] => True
  | RecvFails _ :: evs => wf_events n there evs
  | Elsewhere gens :: evs => wf_gens n gens /\ wf_events n (dom gens) evs
  | Datagram now current _ :: evs => 0 <= now <= U64_MAX /\ current ∈ there /\ wf_events n there evs
  end.

(** What a report may do: to one upstream of the generation in force, what a
    probe does, and only if it names that upstream and scores are enabled. *)
Definition reported (rep : ShadowQuicReport.ShadowQuicReport) (g g' : Scored) : Prop :=
  g' = g \/ disable_upstream_score g = false /\ exists i up up', UpstreamSet.all_items (scored_set g) !! i = Some up /\
    Upstream.id up = ShadowQuicReport.upstream_id rep /\ g' = with_scored_set g (store (scored_set g) i up') /\ same_upstream up up'.

Lemma on_report_ok n now current data gens :
  wf_gens n gens -> 0 <= now <= U64_MAX -> current ∈ dom gens ->
  exists gens', on_report now current data gens = Ok gens' /\ wf_gens n gens' /\ dom gens' = dom gens /\
    (gens' = gens \/ exists rep g g', from_slice (take STATS_BUFFER data) = Some rep /\ gens !! current = Some g /\
      gens' = <[current := g']> gens /\ reported rep g g').
Proof.
  intros Hw Hn [g Hg]%elem_of_dom. unfold on_report. destruct (from_slice _) as [rep|] eqn:Er; [|exists gens; eauto 10].
  rewrite Hg. cbn. pose proof (map_Forall_lookup_1 _ _ _ _ Hw Hg) as Hwg. cbn in Hwg.
  assert (exists us', handle_report exp now (disable_upstream_score g) (enable_relative_scoring g) (scored_set g) rep = Ok us' /\
    wf_set n us' /\ reported rep g (with_scored_set g us')) as (us' & -> & Hw' & Hs).
  { destruct (disable_upstream_score g) eqn:Ed; [exists (scored_set g); split_and!; [done|done|left; by destruct g]|].
    destruct (report_ok exp n now false (enable_relative_scoring g) (scored_set g) rep Hwg Hn) as (us' & -> & Hw' & Hs).
    exists us'. split_and!; [done|done|]. destruct Hs as [->|(i & up & up' & Hi & Hid & -> & Hsame)]; [left; by destruct g|right; eauto 10]. }
  cbn. eexists. split; [done|]. split; [by apply map_Forall_insert_2|]. split; [apply dom_insert_lookup_L; by eexists|].
  right. exists rep, g, (with_scored_set g us'). by split_and!.
Qed.

(** The reports of one generation, in turn. *)
Definition report_step (g g' : Scored) : Prop := exists rep data, from_slice (take STATS_BUFFER data) = Some rep /\ reported rep g g'.
Definition is_current (k : nat) (e : StatsEvent) : Prop := match e with Datagram _ current _ => current = k | Elsewhere _ => True | RecvFails _ => False end.

Lemma stats_loop_ok n evs : forall gens,
  wf_gens n gens -> wf_events n (dom gens) evs ->
  exists gens', stats_loop evs gens = Ok gens' /\ wf_gens n gens' /\
    (Forall (fun e => match e with Elsewhere _ => False | _ => True end) evs ->
     forall k, match gens !! k with Some g => exists g', gens' !! k = Some g' /\ rtc report_step g g' | None => gens' !! k = None end) /\
    (forall k, Forall (fun e => ~ is_current k e) evs -> gens' !! k = gens !! k).
Proof.
  induction evs as [|e evs IH]; intros gens Hw He.
  { exists gens. split_and!; try done. intros _ k. destruct (gens !! k) as [g|]; [|done]. exists g. by split. }
  destruct e as [now current data|[]|gens1]; cbn in He |- *.
  - destruct He as (Hn & Hc & He). destruct (on_report_ok n now current data gens Hw Hn Hc) as (gens1 & -> & Hw1 & Hd & Hstep). cbn.
    rewrite <- Hd in He. destruct (IH gens1 Hw1 He) as (gens2 & E & Hw2 & Hk1 & Hk2). exists gens2. split_and!; [done|done| |].
    + intros [_ Hev]%Forall_cons k. specialize (Hk1 Hev k). destruct Hstep as [->|(rep & g & g' & Er & Hg & -> & Hr)]; [done|].
      destruct (decide (k = current)) as [->|Hne]; [|by rewrite lookup_insert_ne in Hk1].
      rewrite lookup_insert_eq in Hk1. rewrite Hg. destruct Hk1 as (g2 & Hg2 & Hrtc). exists g2. split; [done|].
      eapply rtc_l; [|exact Hrtc]. by exists rep, data.
    + intros k [Hne Hev]%Forall_cons. rewrite (Hk2 k Hev). destruct Hstep as [->|(rep & g & g' & _ & _ & -> & _)]; [done|]. by rewrite lookup_insert_ne.
  - exists gens. split_and!; try done. intros _ k. destruct (gens !! k) as [g|]; [|done]. exists g. by split.
  - destruct (IH gens Hw He) as (gens2 & E & Hw2 & Hk1 & Hk2). exists gens2. split_and!; [done|done| |].
    + intros [_ Hev]%Forall_cons. by apply Hk1.
    + intros k [_ Hev]%Forall_cons. by apply Hk2.
  - destruct He as [Hw1 He]. destruct (IH gens1 Hw1 He) as (gens2 & E & Hw2 & _ & Hk2). exists gens2. split_and!; [done|done| |].
    + by intros [? _]%Forall_cons.
    + intros k [Hne _]%Forall_cons. by destruct Hne.
Qed.
End Listener.

(** * Theorems *)

(** C36: a probe finds an upstream alive exactly when the proxy can be dialled, the
    credentials and the host are representable, the proxy holds the SOCKS5
    conversation to its end and takes the request, neither timeout is over, and
    one read of what follows the conversation gives at most 1024 bytes in which
    [HTTP/1.1] occurs; the status of the answer does not matter. *)
Theorem health_probe_exact check_url creds env :
  check_upstream_health check_url creds env = true <->
  exists c w rest n, dialled env = Some c /\ valid_creds creds /\ 0 < zlen check_url <= 255 /\ wf_wire w /\
    rd c = auth_got creds ++ map byte_of_Z [5; 0; 0] ++ encode_wire w ++ rest /\
    (forall k, writes_left c = Some k -> (auth_writes creds + 2 <= k)%nat) /\
    connect_late env = false /\ read_late env = false /\ read_len env = Some n /\
    exists a b, take (Z.to_nat (Z.min n HEALTH_BUFFER)) rest = a ++ bs "HTTP/1.1" ++ b.
Proof.
  unfold check_upstream_health. split.
  - destruct (dialled env) as [c|]; [|done]. destruct (socks5_connect _ creds c) as [[[]| | |] c1] eqn:E1; try done.
    destruct (connect_late env); [done|]. destruct (write_all _ c1) as [[[]| | |] c2] eqn:E2; try done.
    destruct (read_late env); [done|]. destruct (read_len env) as [n|]; [|done]. intros H%health_reply_spec.
    apply socks5_connect_ok in E1 as (Hv & addr & w & [_ Hh]%push_target_ok & Hw & [Hg _ Hl]).
    apply io_write_all_ok in E2. destruct E2 as [Hg2 _ Hl2]. cbn [app] in Hg2. exists c, w, (rd c2), n. do 4 (split; [done|]). split; [by rewrite Hg, Hg2, <- !app_assoc|].
    split; [|by split_and!]. intros k Hk. rewrite Hk in Hl. destruct Hl as [? Hl]. rewrite Hl in Hl2. lia.
  - intros (c & w & rest & n & Hc & Hv & Hh & Hw & Hrd & Hwl & Hl1 & Hl2 & Hn & Hr). rewrite Hc.
    set (sent := auth_sent creds ++ map byte_of_Z [5; 1; 0] ++ encode_wire (target_wire (TargetDomain check_url 80))).
    set (c1 := {| rd := rest; wr := wr c ++ sent; writes_left := (fun k => (k - (auth_writes creds + 1))%nat) <$> writes_left c |}).
    assert (socks5_connect (TargetDomain check_url 80) creds c = (Ok tt, c1)) as ->.
    { apply socks5_connect_ok. split; [done|]. eexists _, w. split; [by apply push_target_ok|]. split; [done|]. split; cbn.
      - by rewrite Hrd, <- !app_assoc.
      - done.
      - destruct (writes_left c) as [k|]; [|done]. specialize (Hwl k eq_refl). cbn. split; [lia|done]. }
    rewrite Hl1. set (c2 := {| rd := rest; wr := wr c1 ++ health_request check_url; writes_left := pred <$> writes_left c1 |}).
    assert (write_all (health_request check_url) c1 = (Ok tt, c2)) as ->.
    { apply io_write_all_ok. split; [done|done|]. cbn. destruct (writes_left c) as [k|]; [|done]. specialize (Hwl k eq_refl). cbn. split; [lia|f_equal; lia]. }
    rewrite Hl2, Hn. by apply health_reply_spec.
Qed.

(** C35: the listener for probe reports never fails, whatever arrives, and leaves
    no socket file behind unless the system refuses to remove one: every set of
    upstreams stays well-formed; a generation changes only by reports that came
    while it was in force, each of which touches at most the one upstream it
    names; and garbage, failed receives and reports of unknown upstreams change
    nothing. *)
Theorem stats_listener_safe exp from_slice n stale removes_first removes_last bind_ok chmod_ok evs gens :
  wf_gens n gens -> wf_events n (dom gens) evs ->
  exists left gens', run_upstream_stats_listener exp from_slice stale removes_first removes_last bind_ok chmod_ok evs gens = Ok (left, gens') /\
    (left = true -> removes_first = false \/ removes_last = false) /\ wf_gens n gens' /\
    (Forall (fun e => match e with Elsewhere _ => False | _ => True end) evs ->
     forall k, match gens !! k with
               | Some g => exists g', gens' !! k = Some g' /\ rtc (report_step from_slice) g g'
               | None => gens' !! k = None end) /\
    (forall k, Forall (fun e => ~ is_current k e) evs -> gens' !! k = gens !! k).
Proof.
  intros Hw He. unfold run_upstream_stats_listener.
  assert (forall k, match gens !! k with Some g => exists g', gens !! k = Some g' /\ rtc (report_step from_slice) g g' | None => gens !! k = None end) as Hsame.
  { intros k. destruct (gens !! k) as [g|]; [|done]. exists g. by split. }
  destruct (remove_file removes_first stale || negb bind_ok).
  - eexists _, gens. split_and!; [done| |done..]. unfold remove_file. destruct removes_first; [done|by left].
  - destruct chmod_ok; cbn [negb].
    + destruct (stats_loop_ok exp from_slice n evs gens Hw He) as (gens' & -> & H). eexists _, gens'. split; [done|]. split; [|done].
      destruct removes_last; [done|by right].
    + eexists _, gens. split_and!; [done| |done..]. destruct removes_last; [done|by right].
Qed.

(** ** Witnesses *)

Definition example_report : ShadowQuicReport.ShadowQuicReport := {|
  ShadowQuicReport.upstream_id := bs "a"; ShadowQuicReport.rtt_ms := f64_zero; ShadowQuicReport.loss_rate := f64_zero;
  ShadowQuicReport.mtu := 1500; ShadowQuicReport.link := None |}.
Definition example_from_slice (d : bytes) : option ShadowQuicReport.ShadowQuicReport := if bool_decide (d = []) then None else Some example_report.
Definition example_events : list StatsEvent := [Datagram 5 1 []; RecvFails false; Datagram 9 1 [x2a]; RecvFails true; Datagram 10 1 [x2a]].

Lemma stats_listener_safe_witness : exists us gens',
  upstream_set_new example_items 10 40 180 60 = Ok us /\
  run_upstream_stats_listener (fun x => x) example_from_slice true true true true true example_events {[1%nat := {| disable_upstream_score := false; enable_relative_scoring := false; scored_set := us |}]}
    = Ok (false, gens') /\ wf_gens 0 gens'.
Proof.
  destruct (upstream_set_new_exact example_items 10 40 180 60 example_items_new example_items_ids example_items_groups)
    as [[? _]|(us & _ & E & Hwf & _)]; [by unfold U32_MAX|done|done|].
  set (gens := {[1%nat := {| disable_upstream_score := false; enable_relative_scoring := false; scored_set := us |}]} : gmap nat Scored).
  destruct (stats_listener_safe (fun x => x) example_from_slice 0 true true true true true example_events gens) as (left & gens' & Hrun & Hleft & Hw & _).
  - by apply map_Forall_singleton.
  - unfold gens. rewrite dom_singleton_L. cbn. unfold U64_MAX. split_and!; try lia; try set_solver.
  - exists us, gens'. split; [done|]. destruct left; [|done]. by destruct (Hleft eq_refl).
Defined.
