(* ===== verification/HealthTask.v ===== *)
(** [run_health_check_task] of [src/src/upstream.rs]: the task that probes the
    upstreams of a generation in turn, while other tasks update them. A probe
    is [check_upstream_health] ([Monitors]), what it does to the upstream is
    [health_result] ([Scores]). *)

From Stdlib Require Import Strings.Byte Strings.String.
From coqutil Require Import Datatypes.RecordSetters.
From S2P Require Import Prelude Bytes Ordered Float64 Config Cli Socks5 Scores Stats Picks Probes Monitors.
Import OCamlLikeNotations.
#[local] Open Scope Z_scope.

(** * The task *)

(** What the task reads of its configuration, the same in every round. *)
Record HealthConfig := { check_url : bytes; fail_threshold : Z; creds : option (bytes * bytes) }.
Definition health_config (c : Config.Config) : HealthConfig := {|
  check_url := Config.health_check_url c;
  fail_threshold := Config.health_check_fail_threshold c;
  creds := match Config.socks5_user c, Config.socks5_password c with Some u, Some p => Some (u, p) | _, _ => None end;
|}.

(** Where the task waits: for a tick of its timer, or for the probe of an
    upstream. *)
Inductive Place := Waiting | Probing (i : nat) | Stopped.
#[global] Instance Place_eq_dec : EqDecision Place.
Proof. solve_decision. Defined.

(** What can come next: a tick, the end of the probe at hand, the
    cancellation, or an update of upstream [i] by another task. The task passes
    by what it does not wait for. *)
Inductive HealthEvent :=
  | Tick
  | Probed (now : Z) (env : ProbeEnv)
  | Cancelled
  | Update (i : nat) (now : Z) (op : ScoreOp).

(** [for up in state.upstreams.iter()], from the [i]-th on. *)
Definition for_upstream (n i : nat) : Place := if Nat.ltb i n then Probing i else Waiting.

(** A cancellation in a round breaks out of it, and then out of the loop. *)
Definition next_place (n : nat) (p : Place) (e : HealthEvent) : Place :=
  match p, e with
  | Waiting, Tick => for_upstream n 0
  | Probing i, Probed _ _ => for_upstream n (S i)
  | (Waiting | Probing _), Cancelled => Stopped
  | _, _ => p
  end.

Section Task.
Context (c : HealthConfig).

Definition update (i : nat) (now : Z) (op : ScoreOp) (us : upstreams) : checked upstreams :=
  let? up := get us i in
  let? up := score_step now up op in
  Ok (store us i up).

Definition on_health_event (p : Place) (e : HealthEvent) (us : upstreams) : checked upstreams :=
  match p, e with
  | Probing i, Probed now env =>
      let alive := check_upstream_health (check_url c) (creds c) env in
      let? up := get us i in
      let? up := health_result (fail_threshold c) now alive up in
      Ok (store us i up)
  | _, Update i now op => update i now op us
  | _, _ => Ok us
  end.

Fixpoint run_health_check_task (evs : list HealthEvent) (p : Place) (us : upstreams) : checked (Place * upstreams) :=
  match evs with
  | [] => Ok (p, us)
  | e :: evs =>
      let? us := on_health_event p e us in
      run_health_check_task evs (next_place (length (UpstreamSet.all_items us)) p e) us
  end.

(** * What each upstream sees *)

(** The updates of upstream [i] during a run over [n] upstreams. *)
Definition seen (i : nat) (p : Place) (e : HealthEvent) : list (Z * ScoreOp) :=
  match p, e with
  | Probing j, Probed now env =>
      if decide (j = i) then [(now, HealthResult (fail_threshold c) (check_upstream_health (check_url c) (creds c) env))] else []
  | _, Update j now op => if decide (j = i) then [(now, op)] else []
  | _, _ => []
  end.
Fixpoint history (n i : nat) (p : Place) (evs : list HealthEvent) : list (Z * ScoreOp) :=
  match evs with [] => [] | e :: evs => seen i p e ++ history n i (next_place n p e) evs end.

(** The upstreams that were probed, in order, and where the task is after a
    run. *)
Definition probed (p : Place) (e : HealthEvent) : list nat :=
  match p, e with Probing i, Probed _ _ => [i] | _, _ => [] end.
Fixpoint probes (n : nat) (p : Place) (evs : list HealthEvent) : list nat :=
  match evs with [] => [] | e :: evs => probed p e ++ probes n (next_place n p e) evs end.
Definition place_after (n : nat) (p : Place) (evs : list HealthEvent) : Place := foldl (next_place n) p evs.

(** Other tasks update upstreams that are there, and do no health check. *)
Definition others_ok (n : nat) (evs : list HealthEvent) : Prop :=
  Forall (fun e => match e with Update i _ op => (i < n)%nat /\ is_health op = false | _ => True end) evs.
(** Integers fit, for every upstream ([ops_fit]). *)
Definition histories_fit (p : Place) (evs : list HealthEvent) (us : upstreams) : Prop :=
  forall i up, UpstreamSet.all_items us !! i = Some up -> ops_fit up (history (length (UpstreamSet.all_items us)) i p evs).
End Task.

Lemma history_app c n i p evs1 evs2 : history c n i p (evs1 ++ evs2) = history c n i p evs1 ++ history c n i (place_after n p evs1) evs2.
Proof. revert p. induction evs1 as [|e evs1 IH]; intros p; [done|]. cbn. by rewrite IH, app_assoc. Qed.
Lemma probes_app n p evs1 evs2 : probes n p (evs1 ++ evs2) = probes n p evs1 ++ probes n (place_after n p evs1) evs2.
Proof. revert p. induction evs1 as [|e evs1 IH]; intros p; [done|]. cbn. by rewrite IH, app_assoc. Qed.

(** The probe at hand is of an upstream that is there. *)
Definition place_ok (n : nat) (p : Place) : Prop := match p with Probing i => (i < n)%nat | _ => True end.
Lemma for_upstream_ok n i : place_ok n (for_upstream n i).
Proof. unfold for_upstream. by destruct (Nat.ltb_spec i n). Qed.
Lemma next_place_ok n p e : place_ok n p -> place_ok n (next_place n p e).
Proof. intros Hp. destruct p, e; try done; apply for_upstream_ok. Qed.

(** An event is an update of one upstream, or of none. *)
Lemma on_health_event_cases c n p e us :
  place_ok n p -> match e with Update i _ _ => (i < n)%nat | _ => True end ->
  (on_health_event c p e us = Ok us /\ forall i, seen c i p e = []) \/
  exists j now op, (j < n)%nat /\ on_health_event c p e us = update j now op us /\
    forall i, seen c i p e = if decide (j = i) then [(now, op)] else [].
Proof.
  intros Hp He. destruct p as [|j|], e as [|now env| |j' now op]; cbn [on_health_event seen]; (try by left); right;
    [by exists j', now, op| |by exists j', now, op|by exists j', now, op].
  by exists j, now, (HealthResult (fail_threshold c) (check_upstream_health (check_url c) (creds c) env)).
Qed.

Lemma update_ok n j now op us up l :
  wf_set n us -> UpstreamSet.all_items us !! j = Some up -> ops_fit up ((now, op) :: l) ->
  exists up', score_step now up op = Ok up' /\ update j now op us = Ok (store us j up') /\ wf_set n (store us j up') /\ ops_fit up' l.
Proof.
  intros Hw Hj (Hn & Hop & Hl). assert (wf_upstream up) as Hwu by (eapply Forall_lookup_1; [apply Hw|done]).
  destruct (score_step_keeps now up op Hwu Hn Hop) as (up' & E & Hw' & Hs). exists up'. unfold update, get. rewrite Hj. cbn. rewrite E. cbn.
  split_and!; [done|done|by eapply store_wf|by apply Hl].
Qed.

(** The task does not fail, and each upstream runs through its own history. *)
Lemma health_task_ok c n evs : forall p us,
  let len := length (UpstreamSet.all_items us) in
  wf_set n us -> place_ok len p -> others_ok len evs -> histories_fit c p evs us ->
  exists us', run_health_check_task c evs p us = Ok (place_after len p evs, us') /\ wf_set n us' /\
    length (UpstreamSet.all_items us') = len /\
    forall i up, UpstreamSet.all_items us !! i = Some up ->
      exists up', UpstreamSet.all_items us' !! i = Some up' /\ run_scores up (history c len i p evs) = Ok up'.
Proof.
  induction evs as [|e evs IH]; intros p us len Hw Hp Ho Hf.
  { exists us. split_and!; [done|done|done|]. intros i up Hi. by exists up. }
  apply Forall_cons in Ho as [He Ho]. cbn [run_health_check_task history place_after foldl].
  assert (forall us1, length (UpstreamSet.all_items us1) = len -> wf_set n us1 -> histories_fit c (next_place len p e) evs us1 ->
    exists us', run_health_check_task c evs (next_place len p e) us1 = Ok (place_after len (next_place len p e) evs, us') /\ wf_set n us' /\
      length (UpstreamSet.all_items us') = len /\
      forall i up, UpstreamSet.all_items us1 !! i = Some up ->
        exists up', UpstreamSet.all_items us' !! i = Some up' /\ run_scores up (history c len i (next_place len p e) evs) = Ok up') as Hnext.
  { intros us1 El Hw1 Hf1. specialize (IH (next_place len p e) us1). rewrite El in IH. by apply IH; [|apply next_place_ok|..]. }
  destruct (on_health_event_cases c len p e us Hp) as [[-> Hs]|(j & now & op & Hj & -> & Hs)]; [by destruct e as [| | |? ? ?]; [..|destruct He]| |].
  - cbn [res_bind]. fold len. destruct (Hnext us) as (us' & -> & Hw' & El & Hi); [done|done| |].
    + intros i up Hup. specialize (Hf i up Hup). cbn [history] in Hf. by rewrite Hs in Hf.
    + exists us'. split_and!; [done|done|done|]. intros i up Hup. rewrite Hs. by apply Hi.
  - apply lookup_lt_is_Some in Hj as [up Hup]. pose proof (Hf j up Hup) as Hfj. cbn [history] in Hfj. rewrite Hs, decide_True in Hfj by done.
    destruct (update_ok n j now op us up _ Hw Hup Hfj) as (up' & E & -> & Hw1 & Hfj'). cbn [res_bind].
    assert (length (UpstreamSet.all_items (store us j up')) = len) as El1 by (cbn; by rewrite length_insert). rewrite El1.
    destruct (Hnext (store us j up')) as (us' & -> & Hw' & El & Hi); [done|done| |].
    + intros i up1. rewrite El1. cbn. destruct (decide (j = i)) as [<-|Hne].
      * rewrite list_lookup_insert_eq by (by eapply lookup_lt_Some). by intros [= <-].
      * rewrite list_lookup_insert_ne by done. intros Hi1. specialize (Hf i up1 Hi1). cbn [history] in Hf. by rewrite Hs, decide_False in Hf by done.
    + exists us'. split_and!; [done|done|done|]. intros i up1 Hup1. rewrite Hs. specialize (Hi i). cbn in Hi.
      destruct (decide (j = i)) as [<-|Hne].
      * rewrite list_lookup_insert_eq in Hi by (by eapply lookup_lt_Some). simplify_eq. cbn [app run_scores]. rewrite E. by apply Hi.
      * rewrite list_lookup_insert_ne in Hi by done. by apply Hi.
Qed.

(** ** The order of the probes *)

Definition start (p : Place) : nat := match p with Probing i => i | _ => 0 end.

Lemma start_for_upstream n i : (i < n)%nat -> start (for_upstream n (S i)) = (S i mod n)%nat.
Proof.
  intros Hi. unfold for_upstream. destruct (Nat.ltb_spec (S i) n); [by rewrite Nat.mod_small|].
  replace (S i) with n by lia. by rewrite Nat.Div0.mod_same.
Qed.

Lemma probed_inv n p e : place_ok n p ->
  (probed p e = [] /\ (next_place n p e = Stopped \/ start (next_place n p e) = start p)) \/
  exists i, p = Probing i /\ (i < n)%nat /\ probed p e = [i] /\ next_place n p e = for_upstream n (S i).
Proof.
  intros Hp. destruct p as [|i|], e; cbn; try (by left; eauto); [left; split; [done|right]|right; eauto].
  unfold for_upstream. by destruct (Nat.ltb _ _).
Qed.

Lemma stopped_for_good n evs : probes n Stopped evs = [] /\ place_after n Stopped evs = Stopped.
Proof. induction evs as [|e evs [IH1 IH2]]; [done|]. by destruct e. Qed.

(** The upstreams are probed in turn, over and over. *)
Lemma probes_in_turn n evs : forall p, place_ok n p ->
  probes n p evs = (fun k => (start p + k) mod n)%nat <$> seq 0 (length (probes n p evs)).
Proof.
  induction evs as [|e evs IH]; intros p Hp; [done|]. cbn [probes].
  destruct (probed_inv n p e Hp) as [(-> & [->|Hs])|(i & -> & Hi & -> & ->)]; cbn [app].
  - by rewrite (proj1 (stopped_for_good n evs)).
  - rewrite <- Hs. by apply IH, next_place_ok.
  - cbn [length]. rewrite <- cons_seq, <- fmap_S_seq, fmap_cons. f_equal; [cbn; by rewrite Nat.add_0_r, Nat.mod_small|].
    rewrite (IH _ (for_upstream_ok n (S i))) at 1. rewrite <- list_fmap_compose. apply list_fmap_ext. intros _ k _. cbn [compose start].
    rewrite start_for_upstream, Nat.Div0.add_mod_idemp_l by done. f_equal. lia.
Qed.

Lemma place_counts n evs i : forall p, place_ok n p ->
  place_after n p evs = Probing i -> i = ((start p + length (probes n p evs)) mod n)%nat.
Proof.
  induction evs as [|e evs IH]; intros p Hp; cbn [probes].
  { unfold place_after. cbn. intros ->. by rewrite Nat.add_0_r, Nat.mod_small. }
  change (place_after n p (e :: evs)) with (place_after n (next_place n p e) evs).
  destruct (probed_inv n p e Hp) as [(-> & [->|Hs])|(j & -> & Hj & -> & ->)]; intros Hi; cbn [app].
  - by rewrite (proj2 (stopped_for_good n evs)) in Hi.
  - rewrite <- Hs. by apply IH; [apply next_place_ok|].
  - rewrite (IH _ (for_upstream_ok n (S j)) Hi), start_for_upstream, Nat.Div0.add_mod_idemp_l by done.
    cbn [start length]. f_equal. lia.
Qed.

(** How often a number comes up when counting modulo [n]. *)
Lemma count_below i r : length (filter (fun k => k = i) (seq 0 r)) = if decide (i < r)%nat then 1%nat else 0%nat.
Proof.
  induction r as [|r IH]; [done|]. rewrite seq_S, filter_app, length_app, IH, Nat.add_0_l, filter_cons, filter_nil.
  repeat case_decide; cbn [length]; lia.
Qed.
Lemma count_in_turn n i q r : (i < n)%nat -> (r <= n)%nat ->
  length (filter (fun k => k = i) ((fun k => k mod n)%nat <$> seq 0 (q * n + r))) = (q + if decide (i < r)%nat then 1 else 0)%nat.
Proof.
  intros Hi. assert (forall m, (m <= n)%nat ->
    length (filter (fun k => k = i) ((fun k => k mod n)%nat <$> seq 0 m)) = if decide (i < m)%nat then 1%nat else 0%nat) as Hone.
  { intros m Hm. rewrite <- count_below. f_equal. f_equal. rewrite <- (list_fmap_id (seq 0 m)) at 2. apply list_fmap_ext.
    intros j k Hk%list_elem_of_lookup_2. apply elem_of_seq in Hk. cbn. apply Nat.mod_small. lia. }
  induction q as [|q IH]; intros Hr; [by apply Hone|].
  replace (S q * n + r)%nat with (n + (q * n + r))%nat by lia. rewrite seq_app, fmap_app, filter_app, length_app, Hone by done.
  rewrite decide_True by done. rewrite <- (Nat.add_comm n 0), <- fmap_add_seq, <- list_fmap_compose.
  rewrite (list_fmap_ext _ (fun k => k mod n)%nat), IH; [lia|done|]. intros _ k _. cbn [compose].
  by rewrite <- Nat.Div0.add_mod_idemp_l, Nat.Div0.mod_same.
Qed.

(** The health checks in the history of an upstream are its probes. *)
Lemma history_probes c n i evs : forall p, others_ok n evs ->
  length (filter (fun e => is_health e.2 = true) (history c n i p evs)) = length (filter (fun k => k = i) (probes n p evs)).
Proof.
  induction evs as [|e evs IH]; intros p; [done|]. intros [He Ho]%Forall_cons. cbn [history probes].
  rewrite !filter_app, !length_app, (IH _ Ho). f_equal.
  destruct p as [|j|], e as [|now env| |j' now op]; try done; cbn; try (destruct He);
    rewrite ?filter_cons, ?filter_nil; repeat case_decide; cbn in *; rewrite ?filter_cons, ?filter_nil; cbn; repeat case_decide; cbn in *; congruence.
Qed.

(** A health check in the history is a probe of the run. *)
Lemma history_split c n i t alive evs : forall p l1 now l2, others_ok n evs ->
  history c n i p evs = l1 ++ (now, HealthResult t alive) :: l2 ->
  exists evs1 env evs2, evs = evs1 ++ Probed now env :: evs2 /\ place_after n p evs1 = Probing i /\ history c n i p evs1 = l1 /\
    t = fail_threshold c /\ alive = check_upstream_health (check_url c) (creds c) env.
Proof.
  induction evs as [|e evs IH]; intros p l1 now l2; [by destruct l1|]. intros [He Ho]%Forall_cons. cbn [history].
  destruct (seen c i p e) as [|x []] eqn:Es; cbn [app]; intros E.
  - destruct (IH _ _ _ _ Ho E) as (evs1 & env & evs2 & -> & Hp & Hh & Ht). exists (e :: evs1), env, evs2. cbn. by rewrite Es.
  - destruct l1 as [|y l1]; injection E as Ex E; subst x.
    + destruct p as [|j|], e as [|now' env| |j' now' op]; cbn in Es; repeat case_decide; simplify_eq; try by destruct He.
      by exists [], env, evs.
    + destruct (IH _ _ _ _ Ho E) as (evs1 & env & evs2 & -> & Hp & Hh & Ht). exists (e :: evs1), env, evs2. cbn. by rewrite Es, Hh.
  - exfalso. by destruct p, e; cbn in Es; repeat case_decide.
Qed.

(** ** A dead upstream is found *)

Lemma ops_fit_app up l1 l2 : ops_fit up (l1 ++ l2) -> ops_fit up l1.
Proof. revert up. induction l1 as [|[now op] l1 IH]; intros up; [done|]. cbn. intros (? & ? & H). do 2 (split; [done|]). intros up' E. by apply IH, H. Qed.
Lemma ops_fit_after l1 l2 : forall up up1, ops_fit up (l1 ++ l2) -> run_scores up l1 = Ok up1 -> ops_fit up1 l2.
Proof.
  induction l1 as [|[now op] l1 IH]; intros up up1; cbn [app ops_fit run_scores]; [by intros H [= <-]|].
  intros (_ & _ & H) (up' & E & Hr)%res_bind_inv. by eapply IH; [apply H|].
Qed.
Lemma run_task_app c evs1 evs2 : forall p us, run_health_check_task c (evs1 ++ evs2) p us =
  let? (p', us') := run_health_check_task c evs1 p us in run_health_check_task c evs2 p' us'.
Proof.
  induction evs1 as [|e evs1 IH]; intros p us; [done|]. cbn [app run_health_check_task].
  destruct (on_health_event c p e us); cbn [res_bind]; [apply IH|done..].
Qed.
(** The [k]-th probe of a run. *)
Lemma probe_at n k evs : forall p, place_ok n p -> (k < length (probes n p evs))%nat ->
  exists evs1 now env evs2, evs = evs1 ++ Probed now env :: evs2 /\ length (probes n p evs1) = k /\
    place_after n p evs1 = Probing ((start p + k) mod n)%nat.
Proof.
  intros p Hp Hk. enough (exists evs1 now env evs2 i, evs = evs1 ++ Probed now env :: evs2 /\ length (probes n p evs1) = k /\
    place_after n p evs1 = Probing i) as (evs1 & now & env & evs2 & i & E & Hl & Hi).
  { exists evs1, now, env, evs2. split_and!; [done|done|]. rewrite Hi. f_equal. rewrite <- Hl. by apply (place_counts n evs1 i p). }
  clear Hp. revert p k Hk. induction evs as [|e evs IH]; intros p k; [cbn; lia|]. cbn [probes]. rewrite length_app. intros Hk.
  destruct (probed p e) as [|i l] eqn:Ep.
  - destruct (IH (next_place n p e) k Hk) as (evs1 & now & env & evs2 & i & -> & Hl & Hi). exists (e :: evs1), now, env, evs2, i.
    cbn [probes]. rewrite Ep. by split_and!.
  - destruct p as [|j|], e as [|now env| |]; try done. injection Ep as <- <-. destruct k as [|k]; [by exists [], now, env, evs, j|].
    cbn [length Nat.add] in Hk. destruct (IH (next_place n (Probing j) (Probed now env)) k) as (evs1 & now1 & env1 & evs2 & i & -> & Hl & Hi); [lia|].
    exists (Probed now env :: evs1), now1, env1, evs2, i. cbn [probes probed app length]. split_and!; [done|by f_equal|done].
Qed.

(** Failing checks. *)
Definition fails (t : Z) (e : Z * ScoreOp) : Prop := 0 < e.1 /\ match e.2 with HealthResult t' alive => t' = t /\ alive = false | _ => True end.

Lemma run_failures t l : forall up up', Forall (fails t) l -> run_scores up l = Ok up' ->
  Upstream.health_failures up' = Upstream.health_failures up + Z.of_nat (length (filter (fun e => is_health e.2 = true) l)).
Proof.
  induction l as [|[now op] l IH]; intros up up'; cbn [run_scores].
  { intros _ [= ->]. cbn. lia. }
  intros [[_ Hf] Hl]%Forall_cons (up1 & E & H)%res_bind_inv. apply score_step_failures in E. rewrite (IH _ _ Hl H), E, filter_cons.
  destruct op as [| | | | | |t' alive|]; cbn [fst snd is_health failures_after] in *; [rewrite decide_False by done; lia..| |rewrite decide_False by done; lia].
  destruct Hf as [_ ->]. rewrite decide_True by done. cbn [length]. lia.
Qed.

(** The probe in which upstream [i] of [n] is found out. *)
Definition fatal_probe (n i : nat) (threshold failures : Z) : nat := (Z.to_nat (threshold - 1 - failures) * n + i)%nat.

(** Whether every probe of upstream [i] fails. *)
Definition probes_fail (c : HealthConfig) (n i : nat) (evs : list HealthEvent) : Prop :=
  forall evs1 now env evs2, evs = evs1 ++ Probed now env :: evs2 -> place_after n Waiting evs1 = Probing i ->
    check_upstream_health (check_url c) (creds c) env = false.

Lemma history_fails c n i evs :
  others_ok n evs -> probes_fail c n i evs -> Forall (fun e => 0 < e.1) (history c n i Waiting evs) ->
  Forall (fails (fail_threshold c)) (history c n i Waiting evs).
Proof.
  intros Ho Hf Hpos. rewrite Forall_forall in Hpos. apply Forall_forall. intros [now op] He. split; [by apply (Hpos _ He)|].
  destruct op; try done. apply list_elem_of_split in He as (l1 & l2 & E).
  destruct (history_split _ _ _ _ _ _ _ _ _ _ Ho E) as (evs1 & env & evs2 & -> & Hp & _ & -> & ->). split; [done|]. by eapply Hf.
Qed.

Lemma probes_count n i evs : (i < n)%nat ->
  let m := length (probes n Waiting evs) in
  length (filter (fun k => k = i) (probes n Waiting evs)) = (m / n + if decide (i < m mod n)%nat then 1 else 0)%nat.
Proof.
  intros Hi m. rewrite (probes_in_turn n evs Waiting I). cbn [start]. fold m.
  rewrite (Nat.div_mod_eq m n) at 1. rewrite (Nat.mul_comm n). apply count_in_turn; [done|].
  pose proof (Nat.mod_upper_bound m n). lia.
Qed.

(** What a failed probe does, where it is the fatal one or not. *)
Definition after_failure (fatal : bool) (now : Z) (up : upstream) : upstream :=
  let up := { up with Upstream.health_failures := Upstream.health_failures up + 1 } in
  if fatal then penalize now up else up.

Lemma failed_probe_effect n c us evs1 now env evs2 i up :
  let len := length (UpstreamSet.all_items us) in let evs := evs1 ++ Probed now env :: evs2 in
  wf_set n us -> others_ok len evs -> histories_fit c Waiting evs us ->
  UpstreamSet.all_items us !! i = Some up -> probes_fail c len i evs -> Forall (fun e => 0 < e.1) (history c len i Waiting evs) ->
  place_after len Waiting evs1 = Probing i ->
  exists us1 up1, run_health_check_task c evs1 Waiting us = Ok (Probing i, us1) /\ UpstreamSet.all_items us1 !! i = Some up1 /\
    wf_upstream up1 /\ 0 < now <= U64_MAX /\ Upstream.health_failures up1 < U32_MAX /\
    Upstream.health_failures up1 = Upstream.health_failures up + Z.of_nat (length (probes len Waiting evs1) / len) /\
    run_health_check_task c (evs1 ++ [Probed now env]) Waiting us =
      Ok (for_upstream len (S i), store us1 i (after_failure (Upstream.health_failures up1 + 1 =? fail_threshold c) now up1)).
Proof.
  intros len evs Hw Ho Hf Hup Hdead Hpos Hp. assert (i < len)%nat as Hi by (by eapply lookup_lt_Some).
  pose proof (history_fails c len i evs Ho Hdead Hpos) as Hfails. unfold evs in Ho, Hfails, Hpos. rewrite history_app in Hfails, Hpos.
  apply Forall_app in Ho as [Ho1 _]. apply Forall_app in Hfails as [Hf1 _]. apply Forall_app in Hpos as [_ Hpos].
  destruct (health_task_ok c n evs1 Waiting us Hw I Ho1) as (us1 & Erun & Hw1 & Elen & Hall).
  { intros j upj Hj. specialize (Hf j upj Hj). unfold evs in Hf. rewrite history_app in Hf. by apply ops_fit_app in Hf. }
  fold len in Erun, Elen, Hall. rewrite Hp in Erun. destruct (Hall i up Hup) as (up1 & Hup1 & R1).
  pose proof (Hf i up Hup) as Hfit. fold len in Hfit. unfold evs in Hfit. rewrite history_app in Hfit. apply (ops_fit_after _ _ _ _ Hfit) in R1 as Hfit1.
  rewrite Hp in Hfit1, Hpos. cbn [history seen] in Hfit1, Hpos. rewrite decide_True in Hfit1, Hpos by done. destruct Hfit1 as (Hn & Hlt & _).
  apply Forall_cons in Hpos as [Hpos _]. cbn in Hlt, Hpos.
  assert (wf_upstream up1) as Hwu1 by (eapply Forall_lookup_1; [apply Hw1|done]).
  exists us1, up1. do 3 (split; [done|]). split; [lia|]. split; [done|]. split.
  - rewrite (run_failures _ _ _ _ Hf1 R1), history_probes, probes_count by done.
    pose proof (place_counts len evs1 i Waiting I Hp) as Hi'. cbn [start Nat.add] in Hi'. rewrite <- Hi', decide_False by lia. lia.
  - rewrite run_task_app, Erun. cbn [res_bind run_health_check_task on_health_event]. unfold get. rewrite Hup1. cbn [or_panic res_bind].
    rewrite (Hdead evs1 now env evs2 eq_refl Hp). unfold health_result. cbv zeta. pose proof (wf_failures up1 Hwu1).
    rewrite u32_ok by lia. cbn [res_bind next_place]. unfold after_failure. cbn [UpstreamSet.all_items store].
    by destruct (_ =? _); cbn [res_bind UpstreamSet.all_items store]; rewrite length_insert, Elen.
Qed.

(** C24: the health check finds out the dead. In every run of the task over a
    well-formed set, whatever other tasks do to the upstreams meanwhile, the
    task does not fail and probes the upstreams in turn until it is cancelled.
    Each probe of an upstream whose probes all fail counts one more failure and
    does nothing else, except the one in which it fails for the
    [fail_threshold]-th time in a row: that probe comes, it is the only one
    that penalises the upstream, and the score is then that of a new upstream,
    at most 75, from whatever it was. *)
Theorem dead_upstream_found c n us evs :
  let len := length (UpstreamSet.all_items us) in
  wf_set n us -> others_ok len evs -> histories_fit c Waiting evs us ->
  (exists us', run_health_check_task c evs Waiting us = Ok (place_after len Waiting evs, us') /\ wf_set n us') /\
  probes len Waiting evs = (fun k => k mod len)%nat <$> seq 0 (length (probes len Waiting evs)) /\
  forall i up,
    UpstreamSet.all_items us !! i = Some up -> Upstream.health_failures up < fail_threshold c ->
    probes_fail c len i evs -> Forall (fun e => 0 < e.1) (history c len i Waiting evs) ->
    let k := fatal_probe len i (fail_threshold c) (Upstream.health_failures up) in
    ((k < length (probes len Waiting evs))%nat -> exists evs1 now env evs2,
       evs = evs1 ++ Probed now env :: evs2 /\ place_after len Waiting evs1 = Probing i /\ length (probes len Waiting evs1) = k) /\
    forall evs1 now env evs2, evs = evs1 ++ Probed now env :: evs2 -> place_after len Waiting evs1 = Probing i ->
      exists us1 up1 s, run_health_check_task c evs1 Waiting us = Ok (Probing i, us1) /\ UpstreamSet.all_items us1 !! i = Some up1 /\
        let up2 := after_failure (bool_decide (length (probes len Waiting evs1) = k)) now up1 in
        run_health_check_task c (evs1 ++ [Probed now env]) Waiting us = Ok (for_upstream len (S i), store us1 i up2) /\
        (length (probes len Waiting evs1) = k ->
           Upstream.health_failures up2 = fail_threshold c /\ Upstream.tcp_score up2 = DEFAULT_SCORE /\
           score_at up2 now = Ok s /\ MINIMAL_SCORE <= s <= DEFAULT_SCORE).
Proof.
  intros len Hw Ho Hf. split; [|split].
  - destruct (health_task_ok c n evs Waiting us Hw I Ho Hf) as (us' & E & Hw' & _). by exists us'.
  - exact (probes_in_turn len evs Waiting I).
  - intros i up Hup Hlt Hdead Hpos k. assert (i < len)%nat as Hi by (by eapply lookup_lt_Some). split.
    + intros Hk. destruct (probe_at len k evs Waiting I Hk) as (evs1 & now & env & evs2 & -> & Hl & Hp). exists evs1, now, env, evs2.
      split_and!; [done| |done]. rewrite Hp. cbn [start Nat.add]. unfold k, fatal_probe. by rewrite Nat.add_comm, Nat.Div0.mod_add, Nat.mod_small.
    + intros evs1 now env evs2 -> Hp.
      destruct (failed_probe_effect n c us evs1 now env evs2 i up Hw Ho Hf Hup Hdead Hpos Hp) as (us1 & up1 & E1 & H1 & Hw1 & Hn & Hm & Hc & E2).
      fold len in Hc, E2. set (m := length (probes len Waiting evs1)) in *.
      assert (m = k <-> Upstream.health_failures up1 + 1 = fail_threshold c) as Hfatal.
      { pose proof (place_counts len evs1 i Waiting I Hp) as Hi'. cbn [start Nat.add] in Hi'. fold m in Hi'.
        pose proof (Nat.div_mod_eq m len). rewrite <- Hi' in *. unfold k, fatal_probe. split; intros Hm'; [|nia].
        assert (m / len = Z.to_nat (fail_threshold c - 1 - Upstream.health_failures up))%nat by nia. lia. }
      assert (bool_decide (m = k) = (Upstream.health_failures up1 + 1 =? fail_threshold c)) as Hb.
      { rewrite (bool_decide_ext _ _ Hfatal). destruct (Z.eqb_spec (Upstream.health_failures up1 + 1) (fail_threshold c)); [by apply bool_decide_eq_true|by apply bool_decide_eq_false]. }
      destruct (penalized_score now { up1 with Upstream.health_failures := Upstream.health_failures up1 + 1 }) as (s & Es & Bs); [|done|].
      { pose proof (wf_failures up1 Hw1). clear - Hw1 Hm. wf_update. }
      exists us1, up1, s. do 2 (split; [done|]). cbv zeta. rewrite Hb. split; [done|]. intros Hk. apply Hfatal in Hk.
      unfold after_failure. rewrite Hk, Z.eqb_refl. rewrite Hk in Es. split; [by destruct up1|]. split; [by destruct up1|done].
Qed.

(** ** A run *)

Definition example_up (id : bytes) : upstream := set_quic_stale_secs (set_quic_weight (upstream_new id {| sa_ip := V4 1; sa_port := 1080 |} [] f64_one) 40) 180.
Definition example_us : upstreams := {|
  UpstreamSet.groups := ∅; UpstreamSet.all_items := [example_up (bs "a"); example_up (bs "b")]; UpstreamSet.current := ∅;
  UpstreamSet.tolerance := 10; UpstreamSet.pick_stats := None |}.
Definition unreachable : ProbeEnv := {| dialled := None; connect_late := false; read_late := false; read_len := None |}.
Definition example_health : HealthConfig := {| check_url := bs "cp.cloudflare.com"; fail_threshold := 2; creds := None |}.
(** Two rounds, the second cut short. *)
Definition example_rounds : list HealthEvent :=
  [Tick; Probed 5 unreachable; Update 0 6 (Track 1 4); Tick; Probed 7 unreachable; Tick; Probed 9 unreachable; Cancelled; Probed 10 unreachable].

Lemma dead_upstream_found_witness :
  wf_set 0 example_us /\ probes 2 Waiting example_rounds = [0; 1; 0]%nat /\
  exists evs1 now env evs2 us1 up1 s,
    example_rounds = evs1 ++ Probed now env :: evs2 /\ length (probes 2 Waiting evs1) = 2%nat /\
    run_health_check_task example_health evs1 Waiting example_us = Ok (Probing 0, us1) /\ UpstreamSet.all_items us1 !! 0%nat = Some up1 /\
    run_health_check_task example_health (evs1 ++ [Probed now env]) Waiting example_us = Ok (Probing 1, store us1 0 (after_failure true now up1)) /\
    score_at (after_failure true now up1) now = Ok s /\ MINIMAL_SCORE <= s <= DEFAULT_SCORE.
Proof.
  assert (wf_set 0 example_us) as Hw.
  { split; cbn; [|apply (bool_decide_unpack _); by vm_compute|by intros g items|done|done].
    apply Forall_cons; split; [|apply Forall_singleton]; by apply upstream_new_wf. }
  split; [done|]. split; [by vm_compute|].
  destruct (dead_upstream_found example_health 0 example_us example_rounds Hw) as (_ & _ & H).
  - by repeat constructor.
  - intros [|[|i]] up Hi; [| |done]; injection Hi as <-;
      repeat (split; [done|]; split; [done|]; let E := fresh in intros ? E; vm_compute in E; injection E as <-); done.
  - destruct (H 0%nat (example_up (bs "a")) eq_refl) as [Hk Hall]; [done| |by repeat constructor|].
    { intros evs1 now env evs2 E _. assert (Probed now env ∈ example_rounds) as He by (rewrite E; set_solver).
      unfold example_rounds in He. rewrite !elem_of_cons in He. destruct_or!; simplify_eq; try done; by apply elem_of_nil in He. }
    destruct Hk as (evs1 & now & env & evs2 & E & Hp & Hl); [by vm_compute; lia|].
    destruct (Hall evs1 now env evs2 E Hp) as (us1 & up1 & s & R1 & H1 & R2 & Hs). cbv zeta in R2, Hs. rewrite bool_decide_eq_true_2 in R2, Hs by exact Hl.
    destruct (Hs Hl) as (_ & _ & Es & Bs). exists evs1, now, env, evs2, us1, up1, s. split; [exact E|]. split; [exact Hl|]. split; [exact R1|]. split; [exact H1|]. split; [exact R2|]. split; [exact Es|exact Bs].
Defined.
