(* ===== verification/Atomics.v ===== *)
(** The operations of [src/src/upstream.rs] on shared upstreams, one atomic
    access at a time: a load, store, swap or compare-and-exchange of an atomic,
    or the section under one of the locks (the registry, [current], the inner
    part of the statistics). The tasks that pick and those that keep scores
    interleave between any two accesses; each access is sequentially consistent
    (the source asks for [Relaxed]).

    [AtomicsAlone] proves that an operation which nobody interrupts is the one
    of [Scores] and [Picks], [AtomicsSafe] what holds under every interleaving. *)

From Stdlib Require Import Strings.Byte Strings.String Floats.SpecFloat.
From coqutil Require Import Datatypes.RecordSetters.
From S2P Require Import Prelude Bytes Ordered Float64 Config Scores Stats Picks Probes.
Import OCamlLikeNotations.
#[local] Open Scope Z_scope.

(** * Programs of accesses *)

(** What the tasks share: the set of upstreams, and the clock of the system. *)
Record Shared := { set : upstreams; clock : Z }.
Definition with_set (s : Shared) (us : upstreams) : Shared := {| set := us; clock := clock s |}.

(** A program ends, panics, or makes an access and goes on from what it got. *)
Inductive prog (A : Type) : Type :=
  | Ret (a : A)
  | Fault
  | Access {B : Type} (f : Shared -> B * Shared) (k : B -> prog A).
Arguments Ret {A} a.
Arguments Fault {A}.
Arguments Access {A B} f k.

Fixpoint bind {A B} (p : prog A) (k : A -> prog B) : prog B :=
  match p with
  | Ret a => k a
  | Fault => Fault
  | Access f g => Access f (fun b => bind (g b) k)
  end.
Notation "'atom!' x := c1 'in' c2" := (bind c1 (fun x => c2)) (at level 10, x pattern, c1 at level 100, c2 at level 200) : res_scope.

(** Code without an access, that may panic. *)
Definition lift {A} (r : checked A) : prog A := match r with Ok a => Ret a | _ => Fault end.

Definition now_secs : prog Z := Access (fun s => (clock s, s)) Ret.
(** A field that never changes, read from the set. *)
Definition read_set {B} (f : upstreams -> B) : prog B := Access (fun s => (f (set s), s)) Ret.
(** An access to upstream [i]. *)
Definition access {B} (i : nat) (f : upstream -> B * upstream) : prog B :=
  Access (fun s => match UpstreamSet.all_items (set s) !! i with
                   | Some up => (Some (f up).1, with_set s (store (set s) i (f up).2))
                   | None => (None, s)
                   end)
         (fun o => match o with Some b => Ret b | None => Fault end).
Definition load {B} (i : nat) (f : upstream -> B) : prog B := access i (fun up => (f up, up)).
Definition put (i : nat) (f : upstream -> upstream) : prog unit := access i (fun up => (tt, f up)).
(** The lock on [current], and one on the statistics. *)
Definition set_sticky (group id : bytes) : prog unit :=
  Access (fun s => (tt, with_set s (set_current (set s) (<[group := Some id]> (UpstreamSet.current (set s)))))) Ret.
Definition stats {B} (f : Stats -> checked (B * Stats)) : prog B :=
  Access (fun s => match UpstreamSet.pick_stats (set s) with
                   | Some ps => match f ps with
                                | Ok (b, ps) => (Some b, with_set s (set_pick_stats (set s) (Some ps)))
                                | _ => (None, s)
                                end
                   | None => (None, s)
                   end)
         (fun o => match o with Some b => Ret b | None => Fault end).

(** * Scores *)

Definition quic_score_effective_steps (i : nat) (now : Z) : prog Z :=
  atom! stale_secs := load i Upstream.quic_stale_secs in
  atom! u_score := load i Upstream.quic_uplink_score in
  atom! u_last := load i Upstream.quic_uplink_last_update_secs in
  atom! uplink := lift (decay now stale_secs u_score u_last) in
  atom! d_score := load i Upstream.quic_downlink_score in
  atom! d_last := load i Upstream.quic_downlink_last_update_secs in
  atom! downlink := lift (decay now stale_secs d_score d_last) in
  match uplink, downlink with
  | Some u, Some d => atom! s := lift (u32 (u + d)) in Ret (s / 2)
  | Some u, None => Ret u
  | None, Some d => Ret d
  | None, None => Ret DEFAULT_SCORE
  end.

Definition score_steps (i : nat) (now : Z) : prog Z :=
  atom! tcp := load i Upstream.tcp_score in
  atom! quic := quic_score_effective_steps i now in
  atom! tcp_valid := load i Upstream.tcp_score_initialized in
  atom! u_last := load i Upstream.quic_uplink_last_update_secs in
  atom! quic_valid :=
    if 0 <? u_last then Ret true
    else atom! d_last := load i Upstream.quic_downlink_last_update_secs in Ret (0 <? d_last) in
  atom! qw := load i Upstream.quic_weight in
  atom! tw := lift (u32 (100 - qw)) in
  match tcp_valid, quic_valid with
  | true, true =>
      atom! t := lift (u32 (tcp * tw)) in
      atom! q := lift (u32 (quic * qw)) in
      atom! s := lift (u32 (t + q)) in
      Ret (s / 100)
  | false, true => Ret quic
  | true, false => Ret tcp
  | false, false => Ret DEFAULT_SCORE
  end.

(** [effective_score], which reads the clock. *)
Definition effective_score_steps (i : nat) : prog Z :=
  atom! now := now_secs in
  atom! raw_score := score_steps i now in
  atom! gain := load i Upstream.gain in
  Ret (as_u64 (f64_clamp (f64_of_Z 1) (f64_of_Z 10000000) (f64_mul (f64_of_Z raw_score) gain))).

(** * Updates *)

Inductive link := Uplink | Downlink.
Definition link_score (l : link) : upstream -> Z :=
  match l with Uplink => Upstream.quic_uplink_score | Downlink => Upstream.quic_downlink_score end.
Definition link_last (l : link) : upstream -> Z :=
  match l with Uplink => Upstream.quic_uplink_last_update_secs | Downlink => Upstream.quic_downlink_last_update_secs end.
Definition put_link_score (l : link) (z : Z) (up : upstream) : upstream :=
  match l with Uplink => { up with Upstream.quic_uplink_score := z } | Downlink => { up with Upstream.quic_downlink_score := z } end.
Definition put_link_last (l : link) (z : Z) (up : upstream) : upstream :=
  match l with
  | Uplink => { up with Upstream.quic_uplink_last_update_secs := z }
  | Downlink => { up with Upstream.quic_downlink_last_update_secs := z }
  end.

Definition update_link_steps (i : nat) (l : link) (raw : option Z) : prog unit :=
  match raw with
  | None => Ret tt
  | Some raw =>
      let raw := clamp 0 1000 raw in
      atom! now := now_secs in
      atom! last := load i (link_last l) in
      if sat_sub now last <? 5 then Ret tt
      else
        atom! exchanged := access i (fun up => if link_last l up =? last then (true, put_link_last l now up) else (false, up)) in
        if exchanged : bool then
          atom! old := load i (link_score l) in
          atom! old3 := lift (u32 (old * 3)) in
          atom! raw7 := lift (u32 (raw * 7)) in
          atom! s := lift (u32 (old3 + raw7)) in
          put i (put_link_score l (s / 10))
        else Ret tt
  end.

Definition set_probe_quality_steps (i : nat) (q : f64) (lk : option bytes) : prog unit :=
  atom! _ := put i (fun up => { up with Upstream.probe_quality := q }) in
  atom! now := now_secs in
  atom! _ := put i (put_link_last (if bool_decide (lk = Some (bs "downlink")) then Downlink else Uplink) now) in
  put i (fun up => { up with Upstream.probe_quality_updated_secs := now }).

Definition put_tcp_score (i : nat) (z : Z) : prog unit :=
  atom! _ := put i (fun up => { up with Upstream.tcp_score := z }) in
  put i (fun up => { up with Upstream.tcp_score_initialized := true }).

Definition penalize_steps (i : nat) : prog unit :=
  atom! _ := put_tcp_score i DEFAULT_SCORE in
  atom! _ := put i (put_link_score Uplink DEFAULT_SCORE) in
  atom! _ := put i (put_link_score Downlink DEFAULT_SCORE) in
  atom! now := now_secs in
  atom! _ := put i (put_link_last Uplink now) in
  put i (put_link_last Downlink now).

Definition track_steps (i : nat) (token fd : Z) : prog unit := put i (fun up => track up token fd).

(** A round of [run_score_task]: the registry is cleaned and copied under its
    lock, the kernel is asked after it. *)
Definition score_round_steps (i : nat) (held : Z -> bool) (info : Z -> option (Z * Z)) (relative_mode : bool) : prog unit :=
  atom! entries := access i (fun up =>
    let entries := filter (fun e => held e.1 = true) (Upstream.registry up) in (entries, { up with Upstream.registry := entries })) in
  atom! (recv, sent, alive) := lift (sum_infos (map (fun e => info e.2) entries) 0 0 0) in
  if alive =? 0 then Ret tt
  else
    atom! now := now_secs in
    atom! prev_recv := access i (fun up => (Upstream.last_total_recv up, { up with Upstream.last_total_recv := recv })) in
    atom! prev_sent := access i (fun up => (Upstream.last_total_sent up, { up with Upstream.last_total_sent := sent })) in
    atom! prev_secs := access i (fun up => (Upstream.last_check_secs up, { up with Upstream.last_check_secs := now })) in
    atom! initialized := access i (fun up => (Upstream.tcp_info_initialized up, { up with Upstream.tcp_info_initialized := true })) in
    if negb initialized then Ret tt
    else
      let delta_recv := sat_sub recv prev_recv in
      let delta_sent := sat_sub sent prev_sent in
      atom! delta_bytes := lift (u64 (delta_recv + delta_sent)) in
      let delta_secs := Z.max (sat_sub now prev_secs) 1 in
      if 1024 * 16 <=? delta_bytes then
        if relative_mode then
          let mib_per_sec :=
            f64_div (f64_div (f64_div (f64_of_Z delta_bytes) (f64_of_Z 1024)) (f64_of_Z 1024)) (f64_of_Z delta_secs) in
          atom! old_rate := load i Upstream.throughput_rate_mibs in
          let new_rate :=
            if f64_eq old_rate f64_zero then mib_per_sec
            else f64_add (f64_mul old_rate (f64_ratio 1 2)) (f64_mul mib_per_sec (f64_ratio 1 2)) in
          atom! _ := put i (fun up => { up with Upstream.throughput_rate_mibs := new_rate }) in
          put i (fun up => { up with Upstream.throughput_updated_secs := now })
        else
          atom! score := lift (calc_throughput_score delta_bytes delta_secs 0) in
          match score with
          | None => Ret tt
          | Some raw =>
              atom! old := load i Upstream.tcp_score in
              atom! old5 := lift (u32 (old * 5)) in
              atom! raw5 := lift (u32 (raw * 5)) in
              atom! sum := lift (u32 (old5 + raw5)) in
              put_tcp_score i (sum / 10)
          end
      else Ret tt.

(** After a probe; [fetch_add] wraps, the addition to its result does not. *)
Definition health_result_steps (i : nat) (fail_threshold : Z) (alive : bool) : prog unit :=
  if alive then
    atom! failures := access i (fun up => (Upstream.health_failures up, { up with Upstream.health_failures := 0 })) in
    if fail_threshold <=? failures then put_tcp_score i 300 else Ret tt
  else
    atom! old := access i (fun up =>
      (Upstream.health_failures up, { up with Upstream.health_failures := (Upstream.health_failures up + 1) mod (U32_MAX + 1) })) in
    atom! f := lift (u32 (old + 1)) in
    if f =? fail_threshold then penalize_steps i else Ret tt.

(** The relative scores of one upstream, and a round of
    [run_relative_score_task] over the [n] upstreams of the set. *)
Definition write_relative_steps (i : nat) (max_rate_ema max_q_ema : f64) (rate q : option f64) : prog unit :=
  atom! _ :=
    match q with
    | Some q =>
        if f64_lt f64_zero max_q_ema then
          atom! _ := put i (put_link_score Uplink (relative_score q max_q_ema)) in
          put i (put_link_score Downlink (relative_score q max_q_ema))
        else Ret tt
    | None => Ret tt
    end in
  let cold :=
    atom! initialized := load i Upstream.tcp_score_initialized in
    if negb initialized && f64_lt f64_zero max_q_ema then
      put_tcp_score i
        match q with
        | Some q => relative_score q max_q_ema
        | None => relative_score (f64_mul max_q_ema (f64_ratio 1 2)) max_q_ema
        end
    else Ret tt in
  match rate with
  | Some rate =>
      if f64_lt f64_zero max_rate_ema then
        atom! old := load i Upstream.tcp_score in
        atom! sum := lift (u32 (old + relative_score rate max_rate_ema)) in
        put_tcp_score i (sum / 2)
      else cold
  | None => cold
  end.
Definition snap_steps (now stale_secs : Z) (i : nat) : prog (option f64 * option f64) :=
  atom! rate_last := load i Upstream.throughput_updated_secs in
  atom! rate :=
    if recent now stale_secs rate_last then atom! r := load i Upstream.throughput_rate_mibs in Ret (Some r) else Ret None in
  atom! q_last := load i Upstream.probe_quality_updated_secs in
  atom! q := if recent now stale_secs q_last then atom! q := load i Upstream.probe_quality in Ret (Some q) else Ret None in
  Ret (rate, q).
Fixpoint for_each {A B} (f : A -> prog B) (l : list A) : prog (list B) :=
  match l with [] => Ret [] | a :: l => atom! b := f a in atom! bs := for_each f l in Ret (b :: bs) end.
Definition relative_round_steps (stale_secs : Z) (emas : f64 * f64) : prog (f64 * f64) :=
  atom! now := now_secs in
  atom! n := read_set (fun us => length (UpstreamSet.all_items us)) in
  atom! snaps := for_each (snap_steps now stale_secs) (seq 0 n) in
  let max_rate_ema := max_ema (fst emas) (max_snap (map fst snaps)) in
  let max_q_ema := max_ema (snd emas) (max_snap (map snd snaps)) in
  atom! _ := for_each (fun e => write_relative_steps e.1 max_rate_ema max_q_ema e.2.1 e.2.2) (zip (seq 0 n) snaps) in
  Ret (max_rate_ema, max_q_ema).

(** * Picks *)

Definition maybe_log_steps : prog unit :=
  atom! now := now_secs in
  atom! last := stats (fun ps => Ok (PickStats.last_log_secs ps, ps)) in
  let exchange := stats (fun ps => Ok (if PickStats.last_log_secs ps =? last then (true, set_last_log ps now) else (false, ps))) in
  if now <? last then atom! _ := exchange in Ret tt
  else if now - last <? 60 then Ret tt
  else
    atom! exchanged := exchange in
    if negb exchanged then Ret tt
    else
      atom! cs := stats (fun ps => Ok (counts ps, ps)) in
      match cs with [] => Ret tt | _ => atom! _ := lift (sum_u64 (map snd cs) 0) in Ret tt end.
Definition record_pick_steps (chosen : nat) : prog unit :=
  atom! on := read_set (fun us => match UpstreamSet.pick_stats us with Some _ => true | None => false end) in
  if negb on then Ret tt
  else
    atom! id := load chosen Upstream.id in
    atom! now := now_secs in
    atom! recorded := stats (fun ps => record_by_id ps now id) in
    if recorded : bool then maybe_log_steps else Ret tt.
Definition choose_steps (group : bytes) (chosen : nat) : prog (option nat) :=
  atom! id := load chosen Upstream.id in
  atom! _ := set_sticky group id in
  atom! _ := record_pick_steps chosen in
  Ret (Some chosen).

Definition reselect_steps (rand : draw) (items : list nat) : prog nat :=
  atom! scores := for_each effective_score_steps items in
  lift (reselect rand items scores).

(** [max_by_key] reads each score once. *)
Definition pick_weighted_steps (rand : draw) (items : list nat) (group : bytes) : prog (option nat) :=
  match items with
  | [] => Ret None
  | [i] => choose_steps group i
  | _ =>
      atom! flags := for_each (fun i => load i Upstream.tcp_score_initialized) items in
      let uninit := map fst (filter (fun e => e.2 = false) (zip items flags)) in
      if negb (bool_decide (uninit = [])) && SFltb (Draw.f32 rand) PICK_EXPLORE_RATIO then
        atom! i := lift (or_panic (uninit !! Z.to_nat (Draw.usize rand (Z.of_nat (length uninit))))) in
        choose_steps group i
      else
        atom! scores := for_each effective_score_steps items in
        match max_by_key (zip items scores) with
        | None => Ret None
        | Some (best, _) =>
            let again := atom! i := reselect_steps rand items in choose_steps group i in
            atom! best_eff := effective_score_steps best in
            atom! tolerance := read_set UpstreamSet.tolerance in
            atom! cur := if 0 <? tolerance then read_set (fun us => sticky us items group) else Ret None in
            match cur with
            | None => again
            | Some cur =>
                atom! cur_eff := effective_score_steps cur in
                atom! best_id := load best Upstream.id in
                atom! cur_id := load cur Upstream.id in
                atom! switch :=
                  if bool_decide (best_id = cur_id) then Ret false
                  else atom! limit := lift (u64 (cur_eff + tolerance)) in Ret (limit <? best_eff) in
                if switch : bool then again
                else atom! _ := record_pick_steps cur in Ret (Some cur)
            end
        end
  end.

(** The members of a group, without the excluded ids. *)
Definition pick_excluding_steps (rand : draw) (group : bytes) (exclude : gset bytes) : prog (option nat) :=
  atom! items := read_set (fun us => UpstreamSet.groups us !! group) in
  match items with
  | None => Ret None
  | Some items =>
      atom! candidates := read_set (fun us => filter (fun i => excluded us exclude i = false) items) in
      match candidates with [] => Ret None | _ => pick_weighted_steps rand candidates group end
  end.

(** * Tasks and their interleavings *)

Inductive Task :=
  | Pick (rand : draw) (group : bytes) (exclude : gset bytes)
  | Update (i : nat) (op : ScoreOp)
  | RelativeRound (stale_secs : Z) (emas : f64 * f64).
Inductive Outcome := Picked (o : option nat) | Updated.

Definition update_steps (i : nat) (op : ScoreOp) : prog unit :=
  match op with
  | Track token fd => track_steps i token fd
  | ScoreRound held info relative_mode => score_round_steps i held info relative_mode
  | UplinkReport raw => update_link_steps i Uplink raw
  | DownlinkReport raw => update_link_steps i Downlink raw
  | ProbeReport q lk => set_probe_quality_steps i q lk
  | Penalize => penalize_steps i
  | HealthResult fail_threshold alive => health_result_steps i fail_threshold alive
  | WriteRelative max_rate_ema max_q_ema rate q => write_relative_steps i max_rate_ema max_q_ema rate q
  end.
Definition task_steps (t : Task) : prog Outcome :=
  match t with
  | Pick rand group exclude => atom! o := pick_excluding_steps rand group exclude in Ret (Picked o)
  | Update i op => atom! _ := update_steps i op in Ret Updated
  | RelativeRound stale_secs emas => atom! _ := relative_round_steps stale_secs emas in Ret Updated
  end.

(** A task makes its next access, or the clock is set (it may go back). *)
Inductive Event := Run (t : nat) | SetClock (now : Z).
Abbreviation Pool := (list (prog Outcome)).
Definition on_event (st : Pool * Shared) (e : Event) : Pool * Shared :=
  let (pool, s) := st in
  match e with
  | SetClock now => (pool, {| set := set s; clock := now |})
  | Run t =>
      match pool !! t with
      | Some (Access f k) => let (b, s) := f s in (<[t := k b]> pool, s)
      | _ => (pool, s)
      end
  end.
Definition run (evs : list Event) (st : Pool * Shared) : Pool * Shared := foldl on_event st evs.
