(* ===== verification/AtomicsAlone.v ===== *)
(** An operation of [Atomics] that nobody interrupts does what the function of
    [Scores] or [Picks] does: these two files are the sequential reading of the
    same code. *)

From Stdlib Require Import Strings.Byte Strings.String Floats.SpecFloat.
From coqutil Require Import Datatypes.RecordSetters.
From S2P Require Import Prelude Bytes Ordered Float64 Config Scores Stats Picks Probes Atomics.
Import OCamlLikeNotations.
#[local] Open Scope Z_scope.

(** A program run to its end by itself. *)
Fixpoint alone {A} (p : prog A) (s : Shared) : checked (A * Shared) :=
  match p with
  | Ret a => Ok (a, s)
  | Fault => Panic
  | Access f k => alone (k (f s).1) (f s).2
  end.

Lemma alone_bind {A B} (p : prog A) (k : A -> prog B) s :
  alone (bind p k) s = let? (a, s) := alone p s in alone (k a) s.
Proof. revert s. induction p as [a| |B' f g IH]; intros s; cbn; [done|done|apply IH]. Qed.
Lemma alone_lift {A} (r : checked A) a s : r = Ok a -> alone (lift r) s = Ok (a, s).
Proof. by intros ->. Qed.

Section Alone.
Context (s : Shared) (i : nat) (up : upstream).
Hypothesis Hi : UpstreamSet.all_items (set s) !! i = Some up.

Lemma alone_access {B} (f : upstream -> B * upstream) : alone (access i f) s = Ok ((f up).1, with_set s (store (set s) i (f up).2)).
Proof. cbn. by rewrite Hi. Qed.
Lemma store_same : with_set s (store (set s) i up) = s.
Proof. destruct s as [us c]. unfold with_set, store. cbn in *. rewrite list_insert_id by done. by destruct us. Qed.
Lemma alone_load {B} (f : upstream -> B) : alone (load i f) s = Ok (f up, s).
Proof. unfold load. rewrite alone_access. cbn. by rewrite store_same. Qed.
Lemma alone_put f : alone (put i f) s = Ok (tt, with_set s (store (set s) i (f up))).
Proof. apply alone_access. Qed.
End Alone.

(** After a write to upstream [i]. *)
Lemma store_lookup us i up up' : UpstreamSet.all_items us !! i = Some up -> UpstreamSet.all_items (store us i up') !! i = Some up'.
Proof. intros Hi. cbn. apply list_lookup_insert_eq. by eapply lookup_lt_Some. Qed.
Lemma store_store us i up up' : store (store us i up) i up' = store us i up'.
Proof. unfold store. cbn. by rewrite list_insert_insert_eq. Qed.

(** Steps through a program whose upstream is known; a state is [at i s up]
    when it is [s] with [up] for upstream [i]. *)
Definition at_upstream (i : nat) (s : Shared) (up : upstream) : Shared := with_set s (store (set s) i up).
Section At.
Context (s : Shared) (i : nat) (up0 : upstream).
Hypothesis Hi : UpstreamSet.all_items (set s) !! i = Some up0.
Lemma at_id : s = at_upstream i s up0.
Proof. symmetry. by apply store_same. Qed.
Lemma at_access {A B} (f : upstream -> B * upstream) (k : B -> prog A) up :
  alone (bind (access i f) k) (at_upstream i s up) = alone (k (f up).1) (at_upstream i s (f up).2).
Proof.
  rewrite alone_bind, (alone_access _ i up) by (by apply (store_lookup _ _ up0)). cbn [res_bind]. f_equal.
  unfold at_upstream, with_set. cbn. by rewrite store_store.
Qed.
Lemma at_load {A B} (f : upstream -> B) (k : B -> prog A) up :
  alone (bind (load i f) k) (at_upstream i s up) = alone (k (f up)) (at_upstream i s up).
Proof. apply at_access. Qed.
Lemma at_put {A} f (k : unit -> prog A) up : alone (bind (put i f) k) (at_upstream i s up) = alone (k tt) (at_upstream i s (f up)).
Proof. apply at_access. Qed.
Lemma at_last_put f up : alone (put i f) (at_upstream i s up) = Ok (tt, at_upstream i s (f up)).
Proof.
  rewrite (alone_put _ i up) by (by apply (store_lookup _ _ up0)). unfold at_upstream, with_set. cbn. by rewrite store_store.
Qed.
Lemma at_now {A} (k : Z -> prog A) up : alone (bind now_secs k) (at_upstream i s up) = alone (k (clock s)) (at_upstream i s up).
Proof. done. Qed.
End At.

(** Follows the steps, with the checked arithmetic that succeeded. *)
Ltac steps :=
  repeat first
    [ erewrite at_load by eassumption | erewrite at_access by eassumption | erewrite at_put by eassumption | rewrite at_now
    | erewrite at_last_put by eassumption
    | match goal with H : ?r = Ok _ |- context [bind (lift ?r) _] => rewrite H; change (lift (Ok ?a)) with (@Ret _ a) end
    | progress cbn [bind fst snd] ].

(** Evaluates a field of an upstream whose fields are known. *)
Ltac read_field F :=
  repeat match goal with |- context [F ?x] => let v := eval cbn in (F x) in progress change (F x) with v end.

Lemma put_tcp_score_alone s i up0 up z : UpstreamSet.all_items (set s) !! i = Some up0 ->
  alone (put_tcp_score i z) (at_upstream i s up) =
    Ok (tt, at_upstream i s { up with Upstream.tcp_score := z; Upstream.tcp_score_initialized := true }).
Proof. intros Hi. unfold put_tcp_score. steps. done. Qed.

Lemma penalize_alone s i up0 up : UpstreamSet.all_items (set s) !! i = Some up0 ->
  alone (penalize_steps i) (at_upstream i s up) = Ok (tt, at_upstream i s (penalize (clock s) up)).
Proof.
  intros Hi. unfold penalize_steps. rewrite alone_bind. erewrite put_tcp_score_alone by done. cbn [res_bind]. steps. by destruct up.
Qed.

Lemma update_link_alone s i up0 up l raw score last : UpstreamSet.all_items (set s) !! i = Some up0 ->
  update_link_score (clock s) raw (link_score l up) (link_last l up) = Ok (score, last) ->
  alone (update_link_steps i l raw) (at_upstream i s up) = Ok (tt, at_upstream i s (put_link_last l last (put_link_score l score up))).
Proof.
  intros Hi E. assert (put_link_last l (link_last l up) (put_link_score l (link_score l up) up) = up) as Hsame by (by destruct up, l).
  unfold update_link_steps, update_link_score in *. destruct raw as [raw|]; [|injection E as <- <-; by rewrite Hsame]. steps.
  destruct (_ <? 5); [injection E as <- <-; by rewrite Hsame|]. steps. rewrite Z.eqb_refl. cbn [fst snd].
  apply res_bind_ok in E as (old3 & E3 & (raw7 & E7 & (sum & Es & E)%res_bind_ok)%res_bind_ok). injection E as <- <-.
  assert (link_score l (put_link_last l (clock s) up) = link_score l up) as El by (by destruct up, l). steps. rewrite El. steps.
  by destruct up, l.
Qed.

Lemma health_result_alone s i up0 up threshold alive up' : UpstreamSet.all_items (set s) !! i = Some up0 ->
  0 <= Upstream.health_failures up -> health_result threshold (clock s) alive up = Ok up' ->
  alone (health_result_steps i threshold alive) (at_upstream i s up) = Ok (tt, at_upstream i s up').
Proof.
  intros Hi H0 E. unfold health_result, health_result_steps in *. destruct alive.
  - steps. destruct (_ <=? _); [|by injection E as <-]. injection E as <-. by erewrite put_tcp_score_alone.
  - apply res_bind_ok in E as (f & Ef & E). steps.
    assert (f = Upstream.health_failures up + 1 /\ Upstream.health_failures up + 1 <= U32_MAX) as [-> Hf].
    { unfold u32 in Ef. destruct (_ && _) eqn:Eb; [|done]. injection Ef as <-. split; [done|lia]. }
    rewrite Z.mod_small by (unfold U32_MAX in *; lia). destruct (_ =? _); injection E as <-; [|done].
    by erewrite penalize_alone.
Qed.

Lemma score_round_alone s i up0 up held info relative up' : UpstreamSet.all_items (set s) !! i = Some up0 ->
  score_round held info relative (clock s) up = Ok up' ->
  alone (score_round_steps i held info relative) (at_upstream i s up) = Ok (tt, at_upstream i s up').
Proof.
  intros Hi E. unfold score_round, score_round_steps in *. steps. cbv zeta in E.
  apply res_bind_ok in E as ([[r b] n] & Es & E). steps. destruct (n =? 0); [by injection E as <-|]. steps.
  destruct up. cbn in E. steps. read_field Upstream.tcp_info_initialized. read_field Upstream.last_total_recv. read_field Upstream.last_total_sent. read_field Upstream.last_check_secs.
  destruct tcp_info_initialized; cbn [negb] in *; [|by injection E as <-].
  apply res_bind_ok in E as (d & Ed & E). steps. change (1024 * 16) with 16384. destruct (_ <=? d); [|by injection E as <-].
  destruct relative; [steps; by injection E as <-|]. apply res_bind_ok in E as (score & Esc & E). steps.
  destruct score as [raw|]; [|by injection E as <-].
  apply res_bind_ok in E as (x & Ex & (y & Ey & (z & Ez & E)%res_bind_ok)%res_bind_ok). injection E as <-. steps.
  read_field Upstream.tcp_score. steps. by erewrite put_tcp_score_alone.
Qed.

Lemma write_relative_alone s i up0 up max_rate_ema max_q_ema rate q up' : UpstreamSet.all_items (set s) !! i = Some up0 ->
  write_relative max_rate_ema max_q_ema rate q up = Ok up' ->
  alone (write_relative_steps i max_rate_ema max_q_ema rate q) (at_upstream i s up) = Ok (tt, at_upstream i s up').
Proof.
  intros Hi E. unfold write_relative, write_relative_steps in *. cbv zeta in E. set (up1 := match q with Some _ => _ | None => _ end) in E.
  rewrite alone_bind.
  replace (alone _ (at_upstream i s up)) with (Ok (tt, at_upstream i s up1) : checked (unit * Shared)).
  2: { unfold up1. destruct q as [q|]; [|done]. destruct (f64_lt _ _); [|done]. steps. by destruct up. }
  cbn [res_bind]. clearbody up1.
  assert (forall up2, Ok (cold_start max_q_ema q up1) = (Ok up2 : checked upstream) ->
    alone (bind (load i Upstream.tcp_score_initialized) (fun initialized =>
      if negb initialized && f64_lt f64_zero max_q_ema then
        put_tcp_score i match q with Some q => relative_score q max_q_ema | None => relative_score (f64_mul max_q_ema (f64_ratio 1 2)) max_q_ema end
      else Ret tt)) (at_upstream i s up1) = Ok (tt, at_upstream i s up2)) as Hcold.
  { intros up2 [= <-]. unfold cold_start. steps. destruct (_ && _); [|done]. by erewrite put_tcp_score_alone. }
  destruct rate as [rate|]; [|by apply Hcold]. destruct (f64_lt _ _); [|by apply Hcold].
  apply res_bind_ok in E as (sum & Esum & E). injection E as <-. steps. by erewrite put_tcp_score_alone.
Qed.

(** One update, uninterrupted. *)
Theorem update_alone s i up op up' : UpstreamSet.all_items (set s) !! i = Some up ->
  0 <= Upstream.health_failures up -> score_step (clock s) up op = Ok up' ->
  alone (update_steps i op) s = Ok (tt, with_set s (store (set s) i up')).
Proof.
  intros Hi H0 E. rewrite (at_id s i up Hi) at 1. change (with_set s (store (set s) i up')) with (at_upstream i s up').
  destruct op; cbn [update_steps score_step] in *.
  - injection E as <-. unfold track_steps. by steps.
  - by eapply score_round_alone.
  - unfold update_uplink_score in E. apply res_bind_ok in E as ([score last] & El & E). injection E as <-.
    erewrite update_link_alone by done. by destruct up.
  - unfold update_downlink_score in E. apply res_bind_ok in E as ([score last] & El & E). injection E as <-.
    erewrite update_link_alone by done. by destruct up.
  - injection E as <-. unfold set_probe_quality_steps, set_probe_quality. steps. by destruct (bool_decide _), up.
  - injection E as <-. by eapply penalize_alone.
  - by eapply health_result_alone.
  - by eapply write_relative_alone.
Qed.

(** * Scores and picks *)

Lemma quic_score_alone s i up now q : UpstreamSet.all_items (set s) !! i = Some up ->
  quic_score_effective_at up now = Ok q -> alone (quic_score_effective_steps i now) s = Ok (q, s).
Proof.
  intros Hi E. rewrite (at_id s i up Hi). unfold quic_score_effective_at, quic_score_effective_steps in *.
  apply res_bind_ok in E as (u & Eu & (d & Ed & E)%res_bind_ok). steps.
  destruct u as [u|], d as [d|]; try by injection E as <-. apply res_bind_ok in E as (z & Ez & E). injection E as <-. by steps.
Qed.

Lemma score_alone s i up now q : UpstreamSet.all_items (set s) !! i = Some up ->
  score_at up now = Ok q -> alone (score_steps i now) s = Ok (q, s).
Proof.
  intros Hi E. unfold score_at, score_steps in *. rewrite (at_id s i up Hi). steps. rewrite <- (at_id s i up Hi).
  apply res_bind_ok in E as (quic & Eq & E). rewrite alone_bind. erewrite quic_score_alone by done. cbn [res_bind].
  rewrite (at_id s i up Hi). steps. rewrite alone_bind. set (v := alone _ _).
  assert (v = Ok ((0 <? Upstream.quic_uplink_last_update_secs up) || (0 <? Upstream.quic_downlink_last_update_secs up), at_upstream i s up)) as ->.
  { unfold v. destruct (0 <? _); [done|]. by steps. }
  cbn [res_bind]. apply res_bind_ok in E as (tw & Etw & E). steps.
  destruct (Upstream.tcp_score_initialized up), (_ || _); try by injection E as <-.
  apply res_bind_ok in E as (t & Et & (z & Ez & (y & Ey & E)%res_bind_ok)%res_bind_ok). injection E as <-. by steps.
Qed.

Lemma effective_score_alone s i up e : UpstreamSet.all_items (set s) !! i = Some up ->
  effective_score_at up (clock s) = Ok e -> alone (effective_score_steps i) s = Ok (e, s).
Proof.
  intros Hi E. unfold effective_score_at, effective_score_steps in *. apply res_bind_ok in E as (raw & Er & E). injection E as <-.
  cbn [bind now_secs alone fst snd]. rewrite alone_bind. erewrite score_alone by done. cbn [res_bind].
  rewrite (at_id s i up Hi). by steps.
Qed.

Lemma for_each_alone {A B} (f : A -> prog B) (g : A -> B) (l : list A) s :
  (forall a, a ∈ l -> alone (f a) s = Ok (g a, s)) -> alone (for_each f l) s = Ok (map g l, s).
Proof.
  induction l as [|a l IH]; intros Hf; [done|]. cbn [for_each map]. rewrite alone_bind, Hf by (by left). cbn [res_bind].
  rewrite alone_bind, IH by (intros; apply Hf; by right). done.
Qed.

(** ** Recording *)

Lemma stats_alone {A B} (f : Stats -> checked (B * Stats)) (k : B -> prog A) s ps b ps' :
  UpstreamSet.pick_stats (set s) = Some ps -> f ps = Ok (b, ps') ->
  alone (bind (stats f) k) s = alone (k b) (with_set s (set_pick_stats (set s) (Some ps'))).
Proof. intros Hs Hf. cbn. by rewrite Hs, Hf. Qed.
Lemma stats_same s ps : UpstreamSet.pick_stats (set s) = Some ps -> with_set s (set_pick_stats (set s) (Some ps)) = s.
Proof. intros Hs. destruct s as [us c]. unfold with_set. cbn in *. destruct us. cbn in *. by rewrite <- Hs. Qed.

Lemma maybe_log_alone s ps line ps' : UpstreamSet.pick_stats (set s) = Some ps -> maybe_log ps (clock s) = Ok (line, ps') ->
  alone maybe_log_steps s = Ok (tt, with_set s (set_pick_stats (set s) (Some ps'))).
Proof.
  intros Hs E. unfold maybe_log, maybe_log_steps in *. cbv zeta in *. cbn [bind now_secs alone fst snd].
  erewrite stats_alone by done. rewrite stats_same by done. cbn beta.
  destruct (_ <? _).
  { injection E as _ <-. erewrite stats_alone by (done || by rewrite Z.eqb_refl). done. }
  destruct (_ <? 60); [injection E as _ <-; by rewrite stats_same|].
  erewrite stats_alone by (done || by rewrite Z.eqb_refl). cbn [negb].
  erewrite stats_alone by done. rewrite stats_same by done. cbn beta.
  destruct (counts _) as [|c cs]; [by injection E as _ <-|]. apply res_bind_ok in E as (total & Et & E). injection E as _ <-.
  rewrite alone_bind. by erewrite alone_lift by done.
Qed.

Lemma set_pick_stats_twice us a b : set_pick_stats (set_pick_stats us a) b = set_pick_stats us b.
Proof. done. Qed.

Lemma record_pick_alone s i us' : record_pick_stats (clock s) (set s) i = Ok us' ->
  alone (record_pick_steps i) s = Ok (tt, with_set s us').
Proof.
  unfold record_pick_stats, record_pick_steps. intros E. cbn [bind read_set alone fst snd].
  destruct (UpstreamSet.pick_stats (set s)) as [ps|] eqn:Es; cbn [negb].
  2: { injection E as <-. by destruct s. }
  apply res_bind_ok in E as (up & Eup & ([recorded ps1] & Er & E)%res_bind_ok).
  unfold get in Eup. destruct (_ !! i) as [up'|] eqn:Hi; [|done]. injection Eup as ->.
  rewrite alone_bind, (alone_load s i up Hi). cbn [res_bind bind now_secs alone fst snd].
  erewrite stats_alone by done. cbn beta. destruct recorded; [|by injection E as <-].
  apply res_bind_ok in E as ([line ps2] & El & E). injection E as <-.
  by erewrite maybe_log_alone by done.
Qed.

Lemma choose_alone s i group o us' : choose (clock s) (set s) group i = Ok (o, us') ->
  alone (choose_steps group i) s = Ok (o, with_set s us').
Proof.
  unfold choose, choose_steps. intros E. apply res_bind_ok in E as (up & Eup & (us1 & Er & E)%res_bind_ok). injection E as <- <-.
  unfold get in Eup. destruct (_ !! i) as [up'|] eqn:Hi; [|done]. injection Eup as ->.
  rewrite alone_bind, (alone_load s i up Hi). cbn [res_bind]. cbn [bind set_sticky alone fst snd]. rewrite alone_bind.
  by erewrite record_pick_alone by done.
Qed.

(** ** Picks *)

Section Pick.
Context (n : Z) (s : Shared) (rand : draw).
Hypothesis Hwf : wf_set n (set s).
Hypothesis Hn : 0 <= clock s <= U64_MAX.
Abbreviation in_range i := (i < length (UpstreamSet.all_items (set s)))%nat.
Abbreviation score := (eff (clock s) (set s)).

Lemma eff_alone i : in_range i -> alone (effective_score_steps i) s = Ok (score i, s).
Proof.
  intros [up Hi]%lookup_lt_is_Some_2. eapply effective_score_alone; [done|]. by apply (eff_ok n).
Qed.
Lemma scores_alone items : Forall (fun i => in_range i) items ->
  alone (for_each effective_score_steps items) s = Ok (map score items, s).
Proof. intros Hi. apply for_each_alone. intros i Hin. apply eff_alone. rewrite Forall_forall in Hi. by apply Hi. Qed.

Lemma flags_alone items : Forall (fun i => in_range i) items ->
  alone (for_each (fun i => load i Upstream.tcp_score_initialized) items) s = Ok (map (fun i => negb (uninitialized (set s) i)) items, s).
Proof.
  intros Hi. apply for_each_alone. intros i Hin. rewrite Forall_forall in Hi. destruct (lookup_lt_is_Some_2 _ _ (Hi i Hin)) as [up Hup].
  rewrite (alone_load s i up Hup). unfold uninitialized. by rewrite Hup, negb_involutive.
Qed.
Lemma uninit_steps (f : nat -> bool) items :
  map fst (filter (fun e => e.2 = false) (zip items (map (fun i => negb (f i)) items))) = filter (fun i => f i = true) items.
Proof.
  induction items as [|i items IH]; [done|]. cbn [map zip_with]. rewrite !filter_cons. destruct (f i); cbn [negb snd]; rewrite ?decide_True, ?decide_False by done; cbn [map fst]; by rewrite IH.
Qed.

Lemma again_alone items group i o us' : Forall (fun i => in_range i) items ->
  reselect rand items (map score items) = Ok i -> choose (clock s) (set s) group i = Ok (o, us') ->
  alone (bind (reselect_steps rand items) (choose_steps group)) s = Ok (o, with_set s us').
Proof.
  intros Hi Er Ec. unfold reselect_steps. rewrite alone_bind, alone_bind, scores_alone by done. cbn [res_bind]. rewrite Er. cbn [lift alone res_bind].
  by apply choose_alone.
Qed.

Lemma pick_weighted_alone items group o us' : Forall (fun i => in_range i) items ->
  pick_weighted (clock s) rand (set s) items group = Ok (o, us') ->
  alone (pick_weighted_steps rand items group) s = Ok (o, with_set s us').
Proof.
  intros Hi. unfold pick_weighted, pick_weighted_steps. destruct items as [|i0 [|i1 rest]] eqn:Eitems.
  { intros [= <- <-]. by destruct s. }
  { apply choose_alone. }
  rewrite <- Eitems in *. cbv zeta. rewrite alone_bind, flags_alone by done. cbn [res_bind]. rewrite uninit_steps.
  destruct (_ && _).
  { intros (i & Ei & Ec)%res_bind_ok. rewrite alone_bind. erewrite alone_lift by done. cbn [res_bind]. by apply choose_alone. }
  rewrite (effective_scores_ok n) by done. rewrite alone_bind, scores_alone by done. cbn [res_bind].
  destruct (max_by_key _) as [[best best_eff]|] eqn:Eb; [|intros [= <- <-]; by destruct s].
  destruct (max_by_key_spec (zip items (map score items)) None) as (x & E & Hx & _); [left; by rewrite Eitems|].
  unfold max_by_key in Eb. rewrite Eb in E. injection E as <-. destruct Hx as [Hx|?]; [|done].
  assert (best ∈ items /\ best_eff = score best) as [Hbest ->].
  { apply list_elem_of_lookup in Hx as [k Hk]. apply lookup_zip_with_Some in Hk as (a & b & [= <- <-] & Ha & Hb).
    rewrite list_lookup_fmap, Ha in Hb. injection Hb as <-. split; [by eapply list_elem_of_lookup_2|done]. }
  rewrite Forall_forall in Hi. pose proof (Hi best Hbest) as Hbr. rewrite alone_bind, eff_alone by done. cbn [res_bind bind read_set alone fst snd].
  destruct (0 <? UpstreamSet.tolerance (set s)); cbn [bind read_set alone fst snd].
  2: { intros (i & Ei & Ec)%res_bind_ok. eapply again_alone; [by apply Forall_forall|done|done]. }
  destruct (sticky (set s) items group) as [cur|] eqn:Ecur.
  2: { intros (i & Ei & Ec)%res_bind_ok. eapply again_alone; [by apply Forall_forall|done|done]. }
  apply sticky_Some in Ecur as (Hcur & cup & Hcup & _). destruct (lookup_lt_is_Some_2 _ _ Hbr) as [bup Hbup].
  unfold get. rewrite Hcup, Hbup. cbn [or_panic res_bind]. rewrite alone_bind, eff_alone by (by apply Hi). cbn [res_bind].
  rewrite alone_bind, (alone_load s best bup Hbup). cbn [res_bind]. rewrite alone_bind, (alone_load s cur cup Hcup). cbn [res_bind].
  rewrite (eff_ok n (clock s) (set s) Hwf Hn cur cup Hcup). cbn [res_bind]. rewrite alone_bind.
  case_bool_decide; cbn [res_bind alone].
  { intros (us1 & Er & [= <- <-])%res_bind_ok. rewrite alone_bind. by erewrite record_pick_alone by done. }
  intros (switch & (limit & El & [= <-])%res_bind_ok & E)%res_bind_ok. rewrite alone_bind. erewrite alone_lift by done. cbn [res_bind alone].
  destruct (limit <? _).
  - apply res_bind_ok in E as (i & Ei & Ec). eapply again_alone; [by apply Forall_forall|done|done].
  - apply res_bind_ok in E as (us1 & Er & [= <- <-]). rewrite alone_bind. by erewrite record_pick_alone by done.
Qed.

(** A pick, uninterrupted. *)
Theorem pick_alone group exclude o us' :
  pick_excluding_many_from_group (clock s) rand (set s) group exclude = Ok (o, us') ->
  alone (pick_excluding_steps rand group exclude) s = Ok (o, with_set s us').
Proof.
  unfold pick_excluding_many_from_group, pick_excluding_steps. cbn [bind read_set alone fst snd].
  destruct (UpstreamSet.groups (set s) !! group) as [items|] eqn:Eg; [|intros [= <- <-]; by destruct s].
  apply (ws_groups _ _ Hwf) in Eg as [Hi _]. cbn [bind read_set alone fst snd]. set (candidates := filter _ items).
  assert (Forall (fun i => in_range i) candidates) as Hc.
  { apply Forall_forall. intros i [_ Hin]%list_elem_of_filter. rewrite Forall_forall in Hi. by apply Hi. }
  destruct candidates as [|c cs]; [intros [= <- <-]; by destruct s|]. by apply pick_weighted_alone.
Qed.
End Pick.

(** ** The relative round *)

Definition with_items (us : upstreams) (l : list upstream) : upstreams := {|
  UpstreamSet.groups := UpstreamSet.groups us;
  UpstreamSet.all_items := l;
  UpstreamSet.current := UpstreamSet.current us;
  UpstreamSet.tolerance := UpstreamSet.tolerance us;
  UpstreamSet.pick_stats := UpstreamSet.pick_stats us;
|}.

Lemma snap_alone s i up now stale : UpstreamSet.all_items (set s) !! i = Some up ->
  alone (snap_steps now stale i) s = Ok (snap_rate now stale up, snap_q now stale up, s).
Proof.
  intros Hi. rewrite (at_id s i up Hi). unfold snap_steps, snap_rate, snap_q. steps. rewrite alone_bind.
  assert (forall (b : bool) (f : upstream -> f64),
    alone (if b then bind (load i f) (fun r => Ret (Some r)) else Ret None) (at_upstream i s up) =
      Ok (if b then Some (f up) else None, at_upstream i s up)) as Hopt by (intros [] f; by steps).
  rewrite Hopt. cbn [res_bind]. steps. rewrite alone_bind, Hopt. done.
Qed.

Lemma snaps_alone s now stale :
  alone (for_each (snap_steps now stale) (seq 0 (length (UpstreamSet.all_items (set s))))) s =
    Ok (map (fun up => (snap_rate now stale up, snap_q now stale up)) (UpstreamSet.all_items (set s)), s).
Proof.
  set (g := fun i => match UpstreamSet.all_items (set s) !! i with Some up => (snap_rate now stale up, snap_q now stale up) | None => (None, None) end).
  rewrite (for_each_alone _ g).
  - do 2 f_equal. apply list_eq. intros k. rewrite !list_lookup_fmap. destruct (UpstreamSet.all_items (set s) !! k) as [up|] eqn:E.
    + rewrite lookup_seq_lt by (by eapply lookup_lt_Some). cbn. unfold g. by rewrite E.
    + by rewrite lookup_ge_None_2 by (rewrite length_seq; by apply lookup_ge_None_1).
  - intros i Hi%elem_of_seq. destruct (lookup_lt_is_Some_2 (UpstreamSet.all_items (set s)) i) as [up Hup]; [lia|].
    rewrite (snap_alone s i up) by done. unfold g. by rewrite Hup.
Qed.

Lemma writes_alone mr mq now stale rest : forall s done rest',
  UpstreamSet.all_items (set s) = done ++ rest -> write_all_relative mr mq now stale rest = Ok rest' ->
  exists bs, alone (for_each (fun e => write_relative_steps e.1 mr mq e.2.1 e.2.2)
      (zip (seq (length done) (length rest)) (map (fun up => (snap_rate now stale up, snap_q now stale up)) rest))) s =
    Ok (bs, with_set s (with_items (set s) (done ++ rest'))).
Proof.
  induction rest as [|up rest IH]; intros s fin rest' Hall E; cbn [write_all_relative] in E.
  { injection E as <-. exists []. cbn. rewrite <- Hall. destruct s as [us c]. by destruct us. }
  apply res_bind_ok in E as (up' & Eu & (ups & Er & E)%res_bind_ok). injection E as <-.
  assert (UpstreamSet.all_items (set s) !! length fin = Some up) as Hi by (rewrite Hall; by apply list_lookup_middle).
  cbn [length seq map zip_with for_each fst snd]. rewrite alone_bind.
  pattern s at 1; rewrite (at_id s (length fin) up Hi). rewrite (write_relative_alone s (length fin) up up _ _ _ _ up' Hi Eu). cbn [res_bind].
  destruct (IH (at_upstream (length fin) s up') (fin ++ [up']) ups) as [bs Hbs].
  { cbn. rewrite Hall, insert_app_r_alt, Nat.sub_diag by lia. cbn. by rewrite <- app_assoc. }
  { done. }
  rewrite length_app, Nat.add_1_r in Hbs. rewrite alone_bind, Hbs. cbn [res_bind]. eexists. rewrite <- app_assoc. reflexivity.
Qed.

(** A round of relative scores, uninterrupted. *)
Theorem relative_round_alone s stale emas mr mq ups :
  relative_round (clock s) stale emas (UpstreamSet.all_items (set s)) = Ok (mr, mq, ups) ->
  alone (relative_round_steps stale emas) s = Ok ((mr, mq), with_set s (with_items (set s) ups)).
Proof.
  unfold relative_round, relative_round_steps. cbv zeta. intros (ups' & E & [= <- <- <-])%res_bind_ok.
  cbn [bind now_secs read_set alone fst snd]. rewrite alone_bind, snaps_alone. cbn [res_bind]. rewrite !map_map.
  destruct (writes_alone _ _ _ _ _ s [] ups' eq_refl E) as [bs Hbs]. cbn [length app] in Hbs. rewrite alone_bind.
  exact (f_equal (fun r => res_bind r _) Hbs).
Qed.
