(* ===== verification/AtomicsSafe.v ===== *)
(** The interleavings of [Atomics]: whatever tasks run on one set of upstreams,
    in whatever order their accesses come, none panics, each ends within a fixed
    number of its own accesses, and every pick answers an eligible upstream. The
    proof is modular: each operation keeps the invariant of the set at each
    access and asks nothing else of the others ([safe]). *)

From Stdlib Require Import Strings.Byte Strings.String Floats.SpecFloat.
From coqutil Require Import Datatypes.RecordSetters.
From S2P Require Import Prelude Bytes Ordered Float64 Config Scores Stats Picks Probes Atomics AtomicsAlone.
Import OCamlLikeNotations.
#[local] Open Scope Z_scope.

(** * The invariant *)

(** What never changes in a set. *)
Record same_config (us us' : upstreams) : Prop := {
  sc_groups : UpstreamSet.groups us' = UpstreamSet.groups us;
  sc_tolerance : UpstreamSet.tolerance us' = UpstreamSet.tolerance us;
  sc_items : Forall2 same_upstream (UpstreamSet.all_items us) (UpstreamSet.all_items us');
  sc_stats : is_Some (UpstreamSet.pick_stats us') <-> is_Some (UpstreamSet.pick_stats us);
}.
(** The failed probes in a row fit, and there are not more connections than a
    process has descriptors. *)
Definition MAX_CONNECTIONS : nat := Z.to_nat 65536.
Definition upstream_limits (up : upstream) : Prop :=
  Upstream.health_failures up < U32_MAX /\ (length (Upstream.registry up) <= MAX_CONNECTIONS)%nat.
Definition limits (s : Shared) : Prop := Forall upstream_limits (UpstreamSet.all_items (set s)).

Lemma same_upstream_refl up : same_upstream up up.
Proof. done. Qed.
Lemma same_upstream_trans up1 up2 up3 : same_upstream up1 up2 -> same_upstream up2 up3 -> same_upstream up1 up3.
Proof. intros (? & ? & ? & ?) (? & ? & ? & ?). split_and!; congruence. Qed.
Lemma same_config_refl us : same_config us us.
Proof. split; [done..| |done]. by apply Forall_Forall2_diag, Forall_true. Qed.
Lemma wf_set_le n m us : n <= m -> wf_set n us -> wf_set m us.
Proof. intros Hnm []. split; try done. intros ps Hps. destruct (ws_stats ps Hps) as (k & ? & ?). exists k. split; [done|lia]. Qed.

Section Safe.
Context (us0 : upstreams).
Abbreviation members group := (default [] (UpstreamSet.groups us0 !! group)).
Abbreviation in_range i := (i < length (UpstreamSet.all_items us0))%nat.

(** After at most [n] accesses. *)
Definition inv (n : Z) (s : Shared) : Prop := wf_set n (set s) /\ same_config us0 (set s) /\ 0 <= clock s <= U64_MAX.

Lemma inv_next n s : inv n s -> inv (n + 1) s.
Proof. intros (Hw & Hc & Hs). split; [|done]. by apply (wf_set_le n); [lia|]. Qed.
Lemma inv_lookup n s i : inv n s -> in_range i ->
  exists up0 up, UpstreamSet.all_items us0 !! i = Some up0 /\ UpstreamSet.all_items (set s) !! i = Some up /\ wf_upstream up /\ same_upstream up0 up.
Proof.
  intros (Hw & Hc & _) [up0 H0]%lookup_lt_is_Some_2. destruct (Forall2_lookup_l _ _ _ _ _ (sc_items _ _ Hc) H0) as (up & Hup & Hs).
  exists up0, up. split_and!; try done. by eapply Forall_lookup_1; [apply Hw|].
Qed.

(** * What a program keeps *)

(** [p] ends with [Q] after at most [d] accesses, each of which keeps the
    invariant, whatever happens between them. *)
Fixpoint safe {A} (p : prog A) (d : nat) (Q : A -> Prop) : Prop :=
  match p with
  | Ret a => Q a
  | Fault => False
  | Access f k =>
      match d with
      | O => False
      | S d => forall n s, n < U64_MAX -> inv n s -> limits s -> inv (n + 1) (f s).2 /\ safe (k (f s).1) d Q
      end
  end.

Lemma safe_mono {A} (p : prog A) d d' (Q Q' : A -> Prop) : (d <= d')%nat -> (forall a, Q a -> Q' a) -> safe p d Q -> safe p d' Q'.
Proof.
  revert d d'. induction p as [a| |B f k IH]; intros d d' Hd HQ; [apply HQ|done|]. destruct d as [|d]; [done|]. destruct d' as [|d']; [lia|].
  cbn. intros H n s Hn Hi Hl. destruct (H n s Hn Hi Hl) as [Hi' Hw]. split; [done|]. eapply IH; [|done|exact Hw]. lia.
Qed.
Lemma safe_bind {A B} (p : prog A) (k : A -> prog B) d1 d2 d Q :
  safe p d1 (fun a => safe (k a) d2 Q) -> (d1 + d2 <= d)%nat -> safe (bind p k) d Q.
Proof.
  revert d1 d. induction p as [a| |C f g IH]; intros d1 d Hp Hd; [|done|].
  - cbn in *. by eapply (safe_mono _ d2 d Q Q); [lia| |].
  - destruct d1 as [|d1]; [done|]. destruct d as [|d]; [lia|]. cbn in *. intros n s Hn Hi Hl. destruct (Hp n s Hn Hi Hl) as [Hi' Hw].
    split; [done|]. eapply IH; [exact Hw|lia].
Qed.
Lemma safe_end {A} (p : prog A) d Q : safe (bind p Ret) d Q -> safe p d Q.
Proof.
  revert d. induction p as [a| |C f g IH]; intros d; [done|done|]. destruct d as [|d]; [done|]. cbn. intros H n s Hn Hi Hl.
  destruct (H n s Hn Hi Hl) as [Hi' Hw]. split; [done|]. by apply IH.
Qed.

Section Rules.
Context {A : Type} (d : nat) (Q : A -> Prop).

Lemma safe_lift {B} (r : checked B) b (k : B -> prog A) : r = Ok b -> safe (k b) d Q -> safe (bind (lift r) k) d Q.
Proof. by intros ->. Qed.
Lemma safe_now (k : Z -> prog A) : (forall z, 0 <= z <= U64_MAX -> safe (k z) d Q) -> safe (bind now_secs k) (S d) Q.
Proof. intros Hk n s Hn Hi Hl. split; [by apply inv_next|]. apply Hk, Hi. Qed.
Lemma safe_read {B} (f : upstreams -> B) (k : B -> prog A) :
  (forall us n, wf_set n us -> same_config us0 us -> safe (k (f us)) d Q) -> safe (bind (read_set f) k) (S d) Q.
Proof. intros Hk n s Hn Hi Hl. split; [by apply inv_next|]. by apply (Hk _ n); apply Hi. Qed.

Lemma safe_access {B} i (f : upstream -> B * upstream) (k : B -> prog A) : in_range i ->
  (forall up0 up, UpstreamSet.all_items us0 !! i = Some up0 -> same_upstream up0 up -> wf_upstream up -> upstream_limits up ->
    wf_upstream (f up).2 /\ same_upstream up (f up).2 /\ safe (k (f up).1) d Q) ->
  safe (bind (access i f) k) (S d) Q.
Proof.
  intros Hi Hk n s Hn Hs Hl. destruct (inv_lookup n s i Hs Hi) as (up0 & up & H0 & Hup & Hw & Hsame). cbn. rewrite Hup. cbn.
  destruct (Hk up0 up H0 Hsame Hw) as (Hw' & Hs' & Hwp); [by eapply Forall_lookup_1|]. split; [|done].
  apply inv_next. destruct Hs as (Hws & [Hg Ht Hit Hps] & Hc). split; [by eapply store_wf|]. split; [|done].
  split; cbn; [done..| |done]. rewrite <- (list_insert_id _ i up0 H0). apply Forall2_insert; [done|]. by eapply same_upstream_trans.
Qed.
Lemma safe_load {B} i (f : upstream -> B) (k : B -> prog A) : in_range i ->
  (forall up0 up, UpstreamSet.all_items us0 !! i = Some up0 -> same_upstream up0 up -> wf_upstream up -> safe (k (f up)) d Q) ->
  safe (bind (load i f) k) (S d) Q.
Proof. intros Hi Hk. apply safe_access; [done|]. intros up0 up H0 Hs Hw _. split_and!; try done. by eapply Hk. Qed.
Lemma safe_put i f (k : unit -> prog A) : in_range i ->
  (forall up, wf_upstream up -> wf_upstream (f up) /\ same_upstream up (f up)) -> safe (k tt) d Q ->
  safe (bind (put i f) k) (S d) Q.
Proof. intros Hi Hf Hk. apply safe_access; [done|]. intros up0 up _ _ Hw _. destruct (Hf up Hw). by split_and!. Qed.

Lemma safe_stats {B} (f : Stats -> checked (B * Stats)) (k : B -> prog A) : is_Some (UpstreamSet.pick_stats us0) ->
  (forall n ps, n < U64_MAX -> stats_wf (map Upstream.id (UpstreamSet.all_items us0)) n ps ->
    exists b ps', f ps = Ok (b, ps') /\ stats_wf (map Upstream.id (UpstreamSet.all_items us0)) (n + 1) ps' /\ safe (k b) d Q) ->
  safe (bind (stats f) k) (S d) Q.
Proof.
  intros Hon Hf n s Hn (Hw & Hc & Hs) _. apply (sc_stats _ _ Hc) in Hon as [ps Hps]. destruct (ws_stats _ _ Hw ps Hps) as (m & Hm & Hmn).
  assert (map Upstream.id (UpstreamSet.all_items (set s)) = map Upstream.id (UpstreamSet.all_items us0)) as Hids.
  { symmetry. apply list_eq_Forall2, Forall2_fmap. eapply Forall2_impl; [apply Hc|]. by intros ? ? (-> & _). }
  rewrite Hids in Hm. destruct (Hf m ps ltac:(lia) Hm) as (b & ps' & E & Hps' & Hwp). cbn. rewrite Hps, E. split; [|done].
  destruct Hw, Hc. split; [split; cbn; try done|]; [|split; [split; cbn; try done|done]].
  - intros ps2 [= <-]. rewrite Hids. exists (m + 1). split; [done|lia].
  - rewrite <- sc_stats0, Hps. by split.
Qed.
Lemma safe_sticky group id (k : unit -> prog A) : safe (k tt) d Q -> safe (bind (set_sticky group id) k) (S d) Q.
Proof.
  intros Hk n s Hn (Hw & Hc & Hs) _. split; [|done]. apply inv_next. split; [by destruct Hw; split|]. split; [by destruct Hc; split|done].
Qed.
End Rules.


Lemma safe_for_each {A B} (f : A -> prog B) (R : A -> B -> Prop) c l :
  (forall a, a ∈ l -> safe (f a) c (R a)) -> safe (for_each f l) (length l * c) (Forall2 R l).
Proof.
  induction l as [|a l IH]; intros Hf; [constructor|]. cbn [for_each length Nat.mul].
  eapply safe_bind; [|reflexivity]. eapply safe_mono; [reflexivity| |apply Hf; by left]. intros b Hb.
  eapply (safe_bind _ _ _ 0); [|by rewrite Nat.add_0_r]. eapply safe_mono; [reflexivity| |apply IH; intros; apply Hf; by right].
  intros bs Hbs. by constructor.
Qed.

(** * Scores *)

Ltac load x H := apply safe_load; [done|intros u0 x _ _ H; clear u0].

Section Upstream.
Context (i : nat).
Hypothesis Hi : in_range i.

Lemma safe_quic now : 0 <= now <= U64_MAX -> safe (quic_score_effective_steps i now) 5 (fun q => 0 <= q <= 1000).
Proof.
  intros Hn. unfold quic_score_effective_steps. load up1 W1. load up2 W2. load up3 W3.
  destruct (decay_ok now _ _ _ Hn (proj1 (wf_times _ W3)) (wf_stale _ W1) (wf_uplink _ W2)) as (u & Eu & _ & Bu).
  eapply safe_lift; [exact Eu|]. load up4 W4. load up5 W5.
  destruct (decay_ok now _ _ _ Hn (proj2 (wf_times _ W5)) (wf_stale _ W1) (wf_downlink _ W4)) as (v & Ev & _ & Bv).
  eapply safe_lift; [exact Ev|]. pose proof (wf_uplink _ W2). pose proof (wf_downlink _ W4). unfold in_score, MINIMAL_SCORE, DEFAULT_SCORE in *.
  destruct u as [u|], v as [v|]; [destruct (Bu u eq_refl), (Bv v eq_refl)|destruct (Bu u eq_refl)|destruct (Bv v eq_refl)|]; cbn; try lia.
  rewrite u32_ok by (unfold U32_MAX; lia). cbn. split; [apply Z.div_pos; lia|apply Z.div_le_upper_bound; lia].
Qed.

Lemma safe_score now : 0 <= now <= U64_MAX -> safe (score_steps i now) 10 in_score.
Proof.
  intros Hn. unfold score_steps. load up1 W1. eapply (safe_bind _ _ 5 4); [|done]. eapply safe_mono; [reflexivity| |by apply safe_quic].
  intros q Hq. cbn beta. load up2 W2. load up3 W3. eapply (safe_bind _ _ 1 1 _ _ ); [|done].
  assert (forall v : bool, safe (atom! qw := load i Upstream.quic_weight in atom! tw := lift (u32 (100 - qw)) in
    match Upstream.tcp_score_initialized up2, v with
    | true, true => atom! t := lift (u32 (Upstream.tcp_score up1 * tw)) in atom! q := lift (u32 (q * qw)) in
        atom! s := lift (u32 (t + q)) in Ret (s / 100)
    | false, true => Ret q
    | true, false => Ret (Upstream.tcp_score up1)
    | false, false => Ret DEFAULT_SCORE
    end) 1 in_score) as Hend.
  { intros v. load up4 W4. pose proof (wf_tcp _ W1) as Ht. pose proof (wf_weight _ W4). unfold in_score, DEFAULT_SCORE in *.
    eapply safe_lift; [apply u32_ok; unfold U32_MAX; lia|]. destruct (Upstream.tcp_score_initialized up2), v; cbn; try lia.
    rewrite !u32_ok by (unfold U32_MAX; nia). cbn. rewrite u32_ok by (unfold U32_MAX; nia). cbn.
    split; [apply Z.div_pos; nia|apply Z.div_le_upper_bound; nia]. }
  destruct (0 <? _); [apply (Hend true)|]. load up5 W5. apply Hend.
Qed.

Lemma safe_effective_score : safe (effective_score_steps i) 12 (fun e => 1 <= e <= 10000000).
Proof.
  unfold effective_score_steps. apply safe_now. intros now Hn. eapply (safe_bind _ _ 10 1); [|done].
  eapply safe_mono; [reflexivity| |by apply safe_score]. intros z Hz. cbn beta. load up W. cbn. unfold as_u64, in_score in *.
  destruct (clamp_cast_Z 1 10000000 (f64_mul (f64_of_Z z) (Upstream.gain up)) U64_MAX) as [H1 H2]; [lia|lia|done|].
  split; [|done]. apply H2, mul_gain_not_nan; [lia|apply W..].
Qed.

(** * Updates *)

(** A write of one field. *)
Ltac put := apply safe_put; [done|intros u W; split; [by wf_update|by destruct u]|].

Lemma safe_put_tcp_score z : in_score z -> safe (put_tcp_score i z) 2 (fun _ => True).
Proof. intros Hz. unfold put_tcp_score. put. apply safe_end. by put. Qed.

Lemma put_link_wf l z up : in_score z -> wf_upstream up -> wf_upstream (put_link_score l z up) /\ same_upstream up (put_link_score l z up).
Proof. intros Hz Hw. destruct l; (split; [by wf_update|by destruct up]). Qed.
Lemma put_last_wf l z up : 0 <= z -> wf_upstream up -> wf_upstream (put_link_last l z up) /\ same_upstream up (put_link_last l z up).
Proof. intros Hz Hw. destruct l; (split; [by wf_update|by destruct up]). Qed.
Ltac put_link := apply safe_put; [done|intros u W; (apply put_link_wf || apply put_last_wf); [(done || lia)|done]|].

Lemma default_in_score : in_score DEFAULT_SCORE.
Proof. by unfold in_score, DEFAULT_SCORE. Qed.
Lemma safe_penalize : safe (penalize_steps i) 7 (fun _ => True).
Proof.
  pose proof default_in_score. unfold penalize_steps. eapply (safe_bind _ _ 2 5); [|done].
  eapply safe_mono; [reflexivity| |by apply safe_put_tcp_score]. intros _ _. put_link. put_link. apply safe_now. intros now Hn.
  put_link. apply safe_end. by put_link.
Qed.

Lemma safe_update_link l raw : safe (update_link_steps i l raw) 5 (fun _ => True).
Proof.
  unfold update_link_steps. destruct raw as [raw|]; [|done]. cbv zeta. assert (in_score (clamp 0 1000 raw)) as Hr by (unfold in_score, clamp; lia).
  set (r := clamp _ _ raw) in *. clearbody r. apply safe_now. intros now Hn. load up1 W1. destruct (_ <? 5); [done|].
  apply safe_access; [done|]. intros up0 up2 _ _ W2 _.
  assert (forall b : bool, safe (if b then atom! old := load i (link_score l) in atom! old3 := lift (u32 (old * 3)) in
      atom! raw7 := lift (u32 (r * 7)) in atom! s := lift (u32 (old3 + raw7)) in put i (put_link_score l (s / 10)) else Ret tt) 2 (fun _ => True)) as Hk.
  { intros []; [|done]. load up3 W3. assert (in_score (link_score l up3)) as Ho by (destruct l; apply W3).
    pose proof (blend_score _ _ 3 7 10 Ho Hr ltac:(lia) ltac:(lia) ltac:(lia) ltac:(lia)) as Hb. unfold in_score in Ho, Hr.
    eapply safe_lift; [apply u32_ok; unfold U32_MAX; lia|]. eapply safe_lift; [apply u32_ok; unfold U32_MAX; lia|].
    eapply safe_lift; [apply u32_ok; unfold U32_MAX; lia|]. apply safe_end. by put_link. }
  destruct (_ =? _); cbn [fst snd].
  - destruct (put_last_wf l now up2 ltac:(lia) W2). split_and!; [done|done|apply (Hk true)].
  - split_and!; [done|done|apply (Hk false)].
Qed.

Lemma safe_set_probe_quality q lk : safe (set_probe_quality_steps i q lk) 4 (fun _ => True).
Proof. unfold set_probe_quality_steps. put. apply safe_now. intros now Hn. put_link. apply safe_end. by put. Qed.

Lemma safe_health_result threshold alive : safe (health_result_steps i threshold alive) 8 (fun _ => True).
Proof.
  unfold health_result_steps. destruct alive.
  - apply safe_access; [done|]. intros up0 up _ _ Hw _. cbn [fst snd]. split; [by wf_update|]. split; [by destruct up|].
    destruct (_ <=? _); [|done]. eapply safe_mono; [| |apply safe_put_tcp_score]; [lia|done|by unfold in_score].
  - apply safe_access; [done|]. intros up0 up _ _ Hw [Hf _]. cbn [fst snd]. pose proof (wf_failures _ Hw) as H0.
    rewrite Z.mod_small by (unfold U32_MAX in *; lia). split; [by wf_update|]. split; [by destruct up|].
    eapply safe_lift; [apply u32_ok; lia|]. destruct (_ =? _); [apply safe_penalize|done].
Qed.

(** The byte counters of a connection stay below 2^48, so that those of
    [MAX_CONNECTIONS] of them add up in 64 bits. *)
Definition counters_fit (info : Z -> option (Z * Z)) : Prop :=
  forall fd r s, info fd = Some (r, s) -> 0 <= r /\ 0 <= s /\ r + s < 2 ^ 48.
Lemma counters_sum info (entries : list (Z * Z)) : counters_fit info -> (length entries <= MAX_CONNECTIONS)%nat ->
  exists r s n, sum_infos (map (fun e => info e.2) entries) 0 0 0 = Ok (r, s, n) /\ 0 <= r /\ 0 <= s /\ r + s <= U64_MAX.
Proof.
  intros Hfit Hlen. set (infos := map _ entries).
  assert (Forall (fun o => match o with Some (r, s) => 0 <= r /\ 0 <= s | None => True end) infos) as Hpos.
  { apply Forall_map, Forall_true. intros e. destruct (info e.2) as [[r s]|] eqn:E; [|done]. by destruct (Hfit _ _ _ E) as (? & ? & _). }
  assert (total_bytes fst infos + total_bytes snd infos <= Z.of_nat (length entries) * (2 ^ 48 - 1)) as Hsum.
  { clear Hpos Hlen. induction entries as [|e entries IH]; [done|]. unfold infos in *. cbn [map length]. rewrite !total_bytes_cons.
    assert (default 0 (fst <$> info e.2) + default 0 (snd <$> info e.2) <= 2 ^ 48 - 1); [|lia].
    destruct (info e.2) as [[r s]|] eqn:E; [|done]. destruct (Hfit _ _ _ E) as (? & ? & ?). cbn. lia. }
  destruct (total_bytes_nonneg _ Hpos) as [Hr Hs]. unfold MAX_CONNECTIONS in Hlen.
  destruct (sum_infos_ok infos 0 0 0 Hpos) as (n & E & _); [lia|lia|unfold U64_MAX; lia|]. rewrite !Z.add_0_l in E.
  exists (total_bytes fst infos), (total_bytes snd infos), n. split_and!; [done|done|done|unfold U64_MAX; lia].
Qed.

Lemma safe_score_round held info relative : counters_fit info -> safe (score_round_steps i held info relative) 9 (fun _ => True).
Proof.
  intros Hfit. unfold score_round_steps. apply safe_access; [done|]. intros up0 up _ _ Hw [_ Hlen]. cbv zeta. cbn [fst snd].
  split; [by wf_update|]. split; [by destruct up|].
  destruct (counters_sum info (filter (fun e => held e.1 = true) (Upstream.registry up)) Hfit) as (r & s & n & E & Hr & Hs & Hsum).
  { etrans; [apply length_filter|done]. }
  eapply safe_lift; [exact E|]. clear E. cbv beta iota. destruct (n =? 0); [done|]. apply safe_now. intros now Hn.
  apply safe_access; [done|]. intros u0 up1 _ _ W1 _; clear u0. cbn [fst snd]. split; [by wf_update|]. split; [by destruct up1|].
  apply safe_access; [done|]. intros u0 up2 _ _ W2 _; clear u0. cbn [fst snd]. split; [by wf_update|]. split; [by destruct up2|].
  apply safe_access; [done|]. intros u0 up3 _ _ W3 _; clear u0. cbn [fst snd]. split; [by wf_update|]. split; [by destruct up3|].
  apply safe_access; [done|]. intros u0 up4 _ _ W4 _; clear u0. cbn [fst snd]. split; [by wf_update|]. split; [by destruct up4|].
  destruct (negb _); [done|]. pose proof (wf_recv _ W1). pose proof (wf_sent _ W2).
  eapply safe_lift; [apply u64_ok; unfold sat_sub; lia|]. destruct (_ <=? _); [|done]. destruct relative.
  - load up5 W5. put. apply safe_end. by put.
  - match goal with |- context [calc_throughput_score ?a ?b ?c] => destruct (calc_throughput_ok a b c) as (score & E & Hraw) end.
    eapply safe_lift; [exact E|]. clear E. destruct score as [raw|]; [|done]. specialize (Hraw raw eq_refl). load up5 W5.
    pose proof (wf_tcp _ W5) as Ho. pose proof (blend_score _ _ 5 5 10 Ho Hraw ltac:(lia) ltac:(lia) ltac:(lia) ltac:(lia)) as Hb.
    unfold in_score in Ho, Hraw. eapply safe_lift; [apply u32_ok; unfold U32_MAX; lia|]. eapply safe_lift; [apply u32_ok; unfold U32_MAX; lia|].
    eapply safe_lift; [apply u32_ok; unfold U32_MAX; lia|]. by apply safe_put_tcp_score.
Qed.

Lemma safe_write_relative max_rate_ema max_q_ema rate q : safe (write_relative_steps i max_rate_ema max_q_ema rate q) 5 (fun _ => True).
Proof.
  unfold write_relative_steps. cbv zeta. eapply (safe_bind _ _ 2 3); [|done].
  eapply (safe_mono _ 2 _ (fun _ => True)); [done| |destruct q as [q|]; [|done]; destruct (f64_lt _ _); [|done]; pose proof (relative_range q max_q_ema);
    put_link; apply safe_end; by put_link].
  intros _ _. set (seed := match q with Some _ => _ | None => _ end). assert (in_score seed) as Hseed by (destruct q; apply relative_range). clearbody seed.
  assert (safe (atom! initialized := load i Upstream.tcp_score_initialized in
    if negb initialized && f64_lt f64_zero max_q_ema then put_tcp_score i seed else Ret tt) 3 (fun _ => True)) as Hcold.
  { load up1 W1. destruct (_ && _); [|done]. by apply safe_put_tcp_score. }
  destruct rate as [rate|]; [|exact Hcold]. destruct (f64_lt f64_zero max_rate_ema); [|exact Hcold]. load up1 W1.
  pose proof (wf_tcp _ W1) as Ht. pose proof (relative_range rate max_rate_ema) as Hr.
  pose proof (blend_score _ _ 1 1 2 Ht Hr ltac:(lia) ltac:(lia) ltac:(lia) ltac:(lia)) as Hb. rewrite !Z.mul_1_r in Hb. unfold in_score in Ht, Hr.
  eapply safe_lift; [apply u32_ok; unfold U32_MAX; lia|]. by apply safe_put_tcp_score.
Qed.

Lemma safe_snap now stale_secs : safe (snap_steps now stale_secs i) 4 (fun _ => True).
Proof.
  unfold snap_steps. load up1 W1. assert (forall (b : bool) f, safe (if b then atom! r := load i f in Ret (Some r) else Ret (None : option f64)) 1 (fun _ => True)) as Hopt.
  { intros [] f; [|done]. by load up2 W2. }
  eapply (safe_bind _ _ 1 2); [|done]. eapply safe_mono; [reflexivity| |apply Hopt]. intros r _. cbn beta. load up2 W2.
  eapply (safe_bind _ _ 1 0); [|done]. eapply safe_mono; [reflexivity| |apply Hopt]. done.
Qed.

Definition op_ok (op : ScoreOp) : Prop := match op with ScoreRound _ info _ => counters_fit info | _ => True end.
Lemma safe_update op : op_ok op -> safe (update_steps i op) 9 (fun _ => True).
Proof.
  intros Hop. destruct op; cbn [update_steps op_ok] in *.
  - unfold track_steps. apply safe_end. by put.
  - by apply safe_score_round.
  - eapply safe_mono; [| |apply safe_update_link]; [lia|done].
  - eapply safe_mono; [| |apply safe_update_link]; [lia|done].
  - eapply safe_mono; [| |apply safe_set_probe_quality]; [lia|done].
  - eapply safe_mono; [| |apply safe_penalize]; [lia|done].
  - eapply safe_mono; [| |apply safe_health_result]; [lia|done].
  - eapply safe_mono; [| |apply safe_write_relative]; [lia|done].
Qed.
End Upstream.

Abbreviation size := (length (UpstreamSet.all_items us0)).
Lemma safe_relative_round stale_secs emas : safe (relative_round_steps stale_secs emas) (9 * size + 2) (fun _ => True).
Proof.
  replace (9 * size + 2)%nat with (S (S (size * 4 + (size * 5 + 0)))) by lia. unfold relative_round_steps. apply safe_now. intros now Hn.
  apply safe_read. intros us n _ Hc. assert (length (UpstreamSet.all_items us) = size) as -> by (symmetry; eapply Forall2_length; apply Hc).
  eapply safe_bind; [|reflexivity]. rewrite <- (length_seq size 0) at 2. eapply safe_mono; [reflexivity| |apply (safe_for_each _ (fun _ _ => True))].
  2: { intros i Hi%elem_of_seq. apply safe_snap. lia. }
  intros snaps Hsnaps%Forall2_length. rewrite length_seq in Hsnaps. cbv zeta. eapply safe_bind; [|reflexivity].
  replace size with (length (zip (seq 0 size) snaps)) at 2 by (rewrite length_zip_with, length_seq; lia).
  eapply safe_mono; [reflexivity| |apply (safe_for_each _ (fun _ _ => True))]; [done|].
  intros [i e] Hie. apply safe_write_relative. cbn [fst]. apply list_elem_of_lookup in Hie as [k Hk].
  apply lookup_zip_with_Some in Hk as (a & b & [= <- <-] & Ha & _). apply list_elem_of_lookup_2, elem_of_seq in Ha. lia.
Qed.

(** * Picks *)

Lemma safe_maybe_log : is_Some (UpstreamSet.pick_stats us0) -> safe maybe_log_steps 4 (fun _ => True).
Proof.
  intros Hon. assert (forall n m ps, stats_wf (map Upstream.id (UpstreamSet.all_items us0)) n ps -> n <= m -> stats_wf (map Upstream.id (UpstreamSet.all_items us0)) m ps) as Hmono.
  { intros n m ps (? & ? & ? & gs & ? & ?) Hnm. split_and!; try done. exists gs. split; [done|lia]. }
  unfold maybe_log_steps. apply safe_now. intros now Hn. apply safe_stats; [done|]. intros n ps Hnm Hps. eexists _, ps. split; [done|].
  split; [apply (Hmono n); [done|lia]|]. set (last := PickStats.last_log_secs ps). clearbody last. clear n ps Hnm Hps. cbv zeta.
  assert (forall (k : bool -> prog unit), (forall b, safe (k b) 1 (fun _ => True)) ->
    safe (atom! b := stats (fun ps => Ok (if PickStats.last_log_secs ps =? last then (true, set_last_log ps now) else (false, ps))) in k b) 2 (fun _ => True)) as Hex.
  { intros k Hk. apply safe_stats; [done|]. intros n ps Hnm Hps. destruct (_ =? _); eexists _, _; (split; [done|]); (split; [|apply Hk]);
      apply (Hmono n); try lia; [by apply set_last_log_wf|done]. }
  destruct (_ <? _); [by apply Hex|]. destruct (_ <? 60); [done|]. apply Hex. intros [|]; [|done]. cbn [negb].
  apply safe_stats; [done|]. intros n ps Hnm Hps. eexists _, ps. split; [done|]. split; [apply (Hmono n); [done|lia]|].
  destruct Hps as (_ & _ & _ & gs & Hrel & Hlen). destruct (counts_sum _ _ Hrel) as [Hpos Hsum].
  destruct (counts ps) as [|c cs]; [done|]. eapply safe_lift; [apply sum_u64_ok; [done|lia|lia]|done].
Qed.

Lemma safe_record_pick i : in_range i -> safe (record_pick_steps i) 8 (fun _ => True).
Proof.
  intros Hi. unfold record_pick_steps. apply safe_read. intros us n _ [_ _ _ Hon]. destruct (UpstreamSet.pick_stats us) as [ps|]; [|done]. cbn [negb].
  assert (is_Some (UpstreamSet.pick_stats us0)) as Hon0 by by apply Hon. apply safe_load; [done|]. intros up0 up H0 (Hid & _) W. apply safe_now. intros now Hn.
  apply safe_stats; [done|]. intros m ps' Hm Hps'.
  destruct (record_by_id_ok _ m ps' now (Upstream.id up) Hps') as (ps2 & E & Hps2); [|done|done|].
  { rewrite Hid. apply list_elem_of_fmap. exists up0. split; [done|]. by eapply list_elem_of_lookup_2. }
  eexists _, _. split; [exact E|]. split; [done|]. by apply safe_maybe_log.
Qed.
Lemma safe_choose group i : in_range i -> safe (choose_steps group i) 10 (fun o => o = Some i).
Proof.
  intros Hi. unfold choose_steps. load up W. apply safe_sticky. eapply (safe_bind _ _ 8 0); [|done].
  eapply safe_mono; [reflexivity| |by apply safe_record_pick]. done.
Qed.

(** Scores that were read at different times still have squares to draw from. *)
Lemma squares_total scores : Forall (fun e => 1 <= e <= 10000000) scores ->
  squares scores = Ok (map (fun e => e * e) scores) /\ zsum (map (fun e => e * e) scores) <= 100000000000000 * Z.of_nat (length scores) /\
  Forall (fun w => 0 <= w) (map (fun e => e * e) scores) /\ (scores <> [] -> 0 < zsum (map (fun e => e * e) scores)).
Proof.
  induction 1 as [|e scores He _ (E & Hb & Hp & _)]; [done|]. cbn [squares map length]. rewrite zsum_cons. pose proof (zsum_nonneg _ Hp).
  rewrite u64_ok by (unfold U64_MAX; nia). cbn [res_bind]. rewrite E. split_and!; [done|nia|constructor; [nia|done]|nia].
Qed.
Lemma reselect_total rand items scores : draw_lawful rand -> items <> [] -> Z.of_nat (length items) <= 184467 ->
  length scores = length items -> Forall (fun e => 1 <= e <= 10000000) scores -> exists i, reselect rand items scores = Ok i /\ i ∈ items.
Proof.
  intros [_ Hr] Hne Hlen Hls Hs. unfold reselect. destruct (squares_total scores Hs) as (-> & Hb & Hp & Hpos). cbn [res_bind].
  assert (scores <> []) as Hne2 by (by intros ->; destruct items). specialize (Hpos Hne2).
  rewrite sum_u64_ok by first [done|lia|unfold U64_MAX; lia]. cbn [res_bind]. rewrite Z.add_0_l, (proj2 (Z.eqb_neq _ _)) by lia.
  destruct (weighted_index_some (Draw.u64 rand _) _ Hp (Hr _ Hpos)) as (k & -> & Hk). rewrite length_map, Hls in Hk.
  apply lookup_lt_is_Some_2 in Hk as [i Hik]. rewrite Hik. exists i. split; [done|]. by eapply list_elem_of_lookup_2.
Qed.

Section Candidates.
Context (rand : draw) (items : list nat) (group : bytes).
Hypothesis Hr : draw_lawful rand.
Hypothesis Hi : Forall (fun i => in_range i) items.
Hypothesis Hlen : Z.of_nat (length items) <= 184467.

Lemma safe_scores : safe (for_each effective_score_steps items) (length items * 12) (fun scores => length scores = length items /\ Forall (fun e => 1 <= e <= 10000000) scores).
Proof.
  eapply safe_mono; [reflexivity| |apply (safe_for_each _ (fun _ e => 1 <= e <= 10000000))].
  - intros scores H. split; [by apply Forall2_length in H|]. clear - H. induction H; by constructor.
  - intros i Hin. rewrite Forall_forall in Hi. by apply safe_effective_score, Hi.
Qed.
Lemma safe_again : items <> [] ->
  safe (atom! i := reselect_steps rand items in choose_steps group i) (length items * 12 + 10) (fun o => exists i, o = Some i /\ i ∈ items).
Proof.
  intros Hne. eapply safe_bind; [|reflexivity]. unfold reselect_steps. eapply (safe_bind _ _ _ 0); [|by rewrite Nat.add_0_r].
  eapply safe_mono; [reflexivity| |apply safe_scores]. intros scores [Hls Hs].
  destruct (reselect_total rand items scores Hr Hne Hlen Hls Hs) as (i & -> & Hin). cbn [lift safe]. rewrite Forall_forall in Hi.
  eapply safe_mono; [reflexivity| |by apply safe_choose, Hi]. intros o ->. by exists i.
Qed.

(** A pick among candidates reads each of them a fixed number of times. *)
Lemma safe_pick_weighted : safe (pick_weighted_steps rand items group) (25 * length items + 38) (fun o => match o with Some i => i ∈ items | None => items = [] end).
Proof.
  pose proof Hi as Hi'. rewrite Forall_forall in Hi'. pose proof safe_scores as Hscores. pose proof safe_again as Hag. destruct (decide (items = [])) as [->|Hne]; [done|].
  destruct items as [|i0 [|i1 rest]] eqn:Eitems; [done| |]; unfold pick_weighted_steps.
  { eapply safe_mono; [| |apply safe_choose, Hi'; by left]; [cbn; lia|]. intros o ->. by left. }
  rewrite <- Eitems in *. set (m := length items) in *. cbv zeta.
  replace (25 * m + 38)%nat with (m * 1 + (m * 12 + (12 + (1 + (1 + (12 + (1 + (1 + (m * 12 + 10)))))))))%nat by lia.
  eapply safe_bind; [|reflexivity]. eapply safe_mono; [reflexivity| |apply (safe_for_each _ (fun _ _ => True))].
  2: { intros i Hin. assert (in_range i) by by apply Hi'. apply safe_end. by load up W. }
  intros flags Hflags%Forall2_length. set (uninit := map fst _). assert (forall i, i ∈ uninit -> i ∈ items) as Hun.
  { intros i ([j b] & -> & [_ Hj]%list_elem_of_filter)%list_elem_of_fmap. apply list_elem_of_lookup in Hj as [k Hk].
    apply lookup_zip_with_Some in Hk as (x & y & [= <- <-] & Hx & _). by eapply list_elem_of_lookup_2. }
  destruct (negb _ && _) eqn:Hx.
  { apply andb_true_iff in Hx as [Hx _]. apply negb_true_iff, bool_decide_eq_false in Hx.
    assert (exists i, uninit !! Z.to_nat (Draw.usize rand (Z.of_nat (length uninit))) = Some i) as [i Hui].
    { assert (0 < length uninit)%nat by (destruct uninit; [done|cbn; lia]). apply lookup_lt_is_Some_2. destruct Hr as [Hr' _].
      specialize (Hr' (Z.of_nat (length uninit)) ltac:(lia)). lia. }
    rewrite Hui. cbn [or_panic lift bind]. assert (i ∈ items) as Hin by (apply Hun; by eapply list_elem_of_lookup_2).
    eapply safe_mono; [| |by apply safe_choose, Hi']; [lia|]. by intros o ->. }
  clear Hx. eapply safe_bind; [|reflexivity]. eapply safe_mono; [reflexivity| |exact Hscores]. intros scores [Hls Hs].
  destruct (max_by_key_spec (zip items scores) None) as ([best e] & Eb & Hb & _).
  { left. intros Hz. apply (f_equal length) in Hz. rewrite length_zip_with, Hls in Hz. unfold m in Hz. rewrite Eitems in Hz. cbn in Hz. lia. }
  fold (max_by_key (zip items scores)) in Eb. rewrite Eb. destruct Hb as [Hb|?]; [|done].
  assert (best ∈ items) as Hbest.
  { apply list_elem_of_lookup in Hb as [k Hk]. apply lookup_zip_with_Some in Hk as (x & y & [= <- <-] & Hx' & _). by eapply list_elem_of_lookup_2. }
  assert (in_range best) as Hbr by by apply Hi'.
  assert (forall d, (m * 12 + 10 <= d)%nat -> safe (atom! i := reselect_steps rand items in choose_steps group i) d
    (fun o => match o with Some i => i ∈ items | None => items = [] end)) as Hagain.
  { intros d Hd. eapply safe_mono; [exact Hd| |by apply Hag]. by intros o (i & -> & Hin). }
  eapply safe_bind; [|reflexivity]. eapply safe_mono; [reflexivity| |by apply safe_effective_score]. intros best_eff _. cbn beta.
  apply safe_read. intros us n Hw Hc. rewrite (sc_tolerance _ _ Hc). pose proof (ws_tolerance _ _ Hw) as Htol. rewrite (sc_tolerance _ _ Hc) in Htol. clear us n Hw Hc.
  eapply (safe_bind _ _ 1); [|reflexivity].
  eapply (safe_mono _ 1 1 (fun o => forall cur, o = Some cur -> cur ∈ items)); [done| |].
  2: { destruct (0 <? _); [|done]. apply safe_end, safe_read. intros us n _ _. cbn. by intros cur (Hcur & _)%sticky_Some. }
  intros [cur|] Hcur; cbn beta; [|apply Hagain; lia]. specialize (Hcur cur eq_refl). assert (in_range cur) as Hcr by by apply Hi'.
  eapply safe_bind; [|reflexivity]. eapply safe_mono; [reflexivity| |by apply safe_effective_score]. intros cur_eff He. cbn beta.
  load up1 W1. load up2 W2. assert (forall switch : bool, safe (if switch then atom! i := reselect_steps rand items in choose_steps group i
    else atom! _ := record_pick_steps cur in Ret (Some cur)) (m * 12 + 10) (fun o => match o with Some i => i ∈ items | None => items = [] end)) as Hsw.
  { intros []; [by apply Hagain|]. eapply (safe_bind _ _ 8 0); [|lia]. eapply safe_mono; [reflexivity| |by apply safe_record_pick]. done. }
  case_bool_decide; [apply (Hsw false)|]. rewrite u64_ok by (unfold U64_MAX, U32_MAX in *; lia). apply Hsw.
Qed.
End Candidates.

(** The members of a group that a pick may answer. *)
Definition eligible (group : bytes) (exclude : gset bytes) (i : nat) : Prop :=
  i ∈ members group /\ exists up, UpstreamSet.all_items us0 !! i = Some up /\ Upstream.id up ∉ exclude.
Definition pick_answer (group : bytes) (exclude : gset bytes) (o : option nat) : Prop :=
  match o with Some i => eligible group exclude i | None => forall i, ~ eligible group exclude i end.

Lemma excluded_same us exclude i : same_config us0 us -> in_range i ->
  excluded us exclude i = false <-> exists up, UpstreamSet.all_items us0 !! i = Some up /\ Upstream.id up ∉ exclude.
Proof.
  intros Hc [up0 H0]%lookup_lt_is_Some_2. destruct (Forall2_lookup_l _ _ _ _ _ (sc_items _ _ Hc) H0) as (up & Hup & Hid & _).
  unfold excluded. rewrite Hup, bool_decide_eq_false, Hid, H0. split; [by exists up0|]. by intros (? & [= <-] & ?).
Qed.

Lemma safe_pick rand group exclude : draw_lawful rand ->
  safe (pick_excluding_steps rand group exclude) (25 * length (members group) + 40) (pick_answer group exclude).
Proof.
  intros Hr. replace (25 * length (members group) + 40)%nat with (S (S (25 * length (members group) + 38))) by lia.
  unfold pick_excluding_steps. apply safe_read. intros us n Hw Hc. rewrite (sc_groups _ _ Hc).
  destruct (UpstreamSet.groups us0 !! group) as [items|] eqn:Eg.
  2: { intros i [Hin _]. rewrite Eg in Hin. by apply elem_of_nil in Hin. }
  assert (Forall (fun i => in_range i) items /\ Z.of_nat (length items) <= 184467) as [Hi Hlen].
  { rewrite <- (sc_groups _ _ Hc) in Eg. rewrite (Forall2_length _ _ _ (sc_items _ _ Hc)). by apply (ws_groups _ _ Hw group). }
  clear us n Hw Hc. cbn [default from_option]. apply safe_read. intros us n Hw Hc. set (candidates := filter _ items).
  rewrite Forall_forall in Hi. assert (forall i, i ∈ candidates <-> eligible group exclude i) as Hel.
  { intros i. unfold candidates, eligible. rewrite list_elem_of_filter, Eg. cbn [default from_option id].
    split; intros [H1 H2].
    - split; [done|]. by apply (excluded_same us exclude i Hc (Hi i H2)).
    - split; [|done]. by apply (excluded_same us exclude i Hc (Hi i H1)). }
  pose proof (length_filter (fun i => excluded us exclude i = false) items) as Hle. fold candidates in Hle.
  assert (safe (pick_weighted_steps rand candidates group) (25 * length items + 38) (pick_answer group exclude)) as Hp; [|clear -Hp; clearbody candidates; destruct candidates; exact Hp].
  eapply (safe_mono _ (25 * length candidates + 38)); [lia| |apply safe_pick_weighted].
  - intros [i|]; cbn; [apply Hel|]. intros Hnil i Hi2%Hel. rewrite Hnil in Hi2. by apply elem_of_nil in Hi2.
  - done.
  - apply Forall_forall. intros i [_ Hin]%list_elem_of_filter. by apply Hi.
  - lia.
Qed.

(** * Every task *)

Definition task_ok (t : Task) : Prop :=
  match t with Pick rand _ _ => draw_lawful rand | Update i op => in_range i /\ op_ok op | RelativeRound _ _ => True end.
(** The greatest number of accesses of a task. *)
Definition task_bound (t : Task) : nat :=
  match t with
  | Pick _ group _ => 25 * length (members group) + 40
  | Update _ _ => 9
  | RelativeRound _ _ => 9 * size + 2
  end.
Definition task_answer (t : Task) (o : Outcome) : Prop :=
  match t, o with
  | Pick _ group exclude, Picked o => pick_answer group exclude o
  | (Update _ _ | RelativeRound _ _), Updated => True
  | _, _ => False
  end.

Lemma safe_task t : task_ok t -> safe (task_steps t) (task_bound t) (task_answer t).
Proof.
  destruct t as [rand group exclude|i op|stale_secs emas]; cbn [task_ok task_steps task_bound]; intros Ht; eapply (safe_bind _ _ _ 0); try by rewrite Nat.add_0_r.
  - eapply safe_mono; [reflexivity| |by apply safe_pick]. done.
  - destruct Ht as [Hi Hop]. eapply safe_mono; [reflexivity| |by apply safe_update]. done.
  - eapply safe_mono; [reflexivity| |apply safe_relative_round]. done.
Qed.

(** * Every interleaving *)

Definition event_ok (e : Event) : Prop := match e with SetClock now => 0 <= now <= U64_MAX | Run _ => True end.
(** The limits hold before each event. *)
Fixpoint within (evs : list Event) (st : Pool * Shared) : Prop :=
  match evs with [] => True | e :: evs => limits st.2 /\ within evs (on_event st e) end.
(** The times that thread [t] was scheduled. *)
Definition runs (t : nat) (evs : list Event) : nat :=
  length (List.filter (fun e => match e with Run u => Nat.eqb t u | SetClock _ => false end) evs).

(** Thread [p] of task [t], after [made] runs. *)
Definition thread_ok (t : Task) (made : nat) (p : prog Outcome) : Prop :=
  exists d, safe p d (task_answer t) /\ match p with Ret _ => True | _ => (made + d <= task_bound t)%nat end.
Lemma thread_step t made {B} (f : Shared -> B * Shared) k n s : thread_ok t made (Access f k) -> n < U64_MAX -> inv n s -> limits s ->
  inv (n + 1) (f s).2 /\ thread_ok t (S made) (k (f s).1).
Proof.
  intros ([|d] & Hw & Hd) Hn Hi Hl; [done|]. cbn in Hw. destruct (Hw n s Hn Hi Hl) as [Hi' Hk]. split; [done|].
  exists d. split; [done|]. destruct (k _); [done|lia|lia].
Qed.
End Safe.

Lemma runs_cons t e evs : runs t (e :: evs) = ((match e with Run u => if Nat.eqb t u then 1 else 0 | SetClock _ => 0 end) + runs t evs)%nat.
Proof. unfold runs. cbn. destruct e as [u|]; [by destruct (Nat.eqb t u)|done]. Qed.

Lemma run_ok us0 tasks evs : forall n made pool s,
  Forall event_ok evs -> n + Z.of_nat (length evs) < U64_MAX -> inv us0 n s ->
  length pool = length tasks ->
  (forall t task p, tasks !! t = Some task -> pool !! t = Some p -> thread_ok us0 task (made t) p) -> within evs (pool, s) ->
  inv us0 (n + Z.of_nat (length evs)) (run evs (pool, s)).2 /\ length (run evs (pool, s)).1 = length tasks /\
  forall t task p, tasks !! t = Some task -> (run evs (pool, s)).1 !! t = Some p -> thread_ok us0 task (made t + runs t evs) p.
Proof.
  induction evs as [|e evs IH]; intros n made pool s He Hn Hi Hlen Hok Hw.
  { cbn. rewrite Z.add_0_r. split_and!; [done|done|]. intros t task p Ht Hp. rewrite Nat.add_0_r. by apply (Hok t). }
  apply Forall_cons in He as [He Hes]. cbn [length] in Hn. destruct Hw as [Hl Hw]. cbn [run foldl length].
  assert (forall made' pool' s', on_event (pool, s) e = (pool', s') -> inv us0 (n + 1) s' -> length pool' = length tasks ->
    (forall t, made' t = (made t + match e with Run u => if Nat.eqb t u then 1 else 0 | SetClock _ => 0 end)%nat) ->
    (forall t task p, tasks !! t = Some task -> pool' !! t = Some p -> thread_ok us0 task (made' t) p) ->
    inv us0 (n + Z.of_nat (S (length evs))) (foldl on_event (on_event (pool, s) e) evs).2 /\
    length (foldl on_event (on_event (pool, s) e) evs).1 = length tasks /\
    forall t task p, tasks !! t = Some task -> (foldl on_event (on_event (pool, s) e) evs).1 !! t = Some p ->
      thread_ok us0 task (made t + runs t (e :: evs)) p) as Hnext.
  { intros made' pool' s' E Hi' Hlen' Hmade Hok'. rewrite E in *.
    destruct (IH (n + 1) made' pool' s' Hes ltac:(lia) Hi' Hlen' Hok' Hw) as (Hinv & Hl' & Hth).
    split_and!; [|done|].
    - by replace (n + Z.of_nat (S (length evs))) with (n + 1 + Z.of_nat (length evs)) by lia.
    - intros t task p Ht Hp. rewrite runs_cons, Nat.add_assoc, <- Hmade. by apply Hth. }
  destruct e as [u|now]; cbn [on_event] in *.
  2: { apply (Hnext made pool {| set := set s; clock := now |}); [done| |done|intros; lia|done].
       apply inv_next. destruct Hi as (? & ? & _). by split_and!; [..|apply He|apply He]. }
  assert (forall task p, thread_ok us0 task (made u) p -> match p with Access _ _ => False | _ => True end -> thread_ok us0 task (made u + 1) p) as Hsame.
  { intros task [a| |] (d & Hd & Hb) Hne; [by exists d|done|done]. }
  destruct (pool !! u) as [p|] eqn:Eu.
  2: { apply (Hnext (fun t => (made t + if Nat.eqb t u then 1 else 0)%nat) pool s); [done|by apply inv_next|done|done|].
       intros t task p Ht Hp. destruct (Nat.eqb_spec t u) as [->|]; [congruence|]. rewrite Nat.add_0_r. by eapply Hok. }
  destruct (lookup_lt_is_Some_2 tasks u) as [task Htask]; [rewrite <- Hlen; by eapply lookup_lt_Some|].
  pose proof (Hok u task p Htask Eu) as Hp. destruct p as [a| |B f k].
  1,2: apply (Hnext (fun t => (made t + if Nat.eqb t u then 1 else 0)%nat) pool s); [done|by apply inv_next|done|done|];
    intros t task' p Ht Hp'; destruct (Nat.eqb_spec t u) as [->|];
    [rewrite Htask in Ht; injection Ht as <-; rewrite Eu in Hp'; injection Hp' as <-; by apply Hsame|rewrite Nat.add_0_r; by eapply Hok].
  destruct (thread_step us0 task (made u) f k n s Hp ltac:(lia) Hi Hl) as [Hi' Hk].
  destruct (f s) as [b s'] eqn:Ef. cbn [fst snd] in *.
  apply (Hnext (fun t => (made t + if Nat.eqb t u then 1 else 0)%nat) (<[u := k b]> pool) s'); [done|done|by rewrite length_insert|done|].
  intros t task' p Ht Hp'. destruct (Nat.eqb_spec t u) as [->|Hne].
  - rewrite list_lookup_insert_eq in Hp' by (by eapply lookup_lt_Some). injection Hp' as <-. rewrite Htask in Ht. injection Ht as <-.
    by rewrite Nat.add_1_r.
  - rewrite list_lookup_insert_ne in Hp' by done. rewrite Nat.add_0_r. by eapply Hok.
Qed.

(** C22: tasks that pick upstreams and tasks that keep scores share one set,
    interleaved between any two of their atomic accesses and under any clock.
    As long as the failed probes of an upstream and its connections stay within
    [limits], no task panics or overflows, whatever values it reads that other
    tasks are half way through changing; each task ends within a fixed number
    of its own accesses, whatever the others do; a pick that ends has answered
    a member of its group that is not excluded, or nothing when there is none;
    and after every access the set is well-formed, with the same upstreams. *)
Theorem interleaved_tasks_safe us now tasks evs n :
  wf_set n us -> 0 <= now <= U64_MAX -> Forall (task_ok us) tasks -> Forall event_ok evs -> n + Z.of_nat (length evs) < U64_MAX ->
  let start := (map task_steps tasks, {| set := us; clock := now |}) in
  within evs start ->
  let (pool, s) := run evs start in
  wf_set (n + Z.of_nat (length evs)) (set s) /\ same_config us (set s) /\
  forall t task, tasks !! t = Some task ->
    match pool !! t with
    | Some (Ret o) => task_answer us task o
    | Some (Access _ _) => (runs t evs < task_bound us task)%nat
    | Some Fault | None => False
    end.
Proof.
  intros Hwf Hnow Hok He Hn start Hw. destruct (run_ok us tasks evs n (fun _ => 0%nat) (map task_steps tasks) {| set := us; clock := now |}) as (Hi & Hlen & Hth); try done.
  - split_and!; [done|apply same_config_refl|apply Hnow|apply Hnow].
  - apply length_map.
  - intros t task p Ht Hp. rewrite list_lookup_fmap, Ht in Hp. injection Hp as <-. exists (task_bound us task).
    split; [|by destruct (task_steps task)]. apply safe_task. by eapply Forall_lookup_1.
  - fold start in Hi, Hlen, Hth. destruct (run evs start) as [pool s]. cbn [fst snd] in *. destruct Hi as (? & ? & _). split_and!; [done|done|].
    intros t task Ht. destruct (lookup_lt_is_Some_2 pool t) as [p Hp]; [rewrite Hlen; by eapply lookup_lt_Some|]. rewrite Hp.
    destruct (Hth t task p Ht Hp) as (d & Hd & Hb). destruct p as [o| |B f k]; [done|done|]. destruct d as [|d]; [done|lia].
Qed.

(** * Examples *)

Definition limits_b (s : Shared) : bool :=
  forallb (fun up => (Upstream.health_failures up <? U32_MAX) && Nat.leb (length (Upstream.registry up)) MAX_CONNECTIONS) (UpstreamSet.all_items (set s)).
Fixpoint within_b (evs : list Event) (st : Pool * Shared) : bool :=
  match evs with [] => true | e :: evs => limits_b st.2 && within_b evs (on_event st e) end.
Lemma within_b_ok evs st : within_b evs st = true -> within evs st.
Proof.
  revert st. induction evs as [|e evs IH]; intros st; [done|]. cbn. intros [Hl Hw]%andb_true_iff. split; [|by apply IH].
  apply Forall_forall. intros up Hup. unfold limits_b in Hl. rewrite forallb_forall in Hl. apply list_elem_of_In in Hup.
  apply Hl, andb_true_iff in Hup as [H1 H2]. split; [lia|]. by apply Nat.leb_le in H2.
Qed.

(** Both upstreams carried traffic, the first one at the highest score. *)
Definition busy_items : list upstream :=
  map (fun up => { up with Upstream.registry := [(1, 7)]; Upstream.tcp_score := 1000; Upstream.tcp_score_initialized := true; Upstream.tcp_info_initialized := true })
    example_items.
Definition busy_set : upstreams :=
  match upstream_set_new busy_items 0 40 180 60 with Ok us => us | _ => {| UpstreamSet.groups := ∅; UpstreamSet.all_items := []; UpstreamSet.current := ∅; UpstreamSet.tolerance := 0; UpstreamSet.pick_stats := None |} end.
Definition busy_round : ScoreOp := ScoreRound (fun _ => true) (fun fd => if fd =? 7 then Some (50000000, 0) else None) false.

Lemma busy_set_wf : wf_set 0 busy_set.
Proof.
  destruct (upstream_set_new_exact example_items 0 40 180 60 example_items_new example_items_ids example_items_groups)
    as [[? _]|(us & _ & E & Hwf & _)]; [by unfold U32_MAX|done|done|].
  destruct Hwf. split; [|exact example_items_ids| |by cbn; unfold U32_MAX|].
  - vm_compute. repeat constructor; try discriminate; done.
  - intros g items Hg. injection E as <-. by apply (ws_groups g).
  - intros ps Hps. injection E as <-. by apply ws_stats.
Qed.

Definition busy_tasks : list Task :=
  [Pick example_draw (bs "default") {[bs "a"]}; Update 0 busy_round; Update 0 Penalize; RelativeRound 180 (f64_zero, f64_zero)].
Definition busy_events : list Event := concat (repeat [Run 0; Run 1; Run 2; Run 3; SetClock 90] 45).

Lemma interleaved_tasks_safe_witness :
  let (pool, s) := run busy_events (map task_steps busy_tasks, {| set := busy_set; clock := 100 |}) in
  wf_set 225 (set s) /\ pool !! 0%nat = Some (Ret (Picked (Some 1%nat))).
Proof.
  pose proof (interleaved_tasks_safe busy_set 100 busy_tasks busy_events 0 busy_set_wf) as H.
  specialize (H ltac:(unfold U64_MAX; lia)).
  assert (Forall (task_ok busy_set) busy_tasks) as Hok.
  { assert (draw_lawful example_draw) by (split; intros m Hm; cbn; lia).
    assert (0 < length (UpstreamSet.all_items busy_set))%nat as Hlen by (apply Nat.ltb_lt; vm_compute; reflexivity).
    assert (counters_fit (fun fd => if fd =? 7 then Some (50000000, 0) else None)) as Hfit by (intros c r s; destruct (c =? 7); intros [= <- <-]; lia).
    apply Forall_cons; split; [done|]. apply Forall_cons; split; [exact (conj Hlen Hfit)|].
    apply Forall_cons; split; [exact (conj Hlen I)|]. apply Forall_cons; split; [exact I|]. apply Forall_nil_2. }
  specialize (H Hok). assert (Forall event_ok busy_events) as He.
  { assert (Forall event_ok [Run 0; Run 1; Run 2; Run 3; SetClock 90]) as Hround.
    { do 4 (apply Forall_cons; split; [exact I|]). apply Forall_cons; split; [|apply Forall_nil_2]. split; vm_compute; discriminate. }
    unfold busy_events. apply Forall_concat, Forall_forall. intros l Hl. apply list_elem_of_In, repeat_spec in Hl as ->. exact Hround. }
  specialize (H He ltac:(vm_compute; reflexivity) ltac:(apply within_b_ok; vm_compute; reflexivity)). cbv zeta in H.
  assert ((run busy_events (map task_steps busy_tasks, {| set := busy_set; clock := 100 |})).1 !! 0%nat = Some (Ret (Picked (Some 1%nat)))) as Hp.
  { vm_compute. reflexivity. }
  destruct (run _ _) as [pool s]. by destruct H as (H & _).
Defined.

(** A penalty can be lost: a scoring round that has read the score before the
    penalty writes its blend after it, so that an upstream which a failed
    connection has just penalised keeps a high score. Neither order of the
    whole operations leaves it there. *)
Definition tcp_score_of (s : Shared) : option Z := Upstream.tcp_score <$> UpstreamSet.all_items (set s) !! 0%nat.
Definition race (evs : list nat) : option Z :=
  tcp_score_of (run (map Run evs) (map task_steps [Update 0 busy_round; Update 0 Penalize], {| set := busy_set; clock := 100 |})).2.
Example penalty_lost :
  race (repeat 0%nat 7 ++ repeat 1%nat 7 ++ repeat 0%nat 2) = Some 591 /\
  race (repeat 0%nat 9 ++ repeat 1%nat 7) = Some 75 /\ race (repeat 1%nat 7 ++ repeat 0%nat 9) = Some 129.
Proof. by vm_compute. Qed.
