(* ===== verification/Udp.v ===== *)
(** The data of UDP sessions, [src/src/udp/session.rs] and the parts of
    [src/src/udp/mod.rs] that decide where a datagram goes: keys and
    specifications, the outbound of a session, and the address a reply seems
    to come from. *)

From Stdlib Require Import Strings.String.
From S2P Require Import Prelude Bytes Config Socks5.
#[local] Open Scope Z_scope.

#[global] Program Instance socket_addr_countable : Countable SocketAddr :=
  inj_countable' (fun a => (sa_ip a, sa_port a)) (fun p => {| sa_ip := p.1; sa_port := p.2 |}) _.
Next Obligation. by intros []. Qed.

Module UdpSessionKind.
Inductive UdpSessionKind := Tproxy | PortForward (listen_addr : SocketAddr).
End UdpSessionKind.
#[global] Instance udp_session_kind_eq_decision : EqDecision UdpSessionKind.UdpSessionKind.
Proof. solve_decision. Defined.
#[global] Program Instance udp_session_kind_countable : Countable UdpSessionKind.UdpSessionKind :=
  inj_countable' (fun k => match k with UdpSessionKind.Tproxy => None | UdpSessionKind.PortForward a => Some a end)
    (fun o => match o with None => UdpSessionKind.Tproxy | Some a => UdpSessionKind.PortForward a end) _.
Next Obligation. by intros []. Qed.

Module UdpSessionKey.
Record UdpSessionKey := { kind : UdpSessionKind.UdpSessionKind; client_addr : SocketAddr; target_addr : SocketAddr }.
End UdpSessionKey.
Abbreviation session_key := UdpSessionKey.UdpSessionKey.
#[global] Instance udp_session_key_eq_decision : EqDecision session_key.
Proof. solve_decision. Defined.
#[global] Program Instance udp_session_key_countable : Countable session_key :=
  inj_countable' (fun k => (UdpSessionKey.kind k, UdpSessionKey.client_addr k, UdpSessionKey.target_addr k))
    (fun p => {| UdpSessionKey.kind := p.1.1; UdpSessionKey.client_addr := p.1.2; UdpSessionKey.target_addr := p.2 |}) _.
Next Obligation. by intros []. Qed.

(** The listening socket of a forwarded port is known by a number. *)
Module UdpReplyPath.
Inductive UdpReplyPath := Tproxy | PortForward (listen_sock : Z).
End UdpReplyPath.
Inductive UdpRoutingMode := Auto | ForceSocks5.

Module UdpSessionSpec.
Record UdpSessionSpec := {
  key : session_key;
  routing : UdpRoutingMode;
  reply_path : UdpReplyPath.UdpReplyPath;
  sniffed_host : option bytes;
}.
End UdpSessionSpec.
Abbreviation session_spec := UdpSessionSpec.UdpSessionSpec.

Definition for_tproxy (client_addr orig_dst : SocketAddr) : session_spec := {|
  UdpSessionSpec.key := {| UdpSessionKey.kind := UdpSessionKind.Tproxy;
    UdpSessionKey.client_addr := client_addr; UdpSessionKey.target_addr := orig_dst |};
  UdpSessionSpec.routing := Auto;
  UdpSessionSpec.reply_path := UdpReplyPath.Tproxy;
  UdpSessionSpec.sniffed_host := None;
|}.

Definition for_port_forward (listen_addr client_addr remote : SocketAddr) (listen_sock : Z) : session_spec := {|
  UdpSessionSpec.key := {| UdpSessionKey.kind := UdpSessionKind.PortForward listen_addr;
    UdpSessionKey.client_addr := client_addr; UdpSessionKey.target_addr := remote |};
  UdpSessionSpec.routing := ForceSocks5;
  UdpSessionSpec.reply_path := UdpReplyPath.PortForward listen_sock;
  UdpSessionSpec.sniffed_host := None;
|}.

Definition with_host (spec : session_spec) (host : bytes) : session_spec := {|
  UdpSessionSpec.key := UdpSessionSpec.key spec;
  UdpSessionSpec.routing := UdpSessionSpec.routing spec;
  UdpSessionSpec.reply_path := UdpSessionSpec.reply_path spec;
  UdpSessionSpec.sniffed_host := Some host;
|}.

(** The outbound of a session: a socket connected to the target, or a SOCKS5
    association, which lives as long as its control connection: a socket
    connected to the relay. *)
Module Socks5UdpAssoc.
Record Socks5UdpAssoc := { control : conn; relay_addr : SocketAddr; udp_socket : nat }.
End Socks5UdpAssoc.
Module UdpOutbound.
Inductive UdpOutbound := Direct (socket : nat) | Socks5 (assoc : Socks5UdpAssoc.Socks5UdpAssoc).
End UdpOutbound.
Definition is_direct (out : UdpOutbound.UdpOutbound) : bool := match out with UdpOutbound.Direct _ => true | UdpOutbound.Socks5 _ => false end.

(** [handle_new_udp_sniff]: an address that goes direct is not sniffed;
    [should_direct] is that of [AppState]. *)
Definition target_ip_direct (should_direct : IpAddr -> option bytes -> bool) (spec : session_spec) : bool :=
  match UdpSessionSpec.routing spec with
  | Auto => should_direct (sa_ip (UdpSessionKey.target_addr (UdpSessionSpec.key spec))) None
  | ForceSocks5 => false
  end.

(** The source of a reply from a SOCKS5 relay, as the client sees it. *)
Definition client_visible_src (spec : session_spec) (remote_src : SocketAddr) : SocketAddr :=
  match UdpSessionSpec.reply_path spec with
  | UdpReplyPath.Tproxy => UdpSessionKey.target_addr (UdpSessionSpec.key spec)
  | UdpReplyPath.PortForward _ => remote_src
  end.

(** [connected_udp_recv_result]: an empty or oversized datagram is skipped. *)
Definition connected_udp_recv_result {E} (is_emsgsize : E -> bool) (r : E + Z) : res E (option Z) :=
  match r with
  | inr 0 => Ok None
  | inr n => Ok (Some n)
  | inl e => if is_emsgsize e then Ok None else Err e
  end.
