(* ===== verification/Pending.v ===== *)
(** Datagrams that wait for a host name, [src/src/udp/pending.rs]. One loop of
    [udp/mod.rs] is a sequence of steps: the packets of a key are handled one
    after the other under its lock. What leaves the module is a log of the
    datagrams handed to sessions. *)

From Stdlib Require Import Strings.String.
From S2P Require Import Prelude Bytes Sniff Quic QuicReassembly QuicPackets Config TcpSniff Udp.
#[local] Open Scope Z_scope.

Definition UDP_SNIFF_NO_CLUE_LIMIT : Z := 2.
Definition UDP_SNIFF_MAX_CACHED_DATAGRAMS : Z := 8.
Definition UDP_SNIFF_MAX_CACHED_BYTES : Z := 64 * 1024.
Definition UDP_SNIFF_MAX_PENDING_SESSIONS : Z := 4096.

Module PendingReplayBuffer.
Record PendingReplayBuffer := { datagrams : list bytes; cached_bytes : Z }.
End PendingReplayBuffer.
Abbreviation replay_buffer := PendingReplayBuffer.PendingReplayBuffer.

Definition replay_new (first_payload : bytes) : replay_buffer :=
  {| PendingReplayBuffer.datagrams := [first_payload]; PendingReplayBuffer.cached_bytes := zlen first_payload |}.

(** [push_datagram]: [None] is [false], the buffer unchanged. *)
Definition push_datagram (buf : replay_buffer) (payload : bytes) : option replay_buffer :=
  let next_bytes := usize_sat_add (PendingReplayBuffer.cached_bytes buf) (zlen payload) in
  if (UDP_SNIFF_MAX_CACHED_DATAGRAMS <=? Z.of_nat (length (PendingReplayBuffer.datagrams buf)))
     || (UDP_SNIFF_MAX_CACHED_BYTES <? next_bytes) then None
  else Some {| PendingReplayBuffer.datagrams := PendingReplayBuffer.datagrams buf ++ [payload];
               PendingReplayBuffer.cached_bytes := next_bytes |}.

(** [dyn UdpSnifferSessionEngine]: a session of an engine, fed datagrams. *)
Class UdpSnifferSession (S : Type) := {
  new_session : UdpSnifferEngine -> S;
  feed : S -> bytes -> pure_res UdpSniffOutcome.UdpSniffOutcome * S;
}.
(** What the pending table relies on: a feed returns. *)
Class UdpSnifferLaws (S : Type) `{!UdpSnifferSession S} := {
  session_ok : S -> Prop;
  new_session_ok e : session_ok (new_session e);
  feed_ok s payload : session_ok s -> returns (fst (feed s payload)) /\ session_ok (snd (feed s payload));
}.

#[global] Instance quic_session (C : QuicCrypto) : UdpSnifferSession QuicCryptoReassembly := {|
  new_session := fun 'QuicSniUdpSniffer => reassembly_new;
  feed := quic_feed C;
|}.

Module PendingUdpSniff.
Record PendingUdpSniff {S : Type} := {
  deadline : Z;
  no_clue_attempts : Z;
  spec : session_spec;
  sniffer : S;
  replay : replay_buffer;
}.
Arguments PendingUdpSniff S : clear implicits.
End PendingUdpSniff.
Abbreviation pending_sniff := PendingUdpSniff.PendingUdpSniff.

(** What becomes of a datagram: it is handed to the session of its key, [via]
    that session's specification or to none when there is no session and none
    can be made; the pending entry that caches it is dropped for want of room;
    or the entry is removed because a session is ready. *)
Inductive UdpEvent :=
  | Forwarded (spec : session_spec) (payload : bytes) (via : option session_spec)
  | Evicted (key : session_key) (datagrams : list bytes)
  | Discarded (key : session_key) (datagrams : list bytes).

Module Loop.
Record Loop {S : Type} := {
  pending : gmap session_key (pending_sniff S);
  sessions : gmap session_key session_spec;
  closed : bool;
  creations : nat;
  log : list UdpEvent;
}.
Arguments Loop S : clear implicits.
End Loop.
Abbreviation loop := Loop.Loop.

Section Pending.
Context {S : Type} {session : UdpSnifferSession S}.
(** [target_ip_direct] of a specification, and whether the [n]-th call of
    [create_udp_session] succeeds. *)
Context (direct : session_spec -> bool) (creates : nat -> session_spec -> bool).
(** The order in which a [DashMap] is traversed. *)
Context (map_iter : gmap session_key (pending_sniff S) -> list (session_key * pending_sniff S)).
Context (quic_sniff_mode : QuicSniffMode.QuicSniffMode) (quic_sniff_pending_timeout_ms : Z)
  (udp_sniffers : list UdpSnifferEngine).

Definition set_pending (w : loop S) (p : gmap session_key (pending_sniff S)) : loop S := {|
  Loop.pending := p; Loop.sessions := Loop.sessions w; Loop.closed := Loop.closed w;
  Loop.creations := Loop.creations w; Loop.log := Loop.log w |}.
Definition add_event (w : loop S) (e : UdpEvent) : loop S := {|
  Loop.pending := Loop.pending w; Loop.sessions := Loop.sessions w; Loop.closed := Loop.closed w;
  Loop.creations := Loop.creations w; Loop.log := Loop.log w ++ [e] |}.
Definition set_sessions (w : loop S) (s : gmap session_key session_spec) (creations : nat) : loop S := {|
  Loop.pending := Loop.pending w; Loop.sessions := s; Loop.closed := Loop.closed w;
  Loop.creations := creations; Loop.log := Loop.log w |}.

(** [PendingUdpSniff::new], [expired], [record_no_clue] *)
Definition pending_new (now : Z) (spec : session_spec) (sniffer : S) (first_payload : bytes) : pending_sniff S := {|
  PendingUdpSniff.deadline := now + quic_sniff_pending_timeout_ms;
  PendingUdpSniff.no_clue_attempts := 0;
  PendingUdpSniff.spec := spec;
  PendingUdpSniff.sniffer := sniffer;
  PendingUdpSniff.replay := replay_new first_payload |}.
Definition expired (now : Z) (p : pending_sniff S) : bool := PendingUdpSniff.deadline p <=? now.
Definition update_pending (p : pending_sniff S) (n : Z) (spec : session_spec) (s : S) (r : replay_buffer) : pending_sniff S := {|
  PendingUdpSniff.deadline := PendingUdpSniff.deadline p;
  PendingUdpSniff.no_clue_attempts := n;
  PendingUdpSniff.spec := spec;
  PendingUdpSniff.sniffer := s;
  PendingUdpSniff.replay := r |}.

(** [forward_udp_payload], with [get_or_create_udp_session] when no other
    task creates a session of the key. *)
Definition forward_udp_payload (w : loop S) (spec : session_spec) (payload : bytes) : loop S :=
  if Loop.closed w then add_event w (Forwarded spec payload None)
  else
    match Loop.sessions w !! UdpSessionSpec.key spec with
    | Some s => add_event w (Forwarded spec payload (Some s))
    | None =>
        if creates (Loop.creations w) spec then
          add_event (set_sessions w (<[UdpSessionSpec.key spec := spec]> (Loop.sessions w)) (Datatypes.S (Loop.creations w)))
            (Forwarded spec payload (Some spec))
        else add_event (set_sessions w (Loop.sessions w) (Datatypes.S (Loop.creations w))) (Forwarded spec payload None)
    end.

Definition forward_all (w : loop S) (spec : session_spec) (datagrams : list bytes) : loop S :=
  foldl (fun w payload => forward_udp_payload w spec payload) w datagrams.
Definition flush_pending_udp_sniff (w : loop S) (p : pending_sniff S) : loop S :=
  forward_all w (PendingUdpSniff.spec p) (PendingReplayBuffer.datagrams (PendingUdpSniff.replay p)).

(** [min_by_key] on the deadline: the first of the least. *)
Definition oldest (l : list (session_key * pending_sniff S)) : option (session_key * pending_sniff S) :=
  foldl (fun m e => match m with
    | Some f => if PendingUdpSniff.deadline e.2 <? PendingUdpSniff.deadline f.2 then Some e else m
    | None => Some e end) None l.

Fixpoint enforce_loop (fuel : nat) (w : loop S) : loop S :=
  match fuel with
  | O => w
  | Datatypes.S fuel =>
      if Z.of_nat (size (Loop.pending w)) <=? UDP_SNIFF_MAX_PENDING_SESSIONS then w
      else
        match oldest (map_iter (Loop.pending w)) with
        | None => w
        | Some (key, p) =>
            enforce_loop fuel (add_event (set_pending w (delete key (Loop.pending w)))
              (Evicted key (PendingReplayBuffer.datagrams (PendingUdpSniff.replay p))))
        end
  end.
(** A round removes an entry, so the number of entries is enough fuel. *)
Definition enforce_pending_udp_sniff_capacity (w : loop S) : loop S := enforce_loop (size (Loop.pending w)) w.

Definition keep_pending (w : loop S) (key : session_key) (p : pending_sniff S) : loop S :=
  enforce_pending_udp_sniff_capacity (set_pending w (<[key := p]> (Loop.pending w))).

(** [handle_pending_udp_sniff]; [None] is [false]. *)
Definition handle_pending_udp_sniff (now : Z) (w : loop S) (spec : session_spec) (payload : bytes)
    : pure_res (option (loop S)) :=
  let key := UdpSessionSpec.key spec in
  match Loop.pending w !! key with
  | None => Ok None
  | Some p =>
      let w := set_pending w (delete key (Loop.pending w)) in
      if expired now p then Ok (Some (forward_udp_payload (flush_pending_udp_sniff w p) spec payload))
      else
        match push_datagram (PendingUdpSniff.replay p) payload with
        | None => Ok (Some (forward_udp_payload (flush_pending_udp_sniff w p) spec payload))
        | Some replay =>
            let '(outcome, sniffer) := feed (PendingUdpSniff.sniffer p) payload in
            let p := update_pending p (PendingUdpSniff.no_clue_attempts p) (PendingUdpSniff.spec p) sniffer replay in
            let? outcome := outcome in
            match outcome with
            | UdpSniffOutcome.Matched _ host =>
                let p := update_pending p (PendingUdpSniff.no_clue_attempts p)
                           (with_host (PendingUdpSniff.spec p) host) sniffer replay in
                Ok (Some (flush_pending_udp_sniff w p))
            | UdpSniffOutcome.NeedMore _ => Ok (Some (keep_pending w key p))
            | UdpSniffOutcome.NotMatched =>
                let n := PendingUdpSniff.no_clue_attempts p + 1 in
                let p := update_pending p n (PendingUdpSniff.spec p) sniffer replay in
                if UDP_SNIFF_NO_CLUE_LIMIT <=? n then Ok (Some (flush_pending_udp_sniff w p))
                else Ok (Some (keep_pending w key p))
            | UdpSniffOutcome.Failed _ _ => Ok (Some (flush_pending_udp_sniff w p))
            end
        end
  end.

(** The loop of [handle_new_udp_sniff] over the engines. *)
Fixpoint new_sniff_loop (now : Z) (w : loop S) (spec : session_spec) (payload : bytes) (engines : list UdpSnifferEngine)
    : pure_res (option (loop S)) :=
  match engines with
  | [] => Ok None
  | e :: engines =>
      let '(outcome, sniffer) := feed (new_session e) payload in
      let? outcome := outcome in
      match outcome with
      | UdpSniffOutcome.Matched _ host => Ok (Some (forward_udp_payload w (with_host spec host) payload))
      | UdpSniffOutcome.NeedMore _ =>
          match quic_sniff_mode with
          | QuicSniffMode.Full =>
              Ok (Some (keep_pending w (UdpSessionSpec.key spec) (pending_new now spec sniffer payload)))
          | QuicSniffMode.BestEffort | QuicSniffMode.None => Ok (Some (forward_udp_payload w spec payload))
          end
      | UdpSniffOutcome.NotMatched | UdpSniffOutcome.Failed _ _ => new_sniff_loop now w spec payload engines
      end
  end.

Definition handle_new_udp_sniff (now : Z) (w : loop S) (spec : session_spec) (payload : bytes) : pure_res (option (loop S)) :=
  if bool_decide (udp_sniffers = []) then Ok None
  else if direct spec then Ok None
  else new_sniff_loop now w spec payload udp_sniffers.

Definition handle_udp_client_payload (now : Z) (w : loop S) (spec : session_spec) (payload : bytes) : pure_res (loop S) :=
  if Loop.closed w then Ok w
  else
    let key := UdpSessionSpec.key spec in
    match Loop.sessions w !! key with
    | Some s =>
        let w := match Loop.pending w !! key with
          | Some p => add_event (set_pending w (delete key (Loop.pending w)))
                        (Discarded key (PendingReplayBuffer.datagrams (PendingUdpSniff.replay p)))
          | None => w
          end in
        Ok (add_event w (Forwarded spec payload (Some s)))
    | None =>
        let? handled := handle_pending_udp_sniff now w spec payload in
        match handled with
        | Some w => Ok w
        | None =>
            let? handled := handle_new_udp_sniff now w spec payload in
            match handled with
            | Some w => Ok w
            | None => Ok (forward_udp_payload w spec payload)
            end
        end
    end.

(** [reap_pending_udp_sniff] with no packet task under way: the source reaps
    without the locks of the keys, one entry at a time, and the packet tasks that
    act meanwhile are in [UdpTasks]. [reap_key] is the second loop. *)
Definition reap_key (w : loop S) (key : session_key) : loop S :=
  match Loop.pending w !! key with
  | Some p => flush_pending_udp_sniff (set_pending w (delete key (Loop.pending w))) p
  | None => w
  end.
Definition reap_pending_udp_sniff (now : Z) (w : loop S) : loop S :=
  let expired_keys := map fst (filter (fun e => expired now e.2 = true) (map_iter (Loop.pending w))) in
  enforce_pending_udp_sniff_capacity (foldl reap_key w expired_keys).

(** * Histories of a loop *)

(** A packet, a reaping, sessions that ended, and the shutdown. *)
Inductive LoopOp :=
  | Packet (now : Z) (spec : session_spec) (payload : bytes)
  | Reap (now : Z)
  | SessionsEnd (ended : session_key -> bool)
  | Shutdown.
Definition loop_step (w : loop S) (op : LoopOp) : pure_res (loop S) :=
  match op with
  | Packet now spec payload => handle_udp_client_payload now w spec payload
  | Reap now => Ok (reap_pending_udp_sniff now w)
  | SessionsEnd ended =>
      Ok (set_sessions w (filter (fun e => ended e.1 = false) (Loop.sessions w)) (Loop.creations w))
  | Shutdown => Ok {| Loop.pending := Loop.pending w; Loop.sessions := ∅; Loop.closed := true;
                      Loop.creations := Loop.creations w; Loop.log := Loop.log w |}
  end.
Fixpoint run_loop (w : loop S) (ops : list LoopOp) : pure_res (loop S) :=
  match ops with [] => Ok w | op :: ops => let? w := loop_step w op in run_loop w ops end.
Definition loop_new : loop S :=
  {| Loop.pending := ∅; Loop.sessions := ∅; Loop.closed := false; Loop.creations := 0; Loop.log := [] |}.

(** The datagrams of a key that a loop has taken, up to a shutdown. *)
Fixpoint received (k : session_key) (closed : bool) (ops : list LoopOp) : list bytes :=
  match ops with
  | [] => []
  | Packet _ spec payload :: ops =>
      (if negb closed && bool_decide (UdpSessionSpec.key spec = k) then [payload] else []) ++ received k closed ops
  | Shutdown :: ops => received k true ops
  | _ :: ops => received k closed ops
  end.

(** The datagrams of a key in the log, and those that still wait. *)
Definition event_payloads (k : session_key) (e : UdpEvent) : list bytes :=
  match e with
  | Forwarded spec payload _ => if decide (UdpSessionSpec.key spec = k) then [payload] else []
  | Evicted k' ds | Discarded k' ds => if decide (k' = k) then ds else []
  end.
Definition waiting (k : session_key) (w : loop S) : list bytes :=
  match Loop.pending w !! k with
  | Some p => PendingReplayBuffer.datagrams (PendingUdpSniff.replay p)
  | None => []
  end.
Definition logged (k : session_key) (w : loop S) : list bytes := concat (map (event_payloads k) (Loop.log w)).
Definition seen (k : session_key) (w : loop S) : list bytes := logged k w ++ waiting k w.

Context {laws : UdpSnifferLaws S}.
Hypothesis map_iter_perm : forall m, map_iter m ≡ₚ map_to_list m.

(** A waiting entry: of its key, with no session, within the bounds. *)
Record wf_pending (w : loop S) (k : session_key) (p : pending_sniff S) : Prop := {
  wp_key : UdpSessionSpec.key (PendingUdpSniff.spec p) = k;
  wp_no_session : Loop.sessions w !! k = None;
  wp_sniffer : session_ok (PendingUdpSniff.sniffer p);
  wp_count : 1 <= Z.of_nat (length (PendingReplayBuffer.datagrams (PendingUdpSniff.replay p))) <= UDP_SNIFF_MAX_CACHED_DATAGRAMS;
  wp_bytes : PendingReplayBuffer.cached_bytes (PendingUdpSniff.replay p) =
    zlen (concat (PendingReplayBuffer.datagrams (PendingUdpSniff.replay p)));
  wp_max : zlen (concat (PendingReplayBuffer.datagrams (PendingUdpSniff.replay p))) <=
    Z.max UDP_SNIFF_MAX_CACHED_BYTES (zlen (hd [] (PendingReplayBuffer.datagrams (PendingUdpSniff.replay p))));
  wp_clues : 0 <= PendingUdpSniff.no_clue_attempts p < UDP_SNIFF_NO_CLUE_LIMIT;
}.

Definition never_discarded (w : loop S) : Prop := Forall (fun e => match e with Discarded _ _ => False | _ => True end) (Loop.log w).
Record wf_loop (w : loop S) : Prop := {
  wl_pending k p : Loop.pending w !! k = Some p -> wf_pending w k p;
  wl_sessions k s : Loop.sessions w !! k = Some s -> UdpSessionSpec.key s = k;
  wl_discarded : never_discarded w;
}.

(** A transition that hands on, keeps or evicts [added k] more of each key. *)
Definition advances (w w' : loop S) (added : session_key -> list bytes) : Prop :=
  wf_loop w' /\ Loop.closed w' = Loop.closed w /\ forall k, seen k w' = seen k w ++ added k.

Lemma logged_event w e k : logged k (add_event w e) = logged k w ++ event_payloads k e.
Proof. unfold logged. cbn. rewrite map_app, concat_app. cbn. by rewrite app_nil_r. Qed.

Lemma forward_spec w spec payload :
  wf_loop w -> Loop.pending w !! UdpSessionSpec.key spec = None ->
  wf_loop (forward_udp_payload w spec payload) /\
  Loop.closed (forward_udp_payload w spec payload) = Loop.closed w /\
  Loop.pending (forward_udp_payload w spec payload) = Loop.pending w /\
  forall k, logged k (forward_udp_payload w spec payload) = logged k w ++ (if decide (UdpSessionSpec.key spec = k) then [payload] else []).
Proof.
  intros Hw Hp. pose proof (wl_pending w Hw) as Hpend. pose proof (wl_sessions w Hw) as Hsess. pose proof (wl_discarded w Hw) as Hd.
  assert (forall w' via, Loop.pending w' = Loop.pending w -> Loop.log w' = Loop.log w -> Loop.closed w' = Loop.closed w ->
    (forall k, Loop.sessions w' !! k = Loop.sessions w !! k \/ k = UdpSessionSpec.key spec /\ Loop.sessions w' !! k = Some spec) ->
    wf_loop (add_event w' (Forwarded spec payload via)) /\
    Loop.closed (add_event w' (Forwarded spec payload via)) = Loop.closed w /\
    Loop.pending (add_event w' (Forwarded spec payload via)) = Loop.pending w /\
    forall k, logged k (add_event w' (Forwarded spec payload via)) = logged k w ++ (if decide (UdpSessionSpec.key spec = k) then [payload] else [])) as Hall.
  { intros w' via Ep El Ec Es. split; [|split; [done|split; [done|]]].
    - split; cbn.
      + rewrite Ep. intros k p Hk. destruct (Hpend k p Hk). split; try done. cbn. destruct (Es k) as [->|[-> _]]; [done|]. by rewrite Hp in Hk.
      + intros k s Hk. destruct (Es k) as [E|[-> E]]; rewrite E in Hk; [by apply Hsess|by injection Hk as <-].
      + unfold never_discarded. cbn. rewrite El. apply Forall_app. by split; [|repeat constructor].
    - intros k. rewrite logged_event. unfold logged. by rewrite El. }
  unfold forward_udp_payload. destruct (Loop.closed w) eqn:Ec; [apply Hall; try done; by left|].
  destruct (Loop.sessions w !! UdpSessionSpec.key spec) as [s|] eqn:E; [apply Hall; try done; by left|].
  destruct (creates _ _); apply Hall; try done; [|by left].
  intros k. cbn. destruct (decide (k = UdpSessionSpec.key spec)) as [->|Hne]; [right; split; [done|apply lookup_insert_eq]|left; by apply lookup_insert_ne].
Qed.

Lemma forward_all_spec ds w spec :
  wf_loop w -> Loop.pending w !! UdpSessionSpec.key spec = None ->
  wf_loop (forward_all w spec ds) /\ Loop.closed (forward_all w spec ds) = Loop.closed w /\
  Loop.pending (forward_all w spec ds) = Loop.pending w /\
  forall k, logged k (forward_all w spec ds) = logged k w ++ (if decide (UdpSessionSpec.key spec = k) then ds else []).
Proof.
  revert w. induction ds as [|d ds IH]; intros w Hw Hp.
  { unfold forward_all. cbn. split; [done|]. split; [done|]. split; [done|]. intros k. destruct (decide _); by rewrite app_nil_r. }
  destruct (forward_spec w spec d Hw Hp) as (Hw1 & E1 & P1 & L1).
  destruct (IH (forward_udp_payload w spec d) Hw1) as (Hw2 & E2 & P2 & L2); [by rewrite P1|].
  change (forward_all w spec (d :: ds)) with (forward_all (forward_udp_payload w spec d) spec ds).
  split; [done|]. split; [congruence|]. split; [congruence|]. intros k. rewrite L2, L1, <- app_assoc. by destruct (decide _).
Qed.

(** Taking an entry out of the table. *)
Lemma remove_spec w k p :
  wf_loop w -> Loop.pending w !! k = Some p ->
  wf_loop (set_pending w (delete k (Loop.pending w))) /\ wf_pending w k p /\
  forall k', seen k' w = logged k' w ++ waiting k' (set_pending w (delete k (Loop.pending w))) ++
    (if decide (k = k') then PendingReplayBuffer.datagrams (PendingUdpSniff.replay p) else []).
Proof.
  intros Hw Hk. split; [|split; [by apply Hw|]].
  - split; cbn; [|by apply Hw..]. intros k' p' [_ H]%lookup_delete_Some. by destruct (wl_pending w Hw k' p' H).
  - intros k'. unfold seen, waiting. cbn. destruct (decide (k = k')) as [<-|Hne].
    + by rewrite lookup_delete_eq, Hk.
    + by rewrite lookup_delete_ne, app_nil_r.
Qed.

(** Removing an entry and flushing [ds], which it cached and maybe more. *)
Lemma flush_spec w k p spec ds more :
  wf_loop w -> Loop.pending w !! k = Some p -> UdpSessionSpec.key spec = k ->
  ds = PendingReplayBuffer.datagrams (PendingUdpSniff.replay p) ++ more ->
  let w' := forward_all (set_pending w (delete k (Loop.pending w))) spec ds in
  advances w w' (fun k' => if decide (k = k') then more else []) /\ Loop.pending w' = delete k (Loop.pending w).
Proof.
  intros Hw Hk Hs -> w'. destruct (remove_spec w k p Hw Hk) as (Hw0 & Hp & Hseen).
  destruct (forward_all_spec (PendingReplayBuffer.datagrams (PendingUdpSniff.replay p) ++ more)
    (set_pending w (delete k (Loop.pending w))) spec Hw0) as (Hw1 & E1 & P1 & L1).
  { rewrite Hs. apply lookup_delete_eq. }
  split; [|done]. split; [done|]. split; [done|]. intros k'. rewrite Hseen. unfold seen. rewrite L1, Hs. unfold waiting. fold w' in P1 |- *.
  rewrite P1. cbn. unfold logged. cbn. destruct (decide (k = k')) as [<-|Hne].
  - rewrite lookup_delete_eq. cbn. by rewrite !app_nil_r, app_assoc.
  - by rewrite !app_nil_r.
Qed.

(** ** The capacity *)

Lemma oldest_spec (l : list (session_key * pending_sniff S)) : l <> [] ->
  exists e, oldest l = Some e /\ e ∈ l /\ forall f, f ∈ l -> PendingUdpSniff.deadline e.2 <= PendingUdpSniff.deadline f.2.
Proof.
  unfold oldest. induction l as [|x l IH] using rev_ind; [done|]. intros _. rewrite foldl_snoc.
  destruct (decide (l = [])) as [->|Hne].
  { exists x. split; [done|]. split; [by left|]. intros f Hf. apply list_elem_of_singleton in Hf as ->. done. }
  destruct (IH Hne) as (e & -> & He & Hmin). destruct (Z.ltb_spec (PendingUdpSniff.deadline x.2) (PendingUdpSniff.deadline e.2)).
  - exists x. split; [done|]. split; [apply elem_of_app; right; by left|].
    intros f [Hf|Hf]%elem_of_app; [specialize (Hmin f Hf); lia|]. apply list_elem_of_singleton in Hf as ->. done.
  - exists e. split; [done|]. split; [apply elem_of_app; by left|].
    intros f [Hf|Hf]%elem_of_app; [by apply Hmin|]. by apply list_elem_of_singleton in Hf as ->.
Qed.

Definition room (w : loop S) : Prop := Z.of_nat (size (Loop.pending w)) <= UDP_SNIFF_MAX_PENDING_SESSIONS.

Lemma enforce_loop_spec fuel : forall w,
  wf_loop w -> Z.of_nat (size (Loop.pending w)) <= UDP_SNIFF_MAX_PENDING_SESSIONS + Z.of_nat fuel ->
  wf_loop (enforce_loop fuel w) /\ Loop.closed (enforce_loop fuel w) = Loop.closed w /\
  (forall k, seen k (enforce_loop fuel w) = seen k w) /\ room (enforce_loop fuel w) /\
  Loop.pending (enforce_loop fuel w) ⊆ Loop.pending w.
Proof.
  induction fuel as [|fuel IH]; intros w Hw Hf; cbn [enforce_loop].
  { split_and!; try done. }
  destruct (Z.leb_spec (Z.of_nat (size (Loop.pending w))) UDP_SNIFF_MAX_PENDING_SESSIONS) as [Hle|Hgt]; [by split_and!|].
  destruct (oldest_spec (map_iter (Loop.pending w))) as ([k p] & -> & Hin & _).
  { intros E. assert (size (Loop.pending w) = 0)%nat as H0; [|unfold UDP_SNIFF_MAX_PENDING_SESSIONS in Hgt; lia].
    apply map_size_empty_iff, map_to_list_empty_iff, Permutation_nil_r. by rewrite <- map_iter_perm, E. }
  rewrite map_iter_perm in Hin. apply elem_of_map_to_list in Hin.
  destruct (remove_spec w k p Hw Hin) as (Hw0 & _ & Hseen).
  set (w1 := add_event _ _). assert (wf_loop w1) as Hw1.
  { destruct Hw0 as [H1 H2 H3]. split; cbn; [|done|apply Forall_app; by repeat constructor].
    intros k' p' H. destruct (H1 k' p' H). by split. }
  assert (size (Loop.pending w1) = pred (size (Loop.pending w))) as Hsz by (cbn; apply map_size_delete_Some; by eexists).
  destruct (IH w1 Hw1) as (Hwf & Hc & Hs & Hr & Hsub).
  { rewrite Hsz. unfold UDP_SNIFF_MAX_PENDING_SESSIONS in *. lia. }
  split; [done|]. split; [done|]. split; [|split; [done|]].
  - intros k'. rewrite Hs, Hseen. unfold seen, w1. rewrite logged_event, <- app_assoc. f_equal. unfold waiting. cbn.
    destruct (decide (k = k')) as [<-|Hne]; [by rewrite lookup_delete_eq, app_nil_r|by rewrite app_nil_r].
  - etrans; [exact Hsub|]. cbn. apply delete_subseteq.
Qed.

Lemma enforce_spec w :
  wf_loop w -> let w' := enforce_pending_udp_sniff_capacity w in
  wf_loop w' /\ Loop.closed w' = Loop.closed w /\ (forall k, seen k w' = seen k w) /\ room w' /\ Loop.pending w' ⊆ Loop.pending w.
Proof. intros Hw. apply enforce_loop_spec; [done|]. unfold UDP_SNIFF_MAX_PENDING_SESSIONS. lia. Qed.

(** Putting an entry in a table that has none of its key. *)
Lemma keep_spec w k p :
  wf_loop w -> Loop.pending w !! k = None -> wf_pending w k p ->
  let w' := keep_pending w k p in
  wf_loop w' /\ Loop.closed w' = Loop.closed w /\ room w' /\
  forall k', seen k' w' = seen k' w ++ (if decide (k = k') then PendingReplayBuffer.datagrams (PendingUdpSniff.replay p) else []).
Proof.
  intros Hw Hk Hp w'. unfold w', keep_pending. set (w1 := set_pending w _).
  assert (wf_loop w1) as Hw1.
  { split; cbn; [|by apply Hw..]. intros k' p' [[<- <-]|[_ H]]%lookup_insert_Some; [by destruct Hp|by destruct (wl_pending w Hw k' p' H)]. }
  destruct (enforce_spec w1 Hw1) as (Hwf & Hc & Hs & Hr & _). split; [done|]. split; [done|]. split; [done|].
  intros k'. rewrite Hs. unfold seen, waiting, w1. cbn. unfold logged. cbn. destruct (decide (k = k')) as [<-|Hne].
  - rewrite lookup_insert_eq, Hk. by rewrite app_nil_r.
  - by rewrite lookup_insert_ne, app_nil_r.
Qed.

Lemma push_spec p w k payload replay :
  wf_pending w k p -> push_datagram (PendingUdpSniff.replay p) payload = Some replay ->
  PendingReplayBuffer.datagrams replay = PendingReplayBuffer.datagrams (PendingUdpSniff.replay p) ++ [payload] /\
  forall n s, session_ok s -> 0 <= n < UDP_SNIFF_NO_CLUE_LIMIT -> forall w', Loop.sessions w' !! k = None ->
    wf_pending w' k (update_pending p n (PendingUdpSniff.spec p) s replay).
Proof.
  intros [Hk _ _ Hc Hb Hm _]. unfold push_datagram. destruct (Z.leb_spec UDP_SNIFF_MAX_CACHED_DATAGRAMS
    (Z.of_nat (length (PendingReplayBuffer.datagrams (PendingUdpSniff.replay p))))) as [|Hlt]; [done|].
  destruct (Z.ltb_spec UDP_SNIFF_MAX_CACHED_BYTES (usize_sat_add (PendingReplayBuffer.cached_bytes (PendingUdpSniff.replay p)) (zlen payload)))
    as [|Hle]; [done|]. intros [= <-]. split; [done|]. intros n s Hs Hn w' Hno.
  assert (zlen (concat (PendingReplayBuffer.datagrams (PendingUdpSniff.replay p) ++ [payload])) =
    PendingReplayBuffer.cached_bytes (PendingUdpSniff.replay p) + zlen payload) as E.
  { rewrite concat_app, Hb. cbn. rewrite app_nil_r. unfold zlen. rewrite length_app. lia. }
  unfold usize_sat_add, USIZE_MAX, UDP_SNIFF_MAX_CACHED_BYTES in *.
  split; cbn; try done; rewrite ?E, ?length_app; cbn [length]; unfold UDP_SNIFF_MAX_CACHED_BYTES; try lia.
Qed.

(** ** The handlers *)

(** The payloads a packet adds. *)
Definition one (k : session_key) (payload : bytes) (k' : session_key) : list bytes := if decide (k = k') then [payload] else [].
Definition takes (w w' : loop S) (k : session_key) (payload : bytes) : Prop := advances w w' (one k payload) /\ room w'.

Lemma room_sub w w' : room w -> Loop.pending w' ⊆ Loop.pending w -> room w'.
Proof. unfold room. intros Hr Hs. apply map_subseteq_size in Hs. lia. Qed.

Lemma forward_takes w spec payload k :
  wf_loop w -> room w -> Loop.pending w !! k = None -> UdpSessionSpec.key spec = k -> takes w (forward_udp_payload w spec payload) k payload.
Proof.
  intros Hw Hr Hp Hk. rewrite <- Hk in *. destruct (forward_spec w spec payload Hw Hp) as (Hw' & Hc & Ep & Hl).
  split; [split; [done|split; [done|]]|unfold room; by rewrite Ep].
  intros k'. unfold seen, waiting. rewrite Hl, Ep, <- !app_assoc. f_equal. unfold one.
  destruct (decide (UdpSessionSpec.key spec = k')) as [<-|]; [by rewrite Hp|by rewrite app_nil_r].
Qed.

Lemma flush_takes w k p spec payload ds :
  wf_loop w -> room w -> Loop.pending w !! k = Some p -> UdpSessionSpec.key spec = k ->
  ds = PendingReplayBuffer.datagrams (PendingUdpSniff.replay p) ++ [payload] ->
  takes w (forward_all (set_pending w (delete k (Loop.pending w))) spec ds) k payload.
Proof.
  intros Hw Hr Hp Hk Hds. destruct (flush_spec w k p spec ds [payload] Hw Hp Hk Hds) as [Ha Ep]. split; [done|].
  apply (room_sub w); [done|]. rewrite Ep. apply delete_subseteq.
Qed.

(** Flushing, then forwarding the packet that found the entry too old or full. *)
Lemma flush_forward_takes w k p spec payload :
  wf_loop w -> room w -> Loop.pending w !! k = Some p -> UdpSessionSpec.key spec = k ->
  takes w (forward_udp_payload (flush_pending_udp_sniff (set_pending w (delete k (Loop.pending w))) p) spec payload) k payload.
Proof.
  intros Hw Hr Hp Hk. destruct (flush_spec w k p (PendingUdpSniff.spec p) _ [] Hw Hp (wp_key _ _ _ (wl_pending w Hw k p Hp)) eq_refl) as [(Hw1 & Hc1 & Hs1) Ep].
  rewrite app_nil_r in *. fold (flush_pending_udp_sniff (set_pending w (delete k (Loop.pending w))) p) in *. set (w1 := flush_pending_udp_sniff _ p) in *.
  destruct (forward_takes w1 spec payload k Hw1) as [(Hw2 & Hc2 & Hs2) Hr2]; [|by rewrite Ep, lookup_delete_eq|done|].
  - apply (room_sub w); [done|]. rewrite Ep. apply delete_subseteq.
  - split; [|done]. split; [done|]. split; [congruence|]. intros k'. rewrite Hs2, Hs1. destruct (decide (k = k')); by rewrite app_nil_r.
Qed.

Lemma handle_pending_takes now w spec payload p :
  wf_loop w -> room w -> Loop.pending w !! UdpSessionSpec.key spec = Some p ->
  exists w', handle_pending_udp_sniff now w spec payload = Ok (Some w') /\ takes w w' (UdpSessionSpec.key spec) payload.
Proof.
  intros Hw Hr Hp. set (k := UdpSessionSpec.key spec) in *. pose proof (wl_pending w Hw k p Hp) as Hwp.
  unfold handle_pending_udp_sniff. fold k. rewrite Hp. destruct (expired now p).
  { eexists. split; [done|]. by apply flush_forward_takes. }
  destruct (push_datagram _ payload) as [replay|] eqn:Epush.
  2: { eexists. split; [done|]. by apply flush_forward_takes. }
  destruct (push_spec p w k payload replay Hwp Epush) as [Hds Hwp'].
  destruct (feed_ok (PendingUdpSniff.sniffer p) payload (wp_sniffer _ _ _ Hwp)) as [Hret Hok].
  destruct (feed _ _) as [outcome sniffer]. cbn [fst snd] in *. destruct outcome as [outcome|e| |]; try done. cbn [res_bind].
  pose proof (wp_key _ _ _ Hwp) as Hkey.
  assert (forall n, 0 <= n < UDP_SNIFF_NO_CLUE_LIMIT ->
    takes w (keep_pending (set_pending w (delete k (Loop.pending w))) k (update_pending p n (PendingUdpSniff.spec p) sniffer replay)) k payload) as Hkeep.
  { intros n Hn. destruct (remove_spec w k p Hw Hp) as (Hw0 & _ & Hseen).
    destruct (keep_spec (set_pending w (delete k (Loop.pending w))) k (update_pending p n (PendingUdpSniff.spec p) sniffer replay)) as (Hw' & Hc & Hroom & Hs);
      [done|apply lookup_delete_eq|apply Hwp'; [done|done|by apply Hwp]|].
    split; [|done]. split; [done|]. split; [done|]. intros k'. rewrite Hs, Hseen. unfold seen at 1. unfold one. unfold logged at 1. cbn.
    rewrite Hds. fold (logged k' w). destruct (decide (k = k')) as [<-|]; [|by rewrite !app_nil_r].
    unfold waiting. cbn. rewrite lookup_delete_eq, app_nil_r. cbn. by rewrite app_assoc. }
  assert (forall spec', UdpSessionSpec.key spec' = k -> forall n,
    takes w (flush_pending_udp_sniff (set_pending w (delete k (Loop.pending w))) (update_pending p n spec' sniffer replay)) k payload) as Hflush.
  { intros spec' Hk' n. by apply (flush_takes w k p). }
  destruct outcome as [proto host| |proto|proto err].
  - eexists. split; [done|]. by apply Hflush.
  - destruct (Z.leb_spec UDP_SNIFF_NO_CLUE_LIMIT (PendingUdpSniff.no_clue_attempts p + 1)) as [Hle|Hlt].
    + eexists. split; [cbn; by rewrite (proj2 (Z.leb_le _ _) Hle)|]. by apply Hflush.
    + eexists. split; [cbn; by rewrite (proj2 (Z.leb_gt _ _) Hlt)|]. apply Hkeep. pose proof (wp_clues _ _ _ Hwp). lia.
  - eexists. split; [done|]. apply Hkeep, Hwp.
  - eexists. split; [done|]. by apply Hflush.
Qed.

Lemma pending_new_wf now w spec sniffer payload :
  session_ok sniffer -> Loop.sessions w !! UdpSessionSpec.key spec = None ->
  wf_pending w (UdpSessionSpec.key spec) (pending_new now spec sniffer payload).
Proof.
  intros Hs Hno. assert (concat [payload] = payload) as E by (cbn; by rewrite app_nil_r).
  split; cbn -[concat]; rewrite ?E; try done; unfold UDP_SNIFF_MAX_CACHED_DATAGRAMS, UDP_SNIFF_NO_CLUE_LIMIT; lia.
Qed.

Lemma new_sniff_takes now w spec payload engines :
  wf_loop w -> room w -> Loop.pending w !! UdpSessionSpec.key spec = None -> Loop.sessions w !! UdpSessionSpec.key spec = None ->
  exists o, new_sniff_loop now w spec payload engines = Ok o /\
    forall w', o = Some w' -> takes w w' (UdpSessionSpec.key spec) payload.
Proof.
  intros Hw Hr Hp Hs. induction engines as [|e engines IH]; cbn [new_sniff_loop]; [by exists None|].
  destruct (feed_ok (new_session e) payload (new_session_ok e)) as [Hret Hok].
  destruct (feed (new_session e) payload) as [outcome sniffer]. cbn [fst snd] in *.
  destruct outcome as [outcome|err| |]; try done. cbn [res_bind]. destruct outcome as [proto host| |proto|proto err]; [|done| |done].
  - eexists. split; [done|]. intros w' [= <-]. by apply forward_takes.
  - assert (forall w', Some (forward_udp_payload w spec payload) = Some w' -> takes w w' (UdpSessionSpec.key spec) payload) as Hf.
    { intros w' [= <-]. by apply forward_takes. }
    destruct quic_sniff_mode; [by eexists|by eexists|]. eexists. split; [done|]. intros w' [= <-].
    destruct (keep_spec w (UdpSessionSpec.key spec) (pending_new now spec sniffer payload) Hw Hp (pending_new_wf now w spec sniffer payload Hok Hs))
      as (Hw' & Hc & Hroom & Hseen).
    split; [|done]. split; [done|]. split; [done|]. intros k'. rewrite Hseen. done.
Qed.

Lemma handle_client_takes now w spec payload :
  wf_loop w -> room w ->
  exists w', handle_udp_client_payload now w spec payload = Ok w' /\ wf_loop w' /\ room w' /\ Loop.closed w' = Loop.closed w /\
    forall k, seen k w' = seen k w ++ received k (Loop.closed w) [Packet now spec payload].
Proof.
  intros Hw Hr. unfold handle_udp_client_payload. destruct (Loop.closed w) eqn:Ec.
  { exists w. split_and!; try done. intros k. cbn. by rewrite app_nil_r. }
  assert (forall w', takes w w' (UdpSessionSpec.key spec) payload ->
    wf_loop w' /\ room w' /\ Loop.closed w' = false /\
    forall k, seen k w' = seen k w ++ received k false [Packet now spec payload]) as Hdone.
  { intros w' [(Hw' & Hc & Hs) Hr']. split_and!; [done|done|congruence|]. intros k. rewrite Hs. cbn. rewrite app_nil_r. unfold one.
    f_equal. case_bool_decide; by repeat case_decide. }
  destruct (Loop.sessions w !! UdpSessionSpec.key spec) as [sess|] eqn:Es.
  - destruct (Loop.pending w !! UdpSessionSpec.key spec) as [p|] eqn:Ep.
    { pose proof (wp_no_session _ _ _ (wl_pending w Hw _ p Ep)). congruence. }
    eexists. split; [done|]. apply Hdone. pose proof (forward_takes w spec payload _ Hw Hr Ep eq_refl) as H.
    unfold forward_udp_payload in H. by rewrite Ec, Es in H.
  - destruct (Loop.pending w !! UdpSessionSpec.key spec) as [p|] eqn:Ep.
    + destruct (handle_pending_takes now w spec payload p Hw Hr Ep) as (w' & -> & H). cbn [res_bind]. exists w'. split; [done|]. by apply Hdone.
    + unfold handle_pending_udp_sniff at 1. rewrite Ep. cbn [res_bind].
      assert (exists o, handle_new_udp_sniff now w spec payload = Ok o /\ forall w', o = Some w' -> takes w w' (UdpSessionSpec.key spec) payload)
        as (o & -> & Ho).
      { unfold handle_new_udp_sniff. destruct (bool_decide _); [by exists None|]. destruct (direct spec); [by exists None|]. by apply new_sniff_takes. }
      cbn [res_bind]. destruct o as [w'|]; (eexists; split; [done|]); apply Hdone; [by apply Ho|by apply forward_takes].
Qed.

(** ** Reaping *)

Lemma reap_key_spec w k :
  wf_loop w -> wf_loop (reap_key w k) /\ Loop.closed (reap_key w k) = Loop.closed w /\ (forall k', seen k' (reap_key w k) = seen k' w) /\
  Loop.pending (reap_key w k) = delete k (Loop.pending w).
Proof.
  intros Hw. unfold reap_key. destruct (Loop.pending w !! k) as [p|] eqn:Ep; [|by rewrite delete_id].
  destruct (flush_spec w k p (PendingUdpSniff.spec p) _ [] Hw Ep (wp_key _ _ _ (wl_pending w Hw k p Ep)) eq_refl) as [(Hw1 & Hc1 & Hs1) E].
  rewrite app_nil_r in *. split; [done|]. split; [done|]. split; [|done]. intros k'. unfold flush_pending_udp_sniff. rewrite Hs1.
  destruct (decide _); by rewrite app_nil_r.
Qed.

Lemma reap_keys_spec ks : forall w,
  wf_loop w -> wf_loop (foldl reap_key w ks) /\ Loop.closed (foldl reap_key w ks) = Loop.closed w /\
  (forall k', seen k' (foldl reap_key w ks) = seen k' w) /\
  forall k p, Loop.pending (foldl reap_key w ks) !! k = Some p <-> Loop.pending w !! k = Some p /\ k ∉ ks.
Proof.
  induction ks as [|k0 ks IH]; intros w Hw; cbn [foldl].
  { split_and!; try done. intros k p. split; [intros H; split; [done|apply not_elem_of_nil]|by intros [? _]]. }
  destruct (reap_key_spec w k0 Hw) as (Hw1 & Hc1 & Hs1 & Ep). destruct (IH (reap_key w k0) Hw1) as (Hw2 & Hc2 & Hs2 & Hp2).
  split; [done|]. split; [congruence|]. split; [intros k'; by rewrite Hs2|]. intros k p. rewrite Hp2, Ep, lookup_delete_Some, not_elem_of_cons.
  assert (k0 <> k <-> k <> k0) by (split; apply not_eq_sym). tauto.
Qed.

Lemma reap_spec now w :
  wf_loop w -> let w' := reap_pending_udp_sniff now w in
  wf_loop w' /\ room w' /\ Loop.closed w' = Loop.closed w /\ (forall k, seen k w' = seen k w) /\
  forall k p, Loop.pending w' !! k = Some p -> Loop.pending w !! k = Some p /\ now < PendingUdpSniff.deadline p.
Proof.
  intros Hw. unfold reap_pending_udp_sniff. set (ks := map fst _). destruct (reap_keys_spec ks w Hw) as (Hw1 & Hc1 & Hs1 & Hp1).
  destruct (enforce_spec (foldl reap_key w ks) Hw1) as (Hw2 & Hc2 & Hs2 & Hr2 & Hsub). cbv zeta.
  split; [done|]. split; [done|]. split; [congruence|]. split; [intros k; by rewrite Hs2|]. intros k p Hk.
  apply (lookup_weaken _ _ _ _ Hk) in Hsub. apply Hp1 in Hsub as [Hw' Hn]. split; [done|].
  destruct (expired now p) eqn:E; [|unfold expired in E; lia]. exfalso. apply Hn. unfold ks. apply list_elem_of_fmap. exists (k, p). split; [done|].
  apply list_elem_of_filter. split; [done|]. rewrite map_iter_perm. by apply elem_of_map_to_list.
Qed.

(** ** Histories *)

Lemma loop_step_ok w op :
  wf_loop w -> room w ->
  exists w', loop_step w op = Ok w' /\ wf_loop w' /\ room w' /\
    Loop.closed w' = (match op with Shutdown => true | _ => Loop.closed w end) /\
    forall k, seen k w' = seen k w ++ received k (Loop.closed w) [op].
Proof.
  intros Hw Hr. destruct op as [now spec payload|now|ended|]; cbn [loop_step].
  - by apply handle_client_takes.
  - destruct (reap_spec now w Hw) as (Hw' & Hr' & Hc & Hs & _). eexists. split; [done|]. split_and!; try done.
    intros k. rewrite Hs. by rewrite app_nil_r.
  - eexists. split; [done|]. split_and!; try done; [|intros k; by rewrite app_nil_r]. destruct Hw as [H1 H2 H3]. split; cbn; [| |done].
    + intros k p Hk. destruct (H1 k p Hk). split; try done. cbn. by apply map_lookup_filter_None_2; left.
    + intros k s [Hk _]%map_lookup_filter_Some. by apply H2.
  - eexists. split; [done|]. split_and!; try done; [|intros k; by rewrite app_nil_r]. destruct Hw as [H1 H2 H3]. split; cbn; [| |done].
    + intros k p Hk. destruct (H1 k p Hk). by split.
    + intros k s Hk. by rewrite lookup_empty in Hk.
Qed.

Lemma received_cons k closed op ops :
  received k closed (op :: ops) = received k closed [op] ++ received k (match op with Shutdown => true | _ => closed end) ops.
Proof. destruct op; cbn; rewrite ?app_nil_r; done. Qed.

Lemma run_loop_ok ops : forall w, wf_loop w -> room w ->
  exists w', run_loop w ops = Ok w' /\ wf_loop w' /\ room w' /\ forall k, seen k w' = seen k w ++ received k (Loop.closed w) ops.
Proof.
  induction ops as [|op ops IH]; intros w Hw Hr; cbn [run_loop].
  { exists w. split_and!; try done. intros k. by rewrite app_nil_r. }
  destruct (loop_step_ok w op Hw Hr) as (w1 & -> & Hw1 & Hr1 & Hc1 & Hs1). cbn [res_bind].
  destruct (IH w1 Hw1 Hr1) as (w2 & -> & Hw2 & Hr2 & Hs2). exists w2. split_and!; try done. intros k.
  rewrite Hs2, Hs1, Hc1, (received_cons _ _ _ ops), <- app_assoc. by destruct op.
Qed.

Lemma loop_new_wf : wf_loop loop_new.
Proof.
  split; cbn; [intros k p Hk; by rewrite lookup_empty in Hk|intros k s Hk; by rewrite lookup_empty in Hk|constructor].
Qed.

(** *** Without too many flows nothing is evicted *)

Definition evictions (w : loop S) : list UdpEvent :=
  filter (fun e => match e with Evicted _ _ => true | _ => false end = true) (Loop.log w).
Definition calm (K : gset session_key) (w w' : loop S) : Prop := dom (Loop.pending w') ⊆ K /\ evictions w' = evictions w.

Lemma forward_evictions w spec payload : evictions (forward_udp_payload w spec payload) = evictions w /\
  Loop.pending (forward_udp_payload w spec payload) = Loop.pending w.
Proof.
  assert (forall (w' : loop S) via, evictions (add_event w' (Forwarded spec payload via)) = evictions w') as H.
  { intros w' via. unfold evictions. cbn. rewrite filter_app, filter_cons, filter_nil. cbn. by rewrite app_nil_r. }
  unfold forward_udp_payload. destruct (Loop.closed w); [by rewrite H|]. destruct (_ !! _); [by rewrite H|].
  destruct (creates _ _); by rewrite H.
Qed.
Lemma forward_all_evictions ds spec : forall w, evictions (forward_all w spec ds) = evictions w /\ Loop.pending (forward_all w spec ds) = Loop.pending w.
Proof.
  induction ds as [|d ds IH]; intros w; [done|]. change (forward_all w spec (d :: ds)) with (forward_all (forward_udp_payload w spec d) spec ds).
  destruct (IH (forward_udp_payload w spec d)) as [-> ->]. apply forward_evictions.
Qed.

Section Calm.
Context (K : gset session_key) (HK : Z.of_nat (size K) <= UDP_SNIFF_MAX_PENDING_SESSIONS).

Lemma enforce_calm w : dom (Loop.pending w) ⊆ K -> enforce_pending_udp_sniff_capacity w = w.
Proof.
  intros Hd. apply subseteq_size in Hd. rewrite size_dom in Hd. unfold enforce_pending_udp_sniff_capacity.
  destruct (size (Loop.pending w)) eqn:E; [done|]. cbn [enforce_loop]. rewrite (proj2 (Z.leb_le _ _)); [done|lia].
Qed.

Lemma delete_calm w k : dom (Loop.pending w) ⊆ K -> dom (Loop.pending (set_pending w (delete k (Loop.pending w)))) ⊆ K.
Proof. intros Hd. cbn. rewrite dom_delete_L. set_solver. Qed.

Lemma keep_calm w k p : dom (Loop.pending w) ⊆ K -> k ∈ K -> calm K w (keep_pending w k p).
Proof.
  intros Hd Hk. unfold keep_pending. assert (dom (<[k := p]> (Loop.pending w)) ⊆ K) as H by (rewrite dom_insert_L; set_solver).
  by rewrite enforce_calm.
Qed.

Lemma forward_all_calm w spec ds : dom (Loop.pending w) ⊆ K -> calm K w (forward_all w spec ds).
Proof. intros Hd. destruct (forward_all_evictions ds spec w) as [E Ep]. split; [by rewrite Ep|done]. Qed.
Lemma forward_calm w w1 spec payload : calm K w w1 -> calm K w (forward_udp_payload w1 spec payload).
Proof. intros [Hd He]. destruct (forward_evictions w1 spec payload) as [E Ep]. split; [by rewrite Ep|by rewrite E]. Qed.

Lemma handle_calm now w spec payload w' :
  dom (Loop.pending w) ⊆ K -> UdpSessionSpec.key spec ∈ K -> handle_udp_client_payload now w spec payload = Ok w' -> calm K w w'.
Proof.
  intros Hd Hk. assert (calm K w w) as Hself by done. unfold handle_udp_client_payload.
  destruct (Loop.closed w); [by intros [= <-]|]. destruct (Loop.sessions w !! _) as [sess|].
  { intros [= <-]. destruct (Loop.pending w !! _) as [p|].
    - split; [cbn; rewrite dom_delete_L; set_solver|]. unfold evictions. cbn.
      rewrite !filter_app, !filter_cons, !filter_nil. cbn. by rewrite !app_nil_r.
    - split; [done|]. unfold evictions. cbn. rewrite filter_app, filter_cons, filter_nil. cbn. by rewrite app_nil_r. }
  intros (handled & Hp & H)%res_bind_ok. assert (forall w1, handled = Some w1 -> calm K w w1) as Hhandled.
  { intros w1 ->. unfold handle_pending_udp_sniff in Hp. destruct (Loop.pending w !! _) as [p|]; [|done].
    pose proof (delete_calm w (UdpSessionSpec.key spec) Hd) as Hd0. set (w0 := set_pending w _) in *. change (evictions w) with (evictions w0) in Hself.
    assert (forall w2, calm K w0 w2 -> calm K w w2) as H0 by done.
    destruct (expired now p); [injection Hp as <-; apply H0, forward_calm, forward_all_calm, Hd0|].
    destruct (push_datagram _ _) as [r|]; [|injection Hp as <-; apply H0, forward_calm, forward_all_calm, Hd0].
    destruct (feed _ _) as [outcome sniffer]. apply res_bind_ok in Hp as (o & -> & Hp).
    destruct o as [proto host| |proto|proto err]; [|destruct (_ <=? _)| |]; injection Hp as <-; apply H0;
      first [apply forward_all_calm, Hd0|by apply keep_calm]. }
  destruct handled as [w1|]; [injection H as <-; by apply Hhandled|].
  apply res_bind_ok in H as (handled & Hn & H). destruct handled as [w1|]; [|injection H as <-; by apply forward_calm].
  injection H as <-. unfold handle_new_udp_sniff in Hn. destruct (bool_decide _); [done|]. destruct (direct spec); [done|].
  induction udp_sniffers as [|e engines IH]; [done|]. cbn [new_sniff_loop] in Hn.
  destruct (feed (new_session e) payload) as [outcome sniffer]. apply res_bind_ok in Hn as (o & -> & Hn).
  destruct o; [injection Hn as <-; by apply forward_calm|by apply IH| |by apply IH].
  destruct quic_sniff_mode; injection Hn as <-; [by apply forward_calm..|]. by apply keep_calm.
Qed.

Lemma reap_calm now w : dom (Loop.pending w) ⊆ K -> calm K w (reap_pending_udp_sniff now w).
Proof.
  intros Hd. unfold reap_pending_udp_sniff. set (ks := map fst _). clearbody ks.
  assert (calm K w (foldl reap_key w ks)) as [H1 H2].
  { revert w Hd. induction ks as [|k ks IH]; intros w Hd; [done|]. cbn [foldl].
    assert (calm K w (reap_key w k)) as [Hd1 He1].
    { unfold reap_key. destruct (_ !! k) as [p|]; [|done]. pose proof (delete_calm w k Hd) as Hd0. set (w0 := set_pending w _) in *.
      change (calm K w) with (calm K w0). apply forward_all_calm, Hd0. }
    destruct (IH (reap_key w k) Hd1) as [? ?]. split; [done|congruence]. }
  by rewrite enforce_calm.
Qed.

Lemma run_calm ops : forall w w',
  Forall (fun op => match op with Packet _ spec _ => UdpSessionSpec.key spec ∈ K | _ => True end) ops ->
  dom (Loop.pending w) ⊆ K -> run_loop w ops = Ok w' -> calm K w w'.
Proof.
  induction ops as [|op ops IH]; intros w w' Hops Hd; cbn [run_loop]; [by intros [= <-]|].
  apply Forall_cons in Hops as [Hop Hops]. intros (w1 & E & H)%res_bind_ok.
  assert (calm K w w1) as [Hd1 He1].
  { destruct op as [now spec payload|now|ended|]; cbn [loop_step] in E; [by eapply handle_calm|injection E as <-; by apply reap_calm|injection E as <-; done..]. }
  destruct (IH w1 w' Hops Hd1 H) as [? ?]. split; [done|congruence].
Qed.
End Calm.

(** *** A flow whose host is found *)

(** The last datagram completes the host, none before does. *)
Fixpoint sniffs_at_last (s : S) (host : bytes) (ds : list bytes) : Prop :=
  match ds with
  | [] => False
  | d :: ds =>
      match ds with
      | [] => exists proto s', feed s d = (Ok (UdpSniffOutcome.Matched proto host), s')
      | _ => exists proto s', feed s d = (Ok (UdpSniffOutcome.NeedMore proto), s') /\ sniffs_at_last s' host ds
      end
  end.

(** The event of a datagram handed on under [spec], through a session of
    that specification when one could be made. *)
Definition delivered (spec : session_spec) (d : bytes) (e : UdpEvent) : Prop :=
  exists via, e = Forwarded spec d via /\ forall s, via = Some s -> s = spec.

Lemma forward_all_delivered spec ds : forall w,
  (forall s, Loop.sessions w !! UdpSessionSpec.key spec = Some s -> s = spec) ->
  exists l, Loop.log (forward_all w spec ds) = Loop.log w ++ l /\ Forall2 (delivered spec) ds l.
Proof.
  induction ds as [|d ds IH]; intros w Hs; [exists []; by rewrite app_nil_r|].
  change (forward_all w spec (d :: ds)) with (forward_all (forward_udp_payload w spec d) spec ds).
  assert (exists e, Loop.log (forward_udp_payload w spec d) = Loop.log w ++ [e] /\ delivered spec d e /\
    forall s, Loop.sessions (forward_udp_payload w spec d) !! UdpSessionSpec.key spec = Some s -> s = spec) as (e & El & He & Hs').
  { unfold forward_udp_payload. destruct (Loop.closed w); [eexists; split; [done|]; split; [by eexists|done]|].
    destruct (Loop.sessions w !! _) as [s|] eqn:E.
    - eexists. split; [done|]. split; [|cbn; rewrite E; intros ? [= <-]; by apply Hs]. eexists. split; [done|]. intros ? [= <-]. by apply Hs.
    - destruct (creates _ _); (eexists; split; [done|]; split; [eexists; split; [done|]; by intros ? [= <-]|]).
      + cbn. rewrite lookup_insert_eq. by intros ? [= <-].
      + cbn. by rewrite E. }
  destruct (IH _ Hs') as (l & -> & Hl). exists (e :: l). rewrite El, <- app_assoc. split; [done|]. by constructor.
Qed.

Definition packets (spec : session_spec) (l : list (Z * bytes)) : list LoopOp := map (fun e => Packet e.1 spec e.2) l.

(** Nothing is handed on before the last packet. *)
Definition silent_before (w : loop S) (spec : session_spec) (l : list (Z * bytes)) : Prop :=
  forall l0 e l1, l = l0 ++ e :: l1 -> exists w0, run_loop w (packets spec l0) = Ok w0 /\ Loop.log w0 = Loop.log w.

Lemma silent_one w spec e : silent_before w spec [e].
Proof. intros [|e0 l0] e' l1 E; [by exists w|]. by destruct l0. Qed.

Lemma silent_cons w w1 spec t d l :
  loop_step w (Packet t spec d) = Ok w1 -> Loop.log w1 = Loop.log w -> silent_before w1 spec l -> silent_before w spec ((t, d) :: l).
Proof.
  intros Hstep Hlog Hl [|e0 l0] e l1 E; [by exists w|]. injection E as <- E. destruct (Hl l0 e l1 E) as (w0 & Hrun & Hlog0).
  exists w0. cbn [packets map run_loop fst snd]. rewrite Hstep. cbn [res_bind]. split; [exact Hrun|congruence].
Qed.

Lemma replay_push (buf : replay_buffer) d :
  PendingReplayBuffer.cached_bytes buf = zlen (concat (PendingReplayBuffer.datagrams buf)) ->
  (length (PendingReplayBuffer.datagrams buf) < 8)%nat -> zlen (concat (PendingReplayBuffer.datagrams buf ++ [d])) <= UDP_SNIFF_MAX_CACHED_BYTES ->
  exists buf', push_datagram buf d = Some buf' /\ PendingReplayBuffer.datagrams buf' = PendingReplayBuffer.datagrams buf ++ [d] /\
    PendingReplayBuffer.cached_bytes buf' = zlen (concat (PendingReplayBuffer.datagrams buf')).
Proof.
  intros Hb Hc Hz. unfold push_datagram.
  assert (zlen (concat (PendingReplayBuffer.datagrams buf ++ [d])) = PendingReplayBuffer.cached_bytes buf + zlen d) as E.
  { rewrite concat_app, Hb. cbn. rewrite app_nil_r. unfold zlen. rewrite length_app. lia. }
  rewrite E in Hz. unfold usize_sat_add, USIZE_MAX, UDP_SNIFF_MAX_CACHED_DATAGRAMS, UDP_SNIFF_MAX_CACHED_BYTES in *.
  rewrite (proj2 (Z.leb_gt _ _)), (proj2 (Z.ltb_ge _ _)) by lia. cbn [orb]. eexists. split; [done|]. cbn -[concat]. split; [done|]. rewrite E. lia.
Qed.

Lemma keep_room w k p : Z.of_nat (size (Loop.pending w)) < UDP_SNIFF_MAX_PENDING_SESSIONS -> keep_pending w k p = set_pending w (<[k := p]> (Loop.pending w)).
Proof.
  intros H. unfold keep_pending, enforce_pending_udp_sniff_capacity. cbn [Loop.pending set_pending].
  assert (size (<[k := p]> (Loop.pending w)) <= Datatypes.S (size (Loop.pending w)))%nat as Hs.
  { rewrite map_size_insert. destruct (_ !! k); cbn; lia. }
  destruct (size (<[k := p]> (Loop.pending w))) eqn:E; [done|]. cbn [enforce_loop Loop.pending set_pending]. rewrite E, (proj2 (Z.leb_le _ _)); [done|lia].
Qed.

Lemma pending_flow spec host : forall l w p sniffer,
  let k := UdpSessionSpec.key spec in
  Loop.closed w = false -> Loop.sessions w !! k = None -> Loop.pending w !! k = Some p ->
  Z.of_nat (size (Loop.pending w)) <= UDP_SNIFF_MAX_PENDING_SESSIONS ->
  PendingUdpSniff.spec p = spec -> PendingUdpSniff.sniffer p = sniffer ->
  PendingReplayBuffer.cached_bytes (PendingUdpSniff.replay p) = zlen (concat (PendingReplayBuffer.datagrams (PendingUdpSniff.replay p))) ->
  sniffs_at_last sniffer host (map snd l) -> Forall (fun e => e.1 < PendingUdpSniff.deadline p) l ->
  (length (PendingReplayBuffer.datagrams (PendingUdpSniff.replay p)) + length l <= 8)%nat ->
  zlen (concat (PendingReplayBuffer.datagrams (PendingUdpSniff.replay p) ++ map snd l)) <= UDP_SNIFF_MAX_CACHED_BYTES ->
  (exists w' evs, run_loop w (packets spec l) = Ok w' /\ Loop.log w' = Loop.log w ++ evs /\
    Forall2 (delivered (with_host spec host)) (PendingReplayBuffer.datagrams (PendingUdpSniff.replay p) ++ map snd l) evs) /\
  silent_before w spec l.
Proof.
  induction l as [|[t d] l IH]; intros w p sniffer k Hc Hs Hp Hroom Espec Esn Hb Hsn Ht Hlen Hz; [done|]. cbn [map snd] in *.
  apply Forall_cons in Ht as [Ht0 Ht]. cbn [fst] in Ht0.
  assert (zlen (concat (PendingReplayBuffer.datagrams (PendingUdpSniff.replay p) ++ [d])) <= UDP_SNIFF_MAX_CACHED_BYTES) as Hz1.
  { change (d :: map snd l) with ([d] ++ map snd l) in Hz. rewrite app_assoc, concat_app in Hz. unfold zlen in *. rewrite length_app in Hz. lia. }
  destruct (replay_push (PendingUdpSniff.replay p) d Hb) as (buf & Epush & Hds & Hb'); [cbn [length] in Hlen; lia|done|].
  assert (forall o s', feed sniffer d = (Ok o, s') -> loop_step w (Packet t spec d) =
    let? handled := handle_pending_udp_sniff t w spec d in
    match handled with Some w => Ok w | None => Panic end) as Hstep.
  { intros o s' Ho. cbn [loop_step]. unfold handle_udp_client_payload, handle_pending_udp_sniff. fold k. rewrite Hc, Hs, Hp.
    unfold expired. rewrite (proj2 (Z.leb_gt _ _)) by done. rewrite Epush, Esn, Ho. cbn [res_bind].
    by destruct o; [|destruct (_ <=? _)| |]. }
  unfold handle_pending_udp_sniff in Hstep. fold k in Hstep. rewrite Hp in Hstep.
  unfold expired in Hstep. rewrite (proj2 (Z.leb_gt _ _)) in Hstep by done. rewrite Epush, Esn in Hstep.
  destruct (map snd l) as [|d' rest] eqn:El.
  - destruct l; [|done]. split; [|apply silent_one]. destruct Hsn as (proto & s' & Ho). specialize (Hstep _ _ Ho). rewrite Ho in Hstep.
    cbn [packets map run_loop fst snd]. rewrite Hstep. cbn [res_bind]. unfold flush_pending_udp_sniff. cbn [PendingUdpSniff.spec PendingUdpSniff.replay update_pending].
    rewrite Hds, Espec. set (w0 := set_pending w (delete k (Loop.pending w))).
    destruct (forward_all_delivered (with_host spec host) (PendingReplayBuffer.datagrams (PendingUdpSniff.replay p) ++ [d]) w0) as (evs & El' & Hevs).
    { cbn. fold k. by rewrite Hs. }
    eexists _, evs. split; [done|]. split; [exact El'|done].
  - destruct Hsn as (proto & s' & Ho & Hsn). specialize (Hstep _ _ Ho). rewrite Ho in Hstep. cbn [res_bind] in Hstep. rewrite <- El in *.
    set (w0 := set_pending w (delete k (Loop.pending w))) in *. set (p' := update_pending p _ (PendingUdpSniff.spec p) s' buf) in *.
    assert (Z.of_nat (size (Loop.pending w0)) < UDP_SNIFF_MAX_PENDING_SESSIONS) as Hroom0.
    { cbn. rewrite map_size_delete, Hp. destruct (size (Loop.pending w)) eqn:E; [|cbn; lia]. exfalso. apply map_size_empty_inv in E. by rewrite E, lookup_empty in Hp. }
    rewrite keep_room in Hstep by done. set (w1 := set_pending w0 (<[k := p']> (Loop.pending w0))) in *.
    destruct (IH w1 p' s') as [(w' & evs & Hrun & El' & Hevs) Hsil]; try done.
    + apply lookup_insert_eq.
    + cbn. rewrite map_size_insert, lookup_delete_eq. cbn in Hroom0. lia.
    + cbn. rewrite Hds, length_app. cbn [length] in *. lia.
    + cbn -[concat]. rewrite Hds, <- app_assoc. exact Hz.
    + split; [|by eapply silent_cons]. exists w', evs. cbn [packets map run_loop fst snd]. rewrite Hstep. cbn [res_bind].
      split; [exact Hrun|]. split; [exact El'|]. cbn in Hevs. by rewrite Hds, <- app_assoc in Hevs.
Qed.

Lemma new_flow e spec host l w :
  let k := UdpSessionSpec.key spec in
  Loop.closed w = false -> Loop.sessions w !! k = None -> Loop.pending w !! k = None ->
  Z.of_nat (size (Loop.pending w)) < UDP_SNIFF_MAX_PENDING_SESSIONS ->
  quic_sniff_mode = QuicSniffMode.Full -> udp_sniffers = [e] -> direct spec = false ->
  sniffs_at_last (new_session e) host (map snd l) ->
  (length l <= 8)%nat -> zlen (concat (map snd l)) <= UDP_SNIFF_MAX_CACHED_BYTES ->
  (forall t, fst <$> head l = Some t -> Forall (fun e => e.1 < t + quic_sniff_pending_timeout_ms) l) ->
  (exists w' evs, run_loop w (packets spec l) = Ok w' /\ Loop.log w' = Loop.log w ++ evs /\
    Forall2 (delivered (with_host spec host)) (map snd l) evs) /\
  silent_before w spec l.
Proof.
  intros k Hc Hs Hp Hroom Hmode Hsniffers Hdir Hsn Hlen Hz Ht. destruct l as [|[t d] l]; [done|]. specialize (Ht t eq_refl).
  apply Forall_cons in Ht as [_ Ht]. cbn [map snd] in *.
  assert (loop_step w (Packet t spec d) =
    let? handled := new_sniff_loop t w spec d [e] in
    match handled with Some w => Ok w | None => Ok (forward_udp_payload w spec d) end) as Hstep.
  { cbn [loop_step]. unfold handle_udp_client_payload, handle_pending_udp_sniff, handle_new_udp_sniff. fold k.
    rewrite Hc, Hs, Hp, Hdir, Hsniffers. cbn [res_bind]. by rewrite bool_decide_false. }
  cbn [new_sniff_loop] in Hstep.
  destruct (map snd l) as [|d' rest] eqn:El.
  - destruct l; [|done]. split; [|apply silent_one]. destruct Hsn as (proto & s' & Ho). rewrite Ho in Hstep. cbn [res_bind] in Hstep.
    cbn [packets map run_loop fst snd]. rewrite Hstep. cbn [res_bind].
    destruct (forward_all_delivered (with_host spec host) [d] w) as (evs & El' & Hevs); [cbn; fold k; by rewrite Hs|].
    eexists _, evs. split; [done|]. split; [exact El'|done].
  - destruct Hsn as (proto & s' & Ho & Hsn). rewrite Ho in Hstep. rewrite <- El in *. cbn [res_bind] in Hstep. rewrite Hmode in Hstep.
    cbn [res_bind] in Hstep. fold k in Hstep. rewrite keep_room in Hstep by done.
    set (p := pending_new t spec s' d) in *. set (w1 := set_pending w (<[k := p]> (Loop.pending w))) in *.
    destruct (pending_flow spec host l w1 p s') as [(w' & evs & Hrun & El' & Hevs) Hsil]; try done.
    + apply lookup_insert_eq.
    + cbn. rewrite map_size_insert. fold k. rewrite Hp. cbn. lia.
    + cbn -[concat]. cbn. by rewrite app_nil_r.
    + split; [|by eapply silent_cons]. exists w', evs. cbn [packets map run_loop fst snd]. rewrite Hstep. cbn [res_bind]. done.
Qed.
End Pending.

#[global] Instance quic_session_laws (C : QuicCrypto) `{!QuicCryptoLaws C} :
  @UdpSnifferLaws QuicCryptoReassembly (quic_session C).
Proof.
  refine (@Build_UdpSnifferLaws _ (quic_session C) wf_reassembly _ _).
  - intros []. apply wf_new.
  - intros st payload Hw. by apply quic_feed_returns.
Defined.
