(* ===== verification/UdpFlow.v ===== *)
(** What the UDP loop does for its flows: the properties of the pending table
    of [Pending], and its composition with the QUIC sniffer. *)

From Stdlib Require Import Strings.Byte Strings.String.
From S2P Require Import Prelude Bytes Sniff Tls TlsHello TlsRecords Quic QuicReassembly QuicPackets QuicKeys QuicEncode QuicSession Config TcpSniff Udp Pending.
#[local] Open Scope Z_scope.

(** * A flow of QUIC Initial packets *)

Lemma feed_all_last C encs : forall st proto host,
  feed_all C st encs = Ok (UdpSniffOutcome.Matched proto host) ->
  exists a b, encs = a ++ b /\ sniffs_at_last (S := QuicCryptoReassembly) (session := quic_session C) st host a.
Proof.
  induction encs as [|enc encs IH]; intros st proto host; cbn [feed_all]; [done|].
  destruct (quic_feed C st enc) as [o st'] eqn:E. destruct o as [o| | |]; try done. destruct o as [p h| |p|p e]; try done.
  - intros Hm. inversion Hm; subst. exists [enc], encs. split; [done|]. exists p, st'. exact E.
  - intros H. destruct (IH st' proto host H) as (a & b & -> & Ha). exists (enc :: a), b. split; [done|].
    destruct a as [|x a]; [done|]. exists p, st'. split; [exact E|done].
Qed.

(** * Properties *)

(** No datagram of a UDP flow is lost, repeated or overtaken: over any
    history of packets of any flows, reapings, ending sessions and a shutdown,
    for lawful sniffers, a loop never panics, and for every flow the datagrams
    it has handed on (or evicted), in that order, followed by those that still
    wait, are exactly those it has received. None is dropped because a session
    turned up meanwhile, and none is evicted unless more than 4096 flows are
    in use. *)
Theorem udp_flows_in_order {S} {session : UdpSnifferSession S} {laws : UdpSnifferLaws S} direct creates map_iter mode timeout sniffers ops :
  (forall m : gmap session_key (pending_sniff S), map_iter m ≡ₚ map_to_list m) ->
  exists w, run_loop direct creates map_iter mode timeout sniffers loop_new ops = Ok w /\
    (forall k, received k false ops = logged k w ++ waiting k w) /\ never_discarded w /\
    forall K : gset session_key, Z.of_nat (size K) <= UDP_SNIFF_MAX_PENDING_SESSIONS ->
      Forall (fun op => match op with Packet _ spec _ => UdpSessionSpec.key spec ∈ K | _ => True end) ops ->
      evictions w = [].
Proof.
  intros Hiter.
  destruct (run_loop_ok direct creates map_iter mode timeout sniffers Hiter ops loop_new loop_new_wf) as (w & E & Hw & _ & Hs).
  { by unfold room. }
  exists w. split; [done|]. split; [intros k; symmetry; apply (Hs k)|]. split; [apply Hw|]. intros K HK Hops.
  by destruct (run_calm direct creates map_iter mode timeout sniffers Hiter K HK ops loop_new w Hops).
Qed.

(** What waits is bounded and does not wait for long, where the packets are
    handled one after the other: after any history at most 4096 flows wait, each with one to eight datagrams that together take
    at most 64 KiB or are one datagram and empty ones, fewer than two failed
    attempts, and no session of its own; and after a reaping at a time every
    entry that was due by then is gone. *)
Theorem udp_pending_bounded {S} {session : UdpSnifferSession S} {laws : UdpSnifferLaws S} direct creates map_iter mode timeout sniffers ops now w :
  (forall m : gmap session_key (pending_sniff S), map_iter m ≡ₚ map_to_list m) ->
  run_loop direct creates map_iter mode timeout sniffers loop_new ops = Ok w ->
  Z.of_nat (size (Loop.pending w)) <= 4096 /\
  (forall k p, Loop.pending w !! k = Some p -> Loop.sessions w !! k = None /\
    let ds := PendingReplayBuffer.datagrams (PendingUdpSniff.replay p) in
    1 <= Z.of_nat (length ds) <= 8 /\ zlen (concat ds) <= Z.max 65536 (zlen (hd [] ds)) /\
    0 <= PendingUdpSniff.no_clue_attempts p < 2) /\
  forall k p, Loop.pending (reap_pending_udp_sniff creates map_iter now w) !! k = Some p ->
    Loop.pending w !! k = Some p /\ now < PendingUdpSniff.deadline p.
Proof.
  intros Hiter E.
  destruct (run_loop_ok direct creates map_iter mode timeout sniffers Hiter ops loop_new loop_new_wf) as (w' & E' & Hw & Hr & _).
  { by unfold room. }
  rewrite E in E'. injection E' as <-. split; [exact Hr|].
  split; [|edestruct reap_spec as (_ & _ & _ & _ & Hreap); [exact Hiter|exact Hw|exact Hreap]].
  intros k p Hp. destruct (wl_pending w Hw k p Hp) as [_ Hno _ Hc _ Hm Hn]. by split_and!.
Qed.

(** C7: end to end, in full mode: when a client's QUIC Initial packets carry a
    ClientHello over at most eight datagrams and 64 KiB (fragments in any
    order, overlapping or repeated), all before the deadline of the first, then
    for a flow without a session that is not routed direct by its address, no
    datagram leaves the loop before the host name is known, and as soon as it
    is, all the datagrams so far leave in order, under a specification that
    carries the host name. *)
Theorem quic_flow_gets_host (C : QuicCrypto) (seal : aes128gcm C -> bytes -> bytes -> bytes -> bytes)
    `{!QuicSealLaws C seal} body host dcid ds (l : list (Z * bytes))
    direct creates map_iter timeout spec (w : loop QuicCryptoReassembly) :
  zlen (handshake_message body) <= QUIC_CRYPTO_REASSEMBLY_CAP ->
  parse_sni_from_client_hello_body body = Ok host ->
  Forall2 (datagram_of C seal body dcid) ds (map snd l) ->
  (forall i, 0 <= i < zlen (handshake_message body) -> Exists (in_fragment i) (concat (map packet_fragments ds))) ->
  (length l <= 8)%nat -> zlen (concat (map snd l)) <= UDP_SNIFF_MAX_CACHED_BYTES ->
  (forall t, fst <$> head l = Some t -> Forall (fun e => e.1 < t + timeout) l) ->
  Loop.closed w = false -> Loop.sessions w !! UdpSessionSpec.key spec = None -> Loop.pending w !! UdpSessionSpec.key spec = None ->
  Z.of_nat (size (Loop.pending w)) < UDP_SNIFF_MAX_PENDING_SESSIONS -> direct spec = false ->
  let run := run_loop (session := quic_session C) direct creates map_iter QuicSniffMode.Full timeout [QuicSniUdpSniffer] w in
  exists l1 l2 w' evs, l = l1 ++ l2 /\ run (packets spec l1) = Ok w' /\
    Loop.log w' = Loop.log w ++ evs /\ Forall2 (delivered (with_host spec host)) (map snd l1) evs /\
    forall l0 e l3, l1 = l0 ++ e :: l3 -> exists w0, run (packets spec l0) = Ok w0 /\ Loop.log w0 = Loop.log w.
Proof.
  intros Hcap Hb Hd Hcover Hlen Hz Ht Hc Hs Hp Hroom Hdir run.
  assert (exists proto, feed_all C reassembly_new (map snd l) = Ok (UdpSniffOutcome.Matched proto host)) as [proto Hfeed].
  { exists QuicSni. assert (forall i, ~ covered reassembly_new i) as Hnew.
    { intros i Hi. apply get_nonneg in Hi. change (zlen (present reassembly_new)) with 0 in Hi. lia. }
    destruct (feed_all_ok C seal body host dcid Hcap Hb ds (map snd l) reassembly_new Hd) as [H1 _].
    - apply session_new.
    - intros Hcomp. apply (Hnew 0), Hcomp. rewrite zlen_handshake_message. zlen_lia.
    - apply H1. intros i Hi. left. by apply Hcover. }
  apply feed_all_last in Hfeed as (a & b & Hab & Hsn). apply fmap_app_inv in Hab as (l1 & l2 & -> & -> & ->).
  destruct (new_flow (session := quic_session C) direct creates map_iter QuicSniffMode.Full timeout [QuicSniUdpSniffer] QuicSniUdpSniffer spec host l1 w)
    as [(w' & evs & Hrun & Hlog & Hevs) Hsil]; try done.
  - rewrite length_app in Hlen. lia.
  - rewrite map_app, concat_app in Hz. unfold zlen in *. rewrite length_app in Hz. lia.
  - intros t Hhead. destruct l1 as [|e l1]; [done|]. specialize (Ht t Hhead). by apply Forall_app in Ht as [? _].
  - exists l1, l2, w', evs. by split_and!.
Qed.

(** ** Witnesses *)

Definition example_iter {V} (m : gmap session_key V) : list (session_key * V) := map_to_list m.
Definition example_spec : session_spec :=
  for_tproxy {| sa_ip := V4 1; sa_port := 5000 |} {| sa_ip := V4 2; sa_port := 443 |}.
Definition example_arrivals : list (Z * bytes) := imap (fun i d => (Z.of_nat i, d)) example_bytes.
Definition example_loop : loop QuicCryptoReassembly := loop_new.
Definition example_run (ops : list LoopOp) : pure_res (loop QuicCryptoReassembly) :=
  run_loop (session := quic_session toy_crypto) (fun _ => false) (fun _ _ => true) example_iter QuicSniffMode.Full 200 [QuicSniUdpSniffer] loop_new ops.

Lemma example_iter_perm V (m : gmap session_key V) : example_iter m ≡ₚ map_to_list m.
Proof. done. Qed.

Lemma udp_flows_in_order_witness :
  exists w, example_run (packets example_spec example_arrivals) = Ok w /\
    received (UdpSessionSpec.key example_spec) false (packets example_spec example_arrivals) = example_bytes /\
    logged (UdpSessionSpec.key example_spec) w ++ waiting (UdpSessionSpec.key example_spec) w = example_bytes.
Proof.
  destruct (udp_flows_in_order (session := quic_session toy_crypto) (laws := quic_session_laws toy_crypto) (fun _ => false) (fun _ _ => true)
    example_iter QuicSniffMode.Full 200 [QuicSniUdpSniffer] (packets example_spec example_arrivals) (example_iter_perm _)) as (w & E & Hseen & _).
  exists w. split; [exact E|]. rewrite <- Hseen. split; vm_compute; reflexivity.
Defined.

Lemma udp_pending_bounded_witness :
  exists w, example_run (take 1 (packets example_spec example_arrivals)) = Ok w /\
    size (Loop.pending w) = 1%nat /\ Z.of_nat (size (Loop.pending w)) <= 4096.
Proof.
  assert (exists w, example_run (take 1 (packets example_spec example_arrivals)) = Ok w /\ size (Loop.pending w) = 1%nat) as (w & E & Hsize).
  { eexists. split; [vm_compute; reflexivity|vm_compute; reflexivity]. }
  exists w. split; [done|]. split; [done|].
  exact (proj1 (udp_pending_bounded (session := quic_session toy_crypto) (laws := quic_session_laws toy_crypto) (fun _ => false) (fun _ _ => true)
    example_iter QuicSniffMode.Full 200 [QuicSniUdpSniffer] _ 0 w (example_iter_perm _) E)).
Defined.

Lemma quic_flow_gets_host_witness :
  exists l1 l2 w' evs, example_arrivals = l1 ++ l2 /\ example_run (packets example_spec l1) = Ok w' /\
    Loop.log w' = evs /\ Forall2 (delivered (with_host example_spec (bs "example.com"))) (map snd l1) evs.
Proof.
  destruct (quic_flow_gets_host toy_crypto toy_seal example_body (bs "example.com") (bs "clientid") example_datagrams example_arrivals
    (fun _ => false) (fun _ _ => true) example_iter 200 example_spec example_loop) as (l1 & l2 & w' & evs & El & Hrun & Hlog & Hevs & _); try done.
  - exact example_datagrams_ok.
  - intros i Hi. change (zlen (handshake_message example_body)) with 72 in Hi.
    change (concat (map packet_fragments example_datagrams)) with
      [(40, default [] (slice example_message 40 72)); (20, default [] (slice example_message 20 40));
       (0, default [] (slice example_message 0 30))].
    assert (40 <= i < 40 + 32 \/ 20 <= i < 20 + 20 \/ 0 <= i < 0 + 30) as [H|[H|H]] by lia;
      [left; exact H|right; left; exact H|right; right; left; exact H].
  - vm_compute. lia.
  - intros t [= <-]. repeat constructor; cbn; lia.
  - exists l1, l2, w', evs. done.
Defined.
