(* ===== verification/Sessions.v ===== *)
(** The table of UDP sessions, [UdpRuntime] of [src/src/udp/mod.rs], shared by
    the tasks of packets, receive loops, the collector of idle sessions and
    the shutdown. Every section of code that holds the lock of the table is a
    function on the state; the tasks interleave at these sections, as the rules
    of [step]. A session, and the [Notify] of one being created, is a number. *)

From S2P Require Import Prelude Bytes Config Udp.

Inductive UdpSessionEntry :=
  | Creating (creator : nat)
  | Ready (session : nat).

#[global] Instance udp_session_entry_eq_decision : EqDecision UdpSessionEntry.
Proof. solve_decision. Defined.

Module UdpRuntime.
Record UdpRuntime := {
  sessions : gmap session_key UdpSessionEntry;
  closed : bool;
}.
End UdpRuntime.

(** Where a task that creates a session stands: waiting for
    [create_udp_session], or holding the session it returned. *)
Inductive Creation := Waiting | Created (session : nat).

(** The runtime and its tasks: the creators, the receive loops (with a flag
    once they have returned and cancelled their session), the cancelled
    sessions, and whether [shutdown] has emptied the table. *)
Record Sessions := {
  runtime : UdpRuntime.UdpRuntime;
  creators : gmap nat (session_key * Creation);
  recv_loops : gmap nat (session_key * bool);
  cancelled : gset nat;
  cleared : bool;
}.

Definition sessions_new : Sessions := {|
  runtime := {| UdpRuntime.sessions := ∅; UdpRuntime.closed := false |};
  creators := ∅; recv_loops := ∅; cancelled := ∅; cleared := false |}.

Definition entries (st : Sessions) : gmap session_key UdpSessionEntry := UdpRuntime.sessions (runtime st).
Definition is_closed (st : Sessions) : bool := UdpRuntime.closed (runtime st).
Definition with_entries (st : Sessions) (m : gmap session_key UdpSessionEntry) : Sessions := {|
  runtime := {| UdpRuntime.sessions := m; UdpRuntime.closed := is_closed st |};
  creators := creators st; recv_loops := recv_loops st; cancelled := cancelled st; cleared := cleared st |}.
Definition with_tasks (st : Sessions) (cs : gmap nat (session_key * Creation)) (ls : gmap nat (session_key * bool))
    (cancelled : gset nat) : Sessions := {|
  runtime := runtime st; creators := cs; recv_loops := ls; cancelled := cancelled; cleared := cleared st |}.

(** * The sections under the lock *)

(** The lookup of [get_or_create_udp_session]. *)
Inductive Lookup := ShuttingDown | Reuse (session : nat) | Wait (creator : nat) | Create.
Definition lookup_or_claim (st : Sessions) (key : session_key) (creator : nat) : Lookup * Sessions :=
  if is_closed st then (ShuttingDown, st)
  else
    match entries st !! key with
    | Some (Ready session) => (Reuse session, st)
    | Some (Creating c) => (Wait c, st)
    | None =>
        (Create, with_tasks (with_entries st (<[key := Creating creator]> (entries st)))
          (<[creator := (key, Waiting)]> (creators st)) (recv_loops st) (cancelled st))
    end.

(** Its end, with what [create_udp_session] returned; a failed or panicked
    creation is [None]. *)
Definition finish_creation (st : Sessions) (creator : nat) (key : session_key) (created : option nat) : option nat * Sessions :=
  let cs := delete creator (creators st) in
  let removed := with_entries st (delete key (entries st)) in
  if is_closed st then
    match created with
    | Some session => (None, with_tasks removed cs (recv_loops st) ({[session]} ∪ cancelled st))
    | None => (None, with_tasks removed cs (recv_loops st) (cancelled st))
    end
  else
    match created with
    | Some session =>
        if bool_decide (session ∈ cancelled st) then (None, with_tasks removed cs (recv_loops st) (cancelled st))
        else (Some session, with_tasks (with_entries st (<[key := Ready session]> (entries st))) cs (recv_loops st) (cancelled st))
    | None => (None, with_tasks removed cs (recv_loops st) (cancelled st))
    end.

(** The end of a receive task: the session is cancelled first, and taken out
    of the table, if it is there, under the lock. *)
Definition recv_cancel (st : Sessions) (session : nat) (key : session_key) : Sessions :=
  with_tasks st (creators st) (<[session := (key, true)]> (recv_loops st)) ({[session]} ∪ cancelled st).
Definition recv_remove (st : Sessions) (session : nat) (key : session_key) : Sessions :=
  let st' := with_tasks st (creators st) (delete session (recv_loops st)) (cancelled st) in
  if bool_decide (entries st !! key = Some (Ready session)) then with_entries st' (delete key (entries st)) else st'.

(** The second loop of [cleanup_expired_sessions], over the sessions that
    looked expired; [expired] reads the last use again. The lock of the entry
    keeps the table as it is from that reading to the removal, but not the last
    use, which [touch] stores without it: [SessionLife] has the two apart. *)
Definition cleanup_one (expired : nat -> bool) (st : Sessions) (e : session_key * nat) : Sessions :=
  if bool_decide (entries st !! e.1 = Some (Ready e.2)) && expired e.2 then
    with_tasks (with_entries st (delete e.1 (entries st))) (creators st) (recv_loops st) ({[e.2]} ∪ cancelled st)
  else st.
Definition cleanup_expired (expired : nat -> bool) (snapshot : list (session_key * nat)) (st : Sessions) : Sessions :=
  foldl (cleanup_one expired) st snapshot.

Definition get_ready_udp_session (st : Sessions) (key : session_key) : option nat :=
  match entries st !! key with Some (Ready session) => Some session | _ => None end.

(** [shutdown]: the flag, then the table. *)
Definition shutdown_flag (st : Sessions) : Sessions := {|
  runtime := {| UdpRuntime.sessions := entries st; UdpRuntime.closed := true |};
  creators := creators st; recv_loops := recv_loops st; cancelled := cancelled st; cleared := cleared st |}.
Definition ready_sessions (m : gmap session_key UdpSessionEntry) : gset nat :=
  list_to_set (omap (fun e => match e.2 with Ready s => Some s | Creating _ => None end) (map_to_list m)).
Definition shutdown_clear (st : Sessions) : Sessions := {|
  runtime := {| UdpRuntime.sessions := ∅; UdpRuntime.closed := is_closed st |};
  creators := creators st; recv_loops := recv_loops st; cancelled := ready_sessions (entries st) ∪ cancelled st; cleared := true |}.

(** * The interleaving of the tasks *)

Inductive step : Sessions -> Sessions -> Prop :=
  | step_claim st key creator st' :
      creators st !! creator = None -> lookup_or_claim st key creator = (Create, st') -> step st st'
  (** [create_udp_session] spawns the receive loop before it returns. *)
  | step_created st creator key session :
      creators st !! creator = Some (key, Waiting) -> recv_loops st !! session = None -> session ∉ cancelled st ->
      (forall c k, creators st !! c <> Some (k, Created session)) ->
      step st (with_tasks st (<[creator := (key, Created session)]> (creators st)) (<[session := (key, false)]> (recv_loops st)) (cancelled st))
  | step_register st creator key session :
      creators st !! creator = Some (key, Created session) -> step st (snd (finish_creation st creator key (Some session)))
  | step_failed st creator key :
      creators st !! creator = Some (key, Waiting) -> step st (snd (finish_creation st creator key None))
  (** A receive loop ends by itself or because its session was cancelled. *)
  | step_recv_cancel st session key : recv_loops st !! session = Some (key, false) -> step st (recv_cancel st session key)
  | step_recv_remove st session key : recv_loops st !! session = Some (key, true) -> step st (recv_remove st session key)
  (** The abort of the task of a cancelled session that is no longer in the table. *)
  | step_abort st session key b :
      recv_loops st !! session = Some (key, b) -> session ∈ cancelled st -> entries st !! key <> Some (Ready session) ->
      step st (with_tasks st (creators st) (delete session (recv_loops st)) (cancelled st))
  | step_cleanup st expired snapshot : step st (cleanup_expired expired snapshot st)
  | step_close st : step st (shutdown_flag st)
  | step_clear st : is_closed st = true -> step st (shutdown_clear st).

Inductive reachable : Sessions -> Prop :=
  | reachable_new : reachable sessions_new
  | reachable_step st st' : reachable st -> step st st' -> reachable st'.

(** * The invariant *)

Record inv (st : Sessions) : Prop := {
  inv_ready k s : entries st !! k = Some (Ready s) ->
    exists b, recv_loops st !! s = Some (k, b) /\ (b = false -> s ∉ cancelled st);
  inv_creating : cleared st = false -> forall k c,
    entries st !! k = Some (Creating c) <-> exists x, creators st !! c = Some (k, x);
  inv_key c c' k x x' : creators st !! c = Some (k, x) -> creators st !! c' = Some (k, x') -> c = c';
  inv_created c k s : creators st !! c = Some (k, Created s) ->
    (s ∈ cancelled st \/ exists b, recv_loops st !! s = Some (k, b)) /\
    (forall k', entries st !! k' <> Some (Ready s)) /\
    (forall c' k', creators st !! c' = Some (k', Created s) -> c' = c);
  inv_returned s k : recv_loops st !! s = Some (k, true) -> s ∈ cancelled st;
  inv_owner s k b : recv_loops st !! s = Some (k, b) -> s ∉ cancelled st ->
    entries st !! k = Some (Ready s) \/ exists c, creators st !! c = Some (k, Created s);
  inv_cleared : cleared st = true -> is_closed st = true /\ entries st = ∅;
}.

Lemma inv_new : inv sessions_new.
Proof. split; cbn; try (intros; exfalso; by rewrite lookup_empty in *); try done. intros _ k c. rewrite lookup_empty. split; [done|]. by intros [x ?]. Qed.

Lemma not_cleared st : inv st -> is_closed st = false -> cleared st = false.
Proof. intros Hi Hc. destruct (cleared st) eqn:E; [|done]. destruct (inv_cleared st Hi E). congruence. Qed.

Lemma inv_claim st key creator st' :
  inv st -> creators st !! creator = None -> lookup_or_claim st key creator = (Create, st') -> inv st'.
Proof.
  intros Hi Hc. unfold lookup_or_claim. destruct (is_closed st) eqn:Ecl; [done|]. pose proof (not_cleared st Hi Ecl) as Hncl.
  destruct (entries st !! key) as [[c|s]|] eqn:Ek; [done|done|]. intros [= <-].
  pose proof (inv_creating st Hi Hncl) as Hcr. split; cbn.
  - intros k s. rewrite lookup_insert_Some. intros [[_ [=]]|[_ H]]. by apply (inv_ready st Hi).
  - intros _ k c. rewrite !lookup_insert_Some. rewrite Hcr. split.
    + intros [[<- [= <-]]|[Hne [x Hx]]]; [exists Waiting; apply lookup_insert_eq|]. exists x. rewrite lookup_insert_ne; [done|intros <-; congruence].
    + intros [x Hx]. apply lookup_insert_Some in Hx as [[<- [= <- <-]]|[Hne Hx]]; [by left|]. right. split; [|by exists x].
      intros <-. assert (entries st !! key = Some (Creating c)) as H by (apply Hcr; by exists x). congruence.
  - intros c c' k x x'. rewrite !lookup_insert_Some. intros [[<- [= <- <-]]|[Hne H]] [[<- [= ]]|[Hne' H']]; subst; try done.
    + assert (entries st !! key = Some (Creating c')) by (apply Hcr; by exists x'). congruence.
    + assert (entries st !! k = Some (Creating c)) by (apply Hcr; by exists x). congruence.
    + by eapply (inv_key st Hi).
  - intros c k s. rewrite lookup_insert_Some. intros [[_ [= ]]|[Hne H]]. destruct (inv_created st Hi c k s H) as (H1 & H2 & H3).
    split; [done|]. split; [intros k'; rewrite lookup_insert_Some; intros [[_ [=]]|[_ H']]; by apply (H2 k')|].
    intros c' k'. rewrite lookup_insert_Some. intros [[_ [= ]]|[_ H']]. by eapply H3.
  - apply (inv_returned st Hi).
  - intros s k b Hl Hn. destruct (inv_owner st Hi s k b Hl Hn) as [H|[c H]].
    + left. rewrite lookup_insert_Some. right. split; [intros <-; congruence|done].
    + right. exists c. rewrite lookup_insert_Some. right. split; [intros <-; congruence|done].
  - intros H. congruence.
Qed.

Lemma inv_create st creator key session :
  inv st -> creators st !! creator = Some (key, Waiting) -> recv_loops st !! session = None -> session ∉ cancelled st ->
  (forall c k, creators st !! c <> Some (k, Created session)) ->
  inv (with_tasks st (<[creator := (key, Created session)]> (creators st)) (<[session := (key, false)]> (recv_loops st)) (cancelled st)).
Proof.
  intros Hi Hc Hl Hn Hf. assert (forall k, entries st !! k <> Some (Ready session)) as Hnr.
  { intros k H. destruct (inv_ready st Hi k session H) as (b & Hb & _). congruence. }
  split; cbn.
  - intros k s H. destruct (inv_ready st Hi k s H) as (b & Hb & Hbn). exists b. split; [|done]. rewrite lookup_insert_ne; [done|]. intros <-. congruence.
  - intros Hcl k c. change (entries _) with (entries st). rewrite (inv_creating st Hi Hcl). split.
    + intros [x Hx]. destruct (decide (creator = c)) as [<-|Hne]; [|exists x; by rewrite lookup_insert_ne].
      rewrite Hx in Hc. injection Hc as -> ->. eexists. apply lookup_insert_eq.
    + intros [x Hx]. apply lookup_insert_Some in Hx as [[<- [= <- <-]]|[Hne Hx]]; eauto.
  - intros c c' k x x'. rewrite !lookup_insert_Some. intros [[<- [= <- <-]]|[Hne H]] [[<- [= ]]|[Hne' H']]; subst; try done; by eapply (inv_key st Hi).
  - intros c k s. rewrite lookup_insert_Some. intros [[<- [= <- <-]]|[Hne H]].
    + split; [right; exists false; apply lookup_insert_eq|]. split; [done|]. intros c' k'. rewrite lookup_insert_Some.
      intros [[<- _]|[_ H']]; [done|]. by apply Hf in H'.
    + destruct (inv_created st Hi c k s H) as (H1 & H2 & H3). assert (s <> session) as Hs by (intros ->; by apply Hf in H).
      split; [destruct H1 as [?|[b ?]]; [by left|right; exists b; by rewrite lookup_insert_ne]|]. split; [done|].
      intros c' k'. rewrite lookup_insert_Some. intros [[_ [= _ E]]|[_ H']]; [by subst|by eapply H3].
  - intros s k. rewrite lookup_insert_Some. intros [[_ [= ]]|[_ H]]. by apply (inv_returned st Hi s k).
  - intros s k b. rewrite lookup_insert_Some. intros [[<- [= <- <-]]|[Hne H]] Hs.
    + right. exists creator. apply lookup_insert_eq.
    + destruct (inv_owner st Hi s k b H Hs) as [?|[c Hcc]]; [by left|]. right. exists c. rewrite lookup_insert_ne; [done|]. intros <-. congruence.
  - apply (inv_cleared st Hi).
Qed.

Lemma creator_entry st c k x : inv st -> creators st !! c = Some (k, x) -> forall s, entries st !! k <> Some (Ready s).
Proof.
  intros Hi Hc s H. destruct (cleared st) eqn:Ecl.
  - destruct (inv_cleared st Hi Ecl) as [_ E]. by rewrite E, lookup_empty in H.
  - pose proof (proj2 (inv_creating st Hi Ecl k c)) as Hcr. rewrite Hcr in H by eauto. done.
Qed.

(** The end of a creation that leaves no session. *)
Lemma inv_finish_remove st creator key x (X : gset nat) :
  inv st -> creators st !! creator = Some (key, x) -> (forall s, s ∈ X -> x = Created s) ->
  (forall s, x = Created s -> s ∈ X ∪ cancelled st) ->
  inv (with_tasks (with_entries st (delete key (entries st))) (delete creator (creators st)) (recv_loops st) (X ∪ cancelled st)).
Proof.
  intros Hi Hc HX Hx. pose proof (creator_entry st creator key x Hi Hc) as Hnr. split; cbn.
  - intros k s [Hne H]%lookup_delete_Some. destruct (inv_ready st Hi k s H) as (b & Hb & Hbn). exists b. split; [done|]. intros Hf.
    intros [Hs|Hs]%elem_of_union; [|by apply Hbn]. apply HX in Hs as ->. by apply (inv_created st Hi creator key s Hc) in H.
  - intros Hcl k c. rewrite lookup_delete_Some, (inv_creating st Hi Hcl). split.
    + intros [Hne [y Hy]]. exists y. rewrite lookup_delete_ne; [done|]. intros <-. congruence.
    + intros [y [Hne Hy]%lookup_delete_Some]. split; [|eauto]. intros <-. apply Hne. by eapply (inv_key st Hi).
  - intros c c' k y y' [_ H]%lookup_delete_Some [_ H']%lookup_delete_Some. by eapply (inv_key st Hi).
  - intros c k s [Hne H]%lookup_delete_Some. destruct (inv_created st Hi c k s H) as (H1 & H2 & H3). split; [|split].
    + destruct H1 as [?|?]; [left; by apply elem_of_union_r|by right].
    + intros k' [_ H']%lookup_delete_Some. by apply H2 in H'.
    + intros c' k' [_ H']%lookup_delete_Some. by eapply H3.
  - intros s k H. apply elem_of_union_r. by apply (inv_returned st Hi s k).
  - intros s k b Hl Hs. apply not_elem_of_union in Hs as [HsX Hs]. destruct (inv_owner st Hi s k b Hl Hs) as [H|[c H]].
    + left. rewrite lookup_delete_ne; [done|]. intros <-. by apply Hnr in H.
    + right. exists c. rewrite lookup_delete_ne; [done|]. intros <-. rewrite Hc in H. injection H as <- ->.
      specialize (Hx s eq_refl). apply elem_of_union in Hx as [?|?]; done.
  - intros Hcl. destruct (inv_cleared st Hi Hcl) as [? E]. split; [done|]. change (delete key (entries st) = ∅). by rewrite E, delete_empty.
Qed.

Lemma inv_register st creator key session :
  inv st -> creators st !! creator = Some (key, Created session) -> is_closed st = false -> session ∉ cancelled st ->
  inv (with_tasks (with_entries st (<[key := Ready session]> (entries st))) (delete creator (creators st)) (recv_loops st) (cancelled st)).
Proof.
  intros Hi Hc Hcl Hs. pose proof (not_cleared st Hi Hcl) as Hncl. pose proof (creator_entry st creator key _ Hi Hc) as Hnr.
  destruct (inv_created st Hi creator key session Hc) as ([?|[b Hb]] & Hnot & Huniq); [done|]. split; cbn.
  - intros k s. rewrite lookup_insert_Some. intros [[<- [= <-]]|[Hne H]]; [by exists b|]. by apply (inv_ready st Hi).
  - intros _ k c. rewrite lookup_insert_Some, (inv_creating st Hi Hncl). split.
    + intros [[_ [=]]|[Hne [x Hx]]]. exists x. rewrite lookup_delete_ne; [done|]. intros <-. congruence.
    + intros [x [Hne Hx]%lookup_delete_Some]. right. split; [|eauto]. intros <-. apply Hne. by eapply (inv_key st Hi).
  - intros c c' k y y' [_ H]%lookup_delete_Some [_ H']%lookup_delete_Some. by eapply (inv_key st Hi).
  - intros c k s [Hne H]%lookup_delete_Some. destruct (inv_created st Hi c k s H) as (H1 & H2 & H3). split; [done|]. split.
    + intros k'. rewrite lookup_insert_Some. intros [[<- [= <-]]|[_ H']]; [by apply Huniq in H|by apply H2 in H'].
    + intros c' k' [_ H']%lookup_delete_Some. by eapply H3.
  - apply (inv_returned st Hi).
  - intros s k b' Hl Hsn. destruct (inv_owner st Hi s k b' Hl Hsn) as [H|[c H]].
    + left. rewrite lookup_insert_ne; [done|]. intros <-. by apply Hnr in H.
    + destruct (decide (c = creator)) as [->|Hne]; [left|right; exists c; by rewrite lookup_delete_ne].
      rewrite Hc in H. injection H as <- <-. apply lookup_insert_eq.
  - intros H. congruence.
Qed.

Lemma inv_finish st creator key x created :
  inv st -> creators st !! creator = Some (key, x) -> (created = None /\ x = Waiting \/ exists s, created = Some s /\ x = Created s) ->
  inv (snd (finish_creation st creator key created)).
Proof.
  intros Hi Hc Hx. unfold finish_creation.
  assert (forall s, x = Created s -> s ∈ cancelled st ->
    inv (with_tasks (with_entries st (delete key (entries st))) (delete creator (creators st)) (recv_loops st) (cancelled st))) as Hin.
  { intros s -> Hs. rewrite <- (union_empty_l_L (cancelled st)). apply (inv_finish_remove st creator key (Created s)); try done.
    intros s' [= <-]. by apply elem_of_union_r. }
  assert (x = Waiting ->
    inv (with_tasks (with_entries st (delete key (entries st))) (delete creator (creators st)) (recv_loops st) (cancelled st))) as Hwait.
  { intros ->. rewrite <- (union_empty_l_L (cancelled st)). apply (inv_finish_remove st creator key Waiting); try done; set_solver. }
  destruct (is_closed st) eqn:Ecl; (destruct Hx as [[-> Hw]|(s & -> & Hs)]; [by apply Hwait|]); cbn [snd].
  - apply (inv_finish_remove st creator key x); [done|done| |].
    + intros s' ->%elem_of_singleton. done.
    + intros s' ->. injection Hs as ->. by apply elem_of_union_l, elem_of_singleton.
  - case_bool_decide as Hcan; cbn [snd]; [by eapply Hin|]. subst x. by apply inv_register.
Qed.

Lemma inv_recv_cancel st session key : inv st -> recv_loops st !! session = Some (key, false) -> inv (recv_cancel st session key).
Proof.
  intros Hi Hl. split; cbn.
  - intros k s H. destruct (inv_ready st Hi k s H) as (b & Hb & Hbn). destruct (decide (s = session)) as [->|Hne].
    + exists true. rewrite Hl in Hb. injection Hb as <- <-. split; [apply lookup_insert_eq|done].
    + exists b. rewrite lookup_insert_ne by done. split; [done|]. intros Hf. apply not_elem_of_union. split; [by apply not_elem_of_singleton|by apply Hbn].
  - apply (inv_creating st Hi).
  - apply (inv_key st Hi).
  - intros c k s H. destruct (inv_created st Hi c k s H) as (H1 & H2 & H3). split; [|done].
    destruct (decide (s = session)) as [->|Hne]; [left; by apply elem_of_union_l, elem_of_singleton|].
    destruct H1 as [?|[b Hb]]; [left; by apply elem_of_union_r|right; exists b; by rewrite lookup_insert_ne].
  - intros s k. rewrite lookup_insert_Some. intros [[<- _]|[_ H]]; [by apply elem_of_union_l, elem_of_singleton|].
    apply elem_of_union_r. by apply (inv_returned st Hi s k).
  - intros s k b. rewrite lookup_insert_Some. intros [[<- _]|[_ H]] Hs; apply not_elem_of_union in Hs as [Hs1 Hs2].
    + exfalso. by apply Hs1, elem_of_singleton.
    + by apply (inv_owner st Hi s k b).
  - apply (inv_cleared st Hi).
Qed.

(** A cancelled session's receive task goes away, with its entry if any. *)
Lemma inv_drop_loop st session key b m :
  inv st -> recv_loops st !! session = Some (key, b) -> session ∈ cancelled st ->
  (m = delete key (entries st) /\ entries st !! key = Some (Ready session) \/ m = entries st /\ entries st !! key <> Some (Ready session)) ->
  inv (with_entries (with_tasks st (creators st) (delete session (recv_loops st)) (cancelled st)) m).
Proof.
  intros Hi Hl Hs Hm.
  assert (forall k x, m !! k = Some x -> entries st !! k = Some x) as Hsub.
  { destruct Hm as [[-> _]|[-> _]]; [|done]. by intros k x [_ H]%lookup_delete_Some. }
  assert (forall k, m !! k <> Some (Ready session)) as Hgone.
  { intros k H. pose proof (Hsub k _ H) as H'. destruct (inv_ready st Hi k session H') as (b' & Hb & _). rewrite Hl in Hb. injection Hb as <- <-.
    destruct Hm as [[-> _]|[-> Hno]]; [by rewrite lookup_delete_eq in H|done]. }
  assert (forall k c, entries st !! k = Some (Creating c) <-> m !! k = Some (Creating c)) as Hcr.
  { intros k c. destruct Hm as [[-> E]|[-> _]]; [|done]. rewrite lookup_delete_Some. split; [|by intros [_ ?]]. intros H. split; [|done].
    intros <-. congruence. }
  assert (forall k s, s <> session -> entries st !! k = Some (Ready s) -> m !! k = Some (Ready s)) as Hkeep.
  { intros k s Hne H. destruct Hm as [[-> E]|[-> _]]; [|done]. rewrite lookup_delete_ne; [done|]. intros <-. congruence. }
  split; cbn.
  - intros k s H. destruct (inv_ready st Hi k s (Hsub k _ H)) as (b' & Hb & Hbn). exists b'. split; [|done].
    rewrite lookup_delete_ne; [done|]. intros <-. by apply Hgone in H.
  - intros Hcl k c. change (entries _) with m. rewrite <- Hcr. by apply (inv_creating st Hi).
  - apply (inv_key st Hi).
  - intros c k s H. destruct (inv_created st Hi c k s H) as (H1 & H2 & H3). split; [|split; [|done]].
    + destruct (decide (s = session)) as [->|Hne]; [by left|]. destruct H1 as [?|[b' Hb]]; [by left|].
      right. exists b'. by rewrite lookup_delete_ne.
    + intros k' H'. by apply (H2 k'), Hsub.
  - intros s k [_ H]%lookup_delete_Some. by apply (inv_returned st Hi s k).
  - intros s k b' [Hne H]%lookup_delete_Some Hsn. destruct (inv_owner st Hi s k b' H Hsn) as [?|?]; [left|by right]. by apply Hkeep.
  - intros Hcl. destruct (inv_cleared st Hi Hcl) as [? E]. split; [done|]. change (m = ∅). apply map_empty. intros k.
    destruct (m !! k) as [x|] eqn:Ex; [|done]. apply Hsub in Ex. by rewrite E, lookup_empty in Ex.
Qed.

Lemma inv_cleanup_one expired st e : inv st -> inv (cleanup_one expired st e).
Proof.
  intros Hi. destruct e as [key session]. unfold cleanup_one. cbn [fst snd].
  destruct (bool_decide_reflect (entries st !! key = Some (Ready session))) as [Hr|]; [|done]. destruct (expired session); [|done]. cbn [andb].
  destruct (inv_ready st Hi key session Hr) as (b & Hb & _).
  assert (forall k s, entries st !! k = Some (Ready s) -> k <> key -> s <> session) as Huniq.
  { intros k s H Hne ->. destruct (inv_ready st Hi k session H) as (b' & Hb' & _). congruence. }
  split; cbn.
  - intros k s [Hne H]%lookup_delete_Some. destruct (inv_ready st Hi k s H) as (b' & Hb' & Hbn). exists b'. split; [done|].
    intros Hf. apply not_elem_of_union. split; [|by apply Hbn]. apply not_elem_of_singleton. by apply (Huniq k).
  - intros Hcl k c. rewrite lookup_delete_Some. rewrite <- (inv_creating st Hi Hcl k c). split; [by intros [_ ?]|]. intros H. split; [|done].
    intros <-. congruence.
  - apply (inv_key st Hi).
  - intros c k s H. destruct (inv_created st Hi c k s H) as (H1 & H2 & H3). split; [|split; [|done]].
    + destruct H1 as [?|?]; [left; by apply elem_of_union_r|by right].
    + intros k' [_ H']%lookup_delete_Some. by apply H2 in H'.
  - intros s k H. apply elem_of_union_r. by apply (inv_returned st Hi s k).
  - intros s k b' Hl Hs. apply not_elem_of_union in Hs as [Hs1 Hs2]. destruct (inv_owner st Hi s k b' Hl Hs2) as [H|?]; [left|by right].
    rewrite lookup_delete_ne; [done|]. intros <-. apply Hs1, elem_of_singleton. congruence.
  - intros Hcl. destruct (inv_cleared st Hi Hcl) as [_ E]. by rewrite E, lookup_empty in Hr.
Qed.

Lemma inv_shutdown_clear st : inv st -> is_closed st = true -> inv (shutdown_clear st).
Proof.
  intros Hi Hcl. assert (forall k s, entries st !! k = Some (Ready s) -> s ∈ ready_sessions (entries st)) as Hready.
  { intros k s H. unfold ready_sessions. apply elem_of_list_to_set, list_elem_of_omap. exists (k, Ready s). split; [|done]. by apply elem_of_map_to_list. }
  split; cbn.
  - intros k s H. by rewrite lookup_empty in H.
  - done.
  - apply (inv_key st Hi).
  - intros c k s H. destruct (inv_created st Hi c k s H) as (H1 & H2 & H3). split; [|split; [|done]].
    + destruct H1 as [?|?]; [left; by apply elem_of_union_r|by right].
    + intros k' H'. by rewrite lookup_empty in H'.
  - intros s k H. apply elem_of_union_r. by apply (inv_returned st Hi s k).
  - intros s k b Hl Hs. apply not_elem_of_union in Hs as [Hs1 Hs2]. destruct (inv_owner st Hi s k b Hl Hs2) as [H|?]; [|by right].
    by apply Hready in H.
  - done.
Qed.

Lemma with_entries_id st : with_entries st (entries st) = st.
Proof. by destruct st as [[]]. Qed.

Lemma inv_step st st' : inv st -> step st st' -> inv st'.
Proof.
  intros Hi Hstep. destruct Hstep.
  - by eapply inv_claim.
  - by apply inv_create.
  - eapply inv_finish; eauto.
  - eapply inv_finish; eauto.
  - by apply inv_recv_cancel.
  - pose proof (inv_returned st Hi session key H) as Hc. unfold recv_remove.
    destruct (bool_decide_reflect (entries st !! key = Some (Ready session))) as [E|E].
    + apply (inv_drop_loop st session key true); auto.
    + rewrite <- with_entries_id. apply (inv_drop_loop st session key true (entries st)); auto.
  - rewrite <- with_entries_id. apply (inv_drop_loop st session key b (entries st)); auto.
  - unfold cleanup_expired. revert st Hi. induction snapshot as [|e snapshot IH]; intros st Hi; [done|]. cbn [foldl]. by apply IH, inv_cleanup_one.
  - destruct Hi. split; try done. cbn. intros Hcl. split; [done|]. by destruct (inv_cleared0 Hcl).
  - by apply inv_shutdown_clear.
Qed.

Lemma reachable_inv st : reachable st -> inv st.
Proof. induction 1 as [|st st' _ IH Hstep]; [apply inv_new|by eapply inv_step]. Qed.

(** * Creations whose caller is aborted *)

(** [get_or_create_udp_session] waits for a creation in a task of its own. Its
    caller is a packet task, which nobody aborts, or a listener that reaps,
    which [TaskGuard::shutdown] aborts when it takes too long. The creation
    then goes on, but nobody is left to register or to cancel its session, nor
    to take the claim out of the table. [aborted] has these creations; they
    remain in [creators]. *)
Record Callers := { live : Sessions; aborted : gset nat }.
Inductive callers_step : Callers -> Callers -> Prop :=
  | callers_live w st' :
      step (live w) st' -> aborted w ⊆ dom (creators st') -> callers_step w {| live := st'; aborted := aborted w |}
  | callers_abort w creator :
      creator ∈ dom (creators (live w)) -> callers_step w {| live := live w; aborted := {[creator]} ∪ aborted w |}.
Inductive callers_reachable : Callers -> Prop :=
  | callers_reachable_new : callers_reachable {| live := sessions_new; aborted := ∅ |}
  | callers_reachable_step w w' : callers_reachable w -> callers_step w w' -> callers_reachable w'.

Lemma callers_reachable_live w : callers_reachable w -> reachable (live w) /\ aborted w ⊆ dom (creators (live w)).
Proof.
  induction 1 as [|w w' _ [IH Ha] Hstep]; [by split; [apply reachable_new|apply empty_subseteq]|]. destruct Hstep as [w st' Hs Hd|w c Hc].
  - split; [by eapply reachable_step|done].
  - split; [done|]. cbn. set_solver.
Qed.

(** * Theorems *)

(** C14: the session table is safe under every interleaving of packet tasks,
    receive loops, the collector and the shutdown, which may abort a listener
    that waits for a creation. A session that a lookup returns has a receive
    loop, and is not cancelled unless that loop has already returned and is
    about to take it out; a key that is being created has a creation, which
    finishes by registering or removing the claim unless its caller has been
    aborted; at no time do two sessions of one key run uncancelled. After the
    shutdown has emptied the table it stays empty and every lookup is refused;
    every session that then still runs has been cancelled, is about to be by
    the caller that created it, or is that of a creation whose caller was
    aborted: no other is leaked. *)
Theorem udp_sessions_safe w :
  callers_reachable w ->
  (forall k s, get_ready_udp_session (live w) k = Some s ->
    exists returned, recv_loops (live w) !! s = Some (k, returned) /\ (returned = false -> s ∉ cancelled (live w))) /\
  (cleared (live w) = false -> forall k c, entries (live w) !! k = Some (Creating c) <-> exists x, creators (live w) !! c = Some (k, x)) /\
  (forall k c x created, creators (live w) !! c = Some (k, x) -> c ∉ aborted w ->
    x = Waiting /\ created = None \/ (exists s, x = Created s /\ created = Some s) ->
    callers_step w {| live := (finish_creation (live w) c k created).2; aborted := aborted w |}) /\
  (forall k s1 s2 b1 b2, recv_loops (live w) !! s1 = Some (k, b1) -> recv_loops (live w) !! s2 = Some (k, b2) ->
    s1 ∉ cancelled (live w) -> s2 ∉ cancelled (live w) -> s1 = s2) /\
  (cleared (live w) = true ->
    entries (live w) = ∅ /\ (forall k c, fst (lookup_or_claim (live w) k c) = ShuttingDown) /\
    forall s k b, recv_loops (live w) !! s = Some (k, b) -> s ∉ cancelled (live w) ->
      exists c, creators (live w) !! c = Some (k, Created s) /\
        (c ∉ aborted w -> s ∈ cancelled (finish_creation (live w) c k (Some s)).2)).
Proof.
  intros Hw. destruct (callers_reachable_live w Hw) as [Hr Ha]. pose proof (reachable_inv _ Hr) as Hi. set (st := live w) in *.
  split; [|split; [by apply inv_creating|split; [|split]]].
  - intros k s. unfold get_ready_udp_session. destruct (entries st !! k) as [[|s']|] eqn:E; try done. intros [= ->]. by apply (inv_ready st Hi).
  - intros k c x created Hc Hn Hx. apply callers_live; fold st.
    + destruct Hx as [[-> ->]|(s & -> & ->)]; [by apply step_failed|by apply step_register].
    + assert (creators (finish_creation st c k created).2 = delete c (creators st)) as ->
        by (unfold finish_creation; destruct (is_closed st), created; try done; by case_bool_decide).
      rewrite dom_delete_L. set_solver.
  - intros k s1 s2 b1 b2 H1 H2 N1 N2.
    destruct (inv_owner st Hi s1 k b1 H1 N1) as [E1|[c1 E1]], (inv_owner st Hi s2 k b2 H2 N2) as [E2|[c2 E2]].
    + congruence.
    + by apply (creator_entry st c2 k _ Hi E2) in E1.
    + by apply (creator_entry st c1 k _ Hi E1) in E2.
    + pose proof (inv_key st Hi c1 c2 k _ _ E1 E2). congruence.
  - intros Hcl. destruct (inv_cleared st Hi Hcl) as [Hclosed E]. split; [done|]. split.
    + intros k c. unfold lookup_or_claim. by rewrite Hclosed.
    + intros s k b Hl Hn. destruct (inv_owner st Hi s k b Hl Hn) as [H|[c H]]; [by rewrite E, lookup_empty in H|].
      exists c. split; [done|]. intros _. unfold finish_creation. rewrite Hclosed. cbn. by apply elem_of_union_l, elem_of_singleton.
Qed.

(** A session is created while the table is shut down. *)
Definition example_key : session_key := UdpSessionSpec.key (for_tproxy {| sa_ip := V4 1; sa_port := 5000 |} {| sa_ip := V4 2; sa_port := 53 |}).
Definition example_claimed : Sessions := snd (lookup_or_claim sessions_new example_key 0).
Definition example_created : Sessions :=
  with_tasks example_claimed (<[0%nat := (example_key, Created 7)]> (creators example_claimed))
    (<[7%nat := (example_key, false)]> (recv_loops example_claimed)) (cancelled example_claimed).
Definition example_cleared : Sessions := shutdown_clear (shutdown_flag example_created).
(** The listener that waits for the creation is aborted or not. *)
Definition example_left (a : bool) (st : Sessions) : Callers := {| live := st; aborted := if a then {[0%nat]} else ∅ |}.

Lemma example_created_step : step example_claimed example_created.
Proof.
  apply (step_created _ 0 example_key 7); [reflexivity|reflexivity|apply not_elem_of_empty|]. intros c k H.
  change (creators example_claimed) with ({[0%nat := (example_key, Waiting)]} : gmap nat (session_key * Creation)) in H.
  by apply lookup_singleton_Some in H as [_ [=]].
Qed.
Lemma example_cleared_reachable a : callers_reachable (example_left a example_cleared).
Proof.
  assert (forall st st', step st st' -> dom (creators st') = {[0%nat]} -> callers_reachable (example_left a st) ->
    callers_reachable (example_left a st')) as Hlive.
  { intros st st' Hs Hd Hr. eapply callers_reachable_step; [exact Hr|]. apply (callers_live (example_left a st)); [done|].
    cbn. rewrite Hd. by destruct a; set_solver. }
  assert (callers_reachable (example_left false example_claimed)) as H0.
  { eapply callers_reachable_step; [apply callers_reachable_new|]. apply (callers_live {| live := sessions_new; aborted := ∅ |}).
    - by apply (step_claim _ example_key 0).
    - apply empty_subseteq. }
  assert (callers_reachable (example_left a example_claimed)) as H1.
  { destruct a; [|done]. eapply callers_reachable_step; [exact H0|].
    replace (example_left true example_claimed) with {| live := example_claimed; aborted := {[0%nat]} ∪ ∅ |} by (unfold example_left; by rewrite union_empty_r_L).
    apply (callers_abort (example_left false example_claimed)). by apply (bool_decide_unpack _); vm_compute. }
  apply (Hlive (shutdown_flag example_created)); [by apply step_clear|by apply (bool_decide_unpack _); vm_compute|].
  apply (Hlive example_created); [by apply step_close|by apply (bool_decide_unpack _); vm_compute|].
  apply (Hlive example_claimed); [apply example_created_step|by apply (bool_decide_unpack _); vm_compute|done].
Qed.
(** The session of an aborted caller runs on after the shutdown, uncancelled,
    and no end of a creation will cancel it. *)
Theorem session_leaked :
  let w := example_left true example_cleared in
  callers_reachable w /\ cleared (live w) = true /\ recv_loops (live w) !! 7%nat = Some (example_key, false) /\
  7%nat ∉ cancelled (live w) /\ forall c, c ∈ dom (creators (live w)) -> c ∈ aborted w.
Proof.
  split; [apply (example_cleared_reachable true)|]. split; [reflexivity|]. split; [reflexivity|].
  split; [by apply (bool_decide_unpack _); vm_compute|]. intros c. cbn.
  replace (dom (creators example_cleared)) with ({[0%nat]} : gset nat); [done|]. by apply (bool_decide_unpack _); vm_compute.
Qed.

Lemma udp_sessions_safe_witness :
  cleared example_cleared = true /\ recv_loops example_cleared !! 7%nat = Some (example_key, false) /\
  exists c, creators example_cleared !! c = Some (example_key, Created 7) /\
    7%nat ∈ cancelled (finish_creation example_cleared c example_key (Some 7%nat)).2.
Proof.
  destruct (udp_sessions_safe (example_left false example_cleared) (example_cleared_reachable false)) as (_ & _ & _ & _ & H).
  split; [reflexivity|]. split; [reflexivity|]. destruct (H eq_refl) as (_ & _ & Hleak).
  destruct (Hleak 7%nat example_key false) as (c & Hc & H7); [reflexivity|by apply (bool_decide_unpack _); vm_compute|].
  exists c. split; [exact Hc|]. apply H7, not_elem_of_empty.
Defined.
