(* ===== verification/SessionLife.v ===== *)
(** The idle timeout of UDP sessions: [touch], [cleanup_expired_sessions] and
    the loop that calls it ([src/src/udp/mod.rs], [src/src/udp/session.rs]), over
    the table of [Sessions]. The collector reads the time of the last use of
    each session twice, the second time under the lock of the table, while
    tasks that hold a session go on using it without any lock; its rounds are
    cut at each of these reads, and between the second one and the removal. The
    clock is [now_secs], the system time, which may be set back. *)

From S2P Require Import Prelude Bytes Config Udp Sessions.

(** * What a step of the table does to a session *)

(** A session leaves the table only cancelled, and a cancelled one does not
    enter it. *)
Record evolves (st st' : Sessions) : Prop := {
  ev_cancelled s : s ∈ cancelled st -> s ∈ cancelled st';
  ev_stays k s : entries st !! k = Some (Ready s) -> entries st' !! k = Some (Ready s) \/ s ∈ cancelled st';
  ev_new k s : entries st' !! k = Some (Ready s) -> entries st !! k = Some (Ready s) \/ s ∉ cancelled st;
}.
Lemma evolves_refl st : evolves st st.
Proof. split; auto. Qed.
Lemma evolves_trans st1 st2 st3 : evolves st1 st2 -> evolves st2 st3 -> evolves st1 st3.
Proof.
  intros [c1 s1 n1] [c2 s2 n2]. split; [auto|..]; intros k s H.
  - destruct (s1 k s H) as [H2|H2]; [by apply s2|right; by apply c2].
  - destruct (n2 k s H) as [H2|H2]; [by apply n1|right; contradict H2; by apply c1].
Qed.
(** The sections that take one entry away, of a session they cancel if there is
    one. *)
Lemma evolves_delete st st' key : entries st' = delete key (entries st) \/ entries st' = entries st ->
  (forall s, s ∈ cancelled st -> s ∈ cancelled st') -> (forall s, entries st !! key = Some (Ready s) -> s ∈ cancelled st') -> evolves st st'.
Proof.
  intros He Hc Hk. split; [done|..]; intros k s; destruct He as [->| ->]; auto.
  - intros H. destruct (decide (k = key)) as [->|Hne]; [right; by apply Hk|left; by rewrite lookup_delete_ne].
  - rewrite lookup_delete_Some. intros [_ H]. by left.
Qed.
Lemma evolves_cleanup expired l st : evolves st (cleanup_expired expired l st).
Proof.
  unfold cleanup_expired. revert st. induction l as [|e l IH]; intros st; [apply evolves_refl|]. cbn. eapply evolves_trans; [|apply IH].
  unfold cleanup_one. case_bool_decide as H; [|apply evolves_refl]. destruct (expired e.2); [|apply evolves_refl].
  apply (evolves_delete _ _ e.1); [by left|cbn; set_solver|]. cbn. rewrite H. intros s [= <-]. set_solver.
Qed.
Lemma evolves_finish st creator key x created : inv st -> creators st !! creator = Some (key, x) ->
  evolves st (snd (finish_creation st creator key created)).
Proof.
  intros Hi Hc. pose proof (creator_entry st creator key x Hi Hc) as Hno. unfold finish_creation.
  assert (forall cs X, (forall s, s ∈ cancelled st -> s ∈ X) ->
    evolves st (with_tasks (with_entries st (delete key (entries st))) cs (recv_loops st) X)) as Hdel.
  { intros cs X HX. apply (evolves_delete _ _ key); [by left|exact HX|]. intros s H. by apply Hno in H. }
  destruct (is_closed st); [destruct created; apply Hdel; [set_solver|done]|]. destruct created as [s|]; [|by apply Hdel].
  case_bool_decide as Hs; [by apply Hdel|]. split; cbn; [done|..]; intros k s'.
  - intros H. left. rewrite lookup_insert_ne; [done|]. intros <-. by apply Hno in H.
  - rewrite lookup_insert_Some. intros [[<- [= <-]]|[_ H]]; [by right|by left].
Qed.
Lemma step_evolves st st' : inv st -> step st st' -> evolves st st'.
Proof.
  intros Hi Hstep. destruct Hstep as [st key creator st' Hc H|st creator key s| | | | | | | |].
  - unfold lookup_or_claim in H. destruct (is_closed st); [done|]. destruct (entries st !! key) as [[]|] eqn:E; [done|done|]. injection H as <-.
    split; cbn; [done|..]; intros k s.
    + intros H. left. rewrite lookup_insert_ne; [done|congruence].
    + rewrite lookup_insert_Some. intros [[_ [=]]|[_ H]]. by left.
  - by split; auto.
  - by eapply evolves_finish.
  - by eapply evolves_finish.
  - split; cbn; [set_solver|..]; auto.
  - pose proof (inv_returned st Hi session key H) as Hs. unfold recv_remove. case_bool_decide as E; [|by split; auto].
    apply (evolves_delete _ _ key); [by left|done|]. intros s. rewrite E. by intros [= <-].
  - by split; auto.
  - apply evolves_cleanup.
  - by split; auto.
  - split; cbn; [set_solver|..]; intros k s; [|by rewrite lookup_empty]. intros H2. right. apply elem_of_union_l.
    unfold ready_sessions. apply elem_of_list_to_set, list_elem_of_omap. exists (k, Ready s). split; [|done]. by apply elem_of_map_to_list.
Qed.

(** * The state *)

(** A round: the time it read at its start, and the sessions it then found. *)
Record Round := { begun : Z; snapshot : list (session_key * nat) }.

(** Where the collector is: asleep after its last round, past [now_secs()] but
    without the lock, in the loop over the snapshot, in the loop under the
    lock, there past the second read of a session, which gave [last], or gone. *)
Inductive Collector :=
  | Sleeping (last : option Round)
  | Started (now : Z)
  | Checking (r : Round) (rest expired : list (session_key * nat))
  | Closing (r : Round) (rest : list (session_key * nat))
  | Condemned (r : Round) (e : session_key * nat) (last : Z) (rest : list (session_key * nat))
  | Gone.

(** [last_seen] has [last_seen_secs] of every session there has been. *)
Record Life := { table : Sessions; last_seen : gmap nat Z; clock : Z; gc : Collector }.
Definition with_gc (st : Life) (c : Collector) : Life :=
  {| table := table st; last_seen := last_seen st; clock := clock st; gc := c |}.
Definition life_new (now : Z) : Life := {| table := sessions_new; last_seen := ∅; clock := now; gc := Sleeping None |}.

(** * The collector *)

Section Timeout.
Context (timeout_secs : Z).
(** Whether the clock is never set back. *)
Context (steady : Prop).

Definition idle (now : Z) (seen : gmap nat Z) (s : nat) : bool := timeout_secs <=? sat_sub now (default 0 (seen !! s)).
Definition ready_entries (m : gmap session_key UdpSessionEntry) : list (session_key * nat) :=
  omap (fun e => match e.2 with Ready s => Some (e.1, s) | Creating _ => None end) (map_to_list m).

(** A step of the collector; the map is iterated in any order. *)
Inductive gc_move : Life -> Life -> Prop :=
  | gc_start st last : gc st = Sleeping last -> gc_move st (with_gc st (Started (clock st)))
  | gc_snapshot st now l :
      gc st = Started now -> l ≡ₚ ready_entries (entries (table st)) ->
      gc_move st (with_gc st (Checking {| begun := now; snapshot := l |} l []))
  | gc_check st r e rest expired :
      gc st = Checking r (e :: rest) expired ->
      gc_move st (with_gc st (Checking r rest (if idle (begun r) (last_seen st) e.2 then expired ++ [e] else expired)))
  | gc_none st r : gc st = Checking r [] [] -> gc_move st (with_gc st (Sleeping (Some r)))
  | gc_lock st r e expired : gc st = Checking r [] (e :: expired) -> gc_move st (with_gc st (Closing r (e :: expired)))
  | gc_spare st r e rest :
      gc st = Closing r (e :: rest) ->
      entries (table st) !! e.1 <> Some (Ready e.2) \/ idle (begun r) (last_seen st) e.2 = false ->
      gc_move st (with_gc st (Closing r rest))
  | gc_condemn st r e rest :
      gc st = Closing r (e :: rest) -> entries (table st) !! e.1 = Some (Ready e.2) -> idle (begun r) (last_seen st) e.2 = true ->
      gc_move st (with_gc st (Condemned r e (default 0 (last_seen st !! e.2)) rest))
  | gc_remove st r e last rest :
      gc st = Condemned r e last rest ->
      gc_move st {| table := cleanup_one (fun _ => true) (table st) e; last_seen := last_seen st; clock := clock st; gc := Closing r rest |}
  | gc_unlock st r : gc st = Closing r [] -> gc_move st (with_gc st (Sleeping (Some r))).

(** * The other tasks *)

Definition holds_lock (c : Collector) : bool := match c with Closing _ _ | Condemned _ _ _ _ => true | _ => false end.
(** Sessions that a step creates were last used at their creation. *)
Definition born (now : Z) (t t' : Sessions) (seen : gmap nat Z) : gmap nat Z :=
  seen ∪ gset_to_gmap now (dom (recv_loops t') ∖ dom (recv_loops t)).

Inductive life_step : Life -> Life -> Prop :=
  | life_gc st st' : gc_move st st' -> life_step st st'
  (** A section of another task under the lock of the table. *)
  | life_table st t' :
      holds_lock (gc st) = false -> step (table st) t' ->
      life_step st {| table := t'; last_seen := born (clock st) (table st) t' (last_seen st); clock := clock st; gc := gc st |}
  (** [touch], by a task that holds the session, which takes no lock. *)
  | life_touch st s :
      is_Some (last_seen st !! s) ->
      life_step st {| table := table st; last_seen := <[s := clock st]> (last_seen st); clock := clock st; gc := gc st |}
  | life_time st now : 0 <= now -> (steady -> clock st <= now) -> life_step st {| table := table st; last_seen := last_seen st; clock := now; gc := gc st |}
  (** The loop is cancelled in its sleep, or aborted where it awaits. *)
  | life_stop st : holds_lock (gc st) = false -> life_step st (with_gc st Gone).

Inductive life_reachable : Life -> Prop :=
  | life_reachable_new now : 0 <= now -> life_reachable (life_new now)
  | life_reachable_step st st' : life_reachable st -> life_step st st' -> life_reachable st'.

(** * The invariant *)

(** A session that the round at hand still has to look at. *)
Definition pending_in (c : Collector) (e : session_key * nat) : Prop :=
  match c with
  | Checking _ rest expired => e ∈ rest \/ e ∈ expired
  | Closing _ rest => e ∈ rest
  | Condemned _ e' _ rest => e = e' \/ e ∈ rest
  | _ => False
  end.
Definition round_of (c : Collector) : option Round :=
  match c with Sleeping last => last | Checking r _ _ | Closing r _ | Condemned r _ _ _ => Some r | Started _ | Gone => None end.

Definition used_after (seen : gmap nat Z) (s : nat) (t : Z) : Prop := exists u, seen !! s = Some u /\ t < u.
(** A condemned session is in the table, and was idle when it was looked at;
    where the clock is steady, no use since then reads as an earlier one. *)
Definition condemned_ok (st : Life) : Prop :=
  match gc st with
  | Condemned r e last _ =>
      entries (table st) !! e.1 = Some (Ready e.2) /\ last + timeout_secs <= begun r /\
      (steady -> last_seen st !! e.2 = Some last \/ exists u, last_seen st !! e.2 = Some u /\ begun r <= u)
  | _ => True
  end.
Record life_ok (st : Life) : Prop := {
  lo_table : reachable (table st);
  lo_clock : 0 <= clock st;
  lo_started now : steady -> gc st = Started now -> now <= clock st;
  lo_seen s : is_Some (recv_loops (table st) !! s) -> is_Some (last_seen st !! s);
  lo_past s u : steady -> last_seen st !! s = Some u -> u <= clock st;
  lo_begun r : steady -> round_of (gc st) = Some r -> begun r <= clock st;
  (** The sessions that a round has dealt with have been used since. *)
  lo_used r k s : steady -> round_of (gc st) = Some r -> entries (table st) !! k = Some (Ready s) -> (k, s) ∈ snapshot r ->
    pending_in (gc st) (k, s) \/ used_after (last_seen st) s (begun r - timeout_secs);
  (** A session does not come back. *)
  lo_snapshot r k s : round_of (gc st) = Some r -> (k, s) ∈ snapshot r ->
    entries (table st) !! k = Some (Ready s) \/ s ∈ cancelled (table st);
  lo_condemned : condemned_ok st;
}.

Lemma idle_spec now seen s u : 0 < timeout_secs -> seen !! s = Some u -> idle now seen s = true <-> u + timeout_secs <= now.
Proof. intros Ht Hs. unfold idle, sat_sub. rewrite Hs. cbn. rewrite Z.leb_le. lia. Qed.

Lemma life_ok_new now : 0 <= now -> life_ok (life_new now).
Proof.
  intros Hn. split; cbn; try done; [constructor|intros s [x H]; by rewrite lookup_empty in H].
Qed.

Lemma ready_entries_spec m k s : (k, s) ∈ ready_entries m <-> m !! k = Some (Ready s).
Proof.
  unfold ready_entries. rewrite list_elem_of_omap. split.
  - intros ([k' []] & H & [= <- <-]). by apply elem_of_map_to_list in H.
  - intros H. exists (k, Ready s). split; [by apply elem_of_map_to_list|done].
Qed.

Hypothesis Htimeout : 0 < timeout_secs.

(** A session whose last use is known, and not idle, has been used. *)
Lemma not_idle now seen s : is_Some (seen !! s) -> idle now seen s = false -> used_after seen s (now - timeout_secs).
Proof.
  intros [u Hu] Hi. exists u. split; [done|]. pose proof (idle_spec now seen s u Htimeout Hu) as H. rewrite Hi in H.
  destruct (Z.lt_ge_cases (now - timeout_secs) u) as [|Hle]; [done|]. assert (u + timeout_secs <= now) as Hle2 by lia. apply H in Hle2. done.
Qed.
Lemma ready_seen st k s : life_ok st -> entries (table st) !! k = Some (Ready s) -> is_Some (last_seen st !! s).
Proof.
  intros Hok H. apply (lo_seen st Hok). destruct (inv_ready _ (reachable_inv _ (lo_table st Hok)) k s H) as (b & -> & _). done.
Qed.

Lemma cleanup_one_ready expired st e k s : entries (cleanup_one expired st e) !! k = Some (Ready s) ->
  entries st !! k = Some (Ready s) /\ (e = (k, s) -> expired s = false).
Proof.
  unfold cleanup_one. case_bool_decide as He; cbn [andb].
  - destruct (expired e.2) eqn:E; [cbn; rewrite lookup_delete_Some; intros [Hne H]; split; [done|by intros ->]|].
    intros H. split; [done|by intros ->].
  - intros H. split; [done|by intros ->].
Qed.
Lemma gc_remove_ok st r e last rest : life_ok st -> gc st = Condemned r e last rest ->
  life_ok {| table := cleanup_one (fun _ => true) (table st) e; last_seen := last_seen st; clock := clock st; gc := Closing r rest |}.
Proof.
  intros [Ht Hc0 Hc Hs Hp Hb Hu Hsn Hcd] H. rewrite H in *.
  assert (cleanup_one (fun _ => true) (table st) e = cleanup_expired (fun _ => true) [e] (table st)) as Hone by done.
  pose proof (evolves_cleanup (fun _ => true) [e] (table st)) as Hev. rewrite <- Hone in Hev.
  assert (recv_loops (cleanup_one (fun _ => true) (table st) e) = recv_loops (table st)) as Hl by (unfold cleanup_one; by destruct (_ && _)).
  split; cbn; try done.
  - rewrite Hone. eapply reachable_step; [exact Ht|apply step_cleanup].
  - by rewrite Hl.
  - intros r' k s Hst [= <-] [Hk Hne]%cleanup_one_ready Hin. destruct (Hu r k s Hst eq_refl Hk Hin) as [[<-|Hr]|Hr]; [by specialize (Hne eq_refl)|by left|by right].
  - intros r' k s [= <-] Hin. destruct (Hsn r k s eq_refl Hin) as [Hk|Hk]; [by apply (ev_stays _ _ Hev)|right; by apply (ev_cancelled _ _ Hev)].
Qed.
(** A step between [Checking], [Closing] and [Condemned] that changes only the
    place of the collector. *)
Lemma with_gc_ok st c r : life_ok st -> round_of (gc st) = Some r -> round_of c = Some r ->
  (forall k s, steady -> entries (table st) !! k = Some (Ready s) -> pending_in (gc st) (k, s) ->
     pending_in c (k, s) \/ used_after (last_seen st) s (begun r - timeout_secs)) ->
  condemned_ok (with_gc st c) -> life_ok (with_gc st c).
Proof.
  intros [Ht Hc0 Hc Hs Hp Hb Hu Hsn Hcd] Hr Hr' Hpend Hcd'. split; cbn; try done.
  - intros now _ ->. done.
  - intros r' Hst H. apply Hb; [done|]. congruence.
  - intros r' k s Hst H Hk Hin. assert (r' = r) as -> by congruence. destruct (Hu r k s Hst Hr Hk Hin) as [H1|]; [by apply Hpend|by right].
  - intros r' k s H. apply Hsn. congruence.
Qed.
Lemma gc_move_ok st st' : life_ok st -> gc_move st st' -> life_ok st'.
Proof.
  intros Hok Hm. destruct Hm.
  - destruct Hok as [Ht Hc0 Hc Hs Hp Hb Hu Hsn Hcd]. split; cbn; try done. by intros now _ [= <-].
  - destruct Hok as [Ht Hc0 Hc Hs Hp Hb Hu Hsn Hcd]. split; cbn; try done.
    + intros r Hst [= <-]. by apply Hc.
    + intros r k s _ [= <-] Hk Hin. left. by left.
    + intros r k s [= <-] Hin. left. cbn in Hin. rewrite H0 in Hin. by apply ready_entries_spec.
  - apply (with_gc_ok st _ r); [done|by rewrite H|done| |done]. intros k s Hst Hk. rewrite H. intros [Hr|Hr].
    + apply elem_of_cons in Hr as [<-|Hr]; [|by left; left]. destruct (idle _ _ _) eqn:Ei; [left; right; set_solver|].
      right. apply not_idle; [by eapply ready_seen|exact Ei].
    + left. right. destruct (idle _ _ _); set_solver.
  - apply (with_gc_ok st _ r); [done|by rewrite H|done| |done]. intros k s _ _. rewrite H. intros [Hr|Hr]; by apply elem_of_nil in Hr.
  - apply (with_gc_ok st _ r); [done|by rewrite H|done| |done]. intros k s _ _. rewrite H. intros [Hr|Hr]; [by apply elem_of_nil in Hr|by left].
  - apply (with_gc_ok st _ r); [done|by rewrite H|done| |done]. intros k s _ Hk. rewrite H.
    intros [<-|Hr]%elem_of_cons; [right|by left]. destruct H0 as [H0|H0]; [done|]. apply not_idle; [by eapply ready_seen|exact H0].
  - apply (with_gc_ok st _ r); [done|by rewrite H|done| |].
    + intros k s _ _. rewrite H. intros [<-|Hr]%elem_of_cons; left; [by left|by right].
    + cbn. split; [done|]. destruct (ready_seen st e.1 e.2 Hok H0) as [u Hu]. rewrite Hu. split; [by apply (idle_spec _ _ _ _ Htimeout Hu)|by left].
  - by eapply gc_remove_ok.
  - apply (with_gc_ok st _ r); [done|by rewrite H|done| |done]. intros k s _ _. rewrite H. intros Hr. by apply elem_of_nil in Hr.
Qed.

Lemma used_born now t t' seen s u : used_after seen s u -> used_after (born now t t' seen) s u.
Proof. intros (x & Hx & Hlt). exists x. split; [by apply lookup_union_Some_l|done]. Qed.
Lemma born_lookup now t t' seen s u : born now t t' seen !! s = Some u -> seen !! s = Some u \/ u = now.
Proof. unfold born. intros [H|[_ H]]%lookup_union_Some_raw; [by left|right]. by apply lookup_gset_to_gmap_Some in H as [_ ->]. Qed.

Lemma life_table_ok st t' : life_ok st -> holds_lock (gc st) = false -> step (table st) t' ->
  life_ok {| table := t'; last_seen := born (clock st) (table st) t' (last_seen st); clock := clock st; gc := gc st |}.
Proof.
  intros [Ht Hc0 Hc Hs Hp Hb Hu Hsn Hcd] Hlock Hstep. pose proof (step_evolves _ _ (reachable_inv _ Ht) Hstep) as Hev. split; cbn; try done.
  - by eapply reachable_step.
  - intros s Hl. unfold born. destruct (last_seen st !! s) as [u|] eqn:E; [exists u; by apply lookup_union_Some_l|].
    exists (clock st). rewrite lookup_union_r by done. apply lookup_gset_to_gmap_Some. split; [|done]. apply elem_of_difference.
    split; [by apply elem_of_dom|]. intros Hd%elem_of_dom. apply Hs in Hd as [u Hu2]. congruence.
  - intros s u Hst H. destruct (born_lookup _ _ _ _ _ _ H) as [H2| ->]; [by eapply Hp|lia].
  - intros r k s Hst Hr Hk Hin. assert (entries (table st) !! k = Some (Ready s)) as Hk0.
    { destruct (ev_new _ _ Hev k s Hk) as [|Hnc]; [done|]. by destruct (Hsn r k s Hr Hin). }
    destruct (Hu r k s Hst Hr Hk0 Hin) as [|H]; [by left|right; by apply used_born].
  - intros r k s Hr Hin. destruct (Hsn r k s Hr Hin) as [Hk|Hk]; [by apply (ev_stays _ _ Hev)|right; by apply (ev_cancelled _ _ Hev)].
  - unfold condemned_ok. cbn. by destruct (gc st).
Qed.
Lemma life_touch_ok st s : life_ok st ->
  life_ok {| table := table st; last_seen := <[s := clock st]> (last_seen st); clock := clock st; gc := gc st |}.
Proof.
  intros [Ht Hc0 Hc Hs Hp Hb Hu Hsn Hcd]. split; cbn; try done.
  - intros s' Hl%Hs. destruct (decide (s' = s)) as [->|Hne]; [rewrite lookup_insert_eq; by eexists|by rewrite lookup_insert_ne].
  - intros s' u Hst. rewrite lookup_insert_Some. intros [[_ <-]|[_ Hu2]]; [lia|by eapply Hp].
  - intros r k s' Hst Hr Hk Hin. destruct (Hu r k s' Hst Hr Hk Hin) as [|(u & Hx & Hlt)]; [by left|right].
    destruct (decide (s' = s)) as [->|Hne]; [|exists u; by rewrite lookup_insert_ne].
    exists (clock st). rewrite lookup_insert_eq. split; [done|]. pose proof (Hb r Hst Hr). lia.
  - unfold condemned_ok in *. cbn. destruct (gc st) as [| | | |r e last rest|] eqn:Eg; try done. destruct Hcd as (He & Hle & Hcd).
    split; [done|]. split; [done|]. intros Hst. destruct (decide (e.2 = s)) as [->|Hne]; [|rewrite lookup_insert_ne by done; by apply Hcd].
    right. exists (clock st). rewrite lookup_insert_eq. split; [done|]. by apply Hb.
Qed.

Lemma life_step_ok st st' : life_ok st -> life_step st st' -> life_ok st'.
Proof.
  intros Hok Hstep. destruct Hstep.
  - by eapply gc_move_ok.
  - by apply life_table_ok.
  - by apply life_touch_ok.
  - destruct Hok as [Ht Hc0 Hc Hs Hp Hb Hu Hsn Hcd]. split; cbn; try done; [|intros s u Hst Hx|intros r Hst Hr].
    + intros now' Hst Hg. pose proof (Hc now' Hst Hg). specialize (H0 Hst). lia.
    + pose proof (Hp s u Hst Hx). specialize (H0 Hst). lia.
    + pose proof (Hb r Hst Hr). specialize (H0 Hst). lia.
  - destruct Hok as [Ht Hc0 Hc Hs Hp Hb Hu Hsn Hcd]. by split.
Qed.
Lemma life_reachable_ok st : life_reachable st -> life_ok st.
Proof. induction 1; [by apply life_ok_new|by eapply life_step_ok]. Qed.

(** C13: the idle timeout of UDP sessions, under every interleaving of the
    collector's rounds with the tasks that create, use and end sessions, and
    with the shutdown. The table goes through states of [Sessions], so its
    safety holds. The collector cancels and removes a session only if, when it
    looked at it last, under the lock of the table, the last use was at least
    the timeout before the round began, by the clock as it was read; a use that
    comes after this look does not save the session ([used_and_closed]), and
    where the clock is never set back it is the only kind that can be lost. And
    when a round is over and the clock is never set back, every session that it
    found and that is still in the table has been used later than the timeout
    before the round began; so that, if the last round began at most [period]
    ago, no such session has been idle for as long as the timeout and the
    period. *)
Theorem idle_sessions_collected st :
  life_reachable st ->
  reachable (table st) /\
  (forall st' r e last rest, gc_move st st' -> gc st' = Condemned r e last rest ->
    get_ready_udp_session (table st) e.1 = Some e.2 /\ last_seen st !! e.2 = Some last /\ last + timeout_secs <= begun r) /\
  (forall st' s, gc_move st st' -> s ∈ cancelled (table st') -> s ∉ cancelled (table st) ->
    (forall k, get_ready_udp_session (table st') k <> Some s) /\
    exists r k last rest, gc st = Condemned r (k, s) last rest /\ last + timeout_secs <= begun r /\
      (steady -> last_seen st !! s = Some last \/ exists u, last_seen st !! s = Some u /\ begun r <= u)) /\
  (steady -> forall r k s, gc st = Sleeping (Some r) -> get_ready_udp_session (table st) k = Some s -> (k, s) ∈ snapshot r ->
    exists last, last_seen st !! s = Some last /\ begun r - timeout_secs < last <= clock st /\
      forall period, clock st <= begun r + period -> clock st - last < timeout_secs + period).
Proof.
  intros Hr. pose proof (life_reachable_ok st Hr) as Hok. split; [apply Hok|]. split; [|split].
  - intros st' r e last rest Hm Hg. destruct Hm; try done. cbn in Hg. injection Hg as -> -> <- ->.
    unfold get_ready_udp_session. rewrite H0. split; [done|]. destruct (ready_seen st e.1 e.2 Hok H0) as [u Hu]. rewrite Hu.
    split; [done|]. by apply (idle_spec _ _ _ _ Htimeout Hu).
  - intros st' s Hm Hc Hn. destruct Hm as [| | | | | | |st r [k' s'] last rest Hg|]; try done. cbn in Hc.
    pose proof (lo_condemned st Hok) as Hcd. unfold condemned_ok in Hcd. rewrite Hg in Hcd. destruct Hcd as (He & Hle & Hst).
    unfold cleanup_one in *. cbn in *. rewrite bool_decide_eq_true_2 in Hc |- * by done. cbn in *.
    apply elem_of_union in Hc as [->%elem_of_singleton|Hc]; [|done]. split; [|by exists r, k', last, rest].
    intros k. unfold get_ready_udp_session. cbn. destruct (_ !! k) as [[|s'']|] eqn:E; [done| |done]. intros [= ->].
    apply lookup_delete_Some in E as [Hne E]. pose proof (reachable_inv _ (lo_table st Hok)) as Hi.
    destruct (inv_ready _ Hi k s' E) as (b & Hl & _), (inv_ready _ Hi k' s' He) as (b' & Hl' & _). congruence.
  - intros Hst r k s Hg Hk Hin. unfold get_ready_udp_session in Hk. destruct (_ !! k) as [[|s']|] eqn:E; try done. injection Hk as ->.
    destruct (lo_used st Hok r k s) as [Hp|(last & Hl & Hlt)]; [done|by rewrite Hg|done|done|by rewrite Hg in Hp|].
    exists last. split; [done|]. pose proof (lo_past st Hok s last Hst Hl). split; [lia|]. intros period Hper. lia.
Qed.
End Timeout.

(** ** An example

    Two sessions are created at time 100; one of them is used at 195, and a
    round at 200 with a timeout of 60 closes the other one. That one may be used
    once more after the round has looked at it. *)
Definition with_table (st : Life) (t : Sessions) : Life :=
  {| table := t; last_seen := born (clock st) (table st) t (last_seen st); clock := clock st; gc := gc st |}.
Definition example_client (port : Z) : session_key :=
  UdpSessionSpec.key (for_tproxy {| sa_ip := V4 1; sa_port := port |} {| sa_ip := V4 2; sa_port := 53 |}).
Definition claimed (st : Life) (key : session_key) (c : nat) : Life := with_table st (snd (lookup_or_claim (table st) key c)).
Definition made (st : Life) (key : session_key) (c s : nat) : Life :=
  with_table st (with_tasks (table st) (<[c := (key, Created s)]> (creators (table st))) (<[s := (key, false)]> (recv_loops (table st))) (cancelled (table st))).
Definition registered (st : Life) (key : session_key) (c s : nat) : Life := with_table st (snd (finish_creation (table st) c key (Some s))).
Definition opened (st : Life) (key : session_key) (c s : nat) : Life := registered (made (claimed st key c) key c s) key c s.

Lemma opened_reachable timeout st key c s :
  life_reachable timeout True st -> holds_lock (gc st) = false -> creators (table st) = ∅ -> fst (lookup_or_claim (table st) key c) = Create ->
  recv_loops (table st) !! s = None -> s ∉ cancelled (table st) -> life_reachable timeout True (opened st key c s).
Proof.
  intros Hr Hg Hc Hl Hs Hn. destruct (lookup_or_claim (table st) key c) as [o t] eqn:E. cbn in Hl. subst o.
  assert (t = with_tasks (with_entries (table st) (<[key := Creating c]> (entries (table st)))) {[c := (key, Waiting)]} (recv_loops (table st)) (cancelled (table st))) as Ht.
  { unfold lookup_or_claim in E. destruct (is_closed _); [done|]. destruct (_ !! key) as [[]|]; [done|done|]. injection E as <-. by rewrite Hc. }
  apply (life_reachable_step timeout True (made (claimed st key c) key c s)); [apply (life_reachable_step timeout True (claimed st key c));
    [apply (life_reachable_step timeout True st); [done|]|]|].
  - apply life_table; [done|]. apply (step_claim _ key c); [by rewrite Hc|]. by rewrite E.
  - apply life_table; [done|]. unfold claimed, with_table. rewrite E. cbn [snd table]. rewrite Ht. apply (step_created _ c key s); cbn; [by rewrite lookup_singleton_eq|done|done|].
    intros c' k H. by apply lookup_singleton_Some in H as [_ [=]].
  - apply life_table; [done|]. apply (step_register _ c key s). apply lookup_insert_eq.
Qed.

Definition example_open : Life := opened (opened (life_new 100) (example_client 5000) 0 1) (example_client 5001) 0 2.
Definition at_time (st : Life) (now : Z) : Life := {| table := table st; last_seen := last_seen st; clock := now; gc := gc st |}.
Definition touched (st : Life) (s : nat) : Life :=
  {| table := table st; last_seen := <[s := clock st]> (last_seen st); clock := clock st; gc := gc st |}.
Definition example_used : Life := at_time (touched (at_time example_open 195) 1) 200.
Definition example_round : Round := {| begun := 200; snapshot := [(example_client 5000, 1%nat); (example_client 5001, 2%nat)] |}.
(** A whole round over two sessions, of which the second one is idle when it is
    looked at; [used] is what the clients do before it is removed. *)
Definition closed_by (st : Life) (r : Round) (e : session_key * nat) : Life := {|
  table := cleanup_one (fun _ => true) (table st) e;
  last_seen := last_seen st; clock := clock st; gc := Sleeping (Some r) |}.
Definition condemned_by (st : Life) (r : Round) (e : session_key * nat) : Life :=
  with_gc st (Condemned r e (default 0 (last_seen st !! e.2)) []).
Lemma round_reachable timeout st e1 e2 :
  let r := {| begun := clock st; snapshot := [e1; e2] |} in
  life_reachable timeout True st -> gc st = Sleeping None -> [e1; e2] ≡ₚ ready_entries (entries (table st)) ->
  idle timeout (clock st) (last_seen st) e1.2 = false -> idle timeout (clock st) (last_seen st) e2.2 = true ->
  entries (table st) !! e2.1 = Some (Ready e2.2) -> life_reachable timeout True (condemned_by st r e2).
Proof.
  intros r Hr Hg Hl H1 H2 He.
  assert (forall st st', life_reachable timeout True st -> gc_move timeout st st' -> life_reachable timeout True st') as Hgc.
  { intros st0 st' Hr0 Hm. eapply life_reachable_step; [exact Hr0|by apply life_gc]. }
  pose proof (Hgc _ _ Hr (gc_start _ _ _ Hg)) as S1.
  pose proof (Hgc _ _ S1 (gc_snapshot timeout (with_gc st (Started (clock st))) (clock st) [e1; e2] eq_refl Hl)) as S2.
  pose proof (Hgc _ _ S2 (gc_check timeout (with_gc st (Checking r [e1; e2] [])) r e1 [e2] [] eq_refl)) as S3. cbn in S3. rewrite H1 in S3.
  pose proof (Hgc _ _ S3 (gc_check timeout (with_gc st (Checking r [e2] [])) r e2 [] [] eq_refl)) as S4. cbn in S4. rewrite H2 in S4.
  pose proof (Hgc _ _ S4 (gc_lock timeout (with_gc st (Checking r [] [e2])) r e2 [] eq_refl)) as S5.
  exact (Hgc _ _ S5 (gc_condemn timeout (with_gc st (Closing r [e2])) r e2 [] eq_refl He H2)).
Qed.
Lemma removed_reachable timeout st r e last : life_reachable timeout True st -> gc st = Condemned r e last [] ->
  life_reachable timeout True (closed_by st r e).
Proof.
  intros Hr Hg.
  apply (life_reachable_step timeout True {| table := cleanup_one (fun _ => true) (table st) e; last_seen := last_seen st; clock := clock st; gc := Closing r [] |}).
  - eapply life_reachable_step; [exact Hr|]. apply life_gc. by eapply gc_remove.
  - apply life_gc. by apply (gc_unlock timeout {| gc := Closing r [] |}).
Qed.
Definition example_condemned : Life := condemned_by example_used example_round (example_client 5001, 2%nat).
Definition example_over : Life := closed_by example_condemned example_round (example_client 5001, 2%nat).
Definition example_late : Life := closed_by (touched example_condemned 2) example_round (example_client 5001, 2%nat).

Lemma example_used_reachable : life_reachable 60 True example_used.
Proof.
  apply (life_reachable_step 60 True (touched (at_time example_open 195) 1)); [|by apply life_time; [done|intros _]].
  apply (life_reachable_step 60 True (at_time example_open 195)); [|apply life_touch; by eexists].
  apply (life_reachable_step 60 True example_open); [|by apply life_time; [done|intros _]].
  apply opened_reachable; [|done..|by apply (bool_decide_unpack _); vm_compute]. apply opened_reachable; try done. by apply life_reachable_new.
Qed.
Lemma example_condemned_reachable : life_reachable 60 True example_condemned.
Proof.
  apply round_reachable; [apply example_used_reachable|reflexivity| |vm_compute; reflexivity|vm_compute; reflexivity|reflexivity].
  replace (ready_entries _) with (rev (snapshot example_round)) by (vm_compute; reflexivity). by constructor.
Qed.
Lemma example_over_reachable : life_reachable 60 True example_over.
Proof. eapply removed_reachable; [apply example_condemned_reachable|reflexivity]. Qed.

(** A session that is used at time 200 is closed at time 200. *)
Theorem used_and_closed :
  life_reachable 60 True example_late /\ last_seen example_late !! 2%nat = Some 200 /\ clock example_late = 200 /\
  2%nat ∈ cancelled (table example_late) /\ get_ready_udp_session (table example_late) (example_client 5001) = None.
Proof.
  split; [|split_and!; [reflexivity|reflexivity|by apply (bool_decide_unpack _); vm_compute|reflexivity]].
  apply (removed_reachable _ _ _ _ 100); [|reflexivity]. eapply life_reachable_step; [apply example_condemned_reachable|].
  apply life_touch. by eexists.
Qed.

Lemma idle_sessions_collected_witness :
  get_ready_udp_session (table example_over) (example_client 5001) = None /\ 2%nat ∈ cancelled (table example_over) /\
  exists last, last_seen example_over !! 1%nat = Some last /\ 140 < last <= 200.
Proof.
  split; [reflexivity|]. split; [by apply (bool_decide_unpack _); vm_compute|].
  destruct (idle_sessions_collected 60 True ltac:(lia) example_over example_over_reachable) as (_ & _ & _ & H).
  destruct (H I example_round (example_client 5000) 1%nat) as (last & Hl & Hb & _); [reflexivity|reflexivity|by apply (bool_decide_unpack _); vm_compute|].
  exists last. split; [exact Hl|]. exact Hb.
Defined.
