(* ===== verification/UdpTasks.v ===== *)
(** The packet tasks of a UDP loop, [run_udp_loop], [run_udp_port_forward] and
    [spawn_udp_packet_handler] of [src/src/udp/mod.rs], with the handlers of
    [src/src/udp/pending.rs] as they run concurrently: every packet is handled
    by a task of its own, which waits for the lock of its key; the loop itself
    reaps what has waited too long, without any lock.

    [Pending] runs one packet after the other. Here a task is a [Pc], a place
    in the code, and every piece of code between two points where another task
    may come in (an await, or an access to a shared table) is a [section]. The
    session table is that of [Sessions], with its own tasks. *)

From S2P Require Import Prelude Bytes Sniff Quic Config TcpSniff Udp Pending Sessions.
#[local] Open Scope Z_scope.

Definition UDP_PACKET_TASK_LIMIT : nat := 4096.
Definition UDP_SNIFF_REAP_INTERVAL : Z := 100.
Definition UDP_SNIFF_REAP_IDLE_INTERVAL : Z := 1000.

(** A datagram with the specification it is to be sent under. *)
Definition outgoing : Type := session_spec * bytes.

(** Where a task stands. Those from [Entered] to [Inserting] are of handlers,
    [Reaping] and [Retaining] of the loop; [rest] are the keys the loop has
    yet to reap. *)
Inductive Pc {S : Type} :=
  | Queued
  | Entered
  | Opened
  | Found (session : nat)
  | Hit (session : nat)
  | Unknown
  | Inserting (p : pending_sniff S)
  | Reaping (rest : list session_key)
  | Sending (l : list outgoing) (rest : list session_key)
  | Creating (l : list outgoing) (rest : list session_key)
  | Evicting
  | EvictKey (k : session_key)
  | Leaving
  | Retaining.
Arguments Pc S : clear implicits.

Inductive Role := Handler (spec : session_spec) (payload : bytes) (lock : nat) | Reaper.
Record Thread {S : Type} := { role : Role; pc : Pc S }.
Arguments Thread S : clear implicits.

(** What becomes of a datagram: it is handed to a session, there is none, the
    runtime is closed, its entry is evicted, or its entry is removed because a
    session is ready. *)
Inductive TaskEvent :=
  | Sent (spec : session_spec) (payload : bytes) (session : nat)
  | Lost (spec : session_spec) (payload : bytes)
  | Refused (k : session_key) (payload : bytes)
  | EvictedEntry (k : session_key) (datagrams : list bytes)
  | DiscardedEntry (k : session_key) (datagrams : list bytes).

(** The loop with its tables, tasks and the packet it has in hand. [log],
    [entered] (the datagrams in the order in which their tasks took their
    locks) and [reaped] (the keys whose entries the loop has flushed) only
    record what happens. *)
Record Tasks {S : Type} := {
  table : Sessions;
  pending : gmap session_key (pending_sniff S);
  key_locks : gmap session_key nat;
  held : gset nat;
  next_lock : nat;
  permits : nat;
  threads : gmap nat (Thread S);
  current : option outgoing;
  last_reap : Z;
  log : list TaskEvent;
  entered : list outgoing;
  reaped : gset session_key;
}.
Arguments Tasks S : clear implicits.

Section Tasks.
Context {S : Type} {session : UdpSnifferSession S}.
Context (direct : session_spec -> bool).
(** The order in which a [DashMap] is traversed. *)
Context (map_iter : gmap session_key (pending_sniff S) -> list (session_key * pending_sniff S)).
Context (quic_sniff_mode : QuicSniffMode.QuicSniffMode) (quic_sniff_pending_timeout_ms : Z)
  (udp_sniffers : list UdpSnifferEngine).

Definition tasks_new (now : Z) : Tasks S := {|
  table := sessions_new; pending := ∅; key_locks := ∅; held := ∅; next_lock := 0; permits := UDP_PACKET_TASK_LIMIT;
  threads := ∅; current := None; last_reap := now; log := []; entered := []; reaped := ∅ |}.

(** ** Updates of one part *)

Definition with_table (w : Tasks S) (st : Sessions) : Tasks S := {|
  table := st; pending := pending w; key_locks := key_locks w; held := held w; next_lock := next_lock w; permits := permits w;
  threads := threads w; current := current w; last_reap := last_reap w; log := log w; entered := entered w; reaped := reaped w |}.
Definition with_pending (w : Tasks S) (m : gmap session_key (pending_sniff S)) : Tasks S := {|
  table := table w; pending := m; key_locks := key_locks w; held := held w; next_lock := next_lock w; permits := permits w;
  threads := threads w; current := current w; last_reap := last_reap w; log := log w; entered := entered w; reaped := reaped w |}.
Definition with_log (w : Tasks S) (e : TaskEvent) : Tasks S := {|
  table := table w; pending := pending w; key_locks := key_locks w; held := held w; next_lock := next_lock w; permits := permits w;
  threads := threads w; current := current w; last_reap := last_reap w; log := log w ++ [e]; entered := entered w; reaped := reaped w |}.
Definition with_threads (w : Tasks S) (m : gmap nat (Thread S)) : Tasks S := {|
  table := table w; pending := pending w; key_locks := key_locks w; held := held w; next_lock := next_lock w; permits := permits w;
  threads := m; current := current w; last_reap := last_reap w; log := log w; entered := entered w; reaped := reaped w |}.
Definition with_reaped (w : Tasks S) (k : session_key) : Tasks S := {|
  table := table w; pending := pending w; key_locks := key_locks w; held := held w; next_lock := next_lock w; permits := permits w;
  threads := threads w; current := current w; last_reap := last_reap w; log := log w; entered := entered w; reaped := {[k]} ∪ reaped w |}.
(** The key locks, the permits, the held locks and the packet in hand. *)
Definition with_locks (w : Tasks S) (m : gmap session_key nat) (h : gset nat) (n permits : nat) (c : option outgoing) : Tasks S := {|
  table := table w; pending := pending w; key_locks := m; held := h; next_lock := n; permits := permits;
  threads := threads w; current := c; last_reap := last_reap w; log := log w; entered := entered w; reaped := reaped w |}.

(** The datagrams of an entry, and as [flush_pending_udp_sniff] sends them. *)
Definition cached (p : pending_sniff S) : list bytes := PendingReplayBuffer.datagrams (PendingUdpSniff.replay p).
Definition flushed (p : pending_sniff S) : list outgoing := map (pair (PendingUdpSniff.spec p)) (cached p).

(** [pending_sniff.remove(&key)], with what becomes of the entry. *)
Definition remove_pending (w : Tasks S) (k : session_key) (e : list bytes -> TaskEvent) : Tasks S :=
  match pending w !! k with
  | Some p => with_log (with_pending w (delete k (pending w))) (e (cached p))
  | None => w
  end.

(** * The decisions of a handler *)

(** [handle_pending_udp_sniff] for an entry that it has taken out: what it
    sends, or the entry it puts back. *)
Definition decide_pending (now : Z) (p : pending_sniff S) (spec : session_spec) (payload : bytes) : pure_res (list outgoing + pending_sniff S) :=
  if expired now p then Ok (inl (flushed p ++ [(spec, payload)]))
  else
    match push_datagram (PendingUdpSniff.replay p) payload with
    | None => Ok (inl (flushed p ++ [(spec, payload)]))
    | Some replay =>
        let '(outcome, sniffer) := feed (PendingUdpSniff.sniffer p) payload in
        let p := update_pending p (PendingUdpSniff.no_clue_attempts p) (PendingUdpSniff.spec p) sniffer replay in
        let? outcome := outcome in
        match outcome with
        | UdpSniffOutcome.Matched _ host =>
            Ok (inl (flushed (update_pending p (PendingUdpSniff.no_clue_attempts p) (with_host (PendingUdpSniff.spec p) host) sniffer replay)))
        | UdpSniffOutcome.NeedMore _ => Ok (inr p)
        | UdpSniffOutcome.NotMatched =>
            let n := PendingUdpSniff.no_clue_attempts p + 1 in
            let p := update_pending p n (PendingUdpSniff.spec p) sniffer replay in
            if UDP_SNIFF_NO_CLUE_LIMIT <=? n then Ok (inl (flushed p)) else Ok (inr p)
        | UdpSniffOutcome.Failed _ _ => Ok (inl (flushed p))
        end
    end.

(** [handle_new_udp_sniff], and the end of [handle_udp_client_payload]. *)
Fixpoint decide_new_loop (now : Z) (spec : session_spec) (payload : bytes) (engines : list UdpSnifferEngine)
    : pure_res (list outgoing + pending_sniff S) :=
  match engines with
  | [] => Ok (inl [(spec, payload)])
  | e :: engines =>
      let '(outcome, sniffer) := feed (new_session e) payload in
      let? outcome := outcome in
      match outcome with
      | UdpSniffOutcome.Matched _ host => Ok (inl [(with_host spec host, payload)])
      | UdpSniffOutcome.NeedMore _ =>
          match quic_sniff_mode with
          | QuicSniffMode.Full => Ok (inr (pending_new quic_sniff_pending_timeout_ms now spec sniffer payload))
          | QuicSniffMode.BestEffort | QuicSniffMode.None => Ok (inl [(spec, payload)])
          end
      | UdpSniffOutcome.NotMatched | UdpSniffOutcome.Failed _ _ => decide_new_loop now spec payload engines
      end
  end.
Definition decide_new (now : Z) (spec : session_spec) (payload : bytes) : pure_res (list outgoing + pending_sniff S) :=
  if bool_decide (udp_sniffers = []) then Ok (inl [(spec, payload)])
  else if direct spec then Ok (inl [(spec, payload)])
  else decide_new_loop now spec payload udp_sniffers.

(** * Sections *)

(** Where a task goes on after a list of datagrams, or after the eviction. *)
Definition after_sending (r : Role) (rest : list session_key) : Pc S :=
  match r with Handler _ _ _ => Leaving | Reaper => Reaping rest end.
Definition after_evicting (r : Role) : Pc S := match r with Handler _ _ _ => Leaving | Reaper => Retaining end.

(** The sections of [forward_udp_payload]: the lookup of the session, and the
    registration of one that has been created. *)
Definition send_section (id : nat) (l : list outgoing) (rest : list session_key) (r : Role) (w : Tasks S) : option (Pc S * Tasks S) :=
  match l with
  | [] => Some (after_sending r rest, w)
  | (spec, d) :: l' =>
      match lookup_or_claim (table w) (UdpSessionSpec.key spec) id with
      | (ShuttingDown, _) => Some (Sending l' rest, with_log w (Lost spec d))
      | (Reuse s, _) => Some (Sending l' rest, with_log w (Sent spec d s))
      | (Wait _, _) => None
      | (Create, st) => Some (Creating l rest, with_table w st)
      end
  end.
Definition register (id : nat) (l : list outgoing) (rest : list session_key) (created : option nat) (w : Tasks S) : option (Pc S * Tasks S) :=
  match l with
  | [] => None
  | (spec, d) :: l =>
      let (r, st) := finish_creation (table w) id (UdpSessionSpec.key spec) created in
      Some (Sending l rest, with_log (with_table w st) (match r with Some s => Sent spec d s | None => Lost spec d end))
  end.

(** One section of a task; [None] when it has to wait. *)
Definition section (now : Z) (id : nat) (r : Role) (c : Pc S) (w : Tasks S) : option (Pc S * Tasks S) :=
  match c with
  | Sending l rest => send_section id l rest r w
  | Creating l rest =>
      match creators (table w) !! id with Some (_, Created s) => register id l rest (Some s) w | _ => None end
  | Evicting =>
      if Z.of_nat (size (pending w)) <=? UDP_SNIFF_MAX_PENDING_SESSIONS then Some (after_evicting r, w)
      else match oldest (map_iter (pending w)) with None => Some (after_evicting r, w) | Some (k, _) => Some (EvictKey k, w) end
  | EvictKey k => Some (Evicting, remove_pending w k (EvictedEntry k))
  | Reaping [] => Some (Evicting, w)
  | Reaping (k :: rest) =>
      match pending w !! k with
      | None => Some (Reaping rest, w)
      | Some p => Some (Sending (flushed p) rest, with_reaped (with_pending w (delete k (pending w))) k)
      end
  | Queued | Leaving | Retaining => None
  | Entered | Opened | Found _ | Hit _ | Unknown | Inserting _ =>
      match r with
      | Reaper => None
      | Handler spec payload _ =>
          let k := UdpSessionSpec.key spec in
          match c with
          | Entered => if is_closed (table w) then Some (Leaving, with_log w (Refused k payload)) else Some (Opened, w)
          | Opened => Some (match get_ready_udp_session (table w) k with Some s => Found s | None => Unknown end, w)
          | Found s => Some (Hit s, remove_pending w k (DiscardedEntry k))
          | Hit s => Some (Leaving, with_log w (Sent spec payload s))
          | Inserting p => Some (Evicting, with_pending w (<[k := p]> (pending w)))
          | _ =>
              let '(decision, w) :=
                match pending w !! k with
                | Some p => (decide_pending now p spec payload, with_pending w (delete k (pending w)))
                | None => (decide_new now spec payload, w)
                end in
              match decision with
              | Ok (inl l) => Some (Sending l [], w)
              | Ok (inr p) => Some (Inserting p, w)
              | _ => None
              end
          end
      end
  end.

(** * The loop *)

(** [reap_idle_udp_key_locks]: a lock that no task holds an [Arc] of goes. *)
Definition uses (l : nat) (t : Thread S) : bool := match role t with Handler _ _ l' => l =? l' | Reaper => false end%nat.
Definition reap_idle_udp_key_locks (w : Tasks S) : Tasks S :=
  with_locks w (filter (fun e => existsb (fun t => uses e.2 t.2) (map_to_list (threads w)) = true) (key_locks w)) (held w) (next_lock w) (permits w) (current w).

(** [get_udp_key_lock] *)
Definition get_udp_key_lock (w : Tasks S) (k : session_key) : nat * gmap session_key nat * nat :=
  match key_locks w !! k with
  | Some l => (l, key_locks w, next_lock w)
  | None => (next_lock w, <[k := next_lock w]> (key_locks w), Datatypes.S (next_lock w))
  end.

(** [spawn_udp_packet_handler], of the packet in hand, if it is not empty. *)
Definition spawn_udp_packet_handler (id : nat) (w : Tasks S) : Tasks S :=
  let idle := with_locks w (key_locks w) (held w) (next_lock w) (permits w) None in
  match current w, permits w with
  | Some (spec, payload), Datatypes.S n =>
      if bool_decide (payload = []) then idle
      else
        let '(l, m, next) := get_udp_key_lock w (UdpSessionSpec.key spec) in
        with_threads (with_locks w m (held w) next n None) (<[id := {| role := Handler spec payload l; pc := Queued |}]> (threads w))
  | _, _ => idle
  end.

(** [maybe_reap_pending_udp_sniff], up to the reaping itself: a packet arrives
    at [now]. *)
Definition produces_pending : bool := match quic_sniff_mode with QuicSniffMode.Full => true | _ => false end.
Definition expired_keys (now : Z) (w : Tasks S) : list session_key :=
  map fst (filter (fun e => expired now e.2 = true) (map_iter (pending w))).
Definition set_last_reap (w : Tasks S) (now : Z) : Tasks S := {|
  table := table w; pending := pending w; key_locks := key_locks w; held := held w; next_lock := next_lock w; permits := permits w;
  threads := threads w; current := current w; last_reap := now; log := log w; entered := entered w; reaped := reaped w |}.
Definition receive (now : Z) (id : nat) (o : outgoing) (w : Tasks S) : Tasks S :=
  let interval := if produces_pending then UDP_SNIFF_REAP_INTERVAL else UDP_SNIFF_REAP_IDLE_INTERVAL in
  let w := with_locks w (key_locks w) (held w) (next_lock w) (permits w) (Some o) in
  if now - last_reap w <? interval then w
  else
    let w := set_last_reap w now in
    if produces_pending then with_threads w (<[id := {| role := Reaper; pc := Reaping (expired_keys now w) |}]> (threads w))
    else reap_idle_udp_key_locks w.

(** A task takes the lock of its key... *)
Definition enter (id : nat) (spec : session_spec) (payload : bytes) (l : nat) (w : Tasks S) : Tasks S := {|
  table := table w; pending := pending w; key_locks := key_locks w; held := {[l]} ∪ held w; next_lock := next_lock w; permits := permits w;
  threads := <[id := {| role := Handler spec payload l; pc := Entered |}]> (threads w); current := current w; last_reap := last_reap w;
  log := log w; entered := entered w ++ [(spec, payload)]; reaped := reaped w |}.
(** ... and drops it, its [Arc] and its permit. *)
Definition leave (id : nat) (l : nat) (w : Tasks S) : Tasks S :=
  with_threads (with_locks w (key_locks w) (held w ∖ {[l]}) (next_lock w) (Datatypes.S (permits w)) (current w)) (delete id (threads w)).

Definition set_pc (id : nat) (t : Thread S) (c : Pc S) (w : Tasks S) : Tasks S :=
  with_threads w (<[id := {| role := role t; pc := c |}]> (threads w)).

Definition reaping (w : Tasks S) : Prop := exists id t, threads w !! id = Some t /\ role t = Reaper.

Inductive task_step (w : Tasks S) : Tasks S -> Prop :=
  | step_receive now id o :
      current w = None -> threads w !! id = None -> task_step w (receive now id o w)
  | step_spawn id :
      is_Some (current w) -> ~ reaping w -> threads w !! id = None -> task_step w (spawn_udp_packet_handler id w)
  | step_enter id spec payload l :
      threads w !! id = Some {| role := Handler spec payload l; pc := Queued |} -> l ∉ held w -> task_step w (enter id spec payload l w)
  | step_section now id t c w' :
      threads w !! id = Some t -> section now id (role t) (pc t) w = Some (c, w') -> task_step w (set_pc id t c w')
  (** [create_udp_session] fails. *)
  | step_create_failed id t l rest k c w' :
      threads w !! id = Some t -> pc t = Creating l rest -> creators (table w) !! id = Some (k, Waiting) ->
      register id l rest None w = Some (c, w') -> task_step w (set_pc id t c w')
  | step_leave id spec payload l :
      threads w !! id = Some {| role := Handler spec payload l; pc := Leaving |} -> task_step w (leave id l w)
  | step_retain id :
      threads w !! id = Some {| role := Reaper; pc := Retaining |} ->
      task_step w (reap_idle_udp_key_locks (with_threads w (delete id (threads w))))
  (** A session is created, ends, is collected, or the runtime shuts down. *)
  | step_sessions st :
      Sessions.step (table w) st -> dom (creators st) = dom (creators (table w)) -> task_step w (with_table w st).

Inductive tasks_reachable : Tasks S -> Prop :=
  | tasks_reachable_new now : tasks_reachable (tasks_new now)
  | tasks_reachable_step w w' : tasks_reachable w -> task_step w w' -> tasks_reachable w'.
End Tasks.
