(* ===== verification/UdpTasksSafe.v ===== *)
(** What the packet tasks of a UDP loop keep true however they interleave: one
    task at a time handles the packets of a flow, and their number is bounded. *)

From S2P Require Import Prelude Bytes Sniff Quic Config TcpSniff Udp Pending Sessions UdpTasks.
#[local] Open Scope nat_scope.

(** * Counting threads *)

Section Count.
Context {S : Type}.
Implicit Types (m : gmap nat (Thread S)) (f : Thread S -> bool).

Definition count f m : nat := size (filter (fun e => f e.2 = true) m).

Lemma count_new f m id t : m !! id = None -> count f (<[id := t]> m) = count f m + Nat.b2n (f t).
Proof.
  intros Hn. unfold count. destruct (f t) eqn:E.
  - rewrite map_filter_insert_True by done. rewrite map_size_insert_None; [cbn; lia|]. by apply map_lookup_filter_None; left.
  - rewrite map_filter_insert_False by (cbn; congruence). rewrite delete_id by done. cbn. lia.
Qed.
Lemma count_delete f m id t : m !! id = Some t -> count f m = count f (delete id m) + Nat.b2n (f t).
Proof.
  intros Hs. rewrite <- (insert_delete_id m id t Hs) at 1. apply count_new, lookup_delete_eq.
Qed.
Lemma count_update f m id t t' : m !! id = Some t -> count f (<[id := t']> m) + Nat.b2n (f t) = count f m + Nat.b2n (f t').
Proof.
  intros Hs. rewrite (count_delete f m id t Hs), <- insert_delete_eq, count_new by apply lookup_delete_eq. lia.
Qed.
Lemma count_or f g h m : (forall t, f t = true -> g t = true \/ h t = true) -> count f m <= count g m + count h m.
Proof.
  intros H. induction m as [|id t m Hn IH] using map_ind; [by unfold count; rewrite map_filter_empty, map_size_empty; lia|].
  rewrite !count_new by done. specialize (H t). destruct (f t), (g t), (h t); cbn; try lia; by destruct H.
Qed.
Lemma count_0 f m : (forall id t, m !! id = Some t -> f t = false) -> count f m = 0.
Proof.
  intros H. unfold count. apply map_size_empty_iff, map_empty_filter. intros id t Ht. cbn. by rewrite (H id t Ht).
Qed.
Lemma count_one f m : (forall i j t u, m !! i = Some t -> m !! j = Some u -> f t = true -> f u = true -> i = j) -> count f m <= 1.
Proof.
  induction m as [|id t m Hn IH] using map_ind; intros H; [unfold count; rewrite map_filter_empty, map_size_empty; lia|].
  rewrite count_new by done. destruct (f t) eqn:Ef; cbn.
  - rewrite (count_0 f m); [lia|]. intros i u Hu. apply not_true_iff_false. intros Hfu. assert (i = id) as ->; [|congruence].
    apply (H i id u t); [by rewrite lookup_insert_ne by congruence|apply lookup_insert_eq|done|done].
  - rewrite Nat.add_0_r. apply IH. intros i j u v Hi Hj. apply H; by rewrite lookup_insert_ne by congruence.
Qed.
End Count.

(** * The locks *)

Section Safe.
Context {S : Type} {session : UdpSnifferSession S} {laws : UdpSnifferLaws S}.
Context (direct : session_spec -> bool).
Context (map_iter : gmap session_key (pending_sniff S) -> list (session_key * pending_sniff S)).
Context (mode : QuicSniffMode.QuicSniffMode) (timeout : Z) (sniffers : list UdpSnifferEngine).
Abbreviation section := (section direct map_iter mode timeout sniffers).
Abbreviation task_step := (task_step direct map_iter mode timeout sniffers).
Abbreviation reachable := (tasks_reachable direct map_iter mode timeout sniffers).
Implicit Types (w : Tasks S) (t : Thread S) (p : pending_sniff S).

(** A task handles packets of [spec] with the lock [l]; it [holds] the lock. *)
Definition handles w (id : nat) (spec : session_spec) (l : nat) : Prop :=
  exists t payload, threads w !! id = Some t /\ role t = Handler spec payload l.
Definition holds w (id : nat) (spec : session_spec) (l : nat) : Prop :=
  exists t payload, threads w !! id = Some t /\ role t = Handler spec payload l /\ pc t <> Queued.
Definition is_handler t : bool := match role t with Handler _ _ _ => true | Reaper => false end.

Record locks_inv w : Prop := {
  li_lock id spec l : handles w id spec l -> key_locks w !! UdpSessionSpec.key spec = Some l;
  li_inj k1 k2 l : key_locks w !! k1 = Some l -> key_locks w !! k2 = Some l -> k1 = k2;
  li_next k l : key_locks w !! k = Some l -> l < next_lock w;
  li_held l : l ∈ held w <-> exists id spec, holds w id spec l;
  li_excl id1 id2 spec1 spec2 l : holds w id1 spec1 l -> holds w id2 spec2 l -> id1 = id2;
  li_reaper id1 id2 t1 t2 : threads w !! id1 = Some t1 -> threads w !! id2 = Some t2 -> role t1 = Reaper -> role t2 = Reaper -> id1 = id2;
  li_current : reaping w -> current w <> None;
  li_permits : permits w + count is_handler (threads w) = UDP_PACKET_TASK_LIMIT;
}.

(** What a section leaves alone. *)
Definition same_tasks w w' : Prop :=
  key_locks w' = key_locks w /\ held w' = held w /\ next_lock w' = next_lock w /\ permits w' = permits w /\
  threads w' = threads w /\ current w' = current w /\ entered w' = entered w.

Lemma remove_pending_same w k e : same_tasks w (remove_pending w k e).
Proof. unfold remove_pending. by destruct (pending w !! k). Qed.
Lemma register_same id l rest x c w w' : register id l rest x w = Some (c, w') -> same_tasks w w'.
Proof.
  destruct l as [|[spec d] l]; [done|]. cbn. destruct (finish_creation _ _ _ _) as [r st]. by intros [= <- <-].
Qed.

Lemma section_same now id r c w c' w' : section now id r c w = Some (c', w') -> same_tasks w w' /\ c <> Queued /\ c' <> Queued.
Proof.
  intros H. split; [|split; [by intros ->|]].
  - destruct c as [| | |s|s| |p|[|k rest]|[|[spec d] l] rest|l rest| |k| |], r as [spec' payload lock|]; cbn in H; try done;
      repeat first [progress simplify_eq|case_match]; try done; eauto using remove_pending_same, register_same; by repeat split.
  - intros ->. destruct c as [| | |s|s| |p|[|k rest]|[|[spec d] l] rest|[|[spec d] l] rest| |k| |], r as [spec' payload lock|];
      cbn in H; repeat first [progress simplify_eq|case_match]; done.
Qed.

Lemma holds_handles w id spec l : holds w id spec l -> handles w id spec l.
Proof. intros (t & d & H1 & H2 & _). by exists t, d. Qed.

(** Only who handles what and who has entered matters. *)
Definition view w (id : nat) : option (Role * bool) :=
  (fun t => (role t, match pc t with Queued => true | _ => false end)) <$> threads w !! id.
Lemma handles_view w id spec l : handles w id spec l <-> exists payload b, view w id = Some (Handler spec payload l, b).
Proof.
  unfold handles, view. split.
  - intros (t & d & -> & Hr). cbn. rewrite Hr. eauto.
  - destruct (threads w !! id) as [t|] eqn:E; [|by intros (? & ? & ?)]. cbn. intros (d & b & [= Hr _]). by exists t, d.
Qed.
Lemma holds_view w id spec l : holds w id spec l <-> exists payload, view w id = Some (Handler spec payload l, false).
Proof.
  unfold holds, view. split.
  - intros (t & d & -> & Hr & Hq). exists d. cbn. rewrite Hr. by destruct (pc t).
  - destruct (threads w !! id) as [t|] eqn:E; [|by intros (? & ?)]. cbn. intros (d & [= Hr Hq]). exists t, d. split_and!; try done. by destruct (pc t).
Qed.
Lemma reaper_view w id : (exists t, threads w !! id = Some t /\ role t = Reaper) <-> exists b, view w id = Some (Reaper, b).
Proof.
  unfold view. split.
  - intros (t & -> & Hr). cbn. rewrite Hr. eauto.
  - destruct (threads w !! id) as [t|] eqn:E; [|by intros (? & ?)]. cbn. intros (b & [= Hr _]). by exists t.
Qed.

Lemma locks_inv_view w w' :
  (forall id, view w' id = view w id) -> count is_handler (threads w') = count is_handler (threads w) ->
  key_locks w' = key_locks w -> held w' = held w -> next_lock w' = next_lock w -> permits w' = permits w -> current w' = current w ->
  locks_inv w -> locks_inv w'.
Proof.
  intros Hv Hc Ek Eh En Ep Ec [H1 H2 H3 H4 H5 H6 H7 H8].
  assert (forall id spec l, handles w' id spec l <-> handles w id spec l) as Hhs by (intros; by rewrite !handles_view, Hv).
  assert (forall id spec l, holds w' id spec l <-> holds w id spec l) as Hh by (intros; by rewrite !holds_view, Hv).
  assert (forall id, (exists t, threads w' !! id = Some t /\ role t = Reaper) <-> (exists t, threads w !! id = Some t /\ role t = Reaper)) as Hr
    by (intros; by rewrite !reaper_view, Hv).
  split; rewrite ?Ek, ?Eh, ?En, ?Ep, ?Ec; try done.
  - intros id spec l ?%Hhs. eauto.
  - intros l. rewrite H4. by setoid_rewrite Hh.
  - intros id1 id2 s1 s2 l ?%Hh ?%Hh. eauto.
  - intros id1 id2 t1 t2 E1 E2 R1 R2. destruct (proj1 (Hr id1)) as (? & ? & ?); [by eexists|]. destruct (proj1 (Hr id2)) as (? & ? & ?); [by eexists|]. eauto.
  - intros (id & t & Ht & Hrole). apply H7. destruct (proj1 (Hr id)) as (t' & ? & ?); [by eexists|]. by exists id, t'.
  - by rewrite Hc.
Qed.

Lemma locks_inv_set_pc w w' id t c :
  same_tasks w w' -> threads w !! id = Some t -> pc t <> Queued -> c <> Queued -> locks_inv w -> locks_inv (set_pc id t c w').
Proof.
  intros (Ek & Eh & En & Ep & Et & Ec & _) Ht Hq Hc. apply locks_inv_view; cbn; try done.
  - intros id'. unfold view. cbn. rewrite Et. destruct (decide (id' = id)) as [->|Hne]; [|by rewrite lookup_insert_ne].
    rewrite lookup_insert_eq, Ht. cbn. by destruct c, (pc t).
  - rewrite Et. pose proof (count_update is_handler (threads w) id t {| role := role t; pc := c |} Ht) as H. unfold is_handler in H at 2 4. cbn in H. lia.
Qed.

Lemma locks_inv_retain w : locks_inv w -> locks_inv (reap_idle_udp_key_locks w).
Proof.
  intros [H1 H2 H3 H4 H5 H6 H7 H8]. split; try done; cbn.
  - intros id spec l Hh. apply map_lookup_filter_Some. split; [by eapply H1|]. cbn.
    destruct Hh as (t & payload & Ht & Hr). apply existsb_exists. exists (id, t).
    split; [by apply list_elem_of_In, elem_of_map_to_list|]. cbn. unfold uses. rewrite Hr. apply Nat.eqb_refl.
  - intros k1 k2 l [E1 _]%map_lookup_filter_Some [E2 _]%map_lookup_filter_Some. eauto.
  - intros k l [E1 _]%map_lookup_filter_Some. eauto.
Qed.

Lemma locks_inv_current w c : (reaping w -> c <> None) -> locks_inv w -> locks_inv (with_locks w (key_locks w) (held w) (next_lock w) (permits w) c).
Proof. intros Hc [H1 H2 H3 H4 H5 H6 H7 H8]. by split. Qed.

Lemma view_new w id t id' : threads w !! id = None ->
  view (with_threads w (<[id := t]> (threads w))) id' = if decide (id' = id) then Some (role t, match pc t with Queued => true | _ => false end) else view w id'.
Proof. intros Hn. unfold view. cbn. destruct (decide (id' = id)) as [->|]; [by rewrite lookup_insert_eq|by rewrite lookup_insert_ne]. Qed.

Lemma locks_inv_receive now id o w :
  current w = None -> threads w !! id = None -> locks_inv w -> locks_inv (receive map_iter mode now id o w).
Proof.
  intros Hc Hn Hi. unfold receive. assert (~ reaping w) as Hr by (intros H; by apply (li_current w Hi) in H).
  assert (locks_inv (with_locks w (key_locks w) (held w) (next_lock w) (permits w) (Some o))) as Hi' by (by apply locks_inv_current).
  destruct (_ <? _)%Z; [done|]. destruct (produces_pending mode); [|by apply locks_inv_retain; destruct Hi'].
  destruct Hi' as [H1 H2 H3 H4 H5 H6 H7 H8].
  set (w' := with_threads _ _). assert (forall i, view w' i = if decide (i = id) then Some (Reaper, false) else view w i) as Hv.
  { intros i. unfold w'. exact (view_new w id {| role := Reaper; pc := Reaping (expired_keys map_iter now _) |} i Hn). }
  assert (forall i spec l, handles w' i spec l -> handles w i spec l) as Hhs.
  { intros i spec l. rewrite !handles_view, Hv. destruct (decide (i = id)); [by intros (? & ? & ?)|done]. }
  assert (forall i spec l, holds w' i spec l <-> holds w i spec l) as Hh.
  { intros i spec l. rewrite !holds_view, Hv. destruct (decide (i = id)) as [->|]; [|done]. unfold view. rewrite Hn. split; by intros (? & ?). }
  split; try done.
  - intros i spec l Hx%Hhs. exact (H1 i spec l Hx).
  - intros l. setoid_rewrite Hh. apply H4.
  - intros id1 id2 s1 s2 l ?%Hh ?%Hh. by eapply H5.
  - assert (forall i t, threads w' !! i = Some t -> role t = Reaper -> i = id) as Hone; [|by intros; transitivity id; [eapply Hone|symmetry; eapply Hone]].
    intros i t Ht Hrole. destruct (decide (i = id)) as [|Hne]; [done|]. cbn in Ht. rewrite lookup_insert_ne in Ht by done. destruct Hr. by exists i, t.
  - unfold w'. cbn. rewrite count_new by done. cbn. rewrite <- H8. cbn. lia.
Qed.

Lemma locks_inv_spawn id w :
  ~ reaping w -> threads w !! id = None -> locks_inv w -> locks_inv (spawn_udp_packet_handler id w).
Proof.
  intros Hr Hn Hi. unfold spawn_udp_packet_handler. pose proof (locks_inv_current w None ltac:(done) Hi) as Hidle.
  destruct (current w) as [[spec payload]|]; [|done]. destruct (permits w) as [|n] eqn:Ep; [done|].
  case_bool_decide; [done|]. clear Hidle. destruct Hi as [H1 H2 H3 H4 H5 H6 H7 H8].
  set (k := UdpSessionSpec.key spec).
  assert (exists l m next, get_udp_key_lock w k = (l, m, next) /\ m !! k = Some l /\ l < next /\ next_lock w <= next /\
    (forall k' l', k' <> k -> m !! k' = Some l' -> l' <> l /\ l' < next) /\ (forall k' l', key_locks w !! k' = Some l' -> m !! k' = Some l') /\
    (forall k' l', k' <> k -> m !! k' = Some l' -> key_locks w !! k' = Some l') /\ (forall l', key_locks w !! k = Some l' -> l' = l)) as (l & m & next & -> & Hm).
  { unfold get_udp_key_lock. destruct (key_locks w !! k) as [l|] eqn:El.
    - exists l, (key_locks w), (next_lock w). split_and!; try done; [by eapply H3| |congruence].
      intros k' l' Hk' Hl'. split; [|by eapply H3]. intros ->. apply Hk'. by eapply H2.
    - exists (next_lock w), (<[k := next_lock w]> (key_locks w)), (Datatypes.S (next_lock w)). split_and!; try done; try lia.
      + apply lookup_insert_eq.
      + intros k' l' Hk' Hl'. rewrite lookup_insert_ne in Hl' by done. apply H3 in Hl'. lia.
      + intros k' l' Hl'. rewrite lookup_insert_ne; [done|]. intros <-. congruence.
      + intros k' l' Hk' Hl'. by rewrite lookup_insert_ne in Hl'. }
  destruct Hm as (Hml & Hlt & Hnext & Hother & Hold & Hnew & Hsame).
  set (w' := with_threads _ _).
  assert (forall i, view w' i = if decide (i = id) then Some (Handler spec payload l, true) else view w i) as Hv.
  { intros i. exact (view_new w id {| role := Handler spec payload l; pc := Queued |} i Hn). }
  assert (forall i spec l, holds w' i spec l <-> holds w i spec l) as Hh.
  { intros i spec' l'. rewrite !holds_view, Hv. destruct (decide (i = id)) as [->|]; [|done]. unfold view. rewrite Hn. split; by intros (? & ?). }
  split.
  - intros i spec' l'. rewrite handles_view, Hv. destruct (decide (i = id)) as [->|].
    + intros (? & ? & [= -> _ ->]). done.
    + intros Hx. apply Hold, (H1 i), handles_view, Hx.
  - intros k1 k2 l'. cbn. intros E1 E2. destruct (decide (k1 = k)) as [->|N1], (decide (k2 = k)) as [->|N2]; try done.
    + rewrite Hml in E1. injection E1 as <-. by apply Hother in E2 as [? _].
    + rewrite Hml in E2. injection E2 as <-. by apply Hother in E1 as [? _].
    + eauto.
  - intros k' l'. cbn. intros E. destruct (decide (k' = k)) as [->|N]; [congruence|by eapply Hother].
  - intros l'. setoid_rewrite Hh. apply H4.
  - intros id1 id2 s1 s2 l' ?%Hh ?%Hh. by eapply H5.
  - assert (forall i t, threads w' !! i = Some t -> role t = Reaper -> threads w !! i = Some t) as Hrd; [|by intros; eapply H6; eauto].
    intros i t Ht Hrole. cbn in Ht. destruct (decide (i = id)) as [->|Hne]; [rewrite lookup_insert_eq in Ht; by injection Ht as <-|by rewrite lookup_insert_ne in Ht].
  - intros (i & t & Ht & Hrole). exfalso. apply Hr. cbn in Ht. destruct (decide (i = id)) as [->|Hne]; [rewrite lookup_insert_eq in Ht; by injection Ht as <-|].
    rewrite lookup_insert_ne in Ht by done. by exists i, t.
  - cbn. rewrite count_new by done. cbn. lia.
Qed.

Lemma locks_inv_enter id spec payload l w :
  threads w !! id = Some {| role := Handler spec payload l; pc := Queued |} -> l ∉ held w -> locks_inv w ->
  locks_inv (enter id spec payload l w).
Proof.
  intros Ht Hl [H1 H2 H3 H4 H5 H6 H7 H8]. set (w' := enter _ _ _ _ _).
  assert (forall i, view w' i = if decide (i = id) then Some (Handler spec payload l, false) else view w i) as Hv.
  { intros i. unfold view. cbn. destruct (decide (i = id)) as [->|]; [by rewrite lookup_insert_eq|by rewrite lookup_insert_ne]. }
  assert (view w id = Some (Handler spec payload l, true)) as Hvid by (unfold view; by rewrite Ht).
  assert (forall i s l', holds w' i s l' <-> holds w i s l' \/ (i = id /\ s = spec /\ l' = l)) as Hh.
  { intros i s l'. rewrite !holds_view, Hv. destruct (decide (i = id)) as [->|].
    - rewrite Hvid. split; [intros (? & [= -> -> ->]); by right|]. intros [(? & ?)|(_ & -> & ->)]; [done|eauto].
    - split; [by left|]. intros [?|(? & _)]; done. }
  assert (forall i s, ~ holds w i s l) as Hno by (intros i s Hx; apply Hl, H4; eauto).
  split; try done.
  - intros i s l'. rewrite handles_view, Hv. destruct (decide (i = id)) as [->|].
    + intros (? & ? & [= <- _ <-]). apply (H1 id). by exists {| role := Handler spec payload l; pc := Queued |}, payload.
    + intros Hx. by apply (H1 i), handles_view.
  - intros l'. cbn. rewrite elem_of_union, elem_of_singleton, H4. setoid_rewrite Hh. split.
    + intros [->|(i & s & ?)]; [exists id, spec; by right|exists i, s; by left].
    + intros (i & s & [?|(_ & _ & ->)]); [right; eauto|by left].
  - intros id1 id2 s1 s2 l' [E1|(-> & -> & ->)]%Hh [E2|(E2 & E3 & E4)]%Hh; try (subst; by eapply H5); subst; try done.
    + by apply Hno in E1.
    + by apply Hno in E2.
  - assert (forall i t, threads w' !! i = Some t -> role t = Reaper -> threads w !! i = Some t) as Hrd; [|by intros; eapply H6; eauto].
    intros i t Hi Hrole. cbn in Hi. destruct (decide (i = id)) as [->|Hne]; [rewrite lookup_insert_eq in Hi; by injection Hi as <-|by rewrite lookup_insert_ne in Hi].
  - intros (i & t & Hi & Hrole). apply H7. cbn in Hi. destruct (decide (i = id)) as [->|Hne]; [rewrite lookup_insert_eq in Hi; by injection Hi as <-|].
    rewrite lookup_insert_ne in Hi by done. by exists i, t.
  - cbn. pose proof (count_update is_handler _ id _ {| role := Handler spec payload l; pc := Entered |} Ht) as Hc. cbn in Hc. lia.
Qed.

Lemma view_delete w w' id i : threads w' = delete id (threads w) -> view w' i = if decide (i = id) then None else view w i.
Proof. intros E. unfold view. rewrite E. destruct (decide (i = id)) as [->|]; [by rewrite lookup_delete_eq|by rewrite lookup_delete_ne]. Qed.

(** A task ends; a handler has held its lock. *)
Lemma locks_inv_end w w' id t :
  threads w !! id = Some t -> pc t <> Queued -> threads w' = delete id (threads w) -> key_locks w' = key_locks w -> next_lock w' = next_lock w ->
  current w' = current w ->
  match role t with
  | Handler _ _ l => held w' = held w ∖ {[l]} /\ permits w' = Datatypes.S (permits w)
  | Reaper => held w' = held w /\ permits w' = permits w
  end -> locks_inv w -> locks_inv w'.
Proof.
  intros Ht Hq Et Ek En Ec Hrole [H1 H2 H3 H4 H5 H6 H7 H8].
  pose proof (view_delete w w' id) as Hv. specialize (fun i => Hv i Et).
  assert (forall i s l, handles w' i s l -> handles w i s l) as Hhs.
  { intros i s l. rewrite !handles_view, Hv. destruct (decide (i = id)); [by intros (? & ? & ?)|done]. }
  assert (forall i s l, holds w' i s l <-> holds w i s l /\ i <> id) as Hh.
  { intros i s l. rewrite !holds_view, Hv. destruct (decide (i = id)) as [->|].
    - split; [by intros (? & ?)|by intros [_ ?]].
    - split; [done|by intros [? _]]. }
  assert (forall i t', threads w' !! i = Some t' -> threads w !! i = Some t') as Hsub.
  { intros i t'. rewrite Et. by intros [_ ?]%lookup_delete_Some. }
  split; rewrite ?Ek, ?En, ?Ec; try done.
  - intros i s l Hx%Hhs. by eapply H1.
  - intros l. setoid_rewrite Hh. destruct (role t) as [spec payload l0|] eqn:Er; destruct Hrole as [-> _].
    + rewrite elem_of_difference, elem_of_singleton, H4. assert (holds w id spec l0) as Hme by (by exists t, payload). split.
      * intros [(i & s & Hi) Hl]. exists i, s. split; [done|]. intros ->. apply Hl.
        destruct Hi as (t' & ? & Ht' & Hr' & _). rewrite Ht in Ht'. injection Ht' as <-. congruence.
      * intros (i & s & Hi & Hne). split; [eauto|]. intros ->. apply Hne. by eapply H5.
    + rewrite H4. split; [|intros (i & s & ? & _); eauto]. intros (i & s & Hi). exists i, s. split; [done|]. intros ->.
      destruct Hi as (t' & ? & Ht' & Hr' & _). rewrite Ht in Ht'. injection Ht' as <-. congruence.
  - intros id1 id2 s1 s2 l [? _]%Hh [? _]%Hh. by eapply H5.
  - intros; eapply H6; eauto.
  - intros (i & t' & Hi & ?). apply H7. exists i, t'. eauto.
  - rewrite Et. rewrite (count_delete is_handler _ id t Ht) in H8. unfold is_handler in H8 at 2.
    destruct (role t); cbn in H8; destruct Hrole as [_ ->]; lia.
Qed.

Lemma locks_inv_step w w' : locks_inv w -> task_step w w' -> locks_inv w'.
Proof.
  intros Hi Hs. destruct Hs.
  - by apply locks_inv_receive.
  - by apply locks_inv_spawn.
  - by apply locks_inv_enter.
  - apply section_same in H0 as (Hsame & Hq & Hc). by eapply locks_inv_set_pc.
  - pose proof (register_same _ _ _ _ _ _ _ H2) as Hsame. eapply locks_inv_set_pc; try done; [by rewrite H0|].
    destruct l as [|[spec d] l]; [done|]. cbn in H2. by destruct (finish_creation _ _ _ _) as [r st]; injection H2 as <- _.
  - by eapply locks_inv_end.
  - apply locks_inv_retain. by eapply locks_inv_end.
  - by destruct Hi.
Qed.

Lemma locks_inv_new now : locks_inv (tasks_new now).
Proof.
  split; cbn; try done.
  - by intros id spec l (t & d & H & _).
  - intros l. split; [by intros ?%not_elem_of_empty|]. by intros (id & spec & t & d & H & _).
  - by intros id1 id2 s1 s2 l (t & d & H & _).
  - by intros (id & t & H & _).
Qed.

Lemma reachable_locks w : reachable w -> locks_inv w.
Proof. induction 1; [apply locks_inv_new|by eapply locks_inv_step]. Qed.

(** * The shape of tasks and entries *)

Abbreviation key := UdpSessionSpec.key.
Definition own (k : session_key) (l : list outgoing) : Prop := Forall (fun o => key o.1 = k) l.
(** What waits in an entry is bounded. *)
Record within (p : pending_sniff S) : Prop := {
  wi_count : (1 <= Z.of_nat (length (cached p)) <= 8)%Z;
  wi_cached : PendingReplayBuffer.cached_bytes (PendingUdpSniff.replay p) = zlen (concat (cached p));
  wi_bytes : (zlen (concat (cached p)) <= Z.max 65536 (zlen (hd [] (cached p))))%Z;
  wi_clues : (0 <= PendingUdpSniff.no_clue_attempts p < 2)%Z;
}.
Definition entry_ok (k : session_key) (p : pending_sniff S) : Prop :=
  key (PendingUdpSniff.spec p) = k /\ session_ok (PendingUdpSniff.sniffer p) /\ within p.
(** A datagram that is pushed leaves the entry within its bounds. *)
Lemma within_push p d replay n spec sniffer : within p -> push_datagram (PendingUdpSniff.replay p) d = Some replay ->
  (0 <= n < 2)%Z -> within (update_pending p n spec sniffer replay).
Proof.
  intros [Hc Hb Hm _]. unfold push_datagram, cached in *.
  destruct (Z.leb_spec UDP_SNIFF_MAX_CACHED_DATAGRAMS (Z.of_nat (length (PendingReplayBuffer.datagrams (PendingUdpSniff.replay p))))) as [|Hlt]; [done|].
  destruct (Z.ltb_spec UDP_SNIFF_MAX_CACHED_BYTES (usize_sat_add (PendingReplayBuffer.cached_bytes (PendingUdpSniff.replay p)) (zlen d))) as [|Hle]; [done|].
  intros [= <-] Hn. assert (zlen (concat (PendingReplayBuffer.datagrams (PendingUdpSniff.replay p) ++ [d])) =
    (PendingReplayBuffer.cached_bytes (PendingUdpSniff.replay p) + zlen d)%Z) as E.
  { rewrite concat_app, Hb. cbn. rewrite app_nil_r. unfold zlen. rewrite length_app. lia. }
  unfold usize_sat_add, USIZE_MAX, UDP_SNIFF_MAX_CACHED_BYTES, UDP_SNIFF_MAX_CACHED_DATAGRAMS in *.
  split; unfold cached; cbn -[concat]; rewrite ?E, ?length_app; cbn [length]; lia.
Qed.
Lemma within_new now spec sniffer d : within (pending_new timeout now spec sniffer d).
Proof.
  assert (concat [d] = d) as E by (cbn; by rewrite app_nil_r).
  split; unfold cached; cbn -[concat]; rewrite ?E; try done; lia.
Qed.

Definition shape (reaped : gset session_key) t : Prop :=
  match role t, pc t with
  | Handler spec _ _, Sending l rest => own (key spec) l /\ rest = []
  | Handler spec _ _, Creating l rest => own (key spec) l /\ rest = [] /\ l <> []
  | Handler spec _ _, Inserting p => entry_ok (key spec) p
  | Handler _ _ _, (Reaping _ | Retaining) => False
  | Handler _ _ _, _ => True
  | Reaper, Sending l _ => Forall (fun o => key o.1 ∈ reaped) l
  | Reaper, Creating l _ => Forall (fun o => key o.1 ∈ reaped) l /\ l <> []
  | Reaper, (Reaping _ | Evicting | EvictKey _ | Retaining) => True
  | Reaper, _ => False
  end.
Record shape_inv w : Prop := {
  si_threads id t : threads w !! id = Some t -> shape (reaped w) t;
  si_pending k p : pending w !! k = Some p -> entry_ok k p;
}.

Lemma own_flushed k p : key (PendingUdpSniff.spec p) = k -> own k (flushed p).
Proof. intros <-. apply Forall_map, Forall_true. done. Qed.
Lemma snd_flushed p : map snd (flushed p) = cached p.
Proof. unfold flushed. rewrite map_map. apply map_id. Qed.

(** A decision keeps the datagrams, the new one last. *)
Definition decides (k : session_key) (ds : list bytes) (r : pure_res (list outgoing + pending_sniff S)) : Prop :=
  match r with
  | Ok (inl l) => own k l /\ map snd l = ds
  | Ok (inr p) => entry_ok k p /\ cached p = ds
  | _ => False
  end.

Lemma decides_flushed k ds p : key (PendingUdpSniff.spec p) = k -> cached p = ds -> decides k ds (Ok (inl (flushed p))).
Proof. intros Hp <-. split; [by apply own_flushed|apply snd_flushed]. Qed.

Lemma decide_pending_ok now k p spec payload :
  entry_ok k p -> key spec = k -> decides k (cached p ++ [payload]) (decide_pending now p spec payload).
Proof.
  intros Hp Hk. assert (decides k (cached p ++ [payload]) (Ok (inl (flushed p ++ [(spec, payload)])))) as Hover.
  { split; [apply Forall_app; split; [by apply own_flushed, Hp|by repeat constructor]|by rewrite map_app, snd_flushed]. }
  unfold decide_pending. destruct (expired now p); [done|]. destruct (push_datagram _ _) as [replay|] eqn:Epush; [|done].
  assert (PendingReplayBuffer.datagrams replay = cached p ++ [payload]) as Er.
  { unfold push_datagram in Epush. destruct (_ || _); [done|]. by injection Epush as <-. }
  destruct Hp as (Hpk & Hps & Hpw). destruct (feed_ok (PendingUdpSniff.sniffer p) payload Hps) as [Hret Hok].
  destruct (feed (PendingUdpSniff.sniffer p) payload) as [[o| | |] sniffer]; try done. cbn [res_bind fst snd] in *.
  destruct o as [proto host| |proto|proto e].
  - by apply decides_flushed.
  - cbn [PendingUdpSniff.no_clue_attempts update_pending]. destruct (Z.leb_spec UDP_SNIFF_NO_CLUE_LIMIT (PendingUdpSniff.no_clue_attempts p + 1)) as [|Hlt].
    + by apply decides_flushed.
    + split; [|done]. split; [done|]. split; [done|]. apply (within_push p payload); [done|done|]. unfold UDP_SNIFF_NO_CLUE_LIMIT in Hlt. pose proof (wi_clues p Hpw). lia.
  - split; [|done]. split; [done|]. split; [done|]. apply (within_push p payload); [done|done|apply Hpw].
  - by apply decides_flushed.
Qed.

Lemma decides_one spec spec' payload : key spec' = key spec -> decides (key spec) [payload] (Ok (inl [(spec', payload)])).
Proof. intros E. split; [|done]. constructor; [exact E|constructor]. Qed.

Lemma decide_new_loop_ok now spec payload es : decides (key spec) [payload] (decide_new_loop mode timeout now spec payload es).
Proof.
  induction es as [|e es IH]; cbn [decide_new_loop]; [by apply decides_one|].
  destruct (feed_ok (new_session e) payload (new_session_ok e)) as [Hret Hok].
  destruct (feed (new_session e) payload) as [[o| | |] sniffer]; try done. cbn [res_bind fst snd] in *.
  destruct o as [proto host| |proto|proto e']; try done; [by apply decides_one|].
  destruct mode; [by apply decides_one|by apply decides_one|]. split; [|done]. split; [done|]. split; [done|apply within_new].
Qed.

Lemma decide_new_ok now spec payload : decides (key spec) [payload] (decide_new direct mode timeout sniffers now spec payload).
Proof.
  unfold decide_new. case_bool_decide; [by apply decides_one|]. destruct (direct spec); [by apply decides_one|]. apply decide_new_loop_ok.
Qed.

(** * Sections, case by case *)

(** A decision as the place where the task goes on. *)
Definition decided (k : session_key) (ds : list bytes) (c : Pc S) : Prop :=
  match c with
  | Sending l [] => own k l /\ map snd l = ds
  | Inserting p => entry_ok k p /\ cached p = ds
  | _ => False
  end.

Inductive moves (id : nat) w : Role -> Pc S -> Pc S -> Tasks S -> Prop :=
  | mv_refused spec d l : is_closed (table w) = true -> moves id w (Handler spec d l) Entered Leaving (with_log w (Refused (key spec) d))
  | mv_open r : is_closed (table w) = false -> moves id w r Entered Opened w
  | mv_found spec d l s : entries (table w) !! key spec = Some (Ready s) -> moves id w (Handler spec d l) Opened (Found s) w
  | mv_unknown spec d l : get_ready_udp_session (table w) (key spec) = None -> moves id w (Handler spec d l) Opened Unknown w
  | mv_discard spec d l s p : pending w !! key spec = Some p ->
      moves id w (Handler spec d l) (Found s) (Hit s) (with_log (with_pending w (delete (key spec) (pending w))) (DiscardedEntry (key spec) (cached p)))
  | mv_hit spec d l s : pending w !! key spec = None -> moves id w (Handler spec d l) (Found s) (Hit s) w
  | mv_handed spec d l s : moves id w (Handler spec d l) (Hit s) Leaving (with_log w (Sent spec d s))
  | mv_decide_old spec d l p c : pending w !! key spec = Some p -> decided (key spec) (cached p ++ [d]) c ->
      moves id w (Handler spec d l) Unknown c (with_pending w (delete (key spec) (pending w)))
  | mv_decide_new spec d l c : pending w !! key spec = None -> decided (key spec) [d] c -> moves id w (Handler spec d l) Unknown c w
  | mv_insert spec d l p : moves id w (Handler spec d l) (Inserting p) Evicting (with_pending w (<[key spec := p]> (pending w)))
  | mv_evicted r : size (pending w) <= 4096 \/ oldest (map_iter (pending w)) = None -> moves id w r Evicting (after_evicting r) w
  | mv_evict r k : 4096 < size (pending w) -> moves id w r Evicting (EvictKey k) w
  | mv_remove r k p : pending w !! k = Some p ->
      moves id w r (EvictKey k) Evicting (with_log (with_pending w (delete k (pending w))) (EvictedEntry k (cached p)))
  | mv_gone r k : pending w !! k = None -> moves id w r (EvictKey k) Evicting w
  | mv_reaped r : moves id w r (Reaping []) Evicting w
  | mv_skip r k rest : pending w !! k = None -> moves id w r (Reaping (k :: rest)) (Reaping rest) w
  | mv_reap r k rest p : pending w !! k = Some p ->
      moves id w r (Reaping (k :: rest)) (Sending (flushed p) rest) (with_reaped (with_pending w (delete k (pending w))) k)
  | mv_sent r rest : moves id w r (Sending [] rest) (after_sending r rest) w
  | mv_lost r spec d l rest : is_closed (table w) = true -> moves id w r (Sending ((spec, d) :: l) rest) (Sending l rest) (with_log w (Lost spec d))
  | mv_send r spec d l rest s : is_closed (table w) = false -> entries (table w) !! key spec = Some (Ready s) ->
      moves id w r (Sending ((spec, d) :: l) rest) (Sending l rest) (with_log w (Sent spec d s))
  | mv_claim r spec d l rest st : lookup_or_claim (table w) (key spec) id = (Create, st) ->
      moves id w r (Sending ((spec, d) :: l) rest) (Creating ((spec, d) :: l) rest) (with_table w st)
  | mv_register r spec d l rest k x res st :
      creators (table w) !! id = Some (k, match x with Some s => Created s | None => Waiting end) ->
      finish_creation (table w) id (key spec) x = (res, st) ->
      moves id w r (Creating ((spec, d) :: l) rest) (Sending l rest)
        (with_log (with_table w st) (match res with Some s => Sent spec d s | None => Lost spec d end)).

Lemma remove_pending_moves w k e : 
  (exists p, pending w !! k = Some p /\ remove_pending w k e = with_log (with_pending w (delete k (pending w))) (e (cached p))) \/
  (pending w !! k = None /\ remove_pending w k e = w).
Proof. unfold remove_pending. destruct (pending w !! k) as [p|]; [left; by exists p|by right]. Qed.

Lemma decides_decided k ds r : decides k ds r -> exists c, decided k ds c /\ forall w,
  match r with Ok (inl l) => Some (Sending l [], w) | Ok (inr p) => Some (Inserting p, w) | _ => None end = Some (c, w).
Proof. destruct r as [[l|p]| | |]; try done; intros H; [exists (Sending l [])|exists (Inserting p)]; done. Qed.

Lemma register_moves id r l rest x c w w' k :
  creators (table w) !! id = Some (k, match x with Some s => Created s | None => Waiting end) ->
  register id l rest x w = Some (c, w') -> moves id w r (Creating l rest) c w'.
Proof.
  intros Hc. destruct l as [|[spec d] l]; [done|]. cbn. destruct (finish_creation _ _ _ _) as [res st] eqn:E. intros [= <- <-].
  by eapply mv_register.
Qed.

Lemma section_moves now id r c w c' w' :
  (forall k p, pending w !! k = Some p -> entry_ok k p) -> section now id r c w = Some (c', w') -> moves id w r c c' w'.
Proof.
  intros Hp H. destruct c as [| | |s|s| |p|[|k rest]|[|[spec d] l] rest|l rest| |k| |]; try done.
  - destruct r as [spec d l|]; [|done]. cbn in H. destruct (is_closed _) eqn:E; injection H as <- <-; by constructor.
  - destruct r as [spec d l|]; [|done]. cbn in H. injection H as <- <-. destruct (get_ready_udp_session _ _) as [s|] eqn:E; constructor; [|done].
    unfold get_ready_udp_session in E. by repeat (case_match; simplify_eq).
  - destruct r as [spec d l|]; [|done]. cbn in H. injection H as <- <-.
    destruct (remove_pending_moves w (key spec) (DiscardedEntry (key spec))) as [(p & Ep & ->)|[Ep ->]]; by constructor.
  - destruct r as [spec d l|]; [|done]. cbn in H. injection H as <- <-. constructor.
  - destruct r as [spec d l|]; [|done]. cbn in H. destruct (pending w !! key spec) as [p|] eqn:E.
    + destruct (decides_decided _ _ _ (decide_pending_ok now (key spec) p spec d (Hp _ _ E) eq_refl)) as (c & Hc & Ec).
      rewrite Ec in H. injection H as <- <-. by eapply mv_decide_old.
    + destruct (decides_decided _ _ _ (decide_new_ok now spec d)) as (c & Hc & Ec). rewrite Ec in H. injection H as <- <-. by eapply mv_decide_new.
  - destruct r as [spec d l|]; [|done]. cbn in H. injection H as <- <-. constructor.
  - injection H as <- <-. constructor.
  - cbn in H. destruct (pending w !! k) as [p|] eqn:E; injection H as <- <-; by constructor.
  - injection H as <- <-. constructor.
  - cbn [UdpTasks.section send_section] in H. destruct (lookup_or_claim _ _ _) as [[]] eqn:E; try done; injection H as <- <-.
    + unfold lookup_or_claim in E. destruct (is_closed _) eqn:Ec; [|by repeat (case_match; simplify_eq)]. by constructor.
    + unfold lookup_or_claim in E. destruct (is_closed _) eqn:Ec; [done|]. constructor; [done|]. by repeat (case_match; simplify_eq).
    + by constructor.
  - cbn in H. destruct (creators _ !! id) as [[k [|s]]|] eqn:E; try done. eapply register_moves; [|exact H]. exact E.
  - cbn in H. destruct (_ <=? _)%Z eqn:E.
    + injection H as <- <-. constructor. left. apply Z.leb_le in E. unfold UDP_SNIFF_MAX_PENDING_SESSIONS in E. lia.
    + apply Z.leb_gt in E. unfold UDP_SNIFF_MAX_PENDING_SESSIONS in E. destruct (oldest _) as [[k p]|] eqn:Eo; injection H as <- <-; constructor; [lia|by right].
  - cbn in H. injection H as <- <-. destruct (remove_pending_moves w k (EvictedEntry k)) as [(p & Ep & ->)|[Ep ->]]; by constructor.
Qed.

Lemma shape_mono (x y : gset session_key) t : x ⊆ y -> shape x t -> shape y t.
Proof.
  intros Hxy. unfold shape. destruct (role t); [done|]. destruct (pc t); try done.
  - intros H. eapply Forall_impl; [exact H|]. set_solver.
  - intros [H ?]. split; [|done]. eapply Forall_impl; [exact H|]. set_solver.
Qed.

Lemma moves_pending id w r c c' w' k p :
  moves id w r c c' w' -> pending w' !! k = Some p ->
  pending w !! k = Some p \/ exists spec d l, r = Handler spec d l /\ c = Inserting p /\ key spec = k.
Proof.
  intros Hm. destruct Hm; cbn; try (by intros; left).
  all: try (intros [_ ?]%lookup_delete_Some; by left).
  intros [[<- <-]|[_ ?]]%lookup_insert_Some; [right; by eexists _, _, _|by left].
Qed.

Lemma shape_decided reaped spec d l ds c : decided (key spec) ds c -> shape reaped {| role := Handler spec d l; pc := c |}.
Proof. destruct c as [| | | | | | | |l' []| | | | |]; try done; by intros [? _]. Qed.

Lemma shape_moves id w r c c' w' :
  shape_inv w -> shape (reaped w) {| role := r; pc := c |} -> moves id w r c c' w' ->
  reaped w ⊆ reaped w' /\ shape (reaped w') {| role := r; pc := c' |} /\ (forall k p, pending w' !! k = Some p -> entry_ok k p).
Proof.
  intros [Ht Hp] Hsh Hm. split; [destruct Hm; cbn; set_solver|]. split.
  - destruct Hm; cbn in *; try done.
    all: try match goal with r : Role |- _ => destruct r end; cbn in *; try done.
    + exact (shape_decided (reaped w) spec d l _ c H0).
    + exact (shape_decided (reaped w) spec d l _ c H0).
    + pose proof (own_flushed _ _ (proj1 (Hp _ _ H))) as Ho. eapply Forall_impl; [exact Ho|]. cbn. intros o ->. set_solver.
    + destruct Hsh as [Ho ->]. by apply Forall_cons in Ho as [_ Ho].
    + by apply Forall_cons in Hsh as [_ ?].
    + destruct Hsh as [Ho ->]. by apply Forall_cons in Ho as [_ Ho].
    + by apply Forall_cons in Hsh as [_ ?].
    + by destruct Hsh as [Ho ->].
    + destruct Hsh as (Ho & -> & _). by apply Forall_cons in Ho as [_ Ho].
    + destruct Hsh as [Ho _]. by apply Forall_cons in Ho as [_ Ho].
  - intros k p Hk. destruct (moves_pending _ _ _ _ _ _ k p Hm Hk) as [?|(spec & d & l & -> & -> & <-)]; [by apply Hp|exact Hsh].
Qed.

(** * Steps *)

(** A step moves one task; or starts, lets in or ends tasks; or belongs to the
    tasks of the session table. *)
Inductive acts w : Tasks S -> Prop :=
  | act_move id t c w0 :
      threads w !! id = Some t -> moves id w (role t) (pc t) c w0 -> same_tasks w w0 -> pc t <> Queued -> c <> Queued -> acts w (set_pc id t c w0)
  | act_enter id spec payload l :
      threads w !! id = Some {| role := Handler spec payload l; pc := Queued |} -> l ∉ held w -> acts w (enter id spec payload l w)
  | act_tasks w' :
      table w' = table w -> pending w' = pending w -> log w' = log w -> entered w' = entered w -> reaped w' = reaped w ->
      (forall id t, threads w' !! id = Some t -> threads w !! id = Some t \/
        threads w !! id = None /\ match role t with Handler _ _ _ => pc t = Queued | Reaper => exists ks, pc t = Reaping ks end) ->
      (forall id t, threads w !! id = Some t -> threads w' !! id = Some t \/ pc t = Leaving \/ pc t = Retaining) ->
      acts w w'
  | act_sessions st : Sessions.step (table w) st -> dom (creators st) = dom (creators (table w)) -> acts w (with_table w st).

Lemma insert_new (m : gmap nat (Thread S)) id t0 id' t : <[id := t0]> m !! id' = Some t -> m !! id = None -> m !! id' = Some t \/ (m !! id' = None /\ t = t0).
Proof. intros [[<- <-]|[_ ?]]%lookup_insert_Some ?; eauto. Qed.
Lemma insert_keeps (m : gmap nat (Thread S)) id t0 id' t : m !! id = None -> m !! id' = Some t -> <[id := t0]> m !! id' = Some t.
Proof. intros Hn Ht. rewrite lookup_insert_ne; [done|]. congruence. Qed.

Lemma step_acts w w' : shape_inv w -> task_step w w' -> acts w w'.
Proof.
  intros Hsh Hs. destruct Hs.
  - unfold receive. repeat case_match; apply act_tasks; cbn; try (by eauto).
    + intros id' t Ht. destruct (insert_new _ _ _ _ _ Ht H0) as [|[? ->]]; [by left|right]. cbn. eauto.
    + intros id' t Ht. left. by apply insert_keeps.
  - unfold spawn_udp_packet_handler. repeat case_match; apply act_tasks; cbn; try (by eauto).
    + intros id' t Ht. destruct (insert_new _ _ _ _ _ Ht H1) as [|[? ->]]; [by left|by right].
    + intros id' t Ht. left. by apply insert_keeps.
  - by apply act_enter.
  - pose proof (section_same _ _ _ _ _ _ _ H0) as (? & ? & ?). apply act_move; try done. eapply section_moves; [apply Hsh|exact H0].
  - pose proof (register_same _ _ _ _ _ _ _ H2) as ?. apply act_move; try done; [|by rewrite H0|].
    + rewrite H0. exact (register_moves _ _ _ _ None _ _ _ _ H1 H2).
    + destruct l as [|[spec d] l]; [done|]. cbn in H2. by destruct (finish_creation _ _ _ _); injection H2 as <- _.
  - apply act_tasks; try done; cbn.
    + intros id' t [_ ?]%lookup_delete_Some. by left.
    + intros id' t Ht. destruct (decide (id' = id)) as [->|]; [right; left; by simplify_eq|left; by rewrite lookup_delete_ne].
  - apply act_tasks; try done; cbn.
    + intros id' t [_ ?]%lookup_delete_Some. by left.
    + intros id' t Ht. destruct (decide (id' = id)) as [->|]; [right; right; by simplify_eq|left; by rewrite lookup_delete_ne].
  - by apply act_sessions.
Qed.

Lemma shape_acts w w' : shape_inv w -> acts w w' -> shape_inv w'.
Proof.
  intros Hsh Ha. destruct Ha as [id t c w0 Ht Hm (_ & _ & _ & _ & Et & _) _ _|id spec d l Ht Hl|w' Et Ep El Ee Er Hnew Hold|st].
  - destruct t as [r c0]. destruct (shape_moves _ _ _ _ _ _ Hsh (si_threads w Hsh id _ Ht) Hm) as (Hr & Hc & Hp). split; [|done]. cbn. rewrite Et.
    intros id' t' [[_ <-]|[_ H]]%lookup_insert_Some; [done|]. eapply shape_mono; [done|by eapply si_threads].
  - split; [|apply Hsh]. cbn. intros id' t' [[_ <-]|[_ H]]%lookup_insert_Some; [done|by eapply si_threads].
  - split; [|by rewrite Ep; apply Hsh]. rewrite Er. intros id t Ht. destruct (Hnew id t Ht) as [?|[_ Hc]]; [by eapply si_threads|].
    unfold shape. destruct (role t); [by rewrite Hc|by destruct Hc as [ks ->]].
  - by destruct Hsh.
Qed.

Lemma shape_new now : shape_inv (tasks_new now).
Proof. by split. Qed.
Lemma reachable_shape w : reachable w -> shape_inv w.
Proof. induction 1; [apply shape_new|]. eapply shape_acts; [done|by apply step_acts]. Qed.

(** An invariant of the acts holds in every reachable state. *)
Lemma reachable_invariant (I : Tasks S -> Prop) :
  (forall now, I (tasks_new now)) -> (forall w w', reachable w -> I w -> acts w w' -> I w') -> forall w, reachable w -> I w.
Proof.
  intros Hnew Hacts w Hr. induction Hr as [|w w' Hr IH Hs]; [done|]. apply (Hacts w w'); try done. apply step_acts; [by apply reachable_shape|done].
Qed.
End Safe.
