(* ===== verification/UdpTasksFlow.v ===== *)
(** What becomes of the datagrams of a flow under the concurrent tasks of
    [UdpTasks]: none is lost or repeated unrecorded, and unless the loop has
    reaped the flow they leave in the order in which their tasks got the lock. *)

From S2P Require Import Prelude Bytes Sniff Quic Config TcpSniff Udp Pending Sessions UdpTasks UdpTasksSafe.
#[local] Open Scope nat_scope.

Section Flow.
Context {S : Type} {session : UdpSnifferSession S} {laws : UdpSnifferLaws S}.
Context (direct : session_spec -> bool).
Context (map_iter : gmap session_key (pending_sniff S) -> list (session_key * pending_sniff S)).
Context (mode : QuicSniffMode.QuicSniffMode) (timeout : Z) (sniffers : list UdpSnifferEngine).
Abbreviation reachable := (tasks_reachable direct map_iter mode timeout sniffers).
Abbreviation acts := (acts map_iter).
Abbreviation moves := (moves map_iter).
Abbreviation key := UdpSessionSpec.key.
Implicit Types (w : Tasks S) (t : Thread S) (p : pending_sniff S).

(** * Sessions under creation *)

(** The key of the session that a task creates. *)
Definition creating t : option session_key := match pc t with Creating ((spec, _) :: _) _ => Some (key spec) | _ => None end.
Record table_inv w : Prop := {
  ti_table : Sessions.reachable (table w);
  ti_creators id k : (exists x, creators (table w) !! id = Some (k, x)) <-> exists t, threads w !! id = Some t /\ creating t = Some k;
}.

Lemma finish_creators st id k x res st' : finish_creation st id k x = (res, st') -> creators st' = delete id (creators st).
Proof. unfold finish_creation. by repeat case_match; intros [= <- <-]. Qed.
Lemma claim_creators st id k st' : lookup_or_claim st k id = (Create, st') -> creators st' = <[id := (k, Waiting)]> (creators st).
Proof. unfold lookup_or_claim. repeat case_match; try done. by intros [= <-]. Qed.

Lemma cleanup_creators expired l st : creators (cleanup_expired expired l st) = creators st.
Proof.
  unfold cleanup_expired. revert st. induction l as [|e l IH]; intros st; [done|]. cbn. rewrite IH. unfold cleanup_one. by case_match.
Qed.

(** The other tasks of the session table keep the creations under way. *)
Lemma sessions_creators st st' :
  Sessions.step st st' -> dom (creators st') = dom (creators st) ->
  forall id k, (exists x, creators st' !! id = Some (k, x)) <-> exists x, creators st !! id = Some (k, x).
Proof.
  assert (forall id k x, creators st !! id = Some (k, x) -> dom (delete id (creators st)) <> dom (creators st)) as Hdel.
  { intros id k x Hc%elem_of_dom_2. rewrite dom_delete_L. set_solver. }
  intros Hs Hd id k. destruct Hs as [st k' c st' Hn Hl|st c k' s Hc _ _ _|st c k' s Hc|st c k' Hc| | | |st expired l| |]; try done.
  - rewrite (claim_creators _ _ _ _ Hl), dom_insert_L in Hd. apply not_elem_of_dom in Hn. set_solver.
  - cbn. destruct (decide (id = c)) as [->|Hne]; [|by rewrite lookup_insert_ne]. rewrite lookup_insert_eq, Hc.
    split; intros [x [= <- _]]; by eexists.
  - destruct (finish_creation st c k' (Some s)) as [r st'] eqn:E. cbn in Hd. rewrite (finish_creators _ _ _ _ _ _ E) in Hd. by apply Hdel in Hc.
  - destruct (finish_creation st c k' None) as [r st'] eqn:E. cbn in Hd. rewrite (finish_creators _ _ _ _ _ _ E) in Hd. by apply Hdel in Hc.
  - unfold recv_remove. by case_match.
  - by rewrite cleanup_creators.
Qed.

(** A task that neither starts nor ends a creation. *)
Lemma table_inv_threads w w' :
  table_inv w -> table w' = table w ->
  (forall id t, threads w' !! id = Some t -> creating t <> None -> threads w !! id = Some t) ->
  (forall id t, threads w !! id = Some t -> creating t <> None -> threads w' !! id = Some t) -> table_inv w'.
Proof.
  intros [H1 H2] Et H3 H4. split; rewrite Et; [done|]. intros id k. rewrite H2.
  split; intros (t & Ht & Hk); exists t; (split; [|done]); [eapply H4|eapply H3]; try done; by rewrite Hk.
Qed.
Lemma table_inv_set_pc w w' id t c :
  table_inv w -> threads w !! id = Some t -> threads w' = threads w -> table w' = table w -> creating t = None ->
  creating {| role := role t; pc := c |} = None -> table_inv (set_pc id t c w').
Proof.
  intros Hi Ht Eth Et Hc Hc'. eapply table_inv_threads; [done|done|..]; cbn; rewrite Eth; intros id' t'.
  - by intros [[_ <-]|[_ ?]]%lookup_insert_Some.
  - intros Ht' Hne. rewrite lookup_insert_ne; [done|]. intros <-. by simplify_eq.
Qed.

Lemma decided_not_creating (r : Role) k ds (c : Pc S) : decided k ds c -> creating {| role := r; pc := c |} = None.
Proof. by destruct c as [| | | | | | | |l []| | | | |]. Qed.

Lemma table_inv_acts w w' : table_inv w -> acts w w' -> table_inv w'.
Proof.
  intros Hi Ha. destruct Ha as [id t c w0 Ht Hm (_ & _ & _ & _ & Et & _) _ _|id spec d l Ht Hl|w' Et _ _ _ _ Hnew Hold|st Hs Hd].
  - destruct t as [r c0]. cbn in Hm. destruct Hm; try by eapply table_inv_set_pc.
    1,2: eapply table_inv_set_pc; try done; by eapply decided_not_creating.
    1,2: eapply table_inv_set_pc; try done; by destruct r.
    + assert (creators (table w) !! id = None) as Hn.
      { destruct (creators (table w) !! id) as [[k x]|] eqn:E; [|done]. destruct (proj1 (ti_creators w Hi id k)) as (t & Ht' & Hc); [by eexists|].
        rewrite Ht in Ht'. injection Ht' as <-. done. }
      split; [eapply reachable_step; [apply Hi|]; by eapply step_claim|]. cbn. intros id' k'. rewrite (claim_creators _ _ _ _ H).
      destruct (decide (id' = id)) as [->|Hne].
      * rewrite !lookup_insert_eq. split; [intros (x & [= <- _]); by eexists|]. intros (t & [= <-] & [= <-]). by eexists.
      * rewrite !lookup_insert_ne by done. apply Hi.
    + destruct (proj1 (ti_creators w Hi id k)) as (t & Ht' & Hc); [by eexists|]. rewrite Ht in Ht'. injection Ht' as <-. injection Hc as Hk.
      split.
      * eapply reachable_step; [apply Hi|]. cbn. replace st with (finish_creation (table w) id (key spec) x).2 by (by rewrite H0).
        rewrite Hk. destruct x; [by apply step_register|by apply step_failed].
      * cbn. intros id' k'. rewrite (finish_creators _ _ _ _ _ _ H0). destruct (decide (id' = id)) as [->|Hne].
        -- rewrite lookup_delete_eq, lookup_insert_eq. split; [by intros [? ?]|]. by intros (t & [= <-] & ?).
        -- rewrite lookup_delete_ne, lookup_insert_ne by done. apply Hi.
  - eapply table_inv_threads; [done|done|..]; cbn; intros id' t'.
    + by intros [[_ <-]|[_ ?]]%lookup_insert_Some.
    + intros Ht' Hne. rewrite lookup_insert_ne; [done|]. intros <-. by simplify_eq.
  - eapply table_inv_threads; [done|done|..].
    + intros id t Ht Hc. destruct (Hnew id t Ht) as [?|[_ Hq]]; [done|]. exfalso. apply Hc. unfold creating.
      destruct (role t); [by rewrite Hq|by destruct Hq as [ks ->]].
    + intros id t Ht Hc. destruct (Hold id t Ht) as [?|[Hq|Hq]]; [done|..]; exfalso; apply Hc; unfold creating; by rewrite Hq.
  - split; cbn; [eapply reachable_step; [apply Hi|exact Hs]|]. intros id k. rewrite (sessions_creators _ _ Hs Hd). apply Hi.
Qed.

Lemma reachable_table w : reachable w -> table_inv w.
Proof.
  apply reachable_invariant.
  - intros now. split; [apply reachable_new|]. intros id k. cbn. split; [by intros [? ?]|by intros (? & ? & _)].
  - intros ? ? _. apply table_inv_acts.
Qed.

(** * One task per flow *)

(** A task of the flow [k] that stands at [c], with its packet [o]. *)
Definition handler_at w (id : nat) (k : session_key) (o : outgoing) (c : Pc S) : Prop :=
  key o.1 = k /\ exists l, threads w !! id = Some {| role := Handler o.1 o.2 l; pc := c |}.

Lemma handler_exclusive w id1 id2 k o1 o2 c1 c2 :
  locks_inv w -> handler_at w id1 k o1 c1 -> handler_at w id2 k o2 c2 -> c1 <> Queued -> c2 <> Queued -> id1 = id2.
Proof.
  intros Hl [K1 [l1 H1]] [K2 [l2 H2]] Q1 Q2.
  assert (l1 = l2) as <-.
  { pose proof (li_lock w Hl id1 o1.1 l1 ltac:(by eexists _, _)) as E1. pose proof (li_lock w Hl id2 o2.1 l2 ltac:(by eexists _, _)) as E2.
    rewrite K1 in E1. rewrite K2 in E2. congruence. }
  eapply (li_excl w Hl id1 id2); by eexists _, _.
Qed.
Lemma handler_here w id t spec d l : threads w !! id = Some t -> role t = Handler spec d l -> handler_at w id (key spec) (spec, d) (pc t).
Proof. intros Ht Hr. split; [done|]. exists l. rewrite Ht. destruct t. cbn in *. by subst. Qed.

(** The handlers after a step of [id], which is at [c] now. *)
Lemma handler_set_pc w w0 id t c id' k o c' :
  threads w !! id = Some t -> threads w0 = threads w -> handler_at (set_pc id t c w0) id' k o c' ->
  (id' = id /\ c' = c /\ handler_at w id k o (pc t)) \/ (id' <> id /\ handler_at w id' k o c').
Proof.
  intros Ht Et [Hk [l Hl]]. cbn in Hl. rewrite Et in Hl. apply lookup_insert_Some in Hl as [[<- E]|[Hne Hl]].
  - left. injection E as Er <-. split; [done|]. split; [done|]. split; [done|]. exists l. rewrite Ht. by destruct t; cbn in *; subst.
  - right. split; [done|]. split; [done|]. by exists l.
Qed.

(** A handler that has taken the entry of its flow out leaves none behind. *)
Definition busy (c : Pc S) : bool := match c with Inserting _ | Sending _ _ | Creating _ _ => true | _ => false end.
Definition absent_inv w : Prop := forall id k o c, handler_at w id k o c -> busy c = true -> pending w !! k = None.

Lemma busy_entered c : busy c = true -> c <> Queued.
Proof. by destruct c. Qed.

Lemma moves_absent id w r c c' w' spec d l :
  moves id w r c c' w' -> r = Handler spec d l -> busy c' = true -> (busy c = true -> pending w !! key spec = None) ->
  shape (reaped w) {| role := r; pc := c |} -> pending w' !! key spec = None.
Proof.
  intros Hm Hr Hb Ho Hsh. destruct Hm; simplify_eq; cbn in *; try done; try (by apply Ho).
  apply lookup_delete_eq.
Qed.

Lemma absent_acts w w' : locks_inv w -> shape_inv w -> absent_inv w -> acts w w' -> absent_inv w'.
Proof.
  intros Hl Hsh Hi Ha id' k o c' Hh Hb. destruct Ha as [id t c w0 Ht Hm (_ & _ & _ & _ & Et & _) Hq _|id spec d l Ht _|w' _ Ep _ _ _ Hnew _|st _ _].
  - pose proof (si_threads w Hsh id t Ht) as Hst. destruct (handler_set_pc _ _ _ _ _ _ _ _ _ Ht Et Hh) as [(-> & -> & Hown)|[Hne Hother]].
    + destruct t as [r c0]. cbn in *. destruct Hown as [<- [l Hown]]. rewrite Ht in Hown. injection Hown as ->.
      eapply moves_absent; [exact Hm|done|done| |done]. intros Hb0. eapply (Hi id); [|exact Hb0]. split; [done|]. by exists l.
    + cbn. destruct (pending w0 !! k) as [p|] eqn:E; [|done]. destruct t as [r c0]. cbn in *.
      destruct (moves_pending map_iter _ _ _ _ _ _ _ _ Hm E) as [E'|(spec & d & l & -> & -> & <-)].
      * by rewrite (Hi id' k o c' Hother Hb) in E'.
      * destruct Hne. eapply (handler_exclusive w id' id); [done|exact Hother|by eapply (handler_here w id)|by apply busy_entered|done].
  - destruct Hh as [Hk [l' Hh]]. cbn in Hh. apply lookup_insert_Some in Hh as [[_ E]|[_ Hh]]; [by injection E as _ _ _ <-|].
    eapply (Hi id'); [|exact Hb]. split; [done|]. by exists l'.
  - rewrite Ep. destruct Hh as [Hk [l Hh]]. destruct (Hnew _ _ Hh) as [Hw|[_ Hc]]; [|cbn in Hc; by subst].
    eapply (Hi id'); [|exact Hb]. split; [done|]. by exists l.
  - by eapply (Hi id').
Qed.

Lemma reachable_absent w : reachable w -> absent_inv w.
Proof.
  apply reachable_invariant; [by intros now id k o c [_ [l H]]|]. intros w0 w' Hr. apply absent_acts; [by eapply reachable_locks|by eapply reachable_shape].
Qed.

(** * Flows that the loop has not reaped *)

(** The key of the datagram a task is about to send. *)
Definition sends (c : Pc S) : option session_key :=
  match c with Sending ((spec, _) :: _) _ | Creating ((spec, _) :: _) _ => Some (key spec) | _ => None end.

Lemma claim_entries st k id k' st' : lookup_or_claim st k id = (Create, st') -> k' <> k -> entries st' !! k' = entries st !! k'.
Proof. unfold lookup_or_claim. repeat case_match; try done. intros [= <-] Hne. unfold entries. cbn. by rewrite lookup_insert_ne. Qed.
Lemma finish_entries st id k x res st' k' : finish_creation st id k x = (res, st') -> k' <> k -> entries st' !! k' = entries st !! k'.
Proof.
  unfold finish_creation. intros H Hne. repeat case_match; injection H as <- <-; unfold entries; cbn; by rewrite ?lookup_insert_ne, ?lookup_delete_ne.
Qed.
Lemma moves_entries id w r c c' w' k : moves id w r c c' w' -> sends c <> Some k -> entries (table w') !! k = entries (table w) !! k.
Proof.
  intros Hm Hs. destruct Hm; cbn in *; try done; [eapply claim_entries|eapply finish_entries]; try done; congruence.
Qed.
Lemma sessions_entries st st' k :
  Sessions.step st st' -> dom (creators st') = dom (creators st) -> entries st !! k = None -> entries st' !! k = None.
Proof.
  assert (forall id k x, creators st !! id = Some (k, x) -> dom (delete id (creators st)) <> dom (creators st)) as Hdel.
  { intros id k' x Hc%elem_of_dom_2. rewrite dom_delete_L. set_solver. }
  intros Hs Hd Hn. destruct Hs as [st k' c st' Hnc Hl|st c k' s Hc _ _ _|st c k' s Hc|st c k' Hc| |st s k'| |st expired l| |]; try done.
  - rewrite (claim_creators _ _ _ _ Hl), dom_insert_L in Hd. apply not_elem_of_dom in Hnc. set_solver.
  - destruct (finish_creation st c k' (Some s)) as [r st'] eqn:E. cbn in Hd. rewrite (finish_creators _ _ _ _ _ _ E) in Hd. by apply Hdel in Hc.
  - destruct (finish_creation st c k' None) as [r st'] eqn:E. cbn in Hd. rewrite (finish_creators _ _ _ _ _ _ E) in Hd. by apply Hdel in Hc.
  - unfold recv_remove. case_match; [|done]. unfold entries in *. cbn. apply lookup_delete_None. by right.
  - clear Hd Hdel. unfold cleanup_expired. revert st Hn. induction l as [|e l IH]; intros st Hn; [done|]. cbn. apply IH.
    unfold cleanup_one. case_match; [|done]. unfold entries in *. cbn. apply lookup_delete_None. by right.
Qed.

Record fresh_inv w (k : session_key) : Prop := {
  fr_waiting : is_Some (pending w !! k) -> entries (table w) !! k = None;
  fr_sniffing id o c : handler_at w id k o c -> (c = Unknown \/ exists p, c = Inserting p) -> entries (table w) !! k = None;
  fr_found id o s c : handler_at w id k o c -> (c = Found s \/ c = Hit s) -> pending w !! k = None;
  fr_log ds : DiscardedEntry k ds ∉ log w;
}.
Definition all_fresh w : Prop := forall k, k ∉ reaped w -> fresh_inv w k.

(** Who sends for a flow that has not been reaped is its handler. *)
Lemma sender_handles w id t k : shape_inv w -> threads w !! id = Some t -> sends (pc t) = Some k -> k ∉ reaped w ->
  exists o, handler_at w id k o (pc t) /\ busy (pc t) = true.
Proof.
  intros Hsh Ht Hs Hk. pose proof (si_threads w Hsh id t Ht) as Hst. destruct t as [[spec d l|] c]; cbn in *.
  - exists (spec, d). assert (key spec = k) as <-; [|split; [exact (handler_here w id _ spec d l Ht eq_refl)|by destruct c]].
    destruct c as [| | | | | | | |[|[s' d'] l'] rest|[|[s' d'] l'] rest| | | |]; try done; injection Hs as <-.
    + destruct Hst as [Ho _]. by apply Forall_cons in Ho as [E _].
    + destruct Hst as [Ho _]. by apply Forall_cons in Ho as [E _].
  - destruct c as [| | | | | | | |[|[s' d'] l'] rest|[|[s' d'] l'] rest| | | |]; try done; injection Hs as <-; destruct Hk.
    + by apply Forall_cons in Hst as [? _].
    + destruct Hst as [Ho _]. by apply Forall_cons in Ho as [? _].
Qed.

(** No session of a fresh flow is being created unless its handler does it. *)
Lemma fresh_no_creation w k c : reachable w -> k ∉ reaped w -> entries (table w) !! k = Some (Sessions.Creating c) ->
  exists o pc, handler_at w c k o pc /\ busy pc = true.
Proof.
  intros Hr Hk He. pose proof (reachable_table w Hr) as Hi. pose proof (Sessions.reachable_inv _ (ti_table w Hi)) as Hinv.
  assert (Sessions.cleared (table w) = false) as Hcl.
  { destruct (Sessions.cleared (table w)) eqn:E; [|done]. destruct (inv_cleared _ Hinv E) as [_ E']. by rewrite E', lookup_empty in He. }
  apply (inv_creating _ Hinv Hcl) in He. apply (ti_creators w Hi) in He as (t & Ht & Hc).
  destruct (sender_handles w c t k) as (o & Ho & Hb); try done; [by eapply reachable_shape| |by exists o, (pc t)].
  unfold creating in Hc. unfold sends. by destruct (pc t) as [| | | | | | | | |[|[? ?] ?]| | | |].
Qed.

Lemma moves_discard id w r c c' w' k ds : moves id w r c c' w' -> DiscardedEntry k ds ∈ log w' ->
  DiscardedEntry k ds ∈ log w \/ exists spec d l s, r = Handler spec d l /\ c = Found s /\ key spec = k /\ is_Some (pending w !! k).
Proof.
  intros Hm. destruct Hm; cbn; try (by left); intros [H'|H']%elem_of_app; try (by left); apply list_elem_of_singleton in H'; try done.
  - injection H' as -> ->. right. eexists _, _, _, _. split_and!; try done.
  - by destruct res.
Qed.

(** Sending leaves the entries of the table alone. *)
Lemma moves_sends id w r c c' w' k : moves id w r c c' w' -> sends c = Some k ->
  pending w' = pending w /\ (forall o ds, DiscardedEntry o ds ∈ log w' -> DiscardedEntry o ds ∈ log w) /\ exists l rest, c' = Sending l rest \/ c' = Creating l rest.
Proof.
  intros Hm Hs. destruct Hm; try done; cbn; split_and!; try done; eauto;
    intros o ds [H'|H']%elem_of_app; try done; apply list_elem_of_singleton in H'; try done.
  by destruct res.
Qed.

Lemma moves_to_sniffing id w r c c' w' : moves id w r c c' w' -> (c' = Unknown \/ exists p, c' = Inserting p) ->
  c = Unknown \/ exists spec d l, r = Handler spec d l /\ c = Opened /\ get_ready_udp_session (table w) (key spec) = None.
Proof.
  intros Hm Hc. destruct Hm; try (by left); try (by destruct Hc as [|[? ?]]); try (by destruct r, Hc as [|[? ?]]). right. eexists _, _, _. by split_and!.
Qed.
Lemma moves_to_found id w r c c' w' s : moves id w r c c' w' -> (c' = Found s \/ c' = Hit s) ->
  exists spec d l, r = Handler spec d l /\
    ((c = Opened /\ entries (table w) !! key spec = Some (Ready s)) \/ pending w' !! key spec = None).
Proof.
  intros Hm Hc. destruct Hm; try (by destruct Hc); try (by destruct r, Hc).
  - eexists _, _, _. split; [done|]. left. split; [done|]. destruct Hc as [[= ->]|]; done.
  - eexists _, _, _. split; [done|]. right. apply lookup_delete_eq.
  - eexists _, _, _. split; [done|]. by right.
  - by destruct c as [| | | | | | | |l' []| | | | |], Hc.
  - by destruct c as [| | | | | | | |l' []| | | | |], Hc.
Qed.

Lemma fresh_move w id t c w0 :
  reachable w -> all_fresh w -> threads w !! id = Some t -> moves id w (role t) (pc t) c w0 -> threads w0 = threads w -> pc t <> Queued ->
  all_fresh (set_pc id t c w0).
Proof.
  intros Hr Hf Ht Hm Et Hq k Hk. pose proof (reachable_locks _ _ _ _ _ w Hr) as Hl. pose proof (reachable_shape _ _ _ _ _ w Hr) as Hsh.
  pose proof (reachable_absent w Hr) as Habs. pose proof (si_threads w Hsh id t Ht) as Hst.
  assert (k ∉ reaped w) as Hkw.
  { destruct t. destruct (shape_moves map_iter _ _ _ _ _ _ Hsh Hst Hm) as (Hsub & _). cbn in Hk. set_solver. }
  destruct (Hf k Hkw) as [Fw Fs Ff Fl].
  assert (forall id' o c', handler_at (set_pc id t c w0) id' k o c' -> (id' = id /\ c' = c /\ handler_at w id k o (pc t)) \/ (id' <> id /\ handler_at w id' k o c')) as Hh.
  { intros. by eapply handler_set_pc. }
  assert (forall id' o c' o' , handler_at w id' k o c' -> c' <> Queued -> id' <> id -> ~ handler_at w id k o' (pc t)) as Hex.
  { intros id' o c' o' H1 Hc' Hne H2. apply Hne. by eapply handler_exclusive. }
  destruct (decide (sends (pc t) = Some k)) as [Hs|Hs].
  - destruct (sender_handles w id t k Hsh Ht Hs Hkw) as (o & Ho & Hb). destruct (moves_sends _ _ _ _ _ _ _ Hm Hs) as (Ep & Elog & l & rest & Hc).
    pose proof (Habs id k o (pc t) Ho Hb) as Hnone. split; cbn.
    + rewrite Ep, Hnone. by intros [? ?].
    + intros id' o' c' [(-> & -> & _)|[Hne H]]%Hh Hc'; [by destruct Hc as [-> | ->], Hc' as [|[? ?]]|].
      exfalso. eapply Hex; [exact H| |done|done]. by destruct Hc' as [->|[? ->]].
    + intros id' o' s c' _ _. by rewrite Ep.
    + intros ds H%Elog. by eapply Fl.
  - pose proof (moves_entries _ _ _ _ _ _ k Hm Hs) as Ee. split; cbn.
    + rewrite Ee. intros [p Hp]. destruct t as [r c0]. cbn in *.
      destruct (moves_pending map_iter _ _ _ _ _ _ _ _ Hm Hp) as [?|(spec & d & l & -> & -> & <-)]; [by apply Fw|].
      eapply Fs; [exact (handler_here w id _ spec d l Ht eq_refl)|]. right. by eexists.
    + rewrite Ee. intros id' o c' [(-> & -> & Ho)|[Hne H]]%Hh Hc'; [|by eapply Fs].
      destruct t as [r c0]. destruct Ho as [Hko [l' Ho]]. rewrite Ht in Ho. injection Ho as ->.
      assert (handler_at w id k o c0) as Hme by (split; [done|by exists l']).
      cbn in *. destruct (moves_to_sniffing _ _ _ _ _ _ Hm Hc') as [->|(spec & d & l & [= <- <- <-] & -> & Hg)].
      * eapply Fs; [exact Hme|]. by left.
      * unfold get_ready_udp_session in Hg. rewrite Hko in Hg. destruct (entries (table w) !! k) as [[cr|s]|] eqn:E; try done.
        destruct (fresh_no_creation w k cr Hr Hkw E) as (o' & pc' & Hcr & Hb).
        assert (cr = id) as -> by (eapply handler_exclusive; [done|exact Hcr|exact Hme|by apply busy_entered|done]).
        destruct Hcr as [_ [l2 Hcr]]. rewrite Ht in Hcr. by injection Hcr as _ _ _ <-.
    + intros id' o s c' [(-> & -> & Ho)|[Hne H]]%Hh Hc'.
      * destruct (moves_to_found _ _ _ _ _ _ _ Hm Hc') as (spec & d & l & Er & Hd). destruct Ho as [Hko [l' Ho]].
        destruct t as [r c0]. rewrite Ht in Ho. injection Ho as ->. injection Er as <- <- <-. rewrite Hko in Hd. cbn in *. destruct Hd as [[-> Hd]|?]; [|done].
        destruct (pending w0 !! k) as [p|] eqn:E; [|done]. destruct (moves_pending map_iter _ _ _ _ _ _ _ _ Hm E) as [E'|(? & ? & ? & _ & E' & _)]; [|done].
        by rewrite Fw in Hd.
      * destruct (pending w0 !! k) as [p|] eqn:E; [|done]. destruct t as [r c0]. cbn in *.
        destruct (moves_pending map_iter _ _ _ _ _ _ _ _ Hm E) as [E'|(spec & d & l & -> & -> & <-)]; [by rewrite (Ff id' o s c' H Hc') in E'|].
        exfalso. eapply Hex; [exact H|by destruct Hc' as [-> | ->]|done|exact (handler_here w id _ spec d l Ht eq_refl)].
    + intros ds Hds. cbn in Hds. destruct (moves_discard _ _ _ _ _ _ _ _ Hm Hds) as [?|(spec & d & l & s & Er & Ec & <- & [p Hp])]; [by eapply Fl|].
      pose proof (handler_here w id t spec d l Ht Er) as Ho. rewrite (Ff id _ s _ Ho ltac:(by left)) in Hp. done.
Qed.

Lemma fresh_acts w w' : reachable w -> all_fresh w -> acts w w' -> all_fresh w'.
Proof.
  intros Hr Hf Ha. destruct Ha as [id t c w0 Ht Hm (_ & _ & _ & _ & Et & _) Hq _|id spec d l Ht _|w' Et Ep El _ Er Hnew _|st Hs Hd].
  - by apply (fresh_move w).
  - intros k Hk. destruct (Hf k Hk) as [Fw Fs Ff Fl].
    assert (forall id' o c, handler_at (enter id spec d l w) id' k o c -> c = Entered \/ handler_at w id' k o c) as Hh.
    { intros id' o c [Hko [l' H]]. cbn in H. apply lookup_insert_Some in H as [[_ E]|[_ H]]; [left; by injection E|right]. split; [done|by exists l']. }
    split; try done.
    + intros id' o c [->|H]%Hh Hc; [by destruct Hc as [|[? ?]]|by eapply Fs].
    + intros id' o s c [->|H]%Hh Hc; [by destruct Hc|by eapply Ff].
  - intros k Hk. rewrite Er in Hk. destruct (Hf k Hk) as [Fw Fs Ff Fl].
    assert (forall id' o c, handler_at w' id' k o c -> c = Queued \/ handler_at w id' k o c) as Hh.
    { intros id' o c [Hko [l' H]]. destruct (Hnew _ _ H) as [H'|[_ H']]; [right; split; [done|by exists l']|by left]. }
    split; rewrite ?Et, ?Ep, ?El; try done.
    + intros id' o c [->|H]%Hh Hc; [by destruct Hc as [|[? ?]]|by eapply Fs].
    + intros id' o s c [->|H]%Hh Hc; [by destruct Hc|by eapply Ff].
  - intros k Hk. destruct (Hf k Hk) as [Fw Fs Ff Fl]. split; try done; cbn.
    + intros H. eapply sessions_entries; [done|done|by apply Fw].
    + intros id o c Ho Hc. eapply sessions_entries; [done|done|]. by eapply (Fs id).
Qed.

Lemma reachable_fresh w : reachable w -> all_fresh w.
Proof.
  apply reachable_invariant; [|intros; by eapply fresh_acts]. intros now k _. split; cbn; [by intros [? ?]|by intros id o c [_ [l H]]|done|intros ds; apply not_elem_of_nil].
Qed.
End Flow.
