(* ===== verification/UdpTasksOrder.v ===== *)
(** Where the datagrams of a flow are, in [UdpTasks]: in the order of the log,
    in the hands of tasks, in the waiting entry; for every interleaving. *)

From Stdlib Require Import Strings.Byte Strings.String.
From S2P Require Import Prelude Bytes Sniff Quic QuicReassembly QuicPackets QuicEncode QuicSession Config TcpSniff Udp Pending Sessions UdpFlow UdpTasks UdpTasksSafe UdpTasksFlow.
#[local] Open Scope nat_scope.

Section Order.
Context {S : Type} {session : UdpSnifferSession S} {laws : UdpSnifferLaws S}.
Context (direct : session_spec -> bool).
Context (map_iter : gmap session_key (pending_sniff S) -> list (session_key * pending_sniff S)).
Context (mode : QuicSniffMode.QuicSniffMode) (timeout : Z) (sniffers : list UdpSnifferEngine).
Abbreviation reachable := (tasks_reachable direct map_iter mode timeout sniffers).
Abbreviation acts := (acts map_iter).
Abbreviation moves := (moves map_iter).
Abbreviation key := UdpSessionSpec.key.
Implicit Types (w : Tasks S) (t : Thread S) (p : pending_sniff S) (k : session_key).

(** * Datagrams by flow *)

Definition of_key k (l : list outgoing) : list bytes := map snd (filter (fun o => key o.1 = k) l).
Definition event_datagrams k (e : TaskEvent) : list bytes :=
  match e with
  | Sent spec d _ | Lost spec d => of_key k [(spec, d)]
  | Refused k' d => if decide (k' = k) then [d] else []
  | EvictedEntry k' ds | DiscardedEntry k' ds => if decide (k' = k) then ds else []
  end.
(** The datagrams that tasks have taken up, in the order of the lock; those
    whose fate is recorded; those that wait in the entry of the flow. *)
Definition taken_up k w : list bytes := of_key k (entered w).
Definition settled k w : list bytes := concat (map (event_datagrams k) (log w)).
Definition in_entry k w : list bytes := match pending w !! k with Some p => cached p | None => [] end.
(** What a task has in hand: taken out of an entry, or just arrived. *)
Definition in_hand (c : Pc S) : list outgoing :=
  match c with Inserting p => flushed p | Sending l _ | Creating l _ => l | _ => [] end.
Definition arriving (o : outgoing) (c : Pc S) : list outgoing :=
  match c with Entered | Opened | Found _ | Hit _ | Unknown => [o] | _ => [] end.
Definition packet (r : Role) : option outgoing := match r with Handler spec d _ => Some (spec, d) | Reaper => None end.
Definition arriving_of (r : Role) (c : Pc S) : list outgoing := match packet r with Some o => arriving o c | None => [] end.

#[local] Arguments of_key : simpl never.
#[local] Arguments flushed : simpl never.
Lemma of_key_app k l l' : of_key k (l ++ l') = of_key k l ++ of_key k l'.
Proof. unfold of_key. by rewrite filter_app, map_app. Qed.
Lemma of_key_cons k spec d l : of_key k ((spec, d) :: l) = of_key k [(spec, d)] ++ of_key k l.
Proof. apply (of_key_app k [_]). Qed.
Lemma of_key_own k k' l : own k l -> of_key k' l = if decide (k = k') then map snd l else [].
Proof.
  intros Ho. unfold of_key. induction Ho as [|o l Hk Hl IH]; [by destruct (decide _)|]. rewrite filter_cons, Hk.
  destruct (decide (k = k')) as [->|Hne]; [cbn; f_equal|]; exact IH.
Qed.
Lemma of_key_one k spec d : of_key k [(spec, d)] = if decide (key spec = k) then [d] else [].
Proof. apply (of_key_own (key spec)). by repeat constructor. Qed.
Lemma settled_log k w e : settled k (with_log w e) = settled k w ++ event_datagrams k e.
Proof. unfold settled. cbn. rewrite map_app, concat_app. cbn. by rewrite app_nil_r. Qed.
Lemma settled_same k w w' : log w' = log w -> settled k w' = settled k w.
Proof. unfold settled. by intros ->. Qed.
Lemma in_entry_gone k w : pending w !! k = None -> in_entry k w = [].
Proof. unfold in_entry. by intros ->. Qed.
Lemma in_entry_delete k w w' k' p : pending w !! k' = Some p -> pending w' = delete k' (pending w) ->
  (if decide (k' = k) then cached p else []) ++ in_entry k w' = in_entry k w.
Proof.
  intros Hp Ew. unfold in_entry. rewrite Ew. destruct (decide (k' = k)) as [<-|Hne].
  - by rewrite lookup_delete_eq, Hp, app_nil_r.
  - by rewrite lookup_delete_ne.
Qed.

Lemma decided_in_hand k k' ds (c : Pc S) o : decided k ds c -> of_key k' (in_hand c) = (if decide (k = k') then ds else []) /\ arriving o c = [].
Proof.
  destruct c as [| | | | | |p| |l []| | | | |]; try done; cbn; intros [Hc <-]; (split; [|done]).
  - rewrite (of_key_own k); [|by apply own_flushed, Hc]. by rewrite snd_flushed.
  - by apply of_key_own.
Qed.

Lemma in_entry_with_log k w e : in_entry k (with_log w e) = in_entry k w.
Proof. done. Qed.
Lemma settled_with_pending k w m : settled k (with_pending w m) = settled k w.
Proof. done. Qed.
Lemma event_sent k spec d s : event_datagrams k (Sent spec d s) = of_key k [(spec, d)].
Proof. done. Qed.

(** A move neither loses, repeats nor reorders what its task can see, but for a
    packet that is settled past the entry of its flow, when the runtime is
    closed or the flow has a session. *)
Definition keeps k w c r w' c' : Prop :=
  settled k w' ++ of_key k (in_hand c') ++ in_entry k w' ++ of_key k (arriving_of r c') =
  settled k w ++ of_key k (in_hand c) ++ in_entry k w ++ of_key k (arriving_of r c).
Definition passes k w c r w' c' : Prop :=
  settled k w' = settled k w ++ of_key k (arriving_of r c) /\ in_hand c = [] /\ in_hand c' = [] /\ in_entry k w' = in_entry k w /\
  arriving_of r c' = [] /\ (is_closed (table w) = true \/ exists s, c = Hit s).

#[local] Arguments settled : simpl never.
#[local] Arguments in_entry : simpl never.
Lemma moves_keep id w r c c' w' k :
  moves id w r c c' w' -> (forall k p, pending w !! k = Some p -> entry_ok k p) -> shape (reaped w) {| role := r; pc := c |} ->
  (forall spec d l p, r = Handler spec d l -> c = Inserting p -> pending w !! key spec = None) ->
  keeps k w c r w' c' \/ passes k w c r w' c'.
Proof.
  intros Hm Hp Hsh Hins. unfold keeps, passes.
  assert (forall e r, settled k (with_log w (match r with Some s => Sent e.1 e.2 s | None => Lost e.1 e.2 end)) = settled k w ++ of_key k [e]) as Hsent.
  { intros [spec d] r0. rewrite settled_log. by destruct r0. }
  destruct Hm; cbn in *; try (by left); try (by left; destruct r).
  - right. rewrite settled_log. split_and!; try done; [|by left]. cbn. by rewrite of_key_one.
  - left. rewrite settled_log. cbn. rewrite <- (in_entry_delete k w (with_pending w (delete (key spec) (pending w))) (key spec) p H eq_refl), <- !app_assoc.
    by rewrite settled_with_pending.
  - right. rewrite settled_log. split_and!; try done. right. by eexists.
  - left. destruct (decided_in_hand _ k _ c (spec, d) H0) as [-> ->]. unfold of_key at 2. cbn. rewrite app_nil_r, of_key_one.
    rewrite <- (in_entry_delete k w (with_pending w (delete (key spec) (pending w))) (key spec) p H eq_refl).
    destruct (decide (key spec = k)) as [<-|]; [|by rewrite !app_nil_r]. rewrite !(in_entry_gone (key spec) (with_pending _ _)) by apply lookup_delete_eq. by rewrite !app_nil_r, settled_with_pending.
  - left. destruct (decided_in_hand _ k _ c (spec, d) H0) as [-> ->]. unfold of_key at 1. cbn. rewrite app_nil_r, of_key_one.
    destruct (decide (key spec = k)) as [<-|]; [|by rewrite !app_nil_r]. by rewrite (in_entry_gone _ w H), !app_nil_r.
  - left. rewrite (of_key_own (key spec) k (flushed p)) by (by apply own_flushed, Hsh). rewrite snd_flushed, !app_nil_r. unfold in_entry. cbn.
    destruct (decide (key spec = k)) as [<-|Hne]; [|by rewrite lookup_insert_ne].
    by rewrite lookup_insert_eq, (Hins spec d l p eq_refl eq_refl), app_nil_r.
  - left. rewrite settled_log. cbn. rewrite <- (in_entry_delete k w (with_pending w (delete k0 (pending w))) k0 p H eq_refl), <- !app_assoc.
    by destruct r; rewrite settled_with_pending.
  - left. rewrite (of_key_own k0 k (flushed p)) by (by apply own_flushed, Hp). rewrite snd_flushed.
    rewrite <- (in_entry_delete k w (with_reaped (with_pending w (delete k0 (pending w))) k0) k0 p H eq_refl), <- !app_assoc.
    by destruct r.
  - left. rewrite of_key_cons. pose proof (Hsent (spec, d) None) as E. cbn in E. rewrite E, <- !app_assoc. by destruct r.
  - left. rewrite of_key_cons. pose proof (Hsent (spec, d) (Some s)) as E. cbn in E. rewrite E, <- !app_assoc. by destruct r.
  - left. rewrite of_key_cons. change (settled k (with_log (with_table w st) ?e)) with (settled k (with_log w e)).
    pose proof (Hsent (spec, d) res) as E. cbn in E. rewrite E, <- !app_assoc. by destruct r.
Qed.

(** * Every datagram is somewhere *)

(** What the tasks have in hand together, in any order. *)
Definition carries k t : list bytes := of_key k (in_hand (pc t)) ++ of_key k (arriving_of (role t) (pc t)).
Definition gather k (m : gmap nat (Thread S)) : list bytes := concat (map (fun e => carries k e.2) (map_to_list m)).
Definition carried k w : list bytes := gather k (threads w).

Lemma gather_insert k (m : gmap nat (Thread S)) id t : m !! id = None -> gather k (<[id := t]> m) ≡ₚ carries k t ++ gather k m.
Proof. intros Hn. unfold gather. by rewrite map_to_list_insert. Qed.
Lemma gather_delete k (m : gmap nat (Thread S)) id t : m !! id = Some t -> gather k m ≡ₚ carries k t ++ gather k (delete id m).
Proof. intros Hs. rewrite <- (insert_delete_id m id t Hs) at 1. apply gather_insert, lookup_delete_eq. Qed.
Lemma gather_update k (m : gmap nat (Thread S)) id t : gather k (<[id := t]> m) ≡ₚ carries k t ++ gather k (delete id m).
Proof. rewrite <- insert_delete_eq. apply gather_insert, lookup_delete_eq. Qed.
Lemma gather_filter k (m : gmap nat (Thread S)) : gather k m ≡ₚ gather k (filter (fun e => carries k e.2 <> []) m).
Proof.
  induction m as [|id t m Hn IH] using map_ind; [done|]. rewrite gather_insert by done. destruct (decide (carries k t = [])) as [E|E].
  - rewrite map_filter_insert_False by (cbn; congruence). by rewrite E, delete_id.
  - rewrite map_filter_insert_True by done. rewrite gather_insert, IH by (apply map_lookup_filter_None; by left). done.
Qed.
(** Tasks that carry nothing do not count. *)
Lemma gather_same k (m m' : gmap nat (Thread S)) :
  (forall id t, m' !! id = Some t -> m !! id = Some t \/ carries k t = []) -> (forall id t, m !! id = Some t -> m' !! id = Some t \/ carries k t = []) ->
  gather k m' ≡ₚ gather k m.
Proof.
  intros H1 H2. rewrite (gather_filter k m'), (gather_filter k m).
  assert (filter (fun e : nat * Thread S => carries k e.2 <> []) m' = filter (fun e => carries k e.2 <> []) m) as ->; [|done].
  apply map_eq. intros id. apply option_eq. intros t. rewrite !map_lookup_filter_Some. split; intros [Ht Hc]; (split; [|done]).
  - by destruct (H1 id t Ht).
  - by destruct (H2 id t Ht).
Qed.

Lemma inserting_absent w id t : absent_inv w -> threads w !! id = Some t -> forall spec d l p, role t = Handler spec d l -> pc t = Inserting p -> pending w !! key spec = None.
Proof. intros Ha Ht spec d l p Hr Hc. eapply (Ha id); [exact (handler_here w id t spec d l Ht Hr)|by rewrite Hc]. Qed.

Lemma acts_taken_up w w' : acts w w' -> entered w' = entered w \/ exists id spec d l, w' = enter id spec d l w /\
  threads w !! id = Some {| role := Handler spec d l; pc := Queued |}.
Proof.
  intros Ha. destruct Ha as [id t c w0 Ht Hm (_ & _ & _ & _ & _ & _ & Ee) _ _|id spec d l Ht _|w' _ _ _ Ee _ _ _|st _ _]; try (by left).
  right. by exists id, spec, d, l.
Qed.

Definition accounted w : Prop := forall k, taken_up k w ≡ₚ settled k w ++ carried k w ++ in_entry k w.

Lemma accounted_acts w w' : shape_inv w -> absent_inv w -> accounted w -> acts w w' -> accounted w'.
Proof.
  intros Hsh Habs Hi Ha k. specialize (Hi k).
  destruct Ha as [id t c w0 Ht Hm (_ & _ & _ & _ & Et & _ & Ee) _ _|id spec d l Ht _|w' _ Ep El Ee _ Hnew Hold|st _ _].
  - unfold taken_up in *. cbn. rewrite Ee, Hi. unfold carried. cbn. rewrite Et, gather_update, (gather_delete k (threads w) id t Ht).
    set (G := gather k (delete id (threads w))). unfold carries. cbn [pc role].
    change (settled k (set_pc id t c w0)) with (settled k w0). change (in_entry k (set_pc id t c w0)) with (in_entry k w0).
    destruct (moves_keep id w (role t) (pc t) c w0 k Hm (si_pending w Hsh)) as [E|(Es & E1 & E2 & E3 & E4 & _)].
    { pose proof (si_threads w Hsh id t Ht). by destruct t. }
    { by eapply inserting_absent. }
    + unfold keeps in E. transitivity (G ++ settled k w ++ of_key k (in_hand (pc t)) ++ in_entry k w ++ of_key k (arriving_of (role t) (pc t))).
      * solve_Permutation.
      * rewrite <- E. solve_Permutation.
    + rewrite Es, E1, E2, E3, E4. unfold of_key at 1 4 5. cbn. solve_Permutation.
  - unfold taken_up. cbn. rewrite of_key_app. unfold taken_up in Hi. rewrite Hi. unfold carried. cbn.
    rewrite gather_update, (gather_delete k (threads w) id _ Ht). unfold carries. cbn.
    change (settled k (enter id spec d l w)) with (settled k w). change (in_entry k (enter id spec d l w)) with (in_entry k w).
    solve_Permutation.
  - unfold taken_up in *. rewrite Ee, Hi. unfold settled, in_entry. rewrite El, Ep. unfold carried.
    rewrite (gather_same k (threads w) (threads w')); [done|..].
    + intros id t Ht. destruct (Hnew id t Ht) as [?|[_ Hc]]; [by left|right]. unfold carries, arriving_of.
      destruct t as [[]]; cbn in *; [by rewrite Hc|by destruct Hc as [ks ->]].
    + intros id t Ht. destruct (Hold id t Ht) as [?|Hc]; [by left|right]. unfold carries, arriving_of.
      destruct t as [[]]; cbn in *; by destruct Hc as [-> | ->].
  - exact Hi.
Qed.

Lemma reachable_accounted w : reachable w -> accounted w.
Proof.
  apply reachable_invariant.
  { intros now k. unfold carried, gather. cbn. by rewrite map_to_list_empty. }
  intros w0 w' Hr. apply accounted_acts; [by eapply reachable_shape|by eapply reachable_absent].
Qed.

(** * The order of a flow *)

(** While the runtime is open and the loop has not reaped the flow, its
    datagrams are settled in the order in which they were taken up: what is
    settled, then what its task has taken out of the entry, then the entry, and
    last the packet of the task. *)
Record ordered k w : Prop := {
  or_task id o c : handler_at w id k o c -> c <> Queued ->
    taken_up k w = settled k w ++ of_key k (in_hand c) ++ in_entry k w ++ of_key k (arriving o c);
  or_idle : (forall id o c, handler_at w id k o c -> c = Queued \/ c = Leaving) -> taken_up k w = settled k w ++ in_entry k w;
}.
Definition order_inv w : Prop := is_closed (table w) = false -> forall k, k ∉ reaped w -> ordered k w.

(** What a task of another flow, or the loop, does to a flow. *)
Lemma moves_other id w r c c' w' k :
  moves id w r c c' w' -> k ∉ reaped w' -> shape (reaped w) {| role := r; pc := c |} ->
  (forall spec d l, r = Handler spec d l -> key spec <> k) ->
  (settled k w' = settled k w /\ in_entry k w' = in_entry k w) \/
  (is_Some (pending w !! k) /\ settled k w' = settled k w ++ in_entry k w /\ in_entry k w' = []).
Proof.
  intros Hm Hk Hsh Hr.
  assert (forall (k' : session_key) p, k' <> k -> in_entry k (with_pending w (delete k' (pending w))) = in_entry k w) as Hdel.
  { intros k' p Hne. unfold in_entry. cbn. by rewrite lookup_delete_ne. }
  assert (forall spec d (e : TaskEvent), key spec <> k -> event_datagrams k e = of_key k [(spec, d)] -> settled k (with_log w e) = settled k w) as Hev.
  { intros spec d e Hne E. rewrite settled_log, E, of_key_one. destruct (decide _); [done|]. by rewrite app_nil_r. }
  assert (forall spec d l rest, (c = Sending ((spec, d) :: l) rest \/ c = Creating ((spec, d) :: l) rest) -> k ∉ reaped w -> key spec <> k) as Hsend.
  { intros spec d l rest Hc Hkw. destruct r as [spec' d' l'|]; cbn in Hsh.
    - intros <-. apply (Hr spec' d' l' eq_refl). destruct Hc as [-> | ->]; destruct Hsh as [Ho _]; by apply Forall_cons in Ho as [? _].
    - intros <-. apply Hkw. destruct Hc as [-> | ->]; [|destruct Hsh as [Hsh _]]; by apply Forall_cons in Hsh as [? _]. }
  destruct Hm; cbn in Hk; try (left; split; reflexivity).
  - left. split; [|done]. eapply Hev; [by eapply Hr|]. cbn. by rewrite of_key_one.
  - left. assert (key spec <> k) as Hne by (by eapply Hr). rewrite settled_log. cbn. destruct (decide _); [done|].
    rewrite app_nil_r. split; [done|]. by apply (Hdel (key spec) p).
  - left. split; [|done]. eapply Hev; [by eapply Hr|]. done.
  - left. split; [done|]. apply (Hdel (key spec) p). by eapply Hr.
  - left. split; [done|]. unfold in_entry. cbn. rewrite lookup_insert_ne; [done|]. by eapply Hr.
  - rewrite settled_log. cbn. destruct (decide (k0 = k)) as [->|Hne].
    + right. split; [by eexists|]. unfold in_entry. rewrite H. cbn. by rewrite lookup_delete_eq.
    + left. rewrite app_nil_r. split; [done|]. by apply (Hdel k0 p).
  - left. split; [done|]. apply (Hdel k0 p). set_solver.
  - left. split; [|done]. eapply Hev; [eapply Hsend; [by left|done]|done].
  - left. split; [|done]. eapply Hev; [eapply Hsend; [by left|done]|done].
  - left. split; [|done]. change (settled k (with_log (with_table w st) ?e)) with (settled k (with_log w e)).
    eapply (Hev spec d); [eapply Hsend; [by right|done]|by destruct res].
Qed.

Lemma finish_closed st id k x : is_closed (finish_creation st id k x).2 = is_closed st.
Proof. unfold finish_creation. repeat case_match; cbn; unfold is_closed in *; cbn in *; unfold is_closed in *; congruence. Qed.
Lemma sessions_closed st st' : Sessions.step st st' -> is_closed st' = false -> is_closed st = false.
Proof.
  intros Hs. destruct Hs as [st k c st' _ Hl| |st c k s _|st c k _| |st s k _| |st expired l| |]; try done.
  - unfold lookup_or_claim in Hl. repeat case_match; simplify_eq. done.
  - by rewrite finish_closed.
  - by rewrite finish_closed.
  - unfold recv_remove. by case_match.
  - unfold cleanup_expired. revert st. induction l as [|e l IH]; intros st; [done|]. cbn. intros Hc%IH. revert Hc. unfold cleanup_one. by destruct (_ && _).
Qed.
Lemma acts_closed w w' : acts w w' -> is_closed (table w') = false -> is_closed (table w) = false.
Proof.
  intros Ha. destruct Ha as [id t c w0 Ht Hm _ _ _|id spec d l Ht _|w' Et _ _ _ _ _ _|st Hs _]; cbn; [|done|by rewrite Et|by apply sessions_closed].
  destruct Hm; cbn; try done.
  - unfold lookup_or_claim in *. by repeat (case_match; simplify_eq).
  - pose proof (finish_closed (table w) id (key spec) x) as E. rewrite H0 in E. by rewrite <- E.
Qed.
Lemma acts_reaped w w' k : shape_inv w -> acts w w' -> k ∉ reaped w' -> k ∉ reaped w.
Proof.
  intros Hsh Ha. destruct Ha as [id t c w0 Ht Hm _ _ _|id spec d l Ht _|w' _ _ _ _ Er _ _|st Hs _]; cbn; [|done|by rewrite Er|done].
  pose proof (si_threads w Hsh id t Ht) as Hst. destruct t as [r c0]. destruct (shape_moves map_iter _ _ _ _ _ _ Hsh Hst Hm) as (Hsub & _). set_solver.
Qed.

(** The task of a flow that holds the lock is the only one past the queue. *)
Lemma others_queued w id k o c : locks_inv w -> handler_at w id k o c -> c <> Queued ->
  forall id' o' c', handler_at w id' k o' c' -> id' <> id -> c' = Queued.
Proof.
  intros Hl Ho Hq id' o' c' Ho' Hne. assert (c' <> Queued -> False) as H by (intros; by eapply Hne, (handler_exclusive w id' id)).
  destruct c'; try done; exfalso; by apply H.
Qed.
Lemma handler_kept w w0 id t c id' k o c' :
  threads w !! id = Some t -> threads w0 = threads w -> ~ handler_at w id k o (pc t) -> handler_at w id' k o c' -> handler_at (set_pc id t c w0) id' k o c'.
Proof.
  intros Ht Et Hno [Hk [l Hl]]. split; [done|]. exists l. cbn. rewrite Et, lookup_insert_ne; [done|]. intros <-. apply Hno. split; [done|].
  exists l. rewrite Ht in Hl |- *. by injection Hl as ->.
Qed.
Lemma handler_arriving w id k o t c : threads w !! id = Some t -> handler_at w id k o c -> arriving_of (role t) c = arriving o c /\ forall c', arriving_of (role t) c' = arriving o c'.
Proof. intros Ht [_ [l Hl]]. rewrite Ht in Hl. injection Hl as ->. unfold arriving_of. cbn. by rewrite <- surjective_pairing. Qed.

Record moving w id t c w0 k : Prop := {
  mo_locks : locks_inv w;
  mo_shape : shape_inv w;
  mo_absent : absent_inv w;
  mo_ordered : ordered k w;
  mo_thread : threads w !! id = Some t;
  mo_moves : moves id w (role t) (pc t) c w0;
  mo_threads : threads w0 = threads w;
  mo_taken_up : taken_up k (set_pc id t c w0) = taken_up k w;
  mo_before : pc t <> Queued;
  mo_after : c <> Queued;
}.

(** The task of the flow moves. *)
Lemma ordered_own w id t c w0 k o :
  moving w id t c w0 k -> fresh_inv w k -> is_closed (table w) = false -> handler_at w id k o (pc t) -> ordered k (set_pc id t c w0).
Proof.
  intros [Hl Hsh Habs [Ht1 _] Ht Hm Et Etk Hq Hqc] Hf Hcl Hme.
  destruct (handler_arriving w id k o t _ Ht Hme) as [_ Harr].
  assert (settled k w0 ++ of_key k (in_hand c) ++ in_entry k w0 ++ of_key k (arriving_of (role t) c) = taken_up k w) as Eq.
  { rewrite (Ht1 id _ _ Hme Hq), <- Harr. pose proof (si_threads w Hsh id t Ht) as Hst.
    destruct (moves_keep id w (role t) (pc t) c w0 k Hm (si_pending w Hsh)) as [E|(Es & E1 & E2 & E3 & E4 & [E5|[s E5]])].
    - by destruct t.
    - by eapply inserting_absent.
    - exact E.
    - congruence.
    - assert (in_entry k w = []) as Hnil by (apply in_entry_gone; eapply (fr_found w k Hf id); [exact Hme|by right]).
      rewrite Es, E1, E2, E3, E4, Hnil. unfold of_key at 2 3 4. cbn. by rewrite !app_nil_r. }
  split; rewrite Etk.
  - intros id' o' c' Hh Hc'. destruct (handler_set_pc _ _ _ _ _ _ _ _ _ Ht Et Hh) as [(-> & -> & Ho)|[Hne Ho]].
    + destruct (handler_arriving w id k o' t _ Ht Ho) as [_ <-]. done.
    + destruct Hc'. exact (others_queued w id k o _ Hl Hme Hq id' o' c' Ho Hne).
  - intros Hall. assert (c = Queued \/ c = Leaving) as [?| ->]; [|done|].
    { apply (Hall id o). destruct Hme as [Hk [l Hl']]. split; [done|]. exists l. cbn. rewrite lookup_insert_eq. rewrite Ht in Hl'. by injection Hl' as ->. }
    rewrite <- Eq, Harr. cbn. by rewrite app_nil_r.
Qed.

(** Another task moves. *)
Lemma ordered_other w id t c w0 k :
  moving w id t c w0 k -> k ∉ reaped w0 -> (forall o, ~ handler_at w id k o (pc t)) -> ordered k (set_pc id t c w0).
Proof.
  intros [Hl Hsh Habs [Ht1 Hi1] Ht Hm Et Etk Hq Hqc] Hk Hno. pose proof (si_threads w Hsh id t Ht) as Hst.
  assert (forall id' o c', handler_at (set_pc id t c w0) id' k o c' -> handler_at w id' k o c') as Hh.
  { intros id' o c' H. destruct (handler_set_pc _ _ _ _ _ _ _ _ _ Ht Et H) as [(_ & _ & Ho)|[_ Ho]]; [by destruct (Hno o)|done]. }
  assert (forall id' o c', handler_at w id' k o c' -> handler_at (set_pc id t c w0) id' k o c') as Hh'.
  { intros id' o c' H. by eapply handler_kept. }
  assert ((settled k w0 = settled k w /\ in_entry k w0 = in_entry k w) \/
    (is_Some (pending w !! k) /\ settled k w0 = settled k w ++ in_entry k w /\ in_entry k w0 = [])) as Hother.
  { eapply moves_other; [exact Hm|done|by destruct t|]. intros spec d l Er <-. exact (Hno _ (handler_here w id t spec d l Ht Er)). }
  split; rewrite Etk; change (settled k (set_pc id t c w0)) with (settled k w0); change (in_entry k (set_pc id t c w0)) with (in_entry k w0).
  - intros id' o c' Ho%Hh Hc'. rewrite (Ht1 _ _ _ Ho Hc'). destruct Hother as [[-> ->]|([p Hp] & -> & ->)]; [done|].
    assert (in_hand c' = []) as ->; [|by rewrite <- app_assoc].
    destruct c'; try done; by rewrite (Habs _ _ _ _ Ho) in Hp.
  - intros Hall. rewrite Hi1 by (intros; eapply Hall, Hh'; eassumption).
    destruct Hother as [[-> ->]|(_ & -> & ->)]; [done|by rewrite app_nil_r].
Qed.

Lemma ordered_enter w id spec d l k :
  locks_inv w -> ordered k w -> threads w !! id = Some {| role := Handler spec d l; pc := Queued |} -> l ∉ held w -> ordered k (enter id spec d l w).
Proof.
  intros Hl [Ht1 Hi1] Ht Hfree.
  assert (forall id' o c', handler_at (enter id spec d l w) id' k o c' -> (id' = id /\ o = (spec, d) /\ c' = Entered /\ key spec = k) \/ (id' <> id /\ handler_at w id' k o c')) as Hh.
  { intros id' [so do] c' [Hk [l' Hl']]. cbn in Hl', Hk. apply lookup_insert_Some in Hl' as [[<- E]|[Hne Hl']].
    - injection E as -> -> _ <-. by left.
    - right. split; [done|]. split; [done|by exists l']. }
  assert (taken_up k (enter id spec d l w) = taken_up k w ++ of_key k [(spec, d)]) as Etk by apply of_key_app.
  change (settled k (enter id spec d l w)) with (settled k w). change (in_entry k (enter id spec d l w)) with (in_entry k w).
  destruct (decide (key spec = k)) as [<-|Hne].
  - assert (forall id' o c', handler_at w id' (key spec) o c' -> c' = Queued) as Hq.
    { intros id' o c' Ho. assert (c' <> Queued -> False) as H; [|destruct c'; try done; exfalso; by apply H].
      intros Hc. apply Hfree, (li_held w Hl). destruct Ho as [Hk [l' Ho]]. exists id', o.1.
      assert (l' = l) as ->; [|by eexists _, _].
      pose proof (li_lock w Hl id' o.1 l' ltac:(by eexists _, _)) as E1. pose proof (li_lock w Hl id spec l ltac:(by eexists _, _)) as E2.
      congruence. }
    split; rewrite Etk.
    + intros id' o c' [(-> & -> & -> & _)|[_ Ho]]%Hh Hc; [|by destruct Hc; eapply Hq].
      rewrite Hi1 by (intros; left; by eapply Hq). by rewrite <- app_assoc.
    + intros Hall. by destruct (Hall id (spec, d) Entered ltac:(split; [done|]; exists l; cbn; apply lookup_insert_eq)).
  - rewrite of_key_one, decide_False, app_nil_r in Etk by done. split; rewrite Etk.
    + intros id' o c' [(_ & _ & _ & ?)|[_ Ho]]%Hh Hc; [done|by eapply Ht1].
    + intros Hall. apply Hi1. intros id' o c' Ho. apply (Hall id' o). destruct Ho as [Hk [l' Ho]]. split; [done|]. exists l'. cbn.
      rewrite lookup_insert_ne; [done|]. intros <-. rewrite Ht in Ho. injection Ho; congruence.
Qed.

Lemma ordered_tasks w w' k :
  ordered k w -> pending w' = pending w -> log w' = log w -> entered w' = entered w ->
  (forall id t, threads w' !! id = Some t -> threads w !! id = Some t \/
     threads w !! id = None /\ match role t with Handler _ _ _ => pc t = Queued | Reaper => exists ks, pc t = Reaping ks end) ->
  (forall id t, threads w !! id = Some t -> threads w' !! id = Some t \/ pc t = Leaving \/ pc t = Retaining) ->
  shape_inv w -> ordered k w'.
Proof.
  intros [Ht1 Hi1] Ep El Ee Hnew Hold Hsh.
  assert (taken_up k w' = taken_up k w) as Etk by (unfold taken_up; by rewrite Ee).
  assert (settled k w' = settled k w) as Es by (by apply settled_same).
  assert (in_entry k w' = in_entry k w) as Ei by (unfold in_entry; by rewrite Ep).
  split; rewrite Etk, Es, Ei.
  - intros id o c [Hk [l Hl]] Hc. destruct (Hnew _ _ Hl) as [Hw|[_ Hq]]; [|done]. apply (Ht1 id); [|done]. split; [done|by exists l].
  - intros Hall. apply Hi1. intros id o c [Hk [l Hl]]. destruct (Hold _ _ Hl) as [Hw|[Hc|Hc]].
    + apply (Hall id o). split; [done|by exists l].
    + cbn in Hc. by right.
    + by pose proof (si_threads w Hsh _ _ Hl) as Hs; cbn in Hc; subst.
Qed.

Lemma order_acts w w' : reachable w -> order_inv w -> acts w w' -> order_inv w'.
Proof.
  intros Hr Hi Ha Hcl k Hk. pose proof (reachable_shape _ _ _ _ _ w Hr) as Hsh. pose proof (reachable_locks _ _ _ _ _ w Hr) as Hl.
  pose proof (acts_closed w w' Ha Hcl) as Hclw. pose proof (acts_reaped w w' k Hsh Ha Hk) as Hkw. specialize (Hi Hclw k Hkw).
  destruct Ha as [id t c w0 Ht Hm (_ & _ & _ & _ & Et & _ & Ee) Hq Hqc|id spec d l Ht Hfree|w' _ Ep El Ee _ Hnew Hold|st _ _].
  - assert (moving w id t c w0 k) as Hmv.
    { split; try done; [by eapply reachable_absent|]. unfold taken_up. cbn. by rewrite Ee. }
    destruct t as [[spec d l|] c0] eqn:E; [destruct (decide (key spec = k)) as [<-|Hne]|].
    + eapply ordered_own; [exact Hmv|by eapply reachable_fresh|done|]. exact (handler_here w id _ spec d l Ht eq_refl).
    + eapply ordered_other; [exact Hmv|done|]. intros o [Hok [l' Ho]]. rewrite Ht in Ho. by injection Ho as -> _ _.
    + eapply ordered_other; [exact Hmv|done|]. intros o [Hok [l' Ho]]. by rewrite Ht in Ho.
  - by apply ordered_enter.
  - by eapply ordered_tasks.
  - by destruct Hi.
Qed.

Lemma reachable_order w : reachable w -> order_inv w.
Proof.
  apply reachable_invariant; [|intros; by eapply order_acts]. intros now _ k _. split; [by intros id o c [_ [l H]]|done].
Qed.
End Order.
