(* ===== verification/UdpTasksLive.v ===== *)
(** The tasks of [UdpTasks] make progress, and the table of waiting entries
    stays bounded while they run. *)

From S2P Require Import Prelude Bytes Sniff Quic Config TcpSniff Udp Pending Sessions UdpTasks UdpTasksSafe UdpTasksFlow.
#[local] Open Scope nat_scope.

Section Live.
Context {S : Type} {session : UdpSnifferSession S} {laws : UdpSnifferLaws S}.
Context (direct : session_spec -> bool).
Context (map_iter : gmap session_key (pending_sniff S) -> list (session_key * pending_sniff S)).
Context (mode : QuicSniffMode.QuicSniffMode) (timeout : Z) (sniffers : list UdpSnifferEngine).
Abbreviation section := (section direct map_iter mode timeout sniffers).
Abbreviation task_step := (task_step direct map_iter mode timeout sniffers).
Abbreviation reachable := (tasks_reachable direct map_iter mode timeout sniffers).
Abbreviation acts := (acts map_iter).
Abbreviation moves := (moves map_iter).
Abbreviation key := UdpSessionSpec.key.
Implicit Types (w : Tasks S) (t : Thread S) (p : pending_sniff S).

(** * Progress *)

(** A task can take a step of its own. *)
Definition advances w (id : nat) : Prop := exists w', task_step w w' /\ threads w' !! id <> threads w !! id.

Lemma advances_section now w id t c w' :
  threads w !! id = Some t -> section now id (role t) (pc t) w = Some (c, w') -> c <> pc t -> advances w id.
Proof.
  intros Ht Hs Hc. exists (set_pc id t c w'). split; [by eapply step_section|]. cbn. rewrite lookup_insert_eq, Ht. intros [= E]. apply Hc. by rewrite <- E.
Qed.

(** A section that cannot run waits for a session that another task creates. *)
Definition waits w (id : nat) (c : Pc S) : Prop :=
  exists spec d l rest creator, c = Sending ((spec, d) :: l) rest /\ is_closed (table w) = false /\
    entries (table w) !! key spec = Some (Sessions.Creating creator).

Lemma decides_section k ds r w : decides k ds r ->
  exists c w', match r with Ok (inl l) => Some (Sending l [], w) | Ok (inr p) => Some (Inserting p, w) | _ => None end = Some (c, w') /\ c <> (Unknown : Pc S).
Proof. intros H%decides_decided. destruct H as (c & Hc & E). exists c, w. split; [apply E|by intros ->]. Qed.

Lemma sending_runs now w id r l rest :
  (exists c w', section now id r (Sending l rest) w = Some (c, w') /\ c <> Sending l rest) \/ waits w id (Sending l rest).
Proof.
  destruct l as [|[spec d] l]; cbn.
  { left. eexists _, w. split; [done|]. by destruct r. }
  unfold lookup_or_claim. destruct (is_closed (table w)) eqn:Ec.
  { left. eexists _, _. split; [done|]. intros [= H]. by apply (f_equal length) in H; cbn in H; lia. }
  destruct (entries (table w) !! key spec) as [[cr|s]|] eqn:E.
  - right. by exists spec, d, l, rest, cr.
  - left. eexists _, _. split; [done|]. intros [= H]. by apply (f_equal length) in H; cbn in H; lia.
  - left. eexists _, _. by split.
Qed.

Lemma section_runs now w id t :
  shape_inv w -> threads w !! id = Some t ->
  (exists c w', section now id (role t) (pc t) w = Some (c, w') /\ c <> pc t) \/
  match pc t with Queued | Leaving | Retaining | Creating _ _ => True | _ => False end \/ waits w id (pc t).
Proof.
  intros Hsh Ht. pose proof (si_threads w Hsh id t Ht) as Hst. destruct t as [r c]. cbn [role pc].
  assert ((exists l rest, c = Sending l rest) \/ match c with Sending _ _ => False | _ => True end) as [(l & rest & ->)|Hns] by (destruct c; eauto).
  { destruct (sending_runs now w id r l rest) as [?|?]; [by left|by right; right]. }
  destruct c as [| | |s|s| |p|[|k rest]|l rest|l rest| |k| |]; try done; try (right; left; done); left; destruct r as [spec d l'|]; try done; cbn.
  - by destruct (is_closed _); eexists _, _.
  - eexists _, _. split; [done|]. by case_match.
  - by eexists _, _.
  - by eexists _, _.
  - destruct (pending w !! key spec) as [p|] eqn:E.
    + eapply decides_section, decide_pending_ok; [by eapply Hsh|done].
    + eapply decides_section, decide_new_ok.
  - by eexists _, _.
  - by eexists _, _.
  - destruct (pending w !! k) as [p|]; [by eexists _, _|]. eexists _, _. split; [done|]. intros [= H]. by apply (f_equal length) in H; cbn in H; lia.
  - destruct (_ <=? _)%Z; [by eexists _, _|]. by destruct (oldest _) as [[k p]|]; eexists _, _.
  - destruct (_ <=? _)%Z; [by eexists _, _|]. by destruct (oldest _) as [[k p]|]; eexists _, _.
  - by eexists _, _.
  - by eexists _, _.
Qed.

Lemma creating_advances w id t l rest :
  reachable w -> threads w !! id = Some t -> pc t = UdpTasks.Creating l rest -> advances w id.
Proof.
  intros Hr Ht Hc. pose proof (reachable_shape _ _ _ _ _ w Hr) as Hsh. pose proof (reachable_table _ _ _ _ _ w Hr) as Hi.
  assert (exists spec d l', l = (spec, d) :: l') as (spec & d & l' & ->).
  { pose proof (si_threads w Hsh id t Ht) as Hst. assert (l <> []) as Hl; [|destruct l as [|[spec d] l']; [done|by eexists _, _, _]].
    destruct t as [[] c0]; cbn in Hc, Hst; rewrite Hc in Hst; apply Hst. }
  assert (exists x, creators (table w) !! id = Some (key spec, x)) as [x Hx].
  { apply (ti_creators w Hi). exists t. split; [done|]. unfold creating. by rewrite Hc. }
  assert (forall c, c = Sending l' rest -> c <> pc t) as Hne by (intros c ->; by rewrite Hc).
  destruct x as [|s].
  - destruct (finish_creation (table w) id (key spec) None) as [res st] eqn:E.
    exists (set_pc id t (Sending l' rest) (with_log (with_table w st) (match res with Some s => Sent spec d s | None => Lost spec d end))).
    split; [|cbn; rewrite lookup_insert_eq, Ht; intros [= E']; by eapply Hne; [done|rewrite <- E']].
    eapply step_create_failed; try done. cbn. by rewrite E.
  - destruct (finish_creation (table w) id (key spec) (Some s)) as [res st] eqn:E.
    eapply (advances_section 0%Z w id t (Sending l' rest)); [done| |by apply Hne]. rewrite Hc. cbn. rewrite Hx. cbn. by rewrite E.
Qed.

Lemma unqueued_advances w id t :
  reachable w -> threads w !! id = Some t -> pc t <> Queued -> exists id', advances w id'.
Proof.
  intros Hr Ht Hq. pose proof (reachable_shape _ _ _ _ _ w Hr) as Hsh. pose proof (reachable_table _ _ _ _ _ w Hr) as Hi.
  destruct (section_runs 0%Z w id t Hsh Ht) as [(c & w' & Hs & Hc)|[Hc|Hw]].
  - exists id. by eapply advances_section.
  - pose proof (si_threads w Hsh id t Ht) as Hst. destruct t as [r c]. exists id.
    destruct c as [| | | | | | | | |l rest| | | |], r as [spec d l'|]; try done; try (by eapply creating_advances);
      (eexists; split; [first [by eapply step_leave|by eapply step_retain]|cbn; by rewrite lookup_delete_eq, Ht]).
  - destruct Hw as (spec & d & l & rest & cr & Hc & Hopen & He). pose proof (Sessions.reachable_inv _ (ti_table w Hi)) as Hinv.
    assert (Sessions.cleared (table w) = false) as Hcl.
    { destruct (Sessions.cleared (table w)) eqn:E; [|done]. destruct (inv_cleared _ Hinv E) as [E' _]. congruence. }
    apply (inv_creating _ Hinv Hcl), (ti_creators w Hi) in He as (t' & Ht' & Hcr). exists cr.
    unfold creating in Hcr. destruct (pc t') as [| | | | | | | | |l' rest'| | | |] eqn:E; try done. by eapply creating_advances.
Qed.

Lemma advances_or_idle w : reachable w -> threads w <> ∅ -> exists id, advances w id.
Proof.
  intros Hr Hne. pose proof (reachable_locks _ _ _ _ _ w Hr) as Hl. pose proof (reachable_shape _ _ _ _ _ w Hr) as Hsh.
  apply map_choose in Hne as (id & t & Ht). pose proof (si_threads w Hsh id t Ht) as Hst. destruct t as [r c].
  destruct (decide (match c with Queued => false | _ => true end = true)) as [Hc|Hc].
  { eapply unqueued_advances; [done|exact Ht|by destruct c]. }
  destruct c; try done. destruct r as [spec d l|]; [|done]. destruct (decide (l ∈ held w)) as [Hh|Hh].
  - apply (li_held w Hl) in Hh as (id' & spec' & t' & d' & Ht' & _ & Hq). by eapply unqueued_advances.
  - exists id. exists (enter id spec d l w). split; [by apply step_enter|]. cbn. by rewrite lookup_insert_eq, Ht.
Qed.

(** * The bound *)

(** A task that is about to bring the table back to its bound. *)
Definition evicts t : bool := match pc t with Evicting | EvictKey _ => true | _ => false end.
Definition pending_limit : nat := 4096.
#[local] Arguments pending_limit : simpl never.
Definition bounded w : Prop := size (pending w) <= pending_limit + count evicts (threads w).

Lemma size_delete (m : gmap session_key (pending_sniff S)) k : size (delete k m) <= size m.
Proof. rewrite map_size_delete. destruct (m !! k); cbn; lia. Qed.
Lemma size_insert (m : gmap session_key (pending_sniff S)) k p : size (<[k := p]> m) <= 1 + size m.
Proof. rewrite map_size_insert. destruct (m !! k); cbn; lia. Qed.

Lemma moves_size id w r c c' w' :
  moves id w r c c' w' -> (oldest (map_iter (pending w)) = None -> pending w = ∅) ->
  size (pending w') + Nat.b2n (evicts {| role := r; pc := c |}) <= size (pending w) + Nat.b2n (evicts {| role := r; pc := c' |}) \/
  size (pending w') <= pending_limit.
Proof.
  intros Hm Hnone. destruct Hm; cbn;
    try match goal with |- context [delete ?k (pending w)] => pose proof (size_delete (pending w) k) end; try (left; lia).
  - left. pose proof (size_insert (pending w) (key spec) p). lia.
  - right. destruct H as [H|H]; [done|]. rewrite (Hnone H), map_size_empty. apply Nat.le_0_l.
Qed.

Lemma bound_move N s s' n n' x y : s' + x <= s + y \/ s' <= N -> s <= N + n -> n' + x = n + y -> s' <= N + n'.
Proof. lia. Qed.
Lemma bounded_acts w w' :
  (oldest (map_iter (pending w)) = None -> pending w = ∅) -> shape_inv w -> bounded w -> acts w w' -> bounded w'.
Proof.
  unfold bounded. intros Hnone Hsh Hb Ha. destruct Ha as [id t c w0 Ht Hm (_ & _ & _ & _ & Et & _) _ _|id spec d l Ht Hl|w' _ Ep _ _ _ Hnew Hold|st]; cbn.
  - rewrite Et. pose proof (count_update evicts (threads w) id t {| role := role t; pc := c |} Ht) as Hc. destruct t as [r c0].
    by eapply bound_move; [exact (moves_size _ _ _ _ _ _ Hm Hnone)|exact Hb|].
  - pose proof (count_update evicts (threads w) id _ {| role := Handler spec d l; pc := Entered |} Ht) as Hc. by eapply bound_move; [left; apply Nat.le_refl|exact Hb|exact Hc].
  - rewrite Ep. enough (count evicts (threads w') = count evicts (threads w)) as -> by done. unfold count.
    assert (filter (fun e : nat * Thread S => evicts e.2 = true) (threads w') = filter (fun e => evicts e.2 = true) (threads w)) as ->; [|done].
    apply map_eq. intros id. apply option_eq. intros t. rewrite !map_lookup_filter_Some. split; intros [Ht He]; (split; [|done]); cbn in He.
    + destruct (Hnew id t Ht) as [|[_ Hc]]; [done|]. unfold evicts in He. destruct (role t); [by rewrite Hc in He|by destruct Hc as [ks Hc]; rewrite Hc in He].
    + destruct (Hold id t Ht) as [|[Hc|Hc]]; [done|..]; unfold evicts in He; by rewrite Hc in He.
  - done.
Qed.

Lemma oldest_nil (l : list (session_key * pending_sniff S)) : oldest l = None -> l = [].
Proof. intros H. destruct l as [|e l]; [done|]. destruct (oldest_spec (e :: l)) as (f & E & _); [done|]. congruence. Qed.
Lemma reachable_bounded w : (forall m : gmap session_key (pending_sniff S), map_iter m ≡ₚ map_to_list m) -> reachable w -> bounded w.
Proof.
  intros Hiter. apply reachable_invariant; [intros now; unfold bounded; cbn; rewrite map_size_empty; apply Nat.le_0_l|].
  intros w0 w' Hr. apply bounded_acts; [|by eapply reachable_shape].
  intros Hn%oldest_nil. pose proof (Hiter (pending w0)) as Hp. rewrite Hn in Hp. by apply Permutation_nil, map_to_list_empty_iff in Hp.
Qed.
(** At most every handler and the loop evict at once. *)
Lemma few_evict w : locks_inv w -> count evicts (threads w) <= count is_handler (threads w) + 1.
Proof.
  intros Hl. transitivity (count is_handler (threads w) + count (fun t => negb (is_handler t)) (threads w)).
  - apply count_or. intros t _. destruct (is_handler t); [by left|by right].
  - apply Nat.add_le_mono_l, count_one. intros i j t u Ht Hu Ht' Hu'. apply (li_reaper w Hl i j t u Ht Hu).
    + unfold is_handler in Ht'. by destruct (role t).
    + unfold is_handler in Hu'. by destruct (role u).
Qed.
(** All that waits. *)
Definition all_waiting w : list bytes := concat (map (fun e => cached e.2) (map_to_list (pending w))).
Lemma all_waiting_length w n : (forall k p, pending w !! k = Some p -> length (cached p) <= n) -> length (all_waiting w) <= n * size (pending w).
Proof.
  intros H. unfold all_waiting. rewrite <- length_map_to_list.
  assert (Forall (fun e => length (cached e.2) <= n) (map_to_list (pending w))) as Hall.
  { apply Forall_forall. intros [k p] Hin%elem_of_map_to_list. by apply (H k). }
  induction Hall as [|e l He _ IH]; cbn; [lia|]. rewrite length_app. lia.
Qed.
End Live.
