(* ===== verification/UdpTasksRuns.v ===== *)
(** The theorems about the concurrent tasks of a UDP loop, with runs of
    [UdpTasks] on concrete packets. *)

From Stdlib Require Import Strings.Byte Strings.String.
From S2P Require Import Prelude Bytes Sniff Quic QuicReassembly QuicPackets QuicKeys QuicEncode QuicSession Config TcpSniff Udp Pending Sessions UdpFlow UdpTasks UdpTasksSafe UdpTasksFlow UdpTasksOrder UdpTasksLive.
#[local] Open Scope nat_scope.

(** * Runs *)

(** A step by name, as an interleaving is written down. *)
Inductive Command :=
  | DoReceive (now : Z) (id : nat) (o : outgoing)
  | DoSpawn (id : nat)
  | DoEnter (id : nat)
  | DoSection (now : Z) (id : nat)
  | DoCreated (id session : nat)
  | DoLeave (id : nat)
  | DoRetain (id : nat).

Section Runs.
Context {S : Type} {session : UdpSnifferSession S}.
Context (direct : session_spec -> bool).
Context (map_iter : gmap session_key (pending_sniff S) -> list (session_key * pending_sniff S)).
Context (mode : QuicSniffMode.QuicSniffMode) (timeout : Z) (sniffers : list UdpSnifferEngine).
Abbreviation section := (section direct map_iter mode timeout sniffers).
Abbreviation task_step := (task_step direct map_iter mode timeout sniffers).
Abbreviation reachable := (tasks_reachable direct map_iter mode timeout sniffers).
Implicit Types (w : Tasks S).

Definition is_reaping w : bool := existsb (fun e => match role e.2 with Reaper => true | _ => false end) (map_to_list (threads w)).
Definition has_created (s : nat) w : bool := existsb (fun e => match e.2.2 with Created s' => s' =? s | Waiting => false end) (map_to_list (creators (table w))).
Definition exec w (c : Command) : option (Tasks S) :=
  match c with
  | DoReceive now id o => if bool_decide (current w = None /\ threads w !! id = None) then Some (receive map_iter mode now id o w) else None
  | DoSpawn id => if bool_decide (is_Some (current w) /\ is_reaping w = false /\ threads w !! id = None) then Some (spawn_udp_packet_handler id w) else None
  | DoEnter id =>
      match threads w !! id with
      | Some {| role := Handler spec payload l; pc := Queued |} => if bool_decide (l ∉ held w) then Some (enter id spec payload l w) else None
      | _ => None
      end
  | DoSection now id =>
      match threads w !! id with
      | Some t => match section now id (role t) (pc t) w with Some (c, w') => Some (set_pc id t c w') | None => None end
      | None => None
      end
  | DoCreated id s =>
      match creators (table w) !! id with
      | Some (k, Waiting) =>
          if bool_decide (recv_loops (table w) !! s = None /\ (s ∉ cancelled (table w)) /\ has_created s w = false) then
            Some (with_table w (with_tasks (table w) (<[id := (k, Created s)]> (creators (table w))) (<[s := (k, false)]> (recv_loops (table w))) (cancelled (table w))))
          else None
      | _ => None
      end
  | DoLeave id =>
      match threads w !! id with Some {| role := Handler spec payload l; pc := Leaving |} => Some (leave id l w) | _ => None end
  | DoRetain id =>
      match threads w !! id with
      | Some {| role := Reaper; pc := Retaining |} => Some (reap_idle_udp_key_locks (with_threads w (delete id (threads w))))
      | _ => None
      end
  end.
Definition run now (cs : list Command) : option (Tasks S) := foldl (fun o c => match o with Some w => exec w c | None => None end) (Some (tasks_new now)) cs.

Lemma created_seen s w c k : has_created s w = false -> creators (table w) !! c = Some (k, Created s) -> False.
Proof.
  intros Hs%not_true_iff_false Hc. apply Hs, existsb_exists. exists (c, (k, Created s)).
  split; [by apply list_elem_of_In, elem_of_map_to_list|apply Nat.eqb_refl].
Qed.
Lemma exec_step w c w' : exec w c = Some w' -> task_step w w'.
Proof.
  destruct c as [now id o|id|id|now id|id s|id|id]; cbn; intros H.
  - case_bool_decide as Hd; [|done]. injection H as <-. destruct Hd. by apply step_receive.
  - case_bool_decide as Hd; [|done]. injection H as <-. destruct Hd as (Hc & Hr & Ht). apply step_spawn; [done| |done].
    intros (i & t & Hi & Hrole). apply not_true_iff_false in Hr. apply Hr, existsb_exists. exists (i, t).
    split; [by apply list_elem_of_In, elem_of_map_to_list|]. cbn. by rewrite Hrole.
  - repeat (case_match; try done). case_bool_decide as Hd; [|done]. simplify_eq. by apply step_enter.
  - repeat (case_match; try done). simplify_eq. by eapply step_section.
  - repeat (case_match; try done). case_bool_decide as Hd; [|done]. injection H as <-. destruct Hd as (Hr & Hc & Hall).
    apply step_sessions; [eapply step_created; try done; intros c' k' Hk; by eapply created_seen|]. cbn.
    apply dom_insert_lookup_L. by eexists.
  - destruct (threads w !! id) as [[[spec d l|] []]|] eqn:E; try done. injection H as <-. by eapply step_leave.
  - destruct (threads w !! id) as [[[spec d l|] []]|] eqn:E; try done. injection H as <-. by eapply step_retain.
Qed.
Lemma run_reachable now cs w : run now cs = Some w -> reachable w.
Proof.
  unfold run. assert (forall w0, reachable w0 -> foldl (fun o c => match o with Some w => exec w c | None => None end) (Some w0) cs = Some w -> reachable w) as H; [|apply H; constructor].
  induction cs as [|c cs IH]; cbn; intros w0 Hw0 Hrun; [by injection Hrun as <-|].
  destruct (exec w0 c) as [w1|] eqn:E; [|by exfalso; clear -Hrun; induction cs].
  eapply IH; [|exact Hrun]. eapply tasks_reachable_step; [exact Hw0|by eapply exec_step].
Qed.
End Runs.

(** * Packets of a QUIC client *)

Definition example_tasks (cs : list Command) : option (Tasks QuicCryptoReassembly) :=
  run (session := quic_session toy_crypto) (fun _ => false) example_iter QuicSniffMode.Full 200 [QuicSniUdpSniffer] 0 cs.
Abbreviation example_reachable := (tasks_reachable (session := quic_session toy_crypto) (fun _ => false) example_iter QuicSniffMode.Full 200 [QuicSniUdpSniffer]).
Definition example_key : session_key := UdpSessionSpec.key example_spec.
Definition example_packet (i : nat) : outgoing := (example_spec, default [x01] (example_bytes !! i)).
Definition sections (now : Z) (id n : nat) : list Command := repeat (DoSection now id) n.
(** The packet [i] arrives and waits for its lock; it is cached. *)
Definition arrives (now : Z) (i : nat) : list Command := [DoReceive now (10 + i) (example_packet i); DoSpawn i].
Definition is_cached (now : Z) (i : nat) : list Command := DoEnter i :: sections now i 5 ++ [DoLeave i].

Definition order_run : list Command := arrives 0 0 ++ is_cached 0 0 ++ arrives 1 1 ++ arrives 2 2 ++ [DoEnter 1; DoSection 3 1].
Definition race_run : list Command :=
  arrives 0 0 ++ is_cached 0 0 ++ arrives 50 1 ++ [DoReceive 300 12 (example_packet 2)]
  (* the loop flushes the entry; its session is being created *)
  ++ sections 300 12 2
  (* meanwhile the second packet is cached anew *)
  ++ is_cached 301 1
  ++ [DoCreated 12 7] ++ sections 302 12 4 ++ [DoRetain 12]
  (* the third packet finds the session *)
  ++ [DoSpawn 2; DoEnter 2] ++ sections 303 2 4.

(** * Theorems *)

Section Theorems.
Context {S : Type} {session : UdpSnifferSession S} {laws : UdpSnifferLaws S}.
Context (direct : session_spec -> bool).
Context (map_iter : gmap session_key (pending_sniff S) -> list (session_key * pending_sniff S)).
Context (mode : QuicSniffMode.QuicSniffMode) (timeout : Z) (sniffers : list UdpSnifferEngine).
Abbreviation reachable := (tasks_reachable direct map_iter mode timeout sniffers).

(** C9: however the packet tasks, the reaping loop and the session table of a
    UDP loop interleave, while the runtime is open a flow that the loop has not
    reaped keeps its order: the datagrams whose tasks have got the lock of the
    flow are, in that order, those settled (sent, lost or evicted), then those
    its one running task has taken out, those that wait in its entry, and the
    packet of that task; and none is ever discarded for a session that is
    ready. *)
Theorem udp_tasks_order w k :
  reachable w -> is_closed (table w) = false -> k ∉ reaped w ->
  (forall id o c, handler_at w id k o c -> c <> Queued ->
     taken_up k w = settled k w ++ of_key k (in_hand c) ++ in_entry k w ++ of_key k (arriving o c)) /\
  ((forall id o c, handler_at w id k o c -> c = Queued \/ c = Leaving) -> taken_up k w = settled k w ++ in_entry k w) /\
  (forall ds, DiscardedEntry k ds ∉ log w).
Proof.
  intros Hr Hc Hk. destruct (reachable_order _ _ _ _ _ w Hr Hc k Hk) as [H1 H2]. split_and!; [done|done|].
  intros ds. by eapply fr_log, reachable_fresh.
Qed.

(** C10: the locks and the semaphore of a UDP loop do what they are for: of the
    tasks of a flow at most one is past its lock, all of them share the one lock
    that the table has for the flow, there are never more than 4096 tasks of
    packets (the free permits and the tasks add up), and the table of waiting
    entries exceeds 4096 by no more than the tasks that are evicting from it. *)
Theorem udp_tasks_exclusive w :
  (forall m : gmap session_key (pending_sniff S), map_iter m ≡ₚ map_to_list m) -> reachable w ->
  (forall id1 id2 k o1 o2 c1 c2, handler_at w id1 k o1 c1 -> handler_at w id2 k o2 c2 -> c1 <> Queued -> c2 <> Queued -> id1 = id2) /\
  (forall id spec l, handles w id spec l -> key_locks w !! UdpSessionSpec.key spec = Some l) /\
  permits w + count is_handler (threads w) = UDP_PACKET_TASK_LIMIT /\
  size (pending w) <= 4096 + count evicts (threads w).
Proof.
  intros Hiter Hr. pose proof (reachable_locks _ _ _ _ _ w Hr) as Hl. split_and!; [|apply Hl|apply Hl|by apply (reachable_bounded direct map_iter mode timeout sniffers)].
  intros. by eapply handler_exclusive.
Qed.

(** C11: no interleaving of the tasks of a UDP loop loses or repeats a datagram
    unrecorded: those that tasks have taken up are, up to order, those whose
    fate is recorded, those that tasks have in hand and those that wait in the
    entry of their flow. *)
Theorem udp_tasks_account w k :
  reachable w -> taken_up k w ≡ₚ settled k w ++ carried k w ++ in_entry k w.
Proof. intros Hr. by eapply reachable_accounted. Qed.

(** C12: the tasks of a UDP loop never block each other for good: while there is
    one, one of them can take a step of its own; a task that waits for its lock
    or for a session that another task creates waits for a task that can. *)
Theorem udp_tasks_progress w : reachable w -> threads w <> ∅ -> exists id, advances direct map_iter mode timeout sniffers w id.
Proof. apply advances_or_idle. Qed.
(** C15: what waits in the table of a UDP loop is bounded, however its tasks
    interleave: an entry is of its own flow, and has one to eight datagrams that
    together take at most 64 KiB or are one datagram and empty ones, and fewer
    than two failed attempts; the table has at most 4096 entries when nobody is
    evicting and never more than 8193, so that at most 65544 datagrams wait.
    Each loop has a table of its own. *)
Theorem udp_waiting_bounded w :
  (forall m : gmap session_key (pending_sniff S), map_iter m ≡ₚ map_to_list m) -> reachable w ->
  (forall k p, pending w !! k = Some p -> UdpSessionSpec.key (PendingUdpSniff.spec p) = k /\
    1 <= length (cached p) <= 8 /\ (zlen (concat (cached p)) <= Z.max 65536 (zlen (hd [] (cached p))))%Z /\
    (0 <= PendingUdpSniff.no_clue_attempts p < 2)%Z) /\
  (count evicts (threads w) = 0 -> size (pending w) <= 4096) /\
  (Z.of_nat (size (pending w)) <= 8193)%Z /\ (Z.of_nat (length (all_waiting w)) <= 65544)%Z.
Proof.
  intros Hiter Hr. pose proof (reachable_locks _ _ _ _ _ w Hr) as Hl. pose proof (reachable_shape _ _ _ _ _ w Hr) as Hsh.
  pose proof (reachable_bounded direct map_iter mode timeout sniffers w Hiter Hr) as Hb. unfold bounded in Hb.
  assert (Z.of_nat pending_limit = 4096%Z /\ Z.of_nat UDP_PACKET_TASK_LIMIT = 4096%Z) as [E1 E2] by done.
  pose proof (few_evict w Hl) as Hf. pose proof (li_permits w Hl) as Hp.
  assert (Z.of_nat (size (pending w)) <= 8193)%Z as Hsize by lia. split_and!; [|lia|done|].
  - intros k p (Hk & _ & [Hc _ Hm Hn])%(si_pending w Hsh). split; [done|]. split; [lia|]. by split.
  - pose proof (all_waiting_length w 8) as Ha. enough (length (all_waiting w) <= 8 * size (pending w)) by lia. apply Ha.
    intros k p (_ & _ & [Hc _ _ _])%(si_pending w Hsh). lia.
Qed.
End Theorems.

(** ** Witnesses *)

Abbreviation example_laws := (quic_session_laws toy_crypto).
Lemma example_run_reachable cs w : example_tasks cs = Some w -> example_reachable w.
Proof. apply run_reachable. Qed.

(** What is computed of a run holds of its last state. *)
Lemma example_fact cs w {A} (f : Tasks QuicCryptoReassembly -> A) a : example_tasks cs = Some w -> f <$> example_tasks cs = Some a -> f w = a.
Proof. intros ->. by intros [= ->]. Qed.

Lemma udp_tasks_order_witness : exists w,
  example_tasks order_run = Some w /\ length (taken_up example_key w) = 2 /\
  taken_up example_key w = settled example_key w ++ [] ++ in_entry example_key w ++ [(example_packet 1).2] /\
  length (in_entry example_key w) = 1.
Proof.
  destruct (example_tasks order_run) as [w|] eqn:E; [|vm_compute in E; discriminate]. exists w. split; [done|].
  split; [apply (example_fact _ w (fun w => length (taken_up example_key w)) 2 E); vm_compute; reflexivity|].
  split; [|apply (example_fact _ w (fun w => length (in_entry example_key w)) 1 E); vm_compute; reflexivity].
  assert (is_closed (table w) = false) as Hc by (apply (example_fact _ w (fun w => is_closed (table w)) false E); vm_compute; reflexivity).
  assert (example_key ∉ reaped w) as Hk.
  { rewrite (example_fact _ w reaped ∅ E); [apply not_elem_of_empty|vm_compute; reflexivity]. }
  apply (proj1 (udp_tasks_order (laws := example_laws) (fun _ => false) example_iter QuicSniffMode.Full 200 [QuicSniUdpSniffer] w example_key
    (example_run_reachable _ w E) Hc Hk) 1 (example_packet 1) Opened); [|done].
  split; [reflexivity|]. exists 0. apply (example_fact _ w (fun w => threads w !! 1) _ E). vm_compute. reflexivity.
Defined.

Lemma udp_tasks_exclusive_witness : exists w,
  example_tasks order_run = Some w /\ count is_handler (threads w) = 2 /\ permits w + count is_handler (threads w) = UDP_PACKET_TASK_LIMIT /\
  size (pending w) <= 4096 + count evicts (threads w).
Proof.
  destruct (example_tasks order_run) as [w|] eqn:E; [|vm_compute in E; discriminate]. exists w. split; [done|].
  split; [|exact (proj2 (proj2 (udp_tasks_exclusive (laws := example_laws) (fun _ => false) example_iter QuicSniffMode.Full 200 [QuicSniUdpSniffer] w
    (example_iter_perm _) (example_run_reachable _ w E))))].
  apply (example_fact _ w (fun w => count is_handler (threads w)) 2 E). vm_compute. reflexivity.
Defined.

Lemma udp_waiting_bounded_witness : exists w,
  example_tasks order_run = Some w /\ length (all_waiting w) = 1 /\ (Z.of_nat (length (all_waiting w)) <= 65544)%Z.
Proof.
  destruct (example_tasks order_run) as [w|] eqn:E; [|vm_compute in E; discriminate]. exists w. split; [done|].
  split; [apply (example_fact _ w (fun w => length (all_waiting w)) 1 E); vm_compute; reflexivity|].
  exact (proj2 (proj2 (proj2 (udp_waiting_bounded (laws := example_laws) (fun _ => false) example_iter QuicSniffMode.Full 200 [QuicSniUdpSniffer] w
    (example_iter_perm _) (example_run_reachable _ w E))))).
Defined.

Lemma udp_tasks_account_witness : exists w,
  example_tasks order_run = Some w /\ taken_up example_key w ≡ₚ settled example_key w ++ carried example_key w ++ in_entry example_key w.
Proof.
  destruct (example_tasks order_run) as [w|] eqn:E; [|vm_compute in E; discriminate]. exists w. split; [done|].
  exact (udp_tasks_account (laws := example_laws) (fun _ => false) example_iter QuicSniffMode.Full 200 [QuicSniUdpSniffer] w example_key (example_run_reachable _ w E)).
Defined.

Lemma udp_tasks_progress_witness : exists w,
  example_tasks order_run = Some w /\ exists id, advances (session := quic_session toy_crypto) (fun _ => false) example_iter QuicSniffMode.Full 200 [QuicSniUdpSniffer] w id.
Proof.
  destruct (example_tasks order_run) as [w|] eqn:E; [|vm_compute in E; discriminate]. exists w. split; [done|].
  apply (udp_tasks_progress (laws := example_laws) (fun _ => false) example_iter QuicSniffMode.Full 200 [QuicSniUdpSniffer] w (example_run_reachable _ w E)).
  assert (length (map_to_list (threads w)) = 2) as H by (apply (example_fact _ w (fun w => length (map_to_list (threads w))) 2 E); vm_compute; reflexivity).
  intros Hn. by rewrite Hn, map_to_list_empty in H.
Defined.

(** ** A datagram that is discarded *)

(** The loop reaps without the lock of the flow. While the session for the
    flushed entry is being created, a task of the flow finds neither an entry
    nor a session and caches its datagram anew; the next task finds the session
    ready and removes the entry with that datagram. *)
Theorem reaping_discards : exists w,
  example_reachable w /\ is_closed (table w) = false /\
  log w = [Sent example_spec (example_packet 0).2 7; DiscardedEntry example_key [(example_packet 1).2]; Sent example_spec (example_packet 2).2 7].
Proof.
  destruct (example_tasks race_run) as [w|] eqn:E; [|vm_compute in E; discriminate]. exists w.
  split; [by eapply example_run_reachable|].
  split; [apply (example_fact _ w (fun w => is_closed (table w)) false E)|apply (example_fact _ w log _ E)]; vm_compute; reflexivity.
Qed.
