(* ===== verification/SocketCalls.v ===== *)
(** The creation of sockets, [src/src/socket_factory.rs], with the helpers of
    [src/src/util.rs] it uses, as sequences of system calls that the kernel may
    refuse at any point; and the receipt of a transparent UDP packet,
    [src/src/udp/tproxy.rs]. *)

From Stdlib Require Import Strings.Byte Strings.String.
From S2P Require Import Prelude Bytes Config.
#[local] Open Scope Z_scope.

(** * System calls *)

Inductive SockOpt :=
  | TransparentV4 | TransparentV6 | OnlyV6 (v : bool) | ReuseAddr | ReusePort | Mark (mark : Z)
  | OrigDstV4 | OrigDstV6 | NoDelay | NonBlocking.
Inductive Domain := IPV4 | IPV6.
Inductive Type_ := STREAM | DGRAM.

(** A socket as the calls on it have left it; [from_std] hands it to tokio. *)
Record Socket := {
  domain : Domain;
  type_ : Type_;
  options : list SockOpt;
  local : option SocketAddr;
  peer : option SocketAddr;
  backlog : option Z;
  registered : bool;
}.

Inductive Call :=
  | NewSocket (d : Domain) (t : Type_)
  | SetOpt (o : SockOpt)
  | Bind (addr : SocketAddr)
  | Connect (addr : SocketAddr)
  | Listen (backlog : Z)
  | FromStd
  | Writable
  | TakeError.
(** [Pending] is the error that [take_error] finds on a socket. The numbers of
    the errors are those of Linux on x86, ARM and RISC-V; the program takes them
    from [libc], and nothing below depends on more than their being distinct. *)
Inductive Reply := Done | Fails (errno : Z) | Pending (errno : Z).

Definition EAGAIN : Z := 11.
Definition EINPROGRESS : Z := 115.

(** What a successful call does to its socket. *)
Definition effect (c : Call) (s : Socket) : Socket :=
  match c with
  | NewSocket _ _ | Writable | TakeError => s
  | SetOpt o => {| domain := domain s; type_ := type_ s; options := options s ++ [o]; local := local s; peer := peer s; backlog := backlog s; registered := registered s |}
  | Bind a => {| domain := domain s; type_ := type_ s; options := options s; local := Some a; peer := peer s; backlog := backlog s; registered := registered s |}
  | Connect a => {| domain := domain s; type_ := type_ s; options := options s; local := local s; peer := Some a; backlog := backlog s; registered := registered s |}
  | Listen n => {| domain := domain s; type_ := type_ s; options := options s; local := local s; peer := peer s; backlog := Some n; registered := registered s |}
  | FromStd => {| domain := domain s; type_ := type_ s; options := options s; local := local s; peer := peer s; backlog := backlog s; registered := true |}
  end.
Definition new_socket (d : Domain) (t : Type_) : Socket :=
  {| domain := d; type_ := t; options := []; local := None; peer := None; backlog := None; registered := false |}.

(** The sockets that are open, the next descriptor, and the calls so far with
    the socket that each was made on, as it was, and the reply. *)
Record Net := { sockets : gmap nat Socket; next : nat; calls : list (Call * Socket * Reply) }.

Definition net_calls (n : Net) (c : Call) (k : Socket) (r : Reply) (m : gmap nat Socket) (next_fd : nat) : Net :=
  {| sockets := m; next := next_fd; calls := calls n ++ [(c, k, r)] |}.
Definition with_sockets (n : Net) (m : gmap nat Socket) : Net := {| sockets := m; next := next n; calls := calls n |}.

(** A constructor ends with a socket or with the error of a call. *)
Definition sys (A : Type) : Type := Net -> res Z A * Net.
Definition ret {A} (a : A) : sys A := fun n => (Ok a, n).
Definition raise {A} (e : Z) : sys A := fun n => (Err e, n).
Definition bind {A B} (m : sys A) (f : A -> sys B) : sys B := fun n =>
  match m n with
  | (Ok a, n) => f a n
  | (Err e, n) => (Err e, n)
  | (Panic, n) => (Panic, n)
  | (Diverge, n) => (Diverge, n)
  end.
Notation "'sys!' x := c1 'in' c2" := (bind c1 (fun x => c2)) (at level 10, x pattern, c1 at level 100, c2 at level 200) : res_scope.
Notation "'when' b 'do' c" := (if (b : bool) then c else ret tt) (at level 10, b at level 100, c at level 100) : res_scope.

(** [?] on a socket in scope: an error drops it, which closes it. *)
Definition dropping {A} (s : nat) (m : sys A) : sys A := fun n =>
  match m n with
  | (Err e, n) => (Err e, with_sockets n (delete s (sockets n)))
  | r => r
  end.

Definition is_ipv4 (a : SocketAddr) : bool := match sa_ip a with V4 _ => true | V6 _ => false end.
Definition domain_for (a : SocketAddr) : Domain := if is_ipv4 a then IPV4 else IPV6.
Definition unspecified_addr_for (a : SocketAddr) : SocketAddr :=
  match sa_ip a with V4 _ => {| sa_ip := V4 0; sa_port := 0 |} | V6 _ => {| sa_ip := V6 0; sa_port := 0 |} end.

Section Sockets.
(** The kernel; its reply may depend on everything so far. *)
Context (kernel : Net -> nat -> Call -> Reply).

Definition create (d : Domain) (t : Type_) : sys nat := fun n =>
  let r := kernel n (next n) (NewSocket d t) in
  match r with
  | Fails e => (Err e, net_calls n (NewSocket d t) (new_socket d t) r (sockets n) (next n))
  | _ => (Ok (next n), net_calls n (NewSocket d t) (new_socket d t) r (<[next n := new_socket d t]> (sockets n)) (S (next n)))
  end.

(** A call on a socket; a non-blocking [connect] under way has an effect. *)
Definition in_progress (c : Call) (r : Reply) : bool :=
  match c, r with Connect _, Fails e => e =? EINPROGRESS | _, _ => false end.
Definition call (s : nat) (c : Call) : sys Reply := fun n =>
  match sockets n !! s with
  | None => (Panic, n)
  | Some k =>
      let r := kernel n s c in
      let k' := match r with Fails _ => if in_progress c r then effect c k else k | _ => effect c k end in
      (Ok r, net_calls n c k r (<[s := k']> (sockets n)) (next n))
  end.
Definition must (s : nat) (c : Call) : sys unit :=
  sys! r := call s c in fun n => (match r with Fails e => Err e | _ => Ok tt end, n).

Definition set_socket_reuse (s : nat) : sys unit := sys! _ := must s (SetOpt ReuseAddr) in must s (SetOpt ReusePort).
Definition enable_orig_dst (s : nat) (addr : SocketAddr) : sys unit :=
  if is_ipv4 addr then must s (SetOpt OrigDstV4) else must s (SetOpt OrigDstV6).

(** ** [SocketFactory] *)

Definition udp_socket (addr : SocketAddr) : sys nat := create (domain_for addr) DGRAM.
Definition tcp_socket (addr : SocketAddr) : sys nat := create (domain_for addr) STREAM.

Definition apply_socket_options (s : nat) (addr : SocketAddr) (reuse_addr transparent : bool) (only_v6 : option bool) (mark : option Z) : sys unit :=
  sys! _ := when transparent do (if is_ipv4 addr then must s (SetOpt TransparentV4) else must s (SetOpt TransparentV6)) in
  sys! _ := match only_v6 with Some v => when negb (is_ipv4 addr) do must s (SetOpt (OnlyV6 v)) | None => ret tt end in
  sys! _ := when reuse_addr do set_socket_reuse s in
  match mark with Some fwmark => must s (SetOpt (Mark fwmark)) | None => ret tt end.

Definition bind_udp_std (addr : SocketAddr) (reuse_addr transparent : bool) (only_v6 : option bool) (mark : option Z) : sys nat :=
  sys! s := udp_socket addr in
  dropping s (
    sys! _ := apply_socket_options s addr reuse_addr transparent only_v6 mark in
    sys! _ := must s (SetOpt NonBlocking) in
    sys! _ := must s (Bind addr) in
    ret s).

Definition bind_tcp_listener (addr : SocketAddr) (reuse_addr transparent : bool) (only_v6 : option bool) (n : Z) : sys nat :=
  sys! s := tcp_socket addr in
  dropping s (
    sys! _ := apply_socket_options s addr reuse_addr transparent only_v6 None in
    sys! _ := must s (SetOpt NonBlocking) in
    sys! _ := must s (Bind addr) in
    sys! _ := must s (Listen n) in
    sys! _ := must s FromStd in
    ret s).

Definition bind_tproxy_udp_socket (addr : SocketAddr) (only_v6 : option bool) : sys nat :=
  sys! s := udp_socket addr in
  dropping s (
    sys! _ := apply_socket_options s addr true true only_v6 None in
    sys! _ := enable_orig_dst s addr in
    sys! _ := must s (SetOpt NonBlocking) in
    sys! _ := must s (Bind addr) in
    sys! _ := must s FromStd in
    ret s).

Definition connect_direct_udp (target_addr : SocketAddr) (fwmark : Z) : sys nat :=
  let bind_addr := unspecified_addr_for target_addr in
  sys! s := udp_socket bind_addr in
  dropping s (
    sys! _ := apply_socket_options s bind_addr false false None (Some fwmark) in
    sys! _ := must s (SetOpt NonBlocking) in
    sys! _ := must s (Bind bind_addr) in
    sys! _ := must s (Connect target_addr) in
    sys! _ := must s FromStd in
    ret s).

Definition bind_port_forward_udp_listener (addr : SocketAddr) : sys nat :=
  sys! s := udp_socket addr in
  dropping s (
    sys! _ := apply_socket_options s addr true false None None in
    sys! _ := must s (SetOpt NonBlocking) in
    sys! _ := must s (Bind addr) in
    sys! _ := must s FromStd in
    ret s).

Definition connect_tcp_stream (addr : SocketAddr) (fwmark : Z) (tcp_nodelay : bool) : sys nat :=
  sys! s := tcp_socket addr in
  dropping s (
    sys! _ := apply_socket_options s addr false false None (Some fwmark) in
    sys! _ := when tcp_nodelay do must s (SetOpt NoDelay) in
    sys! _ := must s (SetOpt NonBlocking) in
    sys! _ := (sys! r := call s (Connect addr) in
               match r with Fails e => if e =? EINPROGRESS then ret tt else raise e | _ => ret tt end) in
    sys! _ := must s FromStd in
    sys! _ := must s Writable in
    sys! r := call s TakeError in
    match r with
    | Done => ret s
    | Pending e | Fails e => raise e
    end).

(** ** The sockets of the program *)

Definition create_direct_udp_socket (target_addr : SocketAddr) (fwmark : Z) : sys nat := connect_direct_udp target_addr fwmark.

Definition create_fake_udp_socket (src_addr : SocketAddr) (fwmark : Z) : sys nat :=
  sys! s := bind_udp_std src_addr true true (if is_ipv4 src_addr then None else Some false) (Some fwmark) in
  dropping s (sys! _ := must s FromStd in ret s).

Definition tproxy_tcp_listener_for_ip (ip : IpAddr) (port : Z) : sys nat :=
  let sa := {| sa_ip := ip; sa_port := port |} in
  bind_tcp_listener sa true true (if is_ipv4 sa then None else Some true) 1024.
Definition tproxy_udp_socket_for_ip (ip : IpAddr) (port : Z) : sys nat :=
  let sa := {| sa_ip := ip; sa_port := port |} in
  bind_tproxy_udp_socket sa (if is_ipv4 sa then None else Some true).

(** The body that [create_tproxy_tcp_listeners] and [create_tproxy_udp_sockets]
    share. *)
Definition for_families (one : IpAddr -> Z -> sys nat) (ip : IpAddr) (port : Z) : sys (option nat * option nat) :=
  match ip with
  | V4 _ => sys! v4 := one ip port in ret (Some v4, None)
  | V6 z =>
      if z =? 0 then
        sys! v4 := one (V4 0) port in
        dropping v4 (sys! v6 := one (V6 0) port in ret (Some v4, Some v6))
      else sys! v6 := one ip port in ret (None, Some v6)
  end.
Definition create_tproxy_tcp_listeners : IpAddr -> Z -> sys (option nat * option nat) := for_families tproxy_tcp_listener_for_ip.
Definition create_tproxy_udp_sockets : IpAddr -> Z -> sys (option nat * option nat) := for_families tproxy_udp_socket_for_ip.

(** ** The sockets of [spawn_listener_tasks] of [state.rs]

    The listeners of TCP have been handed to their tasks when the sockets of UDP
    are asked for: an error of these drops none of them. *)
Definition spawn_listener_sockets (udp : bool) (ip : IpAddr) (port : Z) : sys ((option nat * option nat) * option (option nat * option nat)) :=
  sys! tcp := create_tproxy_tcp_listeners ip port in
  if udp then sys! u := create_tproxy_udp_sockets ip port in ret (tcp, Some u) else ret (tcp, None).

(** ** The port forwards, [spawn_port_forward_tasks] of [state.rs] *)

(** [str::parse] of a socket address; a forward that does not parse is the
    error 0. *)
Context (parse_addr : bytes -> option SocketAddr).

Inductive Prepared :=
  | PreparedTcp (listener : nat) (remote : SocketAddr)
  | PreparedUdp (socket : nat) (bind remote : SocketAddr)
  | PreparedBoth (tcp_listener udp_socket : nat) (bind remote : SocketAddr).
Definition prepared_sockets (p : Prepared) : list nat :=
  match p with PreparedTcp s _ | PreparedUdp s _ _ => [s] | PreparedBoth t u _ _ => [t; u] end.

Definition parse_or (a : bytes) : sys SocketAddr := match parse_addr a with Some a => ret a | None => raise 0 end.
Definition prepare_forward (pf : PortForward.PortForward) : sys Prepared :=
  sys! bind_addr := parse_or (PortForward.bind pf) in
  sys! remote_addr := parse_or (PortForward.remote pf) in
  match PortForward.network pf with
  | PortForwardProto.Tcp => sys! s := bind_tcp_listener bind_addr true false None 1024 in ret (PreparedTcp s remote_addr)
  | PortForwardProto.Udp => sys! s := bind_port_forward_udp_listener bind_addr in ret (PreparedUdp s bind_addr remote_addr)
  | PortForwardProto.Both =>
      sys! t := bind_tcp_listener bind_addr true false None 1024 in
      dropping t (sys! u := bind_port_forward_udp_listener bind_addr in ret (PreparedBoth t u bind_addr remote_addr))
  end.
(** The vector [prepared] is dropped with its sockets by the first error. *)
Fixpoint prepare_forwards (pfs : list PortForward.PortForward) : sys (list Prepared) :=
  match pfs with
  | [] => ret []
  | pf :: pfs =>
      sys! p := prepare_forward pf in
      foldr dropping (sys! ps := prepare_forwards pfs in ret (p :: ps)) (prepared_sockets p)
  end.
End Sockets.

(** * The specification *)

Create HintDb calls.

(** A call with what its caller makes of the reply. *)
Inductive Step := Must (c : Call) | TryConnect (addr : SocketAddr) | CheckError.
Definition step_call (st : Step) : Call := match st with Must c => c | TryConnect a => Connect a | CheckError => TakeError end.
Definition accepts (st : Step) (r : Reply) : bool :=
  match st, r with
  | TryConnect _, Fails e => e =? EINPROGRESS
  | CheckError, Pending _ | _, Fails _ => false
  | _, _ => true
  end.

(** The sockets that the program makes, with what each is to be. *)
Inductive Request :=
  | DirectUdp (target : SocketAddr) (fwmark : Z)
  | FakeUdp (src : SocketAddr) (fwmark : Z)
  | ForwardTcp (addr : SocketAddr)
  | ForwardUdp (addr : SocketAddr)
  | TproxyTcp (ip : IpAddr) (port : Z)
  | TproxyUdp (ip : IpAddr) (port : Z)
  | ConnectTcp (addr : SocketAddr) (fwmark : Z) (tcp_nodelay : bool).
Definition transparent_opt (a : SocketAddr) : SockOpt := if is_ipv4 a then TransparentV4 else TransparentV6.
Definition orig_dst_opt (a : SocketAddr) : SockOpt := if is_ipv4 a then OrigDstV4 else OrigDstV6.
Definition only_v6_opt (a : SocketAddr) (v : bool) : list SockOpt := if is_ipv4 a then [] else [OnlyV6 v].

Definition wanted (r : Request) : Socket :=
  match r with
  | DirectUdp target m =>
      {| domain := domain_for target; type_ := DGRAM; options := [Mark m; NonBlocking]; local := Some (unspecified_addr_for target);
         peer := Some target; backlog := None; registered := true |}
  | FakeUdp src m =>
      {| domain := domain_for src; type_ := DGRAM; options := transparent_opt src :: only_v6_opt src false ++ [ReuseAddr; ReusePort; Mark m; NonBlocking];
         local := Some src; peer := None; backlog := None; registered := true |}
  | ForwardTcp a =>
      {| domain := domain_for a; type_ := STREAM; options := [ReuseAddr; ReusePort; NonBlocking]; local := Some a; peer := None;
         backlog := Some 1024; registered := true |}
  | ForwardUdp a =>
      {| domain := domain_for a; type_ := DGRAM; options := [ReuseAddr; ReusePort; NonBlocking]; local := Some a; peer := None;
         backlog := None; registered := true |}
  | TproxyTcp ip port =>
      let a := {| sa_ip := ip; sa_port := port |} in
      {| domain := domain_for a; type_ := STREAM; options := transparent_opt a :: only_v6_opt a true ++ [ReuseAddr; ReusePort; NonBlocking];
         local := Some a; peer := None; backlog := Some 1024; registered := true |}
  | TproxyUdp ip port =>
      let a := {| sa_ip := ip; sa_port := port |} in
      {| domain := domain_for a; type_ := DGRAM; options := transparent_opt a :: only_v6_opt a true ++ [ReuseAddr; ReusePort; orig_dst_opt a; NonBlocking];
         local := Some a; peer := None; backlog := None; registered := true |}
  | ConnectTcp a m nodelay =>
      {| domain := domain_for a; type_ := STREAM; options := Mark m :: (if nodelay then [NoDelay] else []) ++ [NonBlocking]; local := None;
         peer := Some a; backlog := None; registered := true |}
  end.
(** The calls that make it: the options, then what concerns the network. *)
Definition steps (r : Request) : list Step :=
  map (fun o => Must (SetOpt o)) (options (wanted r)) ++
  (match local (wanted r) with Some a => [Must (Bind a)] | None => [] end) ++
  (match peer (wanted r), type_ (wanted r) with Some a, DGRAM => [Must (Connect a)] | Some a, STREAM => [TryConnect a] | None, _ => [] end) ++
  (match backlog (wanted r) with Some n => [Must (Listen n)] | None => [] end) ++
  [Must FromStd] ++ (match r with ConnectTcp _ _ _ => [Must Writable; CheckError] | _ => [] end).

Section Spec.
Context (kernel : Net -> nat -> Call -> Reply).

Definition make (r : Request) : sys nat :=
  match r with
  | DirectUdp target m => create_direct_udp_socket kernel target m
  | FakeUdp src m => create_fake_udp_socket kernel src m
  | ForwardTcp a => bind_tcp_listener kernel a true false None 1024
  | ForwardUdp a => bind_port_forward_udp_listener kernel a
  | TproxyTcp ip port => tproxy_tcp_listener_for_ip kernel ip port
  | TproxyUdp ip port => tproxy_udp_socket_for_ip kernel ip port
  | ConnectTcp a m nodelay => connect_tcp_stream kernel a m nodelay
  end.

Definition run_step (s : nat) (st : Step) : sys unit :=
  sys! r := call kernel s (step_call st) in
  fun n => (match r with Fails e | Pending e => if accepts st r then Ok tt else Err e | Done => Ok tt end, n).
Fixpoint run_steps (s : nat) (sts : list Step) : sys unit :=
  match sts with [] => ret tt | st :: sts => sys! _ := run_step s st in run_steps s sts end.
Definition made (d : Domain) (t : Type_) (sts : list Step) : sys nat :=
  sys! s := create kernel d t in dropping s (sys! _ := run_steps s sts in ret s).

(** ** The code runs the steps *)

Definition runs (s : nat) (m : sys unit) (sts : list Step) : Prop := forall n, m n = run_steps s sts n.
Lemma runs_nil s : runs s (ret tt) [].
Proof. done. Qed.
Lemma runs_must s c : runs s (must kernel s c) [Must c].
Proof.
  intros n. unfold must. cbn. unfold run_step, bind. cbn. by destruct (call kernel s c n) as [[[]| | |] n'].
Qed.
Lemma run_steps_app s l l' n : run_steps s (l ++ l') n = bind (run_steps s l) (fun _ => run_steps s l') n.
Proof.
  revert n. induction l as [|st l IH]; intros n; [done|]. cbn. unfold bind in *. by destruct (run_step s st n) as [[[]| | |] n'].
Qed.
Lemma runs_bind s m m' l l' : runs s m l -> runs s m' l' -> runs s (sys! _ := m in m') (l ++ l').
Proof.
  intros H H' n. rewrite run_steps_app. unfold bind. rewrite H. by destruct (run_steps s l n) as [[[]| | |] n'].
Qed.
Lemma runs_try s a : runs s (sys! r := call kernel s (Connect a) in match r with Fails e => if e =? EINPROGRESS then ret tt else raise e | _ => ret tt end) [TryConnect a].
Proof.
  intros n. cbn. unfold run_step, bind. cbn. destruct (call kernel s (Connect a) n) as [[[| e|]| | |] n']; try done. by destruct (e =? EINPROGRESS).
Qed.
Lemma runs_if s (b : bool) m m' l l' : runs s m l -> runs s m' l' -> runs s (if b then m else m') (if b then l else l').
Proof. by destruct b. Qed.

Lemma runs_options s addr reuse transparent only_v6 mark :
  runs s (apply_socket_options kernel s addr reuse transparent only_v6 mark)
    (map (fun o => Must (SetOpt o))
      ((if transparent then [transparent_opt addr] else []) ++ (match only_v6 with Some v => only_v6_opt addr v | None => [] end) ++
       (if reuse then [ReuseAddr; ReusePort] else []) ++ (match mark with Some m => [Mark m] | None => [] end))).
Proof.
  rewrite !map_app. unfold apply_socket_options, transparent_opt, only_v6_opt. repeat apply runs_bind.
  - destruct transparent; [destruct (is_ipv4 addr)|]; [apply runs_must..|apply runs_nil].
  - destruct only_v6; [destruct (is_ipv4 addr)|]; [apply runs_nil|apply runs_must|apply runs_nil].
  - destruct reuse; [|apply runs_nil]. apply (runs_bind s _ _ [_] [_]); apply runs_must.
  - destruct mark; [apply runs_must|apply runs_nil].
Qed.

(** A constructor is [made] of the steps of its body. *)
Definition ends (s : nat) (m : sys nat) (sts : list Step) : Prop := forall n, m n = (sys! _ := run_steps s sts in ret s) n.
Lemma ends_ret s : ends s (ret s) [].
Proof. done. Qed.
Lemma ends_bind s m m' l l' : runs s m l -> ends s m' l' -> ends s (sys! _ := m in m') (l ++ l').
Proof.
  intros H H' n. unfold bind. rewrite H, run_steps_app. unfold bind. by destruct (run_steps s l n) as [[[]| | |] n'].
Qed.
Lemma ends_check s : ends s (sys! r := call kernel s TakeError in match r with Done => ret s | Pending e | Fails e => raise e end) [CheckError].
Proof. intros n. unfold bind. cbn. unfold run_step, bind. cbn. by destruct (call kernel s TakeError n) as [[[]| | |] n']. Qed.
Lemma made_ends d t body sts n : (forall s, ends s (body s) sts) -> (sys! s := create kernel d t in dropping s (body s)) n = made d t sts n.
Proof.
  intros H. unfold made, bind. destruct (create kernel d t n) as [[s| | |] n']; try done. unfold dropping. by rewrite H.
Qed.
Lemma made_more d t sts sts' body n :
  (forall s, ends s (body s) sts') -> (sys! s := made d t sts in dropping s (body s)) n = made d t (sts ++ sts') n.
Proof.
  intros H. unfold made, bind. destruct (create kernel d t n) as [[s| | |] n']; try done. unfold dropping. rewrite run_steps_app. unfold bind.
  destruct (run_steps s sts n') as [[[]| | |] n2]; try done. cbn. rewrite H. done.
Qed.

Lemma made_eq d d' t sts sts' n m : m n = made d t sts n -> d = d' -> sts = sts' -> m n = made d' t sts' n.
Proof. by intros -> -> ->. Qed.
#[local] Hint Resolve runs_must runs_try runs_nil runs_options ends_ret ends_check : calls.
Ltac calls := intros ?s; repeat first [eapply ends_bind; [solve [auto with calls]|]]; solve [auto with calls].

Lemma bind_ext {A B} (m m' : sys A) (f : A -> sys B) n : m n = m' n -> bind m f n = bind m' f n.
Proof. unfold bind. by intros ->. Qed.
Lemma runs_orig_dst s a : runs s (enable_orig_dst kernel s a) [Must (SetOpt (orig_dst_opt a))].
Proof. unfold enable_orig_dst, orig_dst_opt. destruct (is_ipv4 a); apply runs_must. Qed.
#[local] Hint Resolve runs_orig_dst : calls.

Lemma domain_unspecified a : domain_for (unspecified_addr_for a) = domain_for a.
Proof. by destruct a as [[] ?]. Qed.

Lemma make_steps r n : make r n = made (domain (wanted r)) (type_ (wanted r)) (steps r) n.
Proof.
  destruct r as [target m|src m|a|a|ip port|ip port|a m nodelay]; unfold make.
  - eapply made_eq; [eapply made_ends; calls|apply domain_unspecified|done].
  - unfold create_fake_udp_socket. erewrite bind_ext; [|eapply (made_ends (domain_for src) DGRAM); calls].
    eapply made_eq; [eapply made_more; calls|done|]. unfold steps, wanted, only_v6_opt. cbn. by destruct (is_ipv4 src) eqn:E; cbn; rewrite ?E.
  - eapply made_eq; [eapply made_ends; calls|done..].
  - eapply made_eq; [eapply made_ends; calls|done..].
  - eapply made_eq; [eapply made_ends; calls|done|]. unfold steps, wanted, only_v6_opt. cbn. by destruct (is_ipv4 _) eqn:E; cbn; rewrite ?E.
  - eapply made_eq; [eapply made_ends; calls|done|]. unfold steps, wanted, only_v6_opt. cbn. by destruct (is_ipv4 _) eqn:E; cbn; rewrite ?E.
  - eapply made_eq; [eapply made_ends; intros s; eapply ends_bind; [auto with calls|]; eapply ends_bind; [apply (runs_if s nodelay); auto with calls|]; revert s; calls|done|].
    by destruct nodelay.
Qed.
(** ** What the steps do *)

(** The calls of a run on a socket [k]: up to a refusal ([None]), or all of
    them, with the socket they leave. *)
Inductive follows : Socket -> list Step -> list (Call * Socket * Reply) -> option Socket -> Prop :=
  | follows_end k : follows k [] [] (Some k)
  | follows_stop k st sts r : accepts st r = false -> follows k (st :: sts) [(step_call st, k, r)] None
  | follows_on k st sts r l o :
      accepts st r = true -> follows (effect (step_call st) k) sts l o -> follows k (st :: sts) ((step_call st, k, r) :: l) o.

Lemma run_step_spec s st n k : sockets n !! s = Some k ->
  exists r k', let res := run_step s st n in
    res.1 = (if accepts st r then Ok tt else match r with Fails e | Pending e => Err e | Done => Ok tt end) /\
    res.2 = net_calls n (step_call st) k r (<[s := k']> (sockets n)) (next n) /\ (accepts st r = true -> k' = effect (step_call st) k).
Proof.
  intros Hk. unfold run_step, bind, call. rewrite Hk. set (r := kernel n s (step_call st)). exists r. eexists. cbn. split; [|split; [done|]].
  - destruct r as [| |]; try done. by destruct st.
  - destruct st as [c|a|], r as [|e|e]; cbn; try done. by destruct (e =? EINPROGRESS).
Qed.
Lemma accepts_done st r : accepts st r = false -> exists e, r = Fails e \/ r = Pending e.
Proof. destruct r; eauto. by destruct st. Qed.

Lemma run_steps_spec s sts : forall n k, sockets n !! s = Some k ->
  exists l o k', follows k sts l o /\ (o = Some k' \/ o = None) /\ let (res, n') := run_steps s sts n in
    sockets n' = <[s := k']> (sockets n) /\ next n' = next n /\ calls n' = calls n ++ l /\
    match o with Some _ => res = Ok tt | None => exists e, res = Err e end.
Proof.
  induction sts as [|st sts IH]; intros n k Hk; cbn.
  - exists [], (Some k), k. split; [constructor|]. split; [by left|]. by rewrite insert_id, app_nil_r.
  - destruct (run_step_spec s st n k Hk) as (r & k1 & E1 & E2 & E3). unfold bind.
    destruct (run_step s st n) as [res n1] eqn:E. cbn in E1, E2. destruct (accepts st r) eqn:Ea.
    + subst res. specialize (E3 eq_refl). subst k1.
      destruct (IH n1 (effect (step_call st) k)) as (l & o & k' & Hf & Ho & Hres); [by rewrite E2; apply lookup_insert_eq|].
      exists ((step_call st, k, r) :: l), o, k'. split; [by constructor|]. split; [done|]. destruct (run_steps s sts n1) as [res n']. rewrite E2 in Hres. cbn in Hres.
      by rewrite insert_insert_eq, <- app_assoc in Hres.
    + exists [(step_call st, k, r)], None, k1. split; [by constructor|]. split; [by right|].
      destruct (accepts_done st r Ea) as [e He]. assert (res = Err e) as -> by (by destruct He; subst). rewrite E2. cbn. eauto.
Qed.

(** Nothing is open from the next descriptor on. *)
Definition fresh (n : Net) : Prop := forall s, (next n <= s)%nat -> sockets n !! s = None.

(** A reply that the program takes for a failure: only a connect of a stream
    may be under way. *)
Definition refused (e : Call * Socket * Reply) : bool :=
  match e with
  | (Connect _, k, Fails e) => match type_ k with STREAM => negb (e =? EINPROGRESS) | DGRAM => true end
  | (_, _, Fails _) | (TakeError, _, Pending _) => true
  | _ => false
  end.
(** A call by which others can notice the socket. *)
Definition on_network (c : Call) : bool := match c with Bind _ | Connect _ | Listen _ => true | _ => false end.

Definition fits (t : Type_) (st : Step) : Prop :=
  match st with Must (Connect _) => t = DGRAM | TryConnect _ => t = STREAM | Must TakeError => False | _ => True end.
Lemma refused_accepts k st r : fits (type_ k) st -> refused (step_call st, k, r) = negb (accepts st r).
Proof. destruct st as [[]|a|], r; cbn; try done; by intros ->. Qed.
Lemma effect_type c k : type_ (effect c k) = type_ k.
Proof. by destruct c. Qed.
Lemma follows_refused k sts l o : follows k sts l o -> Forall (fits (type_ k)) sts ->
  match o with
  | Some k' => k' = foldl (fun k st => effect (step_call st) k) k sts /\ Forall (fun e => refused e = false) l
  | None => exists l0 e, l = l0 ++ [e] /\ Forall (fun e => refused e = false) l0 /\ refused e = true
  end.
Proof.
  induction 1 as [k|k st sts r Ha|k st sts r l o Ha Hf IH]; intros Hfit.
  - by split.
  - apply Forall_cons in Hfit as [Hst _]. exists [], (step_call st, k, r). split_and!; [done|constructor|]. by rewrite refused_accepts, Ha.
  - apply Forall_cons in Hfit as [Hst Hfit]. rewrite <- (effect_type (step_call st)) in Hfit. specialize (IH Hfit).
    assert (refused (step_call st, k, r) = false) as Hr by (by rewrite refused_accepts, Ha). destruct o as [k'|].
    + destruct IH as [-> IH]. split; [done|by constructor].
    + destruct IH as (l0 & e & -> & Hl0 & He). exists ((step_call st, k, r) :: l0), e. split_and!; [done|by constructor|done].
Qed.

Fixpoint guarded (opts : list SockOpt) (k : Socket) (sts : list Step) : Prop :=
  match sts with
  | [] => True
  | st :: sts => (on_network (step_call st) = true -> options k = opts) /\ guarded opts (effect (step_call st) k) sts
  end.
Lemma follows_guarded opts k sts l o : follows k sts l o -> guarded opts k sts ->
  Forall (fun e => on_network e.1.1 = true -> options e.1.2 = opts) l.
Proof. induction 1; cbn; intros Hg; constructor; cbn; try tauto. constructor. Qed.

Lemma steps_fit r : Forall (fits (type_ (wanted r))) (steps r).
Proof.
  destruct r as [target m|src m|a|a|ip port|ip port|a m []]; unfold steps, wanted, only_v6_opt; cbn; try destruct (is_ipv4 _) eqn:?; cbn; repeat constructor.
Qed.
Lemma steps_guarded r : guarded (options (wanted r)) (new_socket (domain (wanted r)) (type_ (wanted r))) (steps r).
Proof.
  destruct r as [target m|src m|a|a|ip port|ip port|a m []]; unfold steps, wanted, only_v6_opt; cbn; try destruct (is_ipv4 _) eqn:?; cbn; repeat split; done.
Qed.
Lemma steps_wanted r : foldl (fun k st => effect (step_call st) k) (new_socket (domain (wanted r)) (type_ (wanted r))) (steps r) = wanted r.
Proof.
  destruct r as [target m|src m|a|a|ip port|ip port|a m []]; unfold steps, wanted, only_v6_opt; cbn; try destruct (is_ipv4 _) eqn:?; done.
Qed.

(** What a constructor does to the network. *)
Definition outcome (k : Socket) (n : Net) (res : res Z nat * Net) (l : list (Call * Socket * Reply)) : Prop :=
  calls res.2 = calls n ++ l /\ fresh res.2 /\ (next n <= next res.2)%nat /\
  Forall (fun e => on_network e.1.1 = true -> options e.1.2 = options k) l /\
  match res.1 with
  | Ok s => s = next n /\ sockets res.2 = <[s := k]> (sockets n) /\ Forall (fun e => refused e = false) l
  | Err _ => sockets res.2 = sockets n /\ exists l0 e, l = l0 ++ [e] /\ Forall (fun e => refused e = false) l0 /\ refused e = true
  | Panic | Diverge => False
  end.

Lemma fresh_insert n k m : fresh n -> sockets m = <[next n := k]> (sockets n) -> next m = S (next n) -> fresh m.
Proof. intros Hf Es En s. rewrite En, Es. intros Hs. rewrite lookup_insert_ne by lia. apply Hf. lia. Qed.

Lemma make_outcome r n : fresh n -> exists l, outcome (wanted r) n (make r n) l.
Proof.
  intros Hf. rewrite make_steps. unfold made, bind, create. set (k0 := new_socket _ _). set (c0 := NewSocket _ _).
  set (r0 := kernel n (next n) c0). destruct (match r0 with Fails e => inl e | _ => inr tt end) as [e|[]] eqn:E0.
  - assert (r0 = Fails e) as -> by (destruct r0; congruence). exists [(c0, k0, Fails e)]. split_and!; try done; cbn; [by repeat constructor|]. split; [done|].
    by exists [], (c0, k0, Fails e).
  - set (n1 := net_calls n c0 k0 r0 (<[next n := k0]> (sockets n)) (S (next n))).
    assert (match r0 with Fails e => (Err e, net_calls n c0 k0 r0 (sockets n) (next n)) | _ => (Ok (next n), n1) end = (Ok (next n), n1)) as -> by (by destruct r0).
    destruct (run_steps_spec (next n) (steps r) n1 k0) as (l & o & k' & Hfol & Ho & Hres); [apply lookup_insert_eq|].
    pose proof (follows_refused _ _ _ _ Hfol (steps_fit r)) as Href. pose proof (follows_guarded _ _ _ _ _ Hfol (steps_guarded r)) as Hg.
    assert (refused (c0, k0, r0) = false) as Hr0 by (by destruct r0).
    exists ((c0, k0, r0) :: l). unfold dropping. destruct (run_steps (next n) (steps r) n1) as [res n2]. destruct Hres as (Es & En & Ec & Hres).
    cbn in Es, En, Ec. rewrite insert_insert_eq in Es. destruct o as [k2|].
    + subst res. destruct Href as [Ek Hnone]. pose proof (steps_wanted r) as Ew. fold k0 in Ew. rewrite Ew in Ek. subst k2. destruct Ho as [[= <-]|]; [|done]. cbn.
      split; [by cbn; rewrite Ec, <- app_assoc|]. split; [by eapply fresh_insert|]. split; [cbn; lia|]. split; [by constructor|]. cbn. split_and!; [done|done|by constructor].
    + destruct Hres as [e ->]. destruct Href as (l0 & e' & -> & Hl0 & He').
      assert (delete (next n) (sockets n2) = sockets n) as Ed by (rewrite Es, delete_insert_eq; by apply delete_id, Hf).
      split; [by cbn; rewrite Ec, <- app_assoc|]. split; [|split; [cbn; lia|split; [by constructor|split; [by cbn; rewrite Ed|]]]].
      * intros s Hs. cbn in *. rewrite Ed. apply Hf. lia.
      * exists ((c0, k0, r0) :: l0), e'. split_and!; [done|by constructor|done].
Qed.
(** ** Several sockets *)

(** A computation that hands over the sockets [l] with its result, or leaves
    none behind. *)
Definition opened (n n' : Net) (l : list (nat * Socket)) : Prop :=
  NoDup (map fst l) /\ Forall (fun e => next n <= e.1 < next n')%nat l /\ sockets n' = list_to_map l ∪ sockets n.
Definition acquires {A} (m : sys A) (R : A -> list (nat * Socket) -> Prop) : Prop := forall n, fresh n ->
  fresh (m n).2 /\ (next n <= next (m n).2)%nat /\
  match (m n).1 with
  | Ok a => exists l, R a l /\ opened n (m n).2 l
  | Err _ => sockets (m n).2 = sockets n
  | Panic | Diverge => False
  end.

Lemma acquires_make r : acquires (make r) (fun s l => l = [(s, wanted r)]).
Proof.
  intros n Hf. destruct (make_outcome r n Hf) as (l & Ec & Hfresh & Hn & _ & H). split; [done|]. split; [done|].
  destruct (make r n) as [[s|e| |] n'] eqn:E; cbn in *; try done; [|tauto].
  destruct H as (-> & Es & _). exists [(next n, wanted r)]. split; [done|]. split_and!; [apply NoDup_singleton| |].
  - constructor; [|constructor]. cbn. split; [lia|]. destruct (decide (next n < next n')%nat); [done|].
    exfalso. specialize (Hfresh (next n) ltac:(cbn; lia)). cbn in Hfresh. by rewrite Es, lookup_insert_eq in Hfresh.
  - rewrite Es, insert_union_singleton_l. done.
Qed.
Lemma acquires_ret {A} (a : A) R : R a [] -> acquires (ret a) R.
Proof.
  intros Hr n Hf. cbn. split; [done|]. split; [lia|]. exists []. split; [done|]. split_and!; [constructor|constructor|]. cbn. by rewrite (left_id_L ∅ (∪)).
Qed.
Lemma acquires_raise {A} e (R : A -> list (nat * Socket) -> Prop) : acquires (raise e) R.
Proof. intros n Hf. by split_and!. Qed.

Lemma foldr_dropping {A} (l : list nat) (m : sys A) n :
  foldr dropping m l n = match m n with (Err e, n') => (Err e, with_sockets n' (foldr delete (sockets n') l)) | r => r end.
Proof.
  induction l as [|s l IH]; cbn; [by destruct (m n) as [[]  []]|]. unfold dropping at 1. rewrite IH. by destruct (m n) as [[] n'].
Qed.
Lemma foldr_delete_lookup (m : gmap nat Socket) l i : foldr delete m l !! i = if decide (i ∈ l) then None else m !! i.
Proof.
  induction l as [|s l IH]; cbn; [done|]. rewrite lookup_delete, IH. repeat case_decide; set_solver.
Qed.

Lemma opened_new n n' l i : fresh n -> opened n n' l -> i ∈ map fst l -> sockets n !! i = None /\ (next n <= i < next n')%nat.
Proof.
  intros Hn (_ & Hin & _) ([j k] & -> & Hj)%list_elem_of_fmap. rewrite Forall_forall in Hin. specialize (Hin _ Hj). cbn in *. split; [apply Hn|]; lia.
Qed.
Lemma opened_app n n1 n2 l l' :
  fresh n -> fresh n1 -> (next n <= next n1 <= next n2)%nat -> opened n n1 l -> opened n1 n2 l' -> opened n n2 (l ++ l').
Proof.
  intros Hn Hn1 Hle H H'. pose proof (fun i => opened_new n n1 l i Hn H) as Hnew. pose proof (fun i => opened_new n1 n2 l' i Hn1 H') as Hnew'.
  destruct H as (Hnd & Hin & Es), H' as (Hnd' & Hin' & Es'). split_and!.
  - rewrite map_app. apply NoDup_app. split_and!; [done| |done]. intros i Hi%Hnew Hi'%Hnew'. lia.
  - apply Forall_app. split; (eapply Forall_impl; [eassumption|]); cbn; intros e He; lia.
  - rewrite Es', Es, list_to_map_app, (assoc_L (∪)). f_equal. apply map_union_comm. apply map_disjoint_spec. intros i k k'.
    intros Hi%elem_of_list_to_map_2 Hj%elem_of_list_to_map_2.
    pose proof (Hnew' i (list_elem_of_fmap_2 fst _ _ Hi)). pose proof (Hnew i (list_elem_of_fmap_2 fst _ _ Hj)). lia.
Qed.
(** What has been acquired is kept while more is, and dropped with it. *)
Lemma acquires_more {A B} (m : sys A) (f : A -> sys B) (ss : A -> list nat) R R' R'' :
  acquires m R -> (forall a, acquires (f a) (R' a)) -> (forall a l, R a l -> ss a = map fst l) ->
  (forall a b l l', R a l -> R' a b l' -> R'' b (l ++ l')) ->
  acquires (sys! a := m in foldr dropping (f a) (ss a)) R''.
Proof.
  intros Hm Hf Hss Hr n Hn. destruct (Hm n Hn) as (H1 & Hle & H2). unfold bind. destruct (m n) as [[a|e| |] n1]; cbn in *; try done.
  destruct H2 as (l & Hl & Ho). destruct (Hf a n1 H1) as (H3 & Hle' & H4). rewrite foldr_dropping.
  destruct (f a n1) as [[b|e| |] n2]; cbn in *; try done.
  - split; [done|]. split; [lia|]. destruct H4 as (l' & Hl' & Ho'). exists (l ++ l'). split; [by eapply Hr|]. apply (opened_app n n1); [done|done|lia|done|done].
  - assert (foldr delete (sockets n2) (ss a) = sockets n) as Ed.
    { apply map_eq. intros i. rewrite foldr_delete_lookup, H4, (Hss a l Hl). pose proof Ho as (_ & _ & ->). case_decide as Hi.
      - symmetry. by eapply opened_new.
      - rewrite lookup_union_r; [done|]. by apply not_elem_of_list_to_map_1. }
    split_and!; [|lia|done]. intros i Hi. cbn in *. rewrite Ed. apply Hn. lia.
Qed.
Lemma acquires_map {A B} (m : sys A) (g : A -> B) R R' :
  acquires m R -> (forall a l, R a l -> R' (g a) l) -> acquires (sys! a := m in ret (g a)) R'.
Proof.
  intros Hm Hr n Hn. destruct (Hm n Hn) as (H1 & Hle & H2). unfold bind. destruct (m n) as [[a|e| |] n1]; cbn in *; try done.
  split; [done|]. split; [done|]. destruct H2 as (l & Hl & Ho). exists l. eauto.
Qed.
Lemma acquires_weaken {A} (m : sys A) (R R' : A -> list (nat * Socket) -> Prop) : acquires m R -> (forall a l, R a l -> R' a l) -> acquires m R'.
Proof.
  intros Hm Hr n Hn. destruct (Hm n Hn) as (H1 & Hle & H2). split; [done|]. split; [done|].
  destruct (m n).1; try done. destruct H2 as (l & Hl & Ho). eauto.
Qed.
(** Two sockets, the first of which is dropped when the second fails. *)
Lemma acquires_two {B} r1 r2 (g : nat -> nat -> B) R :
  (forall s1 s2, R (g s1 s2) [(s1, wanted r1); (s2, wanted r2)]) ->
  acquires (sys! s1 := make r1 in dropping s1 (sys! s2 := make r2 in ret (g s1 s2))) R.
Proof.
  intros Hr. apply (acquires_more _ _ (fun s => [s]) (fun s l => l = [(s, wanted r1)]) (fun s1 b l => exists s2, b = g s1 s2 /\ l = [(s2, wanted r2)])).
  - apply acquires_make.
  - intros s1. eapply acquires_map; [apply acquires_make|]. intros s2 l ->. eauto.
  - by intros s l ->.
  - intros s1 b l l' -> (s2 & -> & ->). apply Hr.
Qed.

(** The sockets of a listen address: both families for the unspecified IPv6
    address, that of the address otherwise. *)
Definition families (want : IpAddr -> Socket) (ip : IpAddr) (r : option nat * option nat) (l : list (nat * Socket)) : Prop :=
  match ip, r with
  | V4 _, (Some s, None) => l = [(s, want ip)]
  | V6 z, (None, Some s) => z <> 0 /\ l = [(s, want ip)]
  | V6 z, (Some s4, Some s6) => z = 0 /\ l = [(s4, want (V4 0)); (s6, want (V6 0))]
  | _, _ => False
  end.
Lemma acquires_families (req : IpAddr -> Request) one ip port :
  (forall ip, one ip port = make (req ip)) -> acquires (for_families one ip port) (families (fun ip => wanted (req ip)) ip).
Proof.
  intros Hone. unfold for_families. destruct ip as [z|z]; [|destruct (Z.eqb_spec z 0) as [->|Hz]]; rewrite ?Hone.
  - eapply acquires_map; [apply acquires_make|]. by intros s l ->.
  - by apply acquires_two.
  - eapply acquires_map; [apply acquires_make|]. by intros s l ->.
Qed.

(** The sockets of [spawn_listener_tasks]: a failure leaves none of them, or
    those of TCP when it is the sockets of UDP that are refused. *)
Definition listener_outcome (udp : bool) (ip : IpAddr) (port : Z) (n : Net) : Prop :=
  let tcp := families (fun ip => wanted (TproxyTcp ip port)) ip in
  let n' := (spawn_listener_sockets kernel udp ip port n).2 in
  match (spawn_listener_sockets kernel udp ip port n).1 with
  | Ok (t, Some u) => udp = true /\ exists l l', tcp t l /\ families (fun ip => wanted (TproxyUdp ip port)) ip u l' /\ opened n n' (l ++ l')
  | Ok (t, None) => udp = false /\ exists l, tcp t l /\ opened n n' l
  | Err e => (create_tproxy_tcp_listeners kernel ip port n).1 = Err e /\ sockets n' = sockets n \/
      udp = true /\ exists t l, (create_tproxy_tcp_listeners kernel ip port n).1 = Ok t /\ tcp t l /\ opened n n' l
  | Panic | Diverge => False
  end.
Lemma spawn_listener_sockets_ok udp ip port n : fresh n -> listener_outcome udp ip port n.
Proof.
  intros Hn. unfold listener_outcome, spawn_listener_sockets, bind.
  destruct (acquires_families (fun ip => TproxyTcp ip port) (tproxy_tcp_listener_for_ip kernel) ip port (fun _ => eq_refl) n Hn) as (H1 & Hle & H2).
  unfold create_tproxy_tcp_listeners. destruct (for_families _ ip port n) as [[t|e| |] n1]; cbn in *; [|by left|done..].
  destruct H2 as (l & Hl & Ho). destruct udp; cbn; [|by eauto].
  destruct (acquires_families (fun ip => TproxyUdp ip port) (tproxy_udp_socket_for_ip kernel) ip port (fun _ => eq_refl) n1 H1) as (H3 & Hle' & H4).
  unfold create_tproxy_udp_sockets. destruct (for_families _ ip port n1) as [[u|e| |] n2]; cbn in *; try done.
  - destruct H4 as (l' & Hl' & Ho'). split; [done|]. exists l, l'. split_and!; [done..|]. apply (opened_app n n1); [done|done|lia|done|done].
  - right. split; [done|]. exists t, l. split_and!; [done..|]. destruct Ho as (Hnd & Hin & Es). split_and!; [done| |by rewrite H4].
    eapply Forall_impl; [exact Hin|]. cbn. intros x Hx. lia.
Qed.

Lemma udp_refused udp ip port n e :
  listener_outcome udp ip port n -> (spawn_listener_sockets kernel udp ip port n).1 = Err e ->
  (create_tproxy_tcp_listeners kernel ip port n).1 <> Err e -> exists l, opened n (spawn_listener_sockets kernel udp ip port n).2 l.
Proof.
  unfold listener_outcome. cbv zeta. intros H E He. rewrite E in H. destruct H as [[? _]|(_ & t & l & _ & _ & H)]; [done|by exists l].
Qed.

Section Forwards.
Context (parse_addr : bytes -> option SocketAddr).
Definition forward_sockets (pf : PortForward.PortForward) (p : Prepared) (l : list (nat * Socket)) : Prop :=
  exists bind remote, parse_addr (PortForward.bind pf) = Some bind /\ parse_addr (PortForward.remote pf) = Some remote /\
  match PortForward.network pf with
  | PortForwardProto.Tcp => exists s, p = PreparedTcp s remote /\ l = [(s, wanted (ForwardTcp bind))]
  | PortForwardProto.Udp => exists s, p = PreparedUdp s bind remote /\ l = [(s, wanted (ForwardUdp bind))]
  | PortForwardProto.Both => exists t u, p = PreparedBoth t u bind remote /\ l = [(t, wanted (ForwardTcp bind)); (u, wanted (ForwardUdp bind))]
  end.
Fixpoint forwards_sockets (pfs : list PortForward.PortForward) (ps : list Prepared) (l : list (nat * Socket)) : Prop :=
  match pfs, ps with
  | [], [] => l = []
  | pf :: pfs, p :: ps => exists l1 l2, l = l1 ++ l2 /\ forward_sockets pf p l1 /\ forwards_sockets pfs ps l2
  | _, _ => False
  end.

Lemma acquires_forward pf : acquires (prepare_forward kernel parse_addr pf) (forward_sockets pf).
Proof.
  assert (forall (b r : SocketAddr), parse_addr (PortForward.bind pf) = Some b -> parse_addr (PortForward.remote pf) = Some r ->
    acquires (match PortForward.network pf with
      | PortForwardProto.Tcp => sys! s := make (ForwardTcp b) in ret (PreparedTcp s r)
      | PortForwardProto.Udp => sys! s := make (ForwardUdp b) in ret (PreparedUdp s b r)
      | PortForwardProto.Both => sys! t := make (ForwardTcp b) in dropping t (sys! u := make (ForwardUdp b) in ret (PreparedBoth t u b r))
      end) (forward_sockets pf)) as H.
  { intros b r Hb Hr. unfold forward_sockets. destruct (PortForward.network pf).
    - eapply acquires_map; [apply acquires_make|]. intros s l ->. exists b, r. split; [done|]. split; [done|]. eauto.
    - eapply acquires_map; [apply acquires_make|]. intros s l ->. exists b, r. split; [done|]. split; [done|]. eauto.
    - apply acquires_two. intros t u. exists b, r. split; [done|]. split; [done|]. eauto. }
  unfold prepare_forward, parse_or. destruct (parse_addr (PortForward.bind pf)) as [b|] eqn:Eb; [|apply (acquires_raise 0)].
  destruct (parse_addr (PortForward.remote pf)) as [r|] eqn:Er; [|apply (acquires_raise 0)]. exact (H b r eq_refl eq_refl).
Qed.
Lemma forward_prepared pf p l : forward_sockets pf p l -> prepared_sockets p = map fst l.
Proof.
  intros (b & r & _ & _ & H). destruct (PortForward.network pf); [..|destruct H as (t & u & -> & ->); done]; destruct H as (s & -> & ->); done.
Qed.
Lemma acquires_forwards pfs : acquires (prepare_forwards kernel parse_addr pfs) (forwards_sockets pfs).
Proof.
  induction pfs as [|pf pfs IH]; cbn; [by apply acquires_ret|].
  eapply (acquires_more _ _ prepared_sockets (forward_sockets pf) (fun p b l => exists ps, b = p :: ps /\ forwards_sockets pfs ps l)).
  - apply acquires_forward.
  - intros p. eapply acquires_map; [exact IH|]. eauto.
  - apply forward_prepared.
  - intros p b l l' Hp (ps & -> & Hps). cbn. eauto.
Qed.
End Forwards.
End Spec.

(** * Theorems *)

(** C32: whatever the kernel answers, a socket of the program is made exactly as
    wanted or not at all: on success it is open with the wanted options,
    addresses and backlog, and no refused call was passed over; on failure the
    last call was refused and nothing stays open; and at every call by which
    others can notice the socket (bind, connect, listen) all of its options, its
    mark among them, are already in place. *)
Theorem socket_made_exact kernel r n :
  fresh n ->
  exists l, calls (make kernel r n).2 = calls n ++ l /\
    Forall (fun e => on_network e.1.1 = true -> options e.1.2 = options (wanted r)) l /\
    match (make kernel r n).1 with
    | Ok s => sockets n !! s = None /\ sockets (make kernel r n).2 = <[s := wanted r]> (sockets n) /\ Forall (fun e => refused e = false) l
    | Err _ => sockets (make kernel r n).2 = sockets n /\ exists l0 e, l = l0 ++ [e] /\ Forall (fun e => refused e = false) l0 /\ refused e = true
    | Panic | Diverge => False
    end.
Proof.
  intros Hf. destruct (make_outcome kernel r n Hf) as (l & Hc & _ & _ & Ho & H). exists l. split; [done|]. split; [done|].
  destruct (make kernel r n).1; try done. destruct H as (-> & H). split; [by apply Hf|done].
Qed.

(** C33: the TCP listeners of the listen address, its UDP sockets and the sockets
    of the port forwards are each opened all or none: on success exactly those
    that the address or the list asks for, as wanted and apart from all others;
    after a failure none of that group. The groups are not one: when a listen
    address has its TCP listeners and is then refused its UDP sockets, the
    listeners stay open, with the tasks that were given them, and nothing else
    does. *)
Theorem listen_sockets_exact kernel parse_addr ip port pfs :
  acquires (create_tproxy_tcp_listeners kernel ip port) (families (fun ip => wanted (TproxyTcp ip port)) ip) /\
  acquires (create_tproxy_udp_sockets kernel ip port) (families (fun ip => wanted (TproxyUdp ip port)) ip) /\
  (forall udp n, fresh n -> listener_outcome kernel udp ip port n) /\
  acquires (prepare_forwards kernel parse_addr pfs) (forwards_sockets parse_addr pfs).
Proof.
  split_and!.
  - by apply (acquires_families kernel (fun ip => TproxyTcp ip port)).
  - by apply (acquires_families kernel (fun ip => TproxyUdp ip port)).
  - intros udp n. apply spawn_listener_sockets_ok.
  - apply acquires_forwards.
Qed.

(** ** Witnesses *)

Definition example_net : Net := {| sockets := ∅; next := 3; calls := [] |}.
Definition obliging (_ : Net) (_ : nat) (_ : Call) : Reply := Done.
(** A host without IPv6. *)
Definition no_ipv6 (_ : Net) (_ : nat) (c : Call) : Reply :=
  match c with Bind {| sa_ip := V6 _ |} => Fails 99 | Connect _ => Fails EINPROGRESS | _ => Done end.
Definition example_addr : SocketAddr := {| sa_ip := V4 1; sa_port := 443 |}.

Lemma socket_made_exact_witness :
  (make no_ipv6 (ConnectTcp example_addr 255 true) example_net).1 = Ok 3%nat /\
  (make no_ipv6 (TproxyTcp (V6 0) 80) example_net).1 = Err 99 /\
  sockets (make no_ipv6 (TproxyTcp (V6 0) 80) example_net).2 = ∅ /\
  exists l, calls (make no_ipv6 (ConnectTcp example_addr 255 true) example_net).2 = l /\
    Forall (fun e => on_network e.1.1 = true -> options e.1.2 = [Mark 255; NoDelay; NonBlocking]) l.
Proof.
  split; [reflexivity|]. split; [reflexivity|]. split; [reflexivity|].
  destruct (socket_made_exact no_ipv6 (ConnectTcp example_addr 255 true) example_net) as (l & Hc & Ho & _); [done|].
  exists l. split; [exact Hc|exact Ho].
Defined.

(** A host that has no datagram sockets left. *)
Definition no_udp (_ : Net) (_ : nat) (c : Call) : Reply := match c with NewSocket _ DGRAM => Fails 24 | _ => Done end.

Lemma listen_sockets_exact_witness :
  (create_tproxy_tcp_listeners obliging (V6 0) 80 example_net).1 = Ok (Some 3%nat, Some 4%nat) /\
  (create_tproxy_tcp_listeners no_ipv6 (V6 0) 80 example_net).1 = Err 99 /\
  sockets (create_tproxy_tcp_listeners no_ipv6 (V6 0) 80 example_net).2 = ∅ /\
  (spawn_listener_sockets no_udp true (V6 0) 80 example_net).1 = Err 24 /\
  exists l, opened example_net (spawn_listener_sockets no_udp true (V6 0) 80 example_net).2 l.
Proof.
  split; [reflexivity|]. split; [reflexivity|]. split; [|split; [reflexivity|]].
  - exact (proj2 (proj2 (proj1 (listen_sockets_exact no_ipv6 (fun _ => None) (V6 0) 80 []) example_net ltac:(done)))).
  - pose proof (proj1 (proj2 (proj2 (listen_sockets_exact no_udp (fun _ => None) (V6 0) 80 []))) true example_net ltac:(done)) as H.
    apply (udp_refused _ _ _ _ _ 24 H); [reflexivity|]. vm_compute. discriminate.
Defined.
