(* ===== verification/Listen.v ===== *)
(** What the listening loops take in: the receipt of a transparent UDP packet
    ([src/src/udp/tproxy.rs], with the address conversions of
    [src/src/util.rs]), the receive loops of [src/src/udp/mod.rs] and the accept
    loops of [src/src/tcp.rs].

    A loop is run on what the kernel answers, poll after poll, up to the poll
    at which it is cancelled; what it does with a packet or a connection, and
    the reaping of the pending table before a packet is looked at, are the
    matter of [UdpTasks] and [Tcp]. *)

From Stdlib Require Import Strings.Byte Strings.String.
From S2P Require Import Prelude Bytes Config Udp SocketCalls.
#[local] Open Scope Z_scope.

(** * Addresses in network order *)

(** An integer read from memory by a machine of either endianness, and
    [from_be], which swaps its bytes on a little-endian one. *)
Fixpoint le_bytes (n : nat) (z : Z) : bytes := match n with O => [] | S n => byte_of_Z z :: le_bytes n (z / 256) end.
Definition be_value (l : bytes) : Z := foldl (fun v b => 256 * v + u8 b) 0 l.
Definition load (big_endian : bool) (l : bytes) : Z := if big_endian then be_value l else be_value (rev l).
Definition swap_bytes (n : nat) (z : Z) : Z := be_value (le_bytes n z).
Definition from_be (big_endian : bool) (n : nat) (z : Z) : Z := if big_endian then z else swap_bytes n z.

(** [libc::sockaddr_in] and [sockaddr_in6] as they lie in memory. *)
Record sockaddr_in := { sin_port : bytes; sin_addr : bytes }.
Record sockaddr_in6 := { sin6_port : bytes; sin6_addr : bytes }.
Inductive SockaddrStorage := StorageV4 (a : sockaddr_in) | StorageV6 (a : sockaddr_in6) | StorageOther.

Section Receive.
Context (big_endian : bool).

Definition sockaddr_in_to_std (a : sockaddr_in) : SocketAddr :=
  {| sa_ip := V4 (from_be big_endian 4 (load big_endian (sin_addr a))); sa_port := from_be big_endian 2 (load big_endian (sin_port a)) |}.
(** The address of IPv6 is an array of bytes, in network order. *)
Definition sockaddr_in6_to_std (a : sockaddr_in6) : SocketAddr :=
  {| sa_ip := V6 (be_value (sin6_addr a)); sa_port := from_be big_endian 2 (load big_endian (sin6_port a)) |}.
(** The conversions of [nix] are those of the two functions above. *)
Definition sockaddr_storage_to_std (a : SockaddrStorage) : option SocketAddr :=
  match a with
  | StorageV4 a => Some (sockaddr_in_to_std a)
  | StorageV6 a => Some (sockaddr_in6_to_std a)
  | StorageOther => None
  end.

(** * [TProxyUdpSocket] *)

Inductive ControlMessage := Ipv4OrigDstAddr (a : sockaddr_in) | Ipv6OrigDstAddr (a : sockaddr_in6) | OtherControl.
(** A message of [recvmsg]; [data] is what it left in the buffer. *)
Record Message := { data : bytes; address : option SockaddrStorage; ctrunc : bool; cmsgs : res Z (list ControlMessage) }.
Inductive RecvError := OsError (errno : Z) | InvalidData.
Record TProxyUdpPacketMeta := { payload : bytes; client_addr : SocketAddr; orig_dst : SocketAddr }.

Fixpoint find_orig_dst (l : list ControlMessage) : option SocketAddr :=
  match l with
  | [] => None
  | Ipv4OrigDstAddr a :: _ => Some (sockaddr_in_to_std a)
  | Ipv6OrigDstAddr a :: _ => Some (sockaddr_in6_to_std a)
  | OtherControl :: l => find_orig_dst l
  end.

Definition os {A} (r : res Z A) : res RecvError A := res_map_err OsError r.
Definition recv_udp_tproxy_packet_raw (msg : res Z Message) : res RecvError (bytes * SocketAddr * option SocketAddr) :=
  let? msg := os msg in
  if ctrunc msg then Err InvalidData
  else
    let? client_addr := ok_or InvalidData (a ← address msg; sockaddr_storage_to_std a) in
    let? l := os (cmsgs msg) in
    Ok (data msg, client_addr, find_orig_dst l).

Definition packet (msg : res Z Message) : res RecvError TProxyUdpPacketMeta :=
  let? p := recv_udp_tproxy_packet_raw msg in
  let '(d, client, dst) := p in
  let? dst := ok_or InvalidData dst in
  Ok {| payload := d; client_addr := client; orig_dst := dst |}.

(** A poll: [readable] fails, or [recvmsg] is tried ([try_io] answers
    [EAGAIN] when the socket is not ready after all). *)
Inductive Poll := ReadableFails (errno : Z) | Received (msg : res Z Message).
Definition is_would_block (e : RecvError) : bool := match e with OsError e => e =? EAGAIN | InvalidData => false end.

(** [None] when the polls end before there is a result. *)
Fixpoint recv_packet (l : list Poll) : option (res RecvError TProxyUdpPacketMeta * list Poll) :=
  match l with
  | [] => None
  | ReadableFails e :: l => Some (Err (OsError e), l)
  | Received msg :: l =>
      match packet msg with
      | Err e => if is_would_block e then recv_packet l else Some (Err e, l)
      | r => Some (r, l)
      end
  end.

(** * The receive loops *)

(** The packets that [run_udp_loop] hands on, until the polls end; it goes on
    to the next poll after a datagram without a byte. *)
Fixpoint run_udp_loop (fuel : nat) (l : list Poll) : res RecvError (list (session_spec * bytes)) :=
  match fuel with
  | O => Diverge
  | S fuel =>
      match recv_packet l with
      | None => Ok []
      | Some (Ok p, l) =>
          if (length (payload p) =? 0)%nat then run_udp_loop fuel l
          else
            let? ps := run_udp_loop fuel l in
            Ok ((for_tproxy (client_addr p) (orig_dst p), payload p) :: ps)
      | Some (Err _, l) => run_udp_loop fuel l
      | Some (Panic, _) => Panic
      | Some (Diverge, _) => Diverge
      end
  end.

(** [run_udp_port_forward]: the polls of [recv_from]; the second component is
    the error with which it returns. *)
Fixpoint run_udp_port_forward (listen_addr remote : SocketAddr) (listen_sock : Z) (l : list (res Z (bytes * SocketAddr)))
    : list (session_spec * bytes) * option (res Z unit) :=
  match l with
  | [] => ([], None)
  | Ok (d, client) :: l =>
      let (ps, e) := run_udp_port_forward listen_addr remote listen_sock l in
      if (length d =? 0)%nat then (ps, e)
      else ((for_port_forward listen_addr client remote listen_sock, d) :: ps, e)
  | r :: _ => ([], Some (let? _ := r in Ok tt))
  end.

(** * The accept loops *)

(** A connection that a handler is spawned for, with whether [TCP_NODELAY] is
    asked for; its errors are dropped. *)
Record Accepted := { stream : nat; peer_addr : SocketAddr; nodelay : bool }.
Definition accepted (tcp_nodelay : bool) (c : nat * SocketAddr) : Accepted := {| stream := c.1; peer_addr := c.2; nodelay := tcp_nodelay |}.

Fixpoint tcp_accept_loop (tcp_nodelay : bool) (l : list (res Z (nat * SocketAddr))) : list Accepted :=
  match l with
  | [] => []
  | Ok c :: l => accepted tcp_nodelay c :: tcp_accept_loop tcp_nodelay l
  | _ :: l => tcp_accept_loop tcp_nodelay l
  end.
Fixpoint run_tcp_port_forward (tcp_nodelay : bool) (l : list (res Z (nat * SocketAddr))) : list Accepted * option (res Z unit) :=
  match l with
  | [] => ([], None)
  | Ok c :: l => let (cs, e) := run_tcp_port_forward tcp_nodelay l in (accepted tcp_nodelay c :: cs, e)
  | r :: _ => ([], Some (let? _ := r in Ok tt))
  end.
End Receive.

(** * Endianness *)

Lemma be_value_snoc l b : be_value (l ++ [b]) = 256 * be_value l + u8 b.
Proof. unfold be_value. by rewrite foldl_app. Qed.
Lemma le_bytes_value l : le_bytes (length l) (be_value (rev l)) = l.
Proof.
  induction l as [|b l IH]; [done|]. cbn [length rev le_bytes]. rewrite be_value_snoc. pose proof (u8_range b) as Hb. f_equal.
  - apply u8_inj. rewrite u8_of_Z. rewrite Z.mul_comm, Z.add_comm, Z_mod_plus_full. by apply Z.mod_small.
  - rewrite Z.mul_comm, Z.div_add_l by lia. rewrite (Z.div_small (u8 b)) by lia. by rewrite Z.add_0_r.
Qed.
Lemma from_be_load big n l : length l = n -> from_be big n (load big l) = be_value l.
Proof. intros <-. destruct big; [done|]. cbn. unfold swap_bytes. by rewrite le_bytes_value. Qed.

(** * What is a packet *)

Definition wf_in (a : sockaddr_in) : Prop := length (sin_port a) = 2%nat /\ length (sin_addr a) = 4%nat.
Definition wf_in6 (a : sockaddr_in6) : Prop := length (sin6_port a) = 2%nat /\ length (sin6_addr a) = 16%nat.
Definition wf_control (c : ControlMessage) : Prop := match c with Ipv4OrigDstAddr a => wf_in a | Ipv6OrigDstAddr a => wf_in6 a | OtherControl => True end.
(** The structures have their sizes. *)
Definition wf_message (m : Message) : Prop :=
  match address m with Some (StorageV4 a) => wf_in a | Some (StorageV6 a) => wf_in6 a | _ => True end /\
  match cmsgs m with Ok l => Forall wf_control l | Err _ => True | Panic | Diverge => False end.
Definition wf_poll (p : Poll) : Prop := match p with Received (Ok m) => wf_message m | Received (Panic | Diverge) => False | _ => True end.

Definition v4_addr (a : sockaddr_in) : SocketAddr := {| sa_ip := V4 (be_value (sin_addr a)); sa_port := be_value (sin_port a) |}.
Definition v6_addr (a : sockaddr_in6) : SocketAddr := {| sa_ip := V6 (be_value (sin6_addr a)); sa_port := be_value (sin6_port a) |}.
Definition control_addr (c : ControlMessage) : option SocketAddr :=
  match c with Ipv4OrigDstAddr a => Some (v4_addr a) | Ipv6OrigDstAddr a => Some (v6_addr a) | OtherControl => None end.
Definition peer (m : Message) : option SocketAddr :=
  match address m with Some (StorageV4 a) => Some (v4_addr a) | Some (StorageV6 a) => Some (v6_addr a) | _ => None end.

(** The datagram of a poll: a complete message from an internet address that
    says where it was sent to. *)
Definition datagram_of (p : Poll) : option (session_spec * bytes) :=
  match p with
  | Received (Ok m) =>
      match ctrunc m, peer m, cmsgs m with
      | false, Some client, Ok l => (fun dst => (for_tproxy client dst, data m)) <$> head (omap control_addr l)
      | _, _, _ => None
      end
  | _ => None
  end.

(** What has a byte to carry. *)
Definition nonempty {A} (p : A * bytes) : option (A * bytes) := match p.2 with [] => None | _ => Some p end.
(** The packet of a poll: its datagram, unless that is empty. *)
Definition packet_of (p : Poll) : option (session_spec * bytes) := p ← datagram_of p; nonempty p.
(** The packet of a receive of a port forward. *)
Definition forward_of (listen remote : SocketAddr) (sock : Z) (p : bytes * SocketAddr) : option (session_spec * bytes) :=
  nonempty (for_port_forward listen p.2 remote sock, p.1).

Section Exact.
Context (big_endian : bool).

Lemma sockaddr_in_ok a : wf_in a -> sockaddr_in_to_std big_endian a = v4_addr a.
Proof. intros [Hp Ha]. unfold sockaddr_in_to_std. by rewrite !from_be_load. Qed.
Lemma sockaddr_in6_ok a : wf_in6 a -> sockaddr_in6_to_std big_endian a = v6_addr a.
Proof. intros [Hp Ha]. unfold sockaddr_in6_to_std. by rewrite from_be_load. Qed.
Lemma find_orig_dst_ok l : Forall wf_control l -> find_orig_dst big_endian l = head (omap control_addr l).
Proof.
  induction 1 as [|c l Hc Hl IH]; [done|]. destruct c as [a|a|]; cbn; [by rewrite sockaddr_in_ok|by rewrite sockaddr_in6_ok|done].
Qed.
Lemma storage_ok m : wf_message m -> (a ← address m; sockaddr_storage_to_std big_endian a) = peer m.
Proof.
  intros [Ha _]. unfold peer. destruct (address m) as [[a|a|]|]; cbn in *; [by rewrite sockaddr_in_ok|by rewrite sockaddr_in6_ok|done|done].
Qed.

Lemma packet_ok msg : wf_poll (Received msg) ->
  match datagram_of (Received msg), packet big_endian msg with
  | Some (s, d), Ok p => s = for_tproxy (client_addr p) (orig_dst p) /\ d = payload p
  | None, Err _ => True
  | _, _ => False
  end.
Proof.
  unfold packet, recv_udp_tproxy_packet_raw. destruct msg as [m|e| |]; cbn; try done. intros Hm. destruct (ctrunc m); [done|].
  rewrite storage_ok by done. destruct (peer m) as [client|]; [|done]. cbn. destruct Hm as [_ Hl].
  destruct (cmsgs m) as [l|e| |]; try done. cbn. rewrite find_orig_dst_ok by done. by destruct (head _).
Qed.

Lemma recv_packet_ok l : Forall wf_poll l ->
  match recv_packet big_endian l with
  | None => omap datagram_of l = []
  | Some (Ok p, l') => omap datagram_of l = (for_tproxy (client_addr p) (orig_dst p), payload p) :: omap datagram_of l' /\ (length l' < length l)%nat /\ Forall wf_poll l'
  | Some (Err _, l') => omap datagram_of l = omap datagram_of l' /\ (length l' < length l)%nat /\ Forall wf_poll l'
  | Some _ => False
  end.
Proof.
  induction 1 as [|p l Hp Hl IH]; [done|]. destruct p as [e|msg]; [cbn; split_and!; [done|lia|done]|].
  pose proof (packet_ok msg Hp) as H. cbn [recv_packet]. change (omap datagram_of (Received msg :: l)) with
    (match datagram_of (Received msg) with Some x => x :: omap datagram_of l | None => omap datagram_of l end).
  destruct (datagram_of (Received msg)) as [[s d]|], (packet big_endian msg) as [p|e| |]; try done.
  - destruct H as [-> ->]. split_and!; [done|cbn; lia|done].
  - destruct (is_would_block e).
    + destruct (recv_packet big_endian l) as [[[p|e'| |] l']|]; try done; cbn; destruct IH as (-> & ? & ?); (split_and!; [done|lia|done]).
    + split_and!; [done|cbn; lia|done].
Qed.

Lemma omap_packets (l : list Poll) : omap packet_of l = omap nonempty (omap datagram_of l).
Proof. induction l as [|p l IH]; [done|]. cbn. unfold packet_of at 1. destruct (datagram_of p) as [d|]; cbn; [by rewrite IH|done]. Qed.
Lemma run_udp_loop_ok fuel l :
  Forall wf_poll l -> (length l < fuel)%nat -> run_udp_loop big_endian fuel l = Ok (omap nonempty (omap datagram_of l)).
Proof.
  revert l. induction fuel as [|fuel IH]; intros l Hl Hf; [lia|]. cbn. pose proof (recv_packet_ok l Hl) as H.
  destruct (recv_packet big_endian l) as [[[p|e| |] l']|]; try done.
  - destruct H as (-> & Hlen & Hl'). rewrite IH by (done || lia). cbn. by destruct (payload p).
  - destruct H as (-> & Hlen & Hl'). by rewrite IH by (done || lia).
  - by rewrite H.
Qed.
End Exact.

(** * Loops that an error ends *)

Definition ok_of {A} (r : res Z A) : option A := match r with Ok a => Some a | _ => None end.
Lemma tcp_accept_loop_ok nodelay l : tcp_accept_loop nodelay l = map (accepted nodelay) (omap ok_of l).
Proof. induction l as [|[c|e| |] l IH]; cbn; [done|by f_equal|done..]. Qed.
Lemma run_tcp_port_forward_ok nodelay cs e l : run_tcp_port_forward nodelay (map Ok cs ++ Err e :: l) = (map (accepted nodelay) cs, Some (Err e)).
Proof. induction cs as [|c cs IH]; cbn; [done|]. by rewrite IH. Qed.
Lemma run_tcp_port_forward_calm nodelay cs : run_tcp_port_forward nodelay (map Ok cs) = (map (accepted nodelay) cs, None).
Proof. induction cs as [|c cs IH]; cbn; [done|]. by rewrite IH. Qed.
Lemma run_udp_port_forward_ok listen remote sock ps e l :
  run_udp_port_forward listen remote sock (map Ok ps ++ Err e :: l) = (omap (forward_of listen remote sock) ps, Some (Err e)).
Proof. induction ps as [|[d c] ps IH]; cbn; [done|]. rewrite IH. by destruct d. Qed.
Lemma run_udp_port_forward_calm listen remote sock ps :
  run_udp_port_forward listen remote sock (map Ok ps) = (omap (forward_of listen remote sock) ps, None).
Proof. induction ps as [|[d c] ps IH]; cbn; [done|]. rewrite IH. by destruct d. Qed.

(** * Theorems *)

(** C34: on a machine of either endianness, whatever the kernel answers, the
    transparent UDP loop hands on exactly the complete messages from internet
    addresses with an original destination and at least one byte, each with its
    client, its destination and its bytes, in the order of their arrival: a
    message that is empty, truncated or lacks an address, an error of a receive
    and a spurious readiness cost nothing but themselves. *)
Theorem udp_loop_exact big_endian l :
  Forall wf_poll l -> run_udp_loop big_endian (S (length l)) l = Ok (omap packet_of l).
Proof. intros Hl. rewrite omap_packets. apply run_udp_loop_ok; [done|lia]. Qed.

(** The transparent TCP listener outlives every error of accept, and a handler
    is spawned for every connection; but a port forward, of TCP or UDP, serves
    what comes before the first error of its socket (empty datagrams apart) and
    ends there with that error, whatever comes after it. *)
Theorem forwards_end_on_error tcp_nodelay listen remote sock e :
  (forall l, tcp_accept_loop tcp_nodelay l = map (accepted tcp_nodelay) (omap ok_of l)) /\
  (forall cs l, run_tcp_port_forward tcp_nodelay (map Ok cs ++ Err e :: l) = (map (accepted tcp_nodelay) cs, Some (Err e))) /\
  (forall ps l, run_udp_port_forward listen remote sock (map Ok ps ++ Err e :: l) =
    (omap (forward_of listen remote sock) ps, Some (Err e))).
Proof.
  split_and!; intros; [apply tcp_accept_loop_ok|apply run_tcp_port_forward_ok|apply run_udp_port_forward_ok].
Qed.

Definition example_in : sockaddr_in := {| sin_port := [x01; xbb]; sin_addr := [x0a; x00; x00; x01] |}.
Definition example_message (d : bytes) (l : list ControlMessage) : Message :=
  {| data := d; address := Some (StorageV4 example_in); ctrunc := false; cmsgs := Ok l |}.
Definition example_polls : list Poll :=
  [Received (Err EAGAIN); Received (Ok (example_message [x2a] [])); ReadableFails 9; Received (Ok (example_message [] [Ipv4OrigDstAddr example_in]));
   Received (Ok (example_message [x2a] [OtherControl; Ipv4OrigDstAddr example_in]))].
Lemma udp_loop_exact_witness :
  run_udp_loop false 6 example_polls =
    Ok [(for_tproxy {| sa_ip := V4 167772161; sa_port := 443 |} {| sa_ip := V4 167772161; sa_port := 443 |}, [x2a])].
Proof. exact (udp_loop_exact false example_polls ltac:(repeat (constructor; [try done; repeat constructor|]); constructor)). Defined.
