(* ===== verification/TcpInfo.v ===== *)
(** Reading a connection's byte counters from the kernel: [TcpInfoExt] and
    [get_tcp_info_ext_raw] of [src/src/util.rs], from which [run_score_task]
    ([Scores]) measures. The struct is laid out as C does, in the memory of a
    machine of either endianness; the kernel is a parameter. *)

From Stdlib Require Import Strings.Byte Strings.String.
From S2P Require Import Prelude Bytes Scores Listen.
#[local] Open Scope Z_scope.

(** * The struct *)

(** The fields in order, with their width in bytes, which is also their
    alignment. *)
Definition TcpInfoExt : list (bytes * Z) := [
  (bs "tcpi_state", 1); (bs "tcpi_ca_state", 1); (bs "tcpi_retransmits", 1); (bs "tcpi_probes", 1);
  (bs "tcpi_backoff", 1); (bs "tcpi_options", 1); (bs "tcpi_snd_rcv_wscale", 1); (bs "tcpi_delivery_rate_app_limited", 1);
  (bs "tcpi_rto", 4); (bs "tcpi_ato", 4); (bs "tcpi_snd_mss", 4); (bs "tcpi_rcv_mss", 4);
  (bs "tcpi_unacked", 4); (bs "tcpi_sacked", 4); (bs "tcpi_lost", 4); (bs "tcpi_retrans", 4); (bs "tcpi_fackets", 4);
  (bs "tcpi_last_data_sent", 4); (bs "tcpi_last_ack_sent", 4); (bs "tcpi_last_data_recv", 4); (bs "tcpi_last_ack_recv", 4);
  (bs "tcpi_pmtu", 4); (bs "tcpi_rcv_ssthresh", 4); (bs "tcpi_rtt", 4); (bs "tcpi_rttvar", 4); (bs "tcpi_snd_ssthresh", 4);
  (bs "tcpi_snd_cwnd", 4); (bs "tcpi_advmss", 4); (bs "tcpi_reordering", 4);
  (bs "tcpi_rcv_rtt", 4); (bs "tcpi_rcv_space", 4); (bs "tcpi_total_retrans", 4);
  (bs "tcpi_pacing_rate", 8); (bs "tcpi_max_pacing_rate", 8); (bs "tcpi_bytes_acked", 8); (bs "tcpi_bytes_received", 8)].

(** [#[repr(C)]]: each field at the next multiple of its alignment, and the
    size a multiple of the greatest. *)
Definition align (off width : Z) : Z := (off + width - 1) / width * width.
Fixpoint repr_c (off : Z) (fields : list (bytes * Z)) : list (Z * Z) :=
  match fields with
  | [] => []
  | (_, width) :: fields => let off := align off width in (off, width) :: repr_c (off + width) fields
  end.
Definition struct_end (l : list (Z * Z)) : Z := match last l with Some (off, width) => off + width | None => 0 end.
Definition size_of (fields : list (bytes * Z)) : Z :=
  align (struct_end (repr_c 0 fields)) (foldr (fun f m => Z.max f.2 m) 1 fields).

Section Read.
Context (big_endian : bool).
(** [getsockopt(fd, IPPROTO_TCP, TCP_INFO, buffer, len)]: the bytes it wrote and
    the length it left, or an error. *)
Context (getsockopt : Z -> Z -> option (bytes * Z)).

Definition read_field (buf : bytes) (f : Z * Z) : Z := load big_endian (take (Z.to_nat f.2) (drop (Z.to_nat f.1) buf)).
Definition get_tcp_info_ext_raw (fd : Z) : option (list Z) :=
  let info := repeat x00 (Z.to_nat (size_of TcpInfoExt)) in
  match getsockopt fd (size_of TcpInfoExt) with
  | None => None
  | Some (written, len) =>
      if len <? size_of TcpInfoExt then None
      else Some (map (read_field (written ++ drop (length written) info)) (repr_c 0 TcpInfoExt))
  end.

Definition field (info : list Z) (name : bytes) : Z :=
  match list_find (fun f => f.1 = name) TcpInfoExt with Some (i, _) => default 0 (info !! i) | None => 0 end.

(** What [run_score_task] sums up, the parameter [info] of [score_round]. *)
Definition byte_counters (fd : Z) : option (Z * Z) :=
  (fun info => (field info (bs "tcpi_bytes_received"), field info (bs "tcpi_bytes_acked"))) <$> get_tcp_info_ext_raw fd.
End Read.

(** * What the kernel stores is what is read *)

(** The kernel copies its own struct, which may be longer or shorter than the
    program's. *)
Definition tcp_info (mem : Z -> option bytes) (fd len : Z) : option (bytes * Z) :=
  (fun m => (take (Z.to_nat (Z.min len (zlen m))) m, Z.min len (zlen m))) <$> mem fd.
Definition store (big_endian : bool) (width : Z) (z : Z) : bytes :=
  if big_endian then to_be_bytes (Z.to_nat width) z else rev (to_be_bytes (Z.to_nat width) z).
(** The fields one after the other, which is how C lays this struct out. *)
Fixpoint image (big_endian : bool) (fields : list (bytes * Z)) (vals : list Z) : bytes :=
  match fields, vals with
  | (_, width) :: fields, v :: vals => store big_endian width v ++ image big_endian fields vals
  | _, _ => []
  end.
Fixpoint packed (off : Z) (fields : list (bytes * Z)) : list (Z * Z) :=
  match fields with [] => [] | (_, width) :: fields => (off, width) :: packed (off + width) fields end.
Definition fits (f : bytes * Z) (v : Z) : Prop := 0 <= v < 256 ^ f.2.

Lemma TcpInfoExt_size : size_of TcpInfoExt = 136.
Proof. done. Qed.
Lemma TcpInfoExt_packed : repr_c 0 TcpInfoExt = packed 0 TcpInfoExt.
Proof. done. Qed.

Lemma be_value_from_be l : be_value l = from_be_bytes l.
Proof. unfold be_value, from_be_bytes. generalize 0. by induction l as [|b l IH]; intros a; cbn. Qed.
Lemma load_range big l : 0 <= load big l < 256 ^ zlen l.
Proof.
  destruct big; cbn; rewrite be_value_from_be; [apply from_be_range|].
  pose proof (from_be_range (rev l)) as H. unfold zlen in *. by rewrite length_rev in H.
Qed.
Lemma zlen_store big w v : 0 <= w -> zlen (store big w v) = w.
Proof.
  intros Hw. pose proof (zlen_to_be_bytes (Z.to_nat w) v) as H. destruct big; cbn; [|unfold zlen in *; rewrite length_rev]; lia.
Qed.
Lemma load_store big w v : 0 <= w -> 0 <= v < 256 ^ w -> load big (store big w v) = v.
Proof.
  intros Hw Hv. destruct big; cbn; rewrite ?rev_involutive, be_value_from_be, from_to_be, Z2Nat.id by done; by apply Z.mod_small.
Qed.

Lemma read_mid big pre s post off w :
  off = zlen pre -> w = zlen s -> read_field big (pre ++ s ++ post) (off, w) = load big s.
Proof.
  intros -> ->. unfold read_field, zlen. cbn. by rewrite !Nat2Z.id, drop_app_length, take_app_length.
Qed.
Lemma read_image big fields vals pre rest :
  Forall (fun f => 0 <= f.2) fields -> Forall2 fits fields vals ->
  map (read_field big (pre ++ image big fields vals ++ rest)) (packed (zlen pre) fields) = vals.
Proof.
  intros Hw H. revert pre Hw. induction H as [|[n w] v fields vals Hv H IH]; intros pre Hw; [done|]. inversion_clear Hw. cbn in *.
  pose proof (zlen_store big w v ltac:(done)) as Hs. rewrite <- app_assoc. f_equal.
  - rewrite read_mid by done. by apply load_store.
  - rewrite (app_assoc pre). replace (zlen pre + w) with (zlen (pre ++ store big w v)) by (rewrite zlen_app; lia). by apply IH.
Qed.
Lemma zlen_image big fields vals : Forall (fun f => 0 <= f.2) fields -> Forall2 fits fields vals ->
  zlen (image big fields vals) = foldr (fun f n => f.2 + n) 0 fields.
Proof.
  intros Hw H. induction H as [|[n w] v fields vals Hv H IH]; [done|]. inversion_clear Hw. cbn in *. rewrite zlen_app, zlen_store, IH; done.
Qed.
Lemma TcpInfoExt_widths : Forall (fun f => 0 <= f.2) TcpInfoExt.
Proof. repeat (constructor; [cbn; lia|]). constructor. Qed.
Lemma zlen_TcpInfoExt big vals : Forall2 fits TcpInfoExt vals -> zlen (image big TcpInfoExt vals) = 136.
Proof. intros H. by rewrite (zlen_image _ _ _ TcpInfoExt_widths H). Qed.

(** The counters are read as the kernel keeps them, on a machine of either
    endianness, from any kernel whose struct begins with these fields; from an
    older one nothing is read. *)
Theorem tcp_info_exact big mem fd vals rest :
  Forall2 fits TcpInfoExt vals -> mem fd = Some (image big TcpInfoExt vals ++ rest) ->
  get_tcp_info_ext_raw big (tcp_info mem) fd = Some vals.
Proof.
  intros Hv Hm. unfold get_tcp_info_ext_raw, tcp_info. rewrite Hm. cbn [fmap option_fmap option_map].
  pose proof (zlen_TcpInfoExt big vals Hv) as Hl. pose proof (zlen_nonneg rest). rewrite TcpInfoExt_size, zlen_app, Hl, Z.min_l by lia.
  change (136 <? 136) with false. cbn iota. f_equal. rewrite TcpInfoExt_packed.
  assert (take (Z.to_nat 136) (image big TcpInfoExt vals ++ rest) = image big TcpInfoExt vals) as ->.
  { rewrite <- Hl. unfold zlen. by rewrite Nat2Z.id, take_app_length. }
  exact (read_image big TcpInfoExt vals [] _ TcpInfoExt_widths Hv).
Qed.
Theorem tcp_info_short big mem fd m : mem fd = Some m -> zlen m < 136 -> get_tcp_info_ext_raw big (tcp_info mem) fd = None.
Proof.
  intros Hm Hl. unfold get_tcp_info_ext_raw, tcp_info. rewrite Hm. cbn [fmap option_fmap option_map]. rewrite TcpInfoExt_size, Z.min_r by lia.
  by replace (zlen m <? 136) with true by lia.
Qed.

(** Whatever the kernel answers, the counters are 64-bit integers: the sums of
    [score_round] start from what [op_fits] asks of each. *)
Lemma read_field_range big buf off w : 0 <= w -> 0 <= read_field big buf (off, w) < 256 ^ w.
Proof.
  intros Hw. unfold read_field. cbn. set (s := take _ _). pose proof (load_range big s) as H.
  assert (256 ^ zlen s <= 256 ^ w); [|lia]. apply Z.pow_le_mono_r; [lia|]. unfold zlen, s. rewrite length_take. lia.
Qed.
Lemma get_tcp_info_ext_raw_range big getsockopt fd info :
  get_tcp_info_ext_raw big getsockopt fd = Some info -> Forall (fun v => 0 <= v <= U64_MAX) info.
Proof.
  unfold get_tcp_info_ext_raw. destruct (getsockopt fd _) as [[w len]|]; [|done]. destruct (len <? _); [done|]. intros E. apply (inj Some) in E as <-.
  apply Forall_map. assert (Forall (fun f => 0 <= f.2 <= 8) (repr_c 0 TcpInfoExt)) as Hl by (vm_compute; repeat (constructor; [split; discriminate|]); constructor).
  eapply Forall_impl; [exact Hl|]. intros [off width] Hw. cbn in *. pose proof (read_field_range big (w ++ drop (length w) (repeat x00 (Z.to_nat (size_of TcpInfoExt)))) off width ltac:(lia)).
  assert (256 ^ width <= 256 ^ 8) by (apply Z.pow_le_mono_r; lia). unfold U64_MAX. lia.
Qed.
Lemma field_range info name : Forall (fun v => 0 <= v <= U64_MAX) info -> 0 <= field info name <= U64_MAX.
Proof.
  intros Hi. assert (0 <= 0 <= U64_MAX) by (unfold U64_MAX; lia). unfold field. destruct (list_find _ _) as [[i f]|]; [|done].
  destruct (info !! i) as [v|] eqn:E; [|done]. exact (Forall_lookup_1 _ _ _ _ Hi E).
Qed.
Theorem byte_counters_range big getsockopt fd r s :
  byte_counters big getsockopt fd = Some (r, s) -> 0 <= r <= U64_MAX /\ 0 <= s <= U64_MAX.
Proof.
  unfold byte_counters. destruct (get_tcp_info_ext_raw _ _ _) as [info|] eqn:H; [|done]. intros E.
  assert (forall name, 0 <= field info name <= U64_MAX) as Hf.
  { intros name. apply field_range. exact (get_tcp_info_ext_raw_range _ _ _ _ H). }
  apply (inj Some (_, _)) in E. apply pair_eq in E as [<- <-]. split; apply Hf.
Qed.

(** So a scoring round over them fits its integers as soon as their sum does. *)
Lemma score_round_fits big getsockopt held relative up :
  let infos := map (fun e => byte_counters big getsockopt e.2) (filter (fun e => held e.1 = true) (Upstream.registry up)) in
  op_fits up (ScoreRound held (byte_counters big getsockopt) relative) <-> total_bytes fst infos + total_bytes snd infos <= U64_MAX.
Proof.
  cbn. split; [by intros [_ H]|]. intros H. split; [|exact H]. apply Forall_map, Forall_forall. intros e _.
  destruct (byte_counters _ _ _) as [[r s]|] eqn:E; [|done]. pose proof (byte_counters_range _ _ _ _ _ E). lia.
Qed.

Example tcp_info_exact_witness :
  forall big, byte_counters big (tcp_info (fun fd => if fd =? 7 then Some (image big TcpInfoExt (repeat 1 34 ++ [70000; 5000000000]) ++ [x00; x01]) else None)) 7 = Some (5000000000, 70000).
Proof.
  intros big. unfold byte_counters. rewrite (tcp_info_exact big _ 7 (repeat 1 34 ++ [70000; 5000000000]) [x00; x01]);
    [done| |done]. repeat (constructor; [unfold fits; cbn; lia|]). constructor.
Defined.
