(* ===== verification/Fake.v ===== *)
(** The spoofing sockets of TPROXY replies, [FakeUdpManager] of
    [src/src/udp/fake.rs]: a table of sockets by source address and mark. A
    socket is a number; each access to the table is one atomic function. *)

From S2P Require Import Prelude Bytes Config Udp.
#[local] Open Scope Z_scope.

Module FakeUdpKey.
Record FakeUdpKey := { src_addr : SocketAddr; fwmark : Z }.
End FakeUdpKey.
Abbreviation fake_key := FakeUdpKey.FakeUdpKey.
#[global] Instance fake_udp_key_eq_decision : EqDecision fake_key.
Proof. solve_decision. Defined.
#[global] Program Instance fake_udp_key_countable : Countable fake_key :=
  inj_countable' (fun k => (FakeUdpKey.src_addr k, FakeUdpKey.fwmark k))
    (fun p => {| FakeUdpKey.src_addr := p.1; FakeUdpKey.fwmark := p.2 |}) _.
Next Obligation. by intros []. Qed.

Module FakeUdpEntry.
Record FakeUdpEntry := { socket : nat; last_used_secs : Z }.
End FakeUdpEntry.
Abbreviation fake_entry := FakeUdpEntry.FakeUdpEntry.

Module FakeUdpManager.
Record FakeUdpManager := { sockets : gmap fake_key fake_entry; closed : bool }.
End FakeUdpManager.
Abbreviation fake_manager := FakeUdpManager.FakeUdpManager.

Definition fake_new : fake_manager := {| FakeUdpManager.sockets := ∅; FakeUdpManager.closed := false |}.
Definition with_sockets (m : fake_manager) (sockets : gmap fake_key fake_entry) : fake_manager :=
  {| FakeUdpManager.sockets := sockets; FakeUdpManager.closed := FakeUdpManager.closed m |}.
Definition entry_at (socket : nat) (now : Z) : fake_entry :=
  {| FakeUdpEntry.socket := socket; FakeUdpEntry.last_used_secs := now |}.

(** [get_or_create], up to the creation of a socket: an error, a socket of the
    table, or nothing yet. *)
Definition fake_lookup (m : fake_manager) (key : fake_key) (now : Z) : res unit (option nat * fake_manager) :=
  if FakeUdpManager.closed m then Err tt
  else
    match FakeUdpManager.sockets m !! key with
    | Some e => Ok (Some (FakeUdpEntry.socket e),
        with_sockets m (<[key := entry_at (FakeUdpEntry.socket e) now]> (FakeUdpManager.sockets m)))
    | None => Ok (None, m)
    end.
(** Its end: the second check of the flag, and [entry().or_insert()]. *)
Definition fake_check (m : fake_manager) : res unit unit := if FakeUdpManager.closed m then Err tt else Ok tt.
Definition fake_insert (m : fake_manager) (key : fake_key) (socket : nat) (now : Z) : nat * fake_manager :=
  let existing := match FakeUdpManager.sockets m !! key with Some e => FakeUdpEntry.socket e | None => socket end in
  (existing, with_sockets m (<[key := entry_at existing now]> (FakeUdpManager.sockets m))).

Definition fake_cleanup_expired (m : fake_manager) (now timeout_secs : Z) : fake_manager :=
  with_sockets m (filter (fun e => sat_sub now (FakeUdpEntry.last_used_secs e.2) < timeout_secs) (FakeUdpManager.sockets m)).

(** [close] is two steps. *)
Definition fake_close_flag (m : fake_manager) : fake_manager :=
  {| FakeUdpManager.sockets := FakeUdpManager.sockets m; FakeUdpManager.closed := true |}.
Definition fake_close_clear (m : fake_manager) : fake_manager := with_sockets m ∅.

(** Tasks that race to create the socket of a key end with the same one. *)
Lemma fake_insert_agree m key a b now now' :
  fst (fake_insert (snd (fake_insert m key a now)) key b now') = fst (fake_insert m key a now).
Proof. unfold fake_insert. cbn. by rewrite lookup_insert_eq. Qed.

(** The socket of a key stays while it is used. *)
Lemma fake_cleanup_spec m now timeout key e :
  FakeUdpManager.sockets (fake_cleanup_expired m now timeout) !! key = Some e <->
    FakeUdpManager.sockets m !! key = Some e /\ sat_sub now (FakeUdpEntry.last_used_secs e) < timeout.
Proof. cbn. by rewrite map_lookup_filter_Some. Qed.

Lemma fake_reuse m key a now now' timeout :
  FakeUdpManager.closed m = false -> 0 < timeout -> now' - now < timeout ->
  let m1 := snd (fake_insert m key a now) in
  exists m2, fake_lookup (fake_cleanup_expired m1 now' timeout) key now' = Ok (Some (fst (fake_insert m key a now)), m2).
Proof.
  intros Hc Ht Hlt m1. unfold fake_lookup. cbn [FakeUdpManager.closed fake_cleanup_expired with_sockets m1 fake_insert snd]. rewrite Hc.
  pose proof (proj2 (fake_cleanup_spec m1 now' timeout key (entry_at (fst (fake_insert m key a now)) now))) as H.
  cbn in H. rewrite lookup_insert_eq in H. cbn. rewrite H; [by eexists|]. split; [done|]. unfold sat_sub. lia.
Qed.

(** A creation that passed its second check just before [close] leaves its
    socket in the closed table. *)
Theorem fake_socket_after_close key socket now :
  let m := fake_new in
  fake_check m = Ok tt /\
  let m := snd (fake_insert (fake_close_clear (fake_close_flag m)) key socket now) in
  FakeUdpManager.closed m = true /\ FakeUdpManager.sockets m !! key = Some (entry_at socket now).
Proof. cbn. by rewrite lookup_insert_eq. Qed.
