(* ===== verification/Relay.v ===== *)
(** The relay, [src/src/relay.rs], and its caller [relay_tcp_streams] of
    [src/src/util.rs]: bidirectional copying with a timeout for connections
    that one end has closed and on which nothing moves any more.

    The copying itself is tokio's [copy_bidirectional_with_sizes]: each poll of
    it makes some reads and writes through the two [Tracked] streams and either
    is pending or is done. A [Polled] is one poll of the relay: those calls, the
    result of the copy and the clock. Times are nanoseconds. *)

From S2P Require Import Prelude Bytes Config.
#[local] Open Scope Z_scope.

(** * Errors *)

(** An [io::Error]: whether its kind is [TimedOut], and whether its payload is
    the marker [HalfCloseTimeout]. *)
Record IoError := { timed_out : bool; marker : bool }.

Definition is_half_close_timeout (e : IoError) : bool := timed_out e && marker e.
Definition half_close_timeout : IoError := {| timed_out := true; marker := true |}.

(** * The tracked streams *)

(** [Poll<io::Result<_>>] of a read that filled [n] bytes, or a write of [n]. *)
Inductive IoPoll := IoReady (n : Z) | IoFailed | IoPending.

(** A call that the copy makes on one of the two streams; [remaining] is the
    room of the read buffer. *)
Inductive TrackedCall :=
  | PollRead (remaining : Z) (r : IoPoll)
  | PollWrite (r : IoPoll)
  | PollFlush
  | PollShutdown.

(** The two flags that both streams share. *)
Record Flags := { eof : bool; activity : bool }.

Definition tracked (f : Flags) (c : TrackedCall) : Flags :=
  match c with
  | PollRead remaining (IoReady n) =>
      if 0 <? n then {| eof := eof f; activity := true |}
      else if 0 <? remaining then {| eof := true; activity := activity f |}
      else f
  | PollWrite (IoReady n) => if 0 <? n then {| eof := eof f; activity := true |} else f
  | _ => f
  end.

(** * The timer *)

(** The last instant of the clock on Linux: an [i64] of seconds. *)
Definition INSTANT_MAX : Z := 2 ^ 63 * 1000000000 - 1.
(** [Instant::now() + grace], which panics out of range. *)
Definition instant_add {E} (now grace : Z) : res E Z := if now + grace <=? INSTANT_MAX then Ok (now + grace) else Panic.

Record Polled := { calls : list TrackedCall; copied : option (res IoError (Z * Z)); clock : Z }.

(** What the relay keeps between polls. *)
Record Relay := { flags : Flags; armed : bool; deadline : Z }.
Definition relay_new (now grace : Z) : Relay :=
  {| flags := {| eof := false; activity := false |}; armed := false; deadline := now + grace |}.

Module RelayEnd.
Inductive RelayEnd := Finished (sent recv : Z) | HalfCloseTimeout (grace_secs : Z).
End RelayEnd.

Section Timer.
(** Tokio's [Sleep]: whether a poll at [now] finds the deadline passed. *)
Context (fires : Z -> Z -> bool).

(** One poll of the [poll_fn] of [copy_bidirectional]; [inr] is [Pending]. *)
Definition relay_poll (grace : Z) (s : Relay) (p : Polled) : res IoError (Z * Z + Relay) :=
  let f := foldl tracked (flags s) (calls p) in
  match copied p with
  | Some r => let? n := r in Ok (inl n)
  | None =>
      let moved := activity f in
      let f := {| eof := eof f; activity := false |} in
      if negb (eof f) then Ok (inr {| flags := f; armed := armed s; deadline := deadline s |})
      else
        let? s :=
          if negb (armed s) || moved then
            let? deadline := instant_add (clock p) grace in Ok {| flags := f; armed := true; deadline := deadline |}
          else Ok {| flags := f; armed := armed s; deadline := deadline s |} in
        if fires (deadline s) (clock p) then Err half_close_timeout else Ok (inr s)
  end.

(** The polls of a relay, until it is done; [inr] when it is still running. *)
Fixpoint relay_run (grace : Z) (s : Relay) (polls : list Polled) : res IoError (Z * Z + Relay) :=
  match polls with
  | [] => Ok (inr s)
  | p :: polls =>
      let? r := relay_poll grace s p in
      match r with inl n => Ok (inl n) | inr s => relay_run grace s polls end
  end.

(** The result of the copy alone. *)
Fixpoint copy_run (polls : list Polled) : res IoError (option (Z * Z)) :=
  match polls with
  | [] => Ok None
  | p :: polls => match copied p with Some r => let? n := r in Ok (Some n) | None => copy_run polls end
  end.

Definition copy_bidirectional (start : Z) (grace : option Z) (polls : list Polled) : res IoError (option (Z * Z)) :=
  match grace with
  | None => copy_run polls
  | Some grace =>
      let? r := relay_run grace (relay_new start grace) polls in
      match r with inl n => Ok (Some n) | inr _ => Ok None end
  end.

(** * [relay_tcp_streams] *)

(** [Duration::from_secs]; 0 disables the timeout. *)
Definition half_close_grace (secs : Z) : option Z := if 0 <? secs then Some (secs * 1000000000) else None.

(** The process-wide counters and [SO_LINGER = 0] of the two sockets. *)
Record Ends := { timeouts : Z; copy_errors : Z; client_linger : bool; upstream_linger : bool }.

(** [fetch_add(1)] on an [AtomicU64] *)
Definition fetch_add (n : Z) : Z := (n + 1) mod 2 ^ 64.

(** [linger_ok]: whether the socket accepts the option. *)
Definition abort_with_rst (linger_ok : bool * bool) (e : Ends) : Ends := {|
  timeouts := timeouts e;
  copy_errors := copy_errors e;
  client_linger := client_linger e || linger_ok.1;
  upstream_linger := upstream_linger e || linger_ok.2;
|}.
Definition count_timeout (e : Ends) : Ends := {|
  timeouts := fetch_add (timeouts e);
  copy_errors := copy_errors e;
  client_linger := client_linger e;
  upstream_linger := upstream_linger e;
|}.
Definition count_copy_error (e : Ends) : Ends := {|
  timeouts := timeouts e;
  copy_errors := fetch_add (copy_errors e);
  client_linger := client_linger e;
  upstream_linger := upstream_linger e;
|}.

(** [None] while the relay is running; with [splice] the polls are those of
    [zero_copy_bidirectional], whose calls nobody tracks. *)
Definition relay_tcp_streams (linger_ok : bool * bool) (start : Z) (splice : bool) (grace : option Z) (polls : list Polled)
    (e : Ends) : res IoError (option RelayEnd.RelayEnd) * Ends :=
  if splice then
    (let? r := copy_run polls in Ok ((fun n => RelayEnd.Finished n.1 n.2) <$> r), e)
  else
    match copy_bidirectional start grace polls with
    | Ok r => (Ok ((fun n => RelayEnd.Finished n.1 n.2) <$> r), e)
    | Err err =>
        if is_half_close_timeout err then
          (Ok (Some (RelayEnd.HalfCloseTimeout (default 0 grace / 1000000000))), abort_with_rst linger_ok (count_timeout e))
        else (Err err, count_copy_error e)
    | Panic => (Panic, e)
    | Diverge => (Diverge, e)
    end.

(** * What the relay observed *)

Definition sees_eof (p : Polled) : bool :=
  existsb (fun c => match c with PollRead remaining (IoReady n) => negb (0 <? n) && (0 <? remaining) | _ => false end) (calls p).
Definition moves (p : Polled) : bool :=
  existsb (fun c => match c with PollRead _ (IoReady n) | PollWrite (IoReady n) => 0 <? n | _ => false end) (calls p).

(** Some poll up to [i] saw an end of file; no poll after [i], up to [k],
    moved a byte. *)
Definition eof_by (l : list Polled) (i : nat) : Prop := exists j p, (j <= i)%nat /\ l !! j = Some p /\ sees_eof p = true.
Definition silent (l : list Polled) (i k : nat) : Prop :=
  forall j p, (i < j <= k)%nat -> l !! j = Some p -> moves p = false.
(** At poll [k] the connection is half-closed and silent since a poll that
    lies the grace period back. *)
Definition reclaimable (grace : Z) (l : list Polled) (k : nat) : Prop :=
  exists i pi pk, (i <= k)%nat /\ l !! i = Some pi /\ l !! k = Some pk /\
    eof_by l i /\ silent l i k /\ fires (clock pi + grace) (clock pk) = true.
(** Poll [k] does not end the relay. *)
Definition goes_on (grace : Z) (l : list Polled) (k : nat) : Prop :=
  (forall p, l !! k = Some p -> copied p = None) /\ ~ reclaimable grace l k.

Lemma tracked_calls cs f :
  foldl tracked f cs =
  {| eof := eof f || sees_eof {| calls := cs; copied := None; clock := 0 |};
     activity := activity f || moves {| calls := cs; copied := None; clock := 0 |} |}.
Proof.
  revert f; induction cs as [|c cs IH]; intros f; cbn [foldl].
  { cbn. by rewrite !orb_false_r; destruct f. }
  rewrite IH. unfold sees_eof, moves. cbn [calls existsb]. destruct f as [e a]. cbn [eof activity].
  destruct c as [remaining [n| |]|[n| |]| |]; cbn [tracked eof activity orb]; rewrite ?orb_false_r; try done.
  - by destruct (0 <? n), (0 <? remaining), e, a.
  - by destruct (0 <? n), e, a.
Qed.

Lemma eof_by_app l l' i : (i < length l)%nat -> eof_by (l ++ l') i <-> eof_by l i.
Proof.
  intros Hi. unfold eof_by. split; intros (j & p & Hj & Hp & Hs); exists j, p; (split; [done|]); (split; [|done]).
  - by rewrite lookup_app_l in Hp by lia.
  - by rewrite lookup_app_l by lia.
Qed.
Lemma silent_app l l' i k : (k < length l)%nat -> silent (l ++ l') i k <-> silent l i k.
Proof.
  intros Hk. unfold silent. split; intros H j p Hj Hp; apply (H j p Hj); [by rewrite lookup_app_l by lia|by rewrite lookup_app_l in Hp by lia].
Qed.
Lemma reclaimable_app grace l l' k : (k < length l)%nat -> reclaimable grace (l ++ l') k <-> reclaimable grace l k.
Proof.
  intros Hk. unfold reclaimable. split; intros (i & pi & pk & Hi & Ei & Ek & He & Hs & Hf); exists i, pi, pk;
    (split; [done|]); rewrite ?lookup_app_l, ?eof_by_app, ?silent_app in * by lia; done.
Qed.
Lemma goes_on_app grace l l' k : (k < length l)%nat -> goes_on grace (l ++ l') k <-> goes_on grace l k.
Proof. intros Hk. unfold goes_on. by rewrite reclaimable_app, lookup_app_l by done. Qed.

(** * The state of the relay after polls that did not end it *)

(** Poll [i] set the deadline: the last one that had to. *)
Definition armed_at (l : list Polled) (i : nat) : Prop :=
  (i < length l)%nat /\ eof_by l i /\ silent l i (length l) /\
  forall i', (i' < length l)%nat -> eof_by l i' -> silent l i' (length l) -> (i <= i')%nat.

Record relay_inv (grace : Z) (l : list Polled) (s : Relay) : Prop := {
  ri_eof : eof (flags s) = existsb sees_eof l;
  ri_activity : activity (flags s) = false;
  ri_armed : armed s = existsb sees_eof l;
  ri_deadline : armed s = true -> exists i p, l !! i = Some p /\ deadline s = clock p + grace /\ armed_at l i;
}.

Lemma existsb_eof_by l : existsb sees_eof l = true <-> exists i, (i < length l)%nat /\ eof_by l i.
Proof.
  rewrite existsb_exists. split.
  - intros (p & Hp & Hs). apply list_elem_of_In in Hp. apply list_elem_of_lookup in Hp as [i Hi].
    exists i. split; [by eapply lookup_lt_Some|]. by exists i, p.
  - intros (_ & _ & j & p & _ & Hp & Hs). exists p. split; [|done]. apply list_elem_of_In. by eapply list_elem_of_lookup_2.
Qed.

Lemma existsb_snoc {A} (f : A -> bool) l x : existsb f (l ++ [x]) = existsb f l || f x.
Proof. rewrite existsb_app. cbn. by rewrite orb_false_r. Qed.

Lemma silent_snoc l p i : silent (l ++ [p]) i (length l) <-> silent l i (length l) /\ ((i < length l)%nat -> moves p = false).
Proof.
  unfold silent. split.
  - intros H. split.
    + intros j q Hj Hq. apply (H j q Hj). by apply lookup_app_l_Some.
    + intros Hi. apply (H (length l) p); [lia|]. by rewrite lookup_app_r, Nat.sub_diag by done.
  - intros [H Hp] j q Hj Hq. apply lookup_app_Some in Hq as [Hq|[Hlen Hq]]; [by apply (H j q)|].
    apply list_lookup_singleton_Some in Hq as [_ <-]. apply Hp. lia.
Qed.
Lemma silent_end l i : silent l i (length l) <-> silent l i (pred (length l)).
Proof.
  unfold silent. split; intros H j q Hj Hq; apply (H j q); try done; [lia|].
  apply lookup_lt_Some in Hq. lia.
Qed.
Lemma silent_last l p i : silent (l ++ [p]) i (length (l ++ [p])) <-> silent (l ++ [p]) i (length l).
Proof. rewrite silent_end, length_app. by rewrite Nat.add_1_r. Qed.

(** A deadline is kept by a poll that moves nothing... *)
Lemma armed_keeps l p i : armed_at l i -> moves p = false -> armed_at (l ++ [p]) i.
Proof.
  intros (Hi & He & Hs & Hmin) Hm. split; [rewrite length_app; lia|]. split; [by apply eof_by_app|].
  rewrite silent_last, silent_snoc. split; [done|]. intros i' Hi' He' [Hs' _]%silent_last%silent_snoc.
  rewrite length_app in Hi'. cbn in Hi'. destruct (decide (i' = length l)); [lia|].
  apply Hmin; [lia| |done]. eapply eof_by_app; [|done]. lia.
Qed.
(** ... and set by one that moves something, or is the first to see the end. *)
Lemma armed_sets l p :
  existsb sees_eof (l ++ [p]) = true -> existsb sees_eof l = false \/ moves p = true -> armed_at (l ++ [p]) (length l).
Proof.
  intros He Hm. split; [rewrite length_app; cbn; lia|]. split.
  { apply existsb_eof_by in He as (i & Hi & j & q & Hj & Hq & Hs). exists j, q. split; [|done]. apply lookup_lt_Some in Hq.
    rewrite length_app in Hq. cbn in Hq. lia. }
  split; [apply silent_last, silent_snoc; split; [intros ? ? ?; lia|lia]|].
  intros i' Hi' He' [_ Hs']%silent_last%silent_snoc. destruct (decide (length l <= i')%nat) as [|Hlt]; [done|].
  destruct Hm as [Hm|Hm].
  - assert (existsb sees_eof l = true) as Hx; [|congruence]. apply existsb_eof_by. exists i'. split; [lia|].
    eapply eof_by_app; [|exact He']. lia.
  - rewrite Hs' in Hm by lia. done.
Qed.

(** * Steps *)

(** A timer that has fired fires for earlier deadlines; the clock goes on. *)
Context (fires_earlier : forall d d' t, d <= d' -> fires d' t = true -> fires d t = true).
Definition clock_ordered (l : list Polled) : Prop :=
  forall i j p q, (i <= j)%nat -> l !! i = Some p -> l !! j = Some q -> clock p <= clock q.

Lemma armed_reclaimable grace l p i q :
  clock_ordered (l ++ [p]) -> armed_at (l ++ [p]) i -> (l ++ [p]) !! i = Some q ->
  fires (clock q + grace) (clock p) = true <-> reclaimable grace (l ++ [p]) (length l).
Proof.
  intros Hc (Hi & He & Hs & Hmin) Hq. assert ((l ++ [p]) !! length l = Some p) as Hp by (by rewrite lookup_app_r, Nat.sub_diag).
  split.
  - intros Hf. exists i, q, p. rewrite length_app in Hi. cbn in Hi. split; [lia|]. split; [done|]. split; [done|].
    split; [done|]. split; [by apply silent_last|done].
  - intros (i' & pi & pk & Hi' & Hpi & Hpk & He' & Hs' & Hf). rewrite Hp in Hpk. injection Hpk as <-.
    eapply fires_earlier; [|exact Hf]. pose proof (lookup_lt_Some _ _ _ Hpi).
    pose proof (Hc i i' q pi (Hmin i' H He' ltac:(by apply silent_last)) Hq Hpi). lia.
Qed.

Lemma relay_poll_step grace l s p :
  relay_inv grace l s -> copied p = None -> clock_ordered (l ++ [p]) -> clock p + grace <= INSTANT_MAX ->
  (reclaimable grace (l ++ [p]) (length l) /\ relay_poll grace s p = Err half_close_timeout) \/
  (~ reclaimable grace (l ++ [p]) (length l) /\ exists s', relay_poll grace s p = Ok (inr s') /\ relay_inv grace (l ++ [p]) s').
Proof.
  intros [He Ha Harm Hd] Hcp Hc Hmax. unfold relay_poll. rewrite Hcp, tracked_calls, Ha, He, Harm. cbn [eof activity orb].
  change (sees_eof {| calls := calls p; copied := None; clock := 0 |}) with (sees_eof p).
  change (moves {| calls := calls p; copied := None; clock := 0 |}) with (moves p).
  rewrite <- existsb_snoc. destruct (existsb sees_eof (l ++ [p])) eqn:Ex; cbn [negb].
  2: { right. split.
       - intros (i & pi & pk & Hi & Hpi & _ & Hei & _). assert (existsb sees_eof (l ++ [p]) = true); [|congruence].
         apply existsb_eof_by. exists i. split; [by eapply lookup_lt_Some|done].
       - eexists. split; [done|]. pose proof Ex as Ex'. rewrite existsb_snoc in Ex'. apply orb_false_iff in Ex' as [El _].
         split; cbn; rewrite ?El; done. }
  assert (exists d i q, (let? s0 := if negb (existsb sees_eof l) || moves p then
            let? deadline := instant_add (clock p) grace in
            Ok {| flags := {| eof := true; activity := false |}; armed := true; deadline := deadline |}
          else Ok {| flags := {| eof := true; activity := false |}; armed := existsb sees_eof l; deadline := deadline s |} in
        if fires (deadline s0) (clock p) then Err half_close_timeout else Ok (inr s0)) =
      (if fires d (clock p) then Err half_close_timeout
       else Ok (inr {| flags := {| eof := true; activity := false |}; armed := true; deadline := d |}) : res IoError (Z * Z + Relay)) /\
      (l ++ [p]) !! i = Some q /\ d = clock q + grace /\ armed_at (l ++ [p]) i) as (d & i & q & -> & Hq & -> & Hi).
  { destruct (negb (existsb sees_eof l) || moves p) eqn:Eb.
    - exists (clock p + grace), (length l), p. unfold instant_add. rewrite (proj2 (Z.leb_le _ _)) by done. split; [done|].
      split; [by rewrite lookup_app_r, Nat.sub_diag|]. split; [done|]. apply armed_sets; [done|].
      apply orb_true_iff in Eb as [Eb|]; [left; by apply negb_true_iff|by right].
    - apply orb_false_iff in Eb as [Eb Hm]. apply negb_false_iff in Eb. rewrite Harm, Eb in *.
      destruct (Hd eq_refl) as (i & q & Hq & -> & Hi). exists (clock q + grace), i, q. split; [done|].
      split; [by apply lookup_app_l_Some|]. split; [done|]. by apply armed_keeps. }
  pose proof (armed_reclaimable grace l p i q Hc Hi Hq) as Hr. destruct (fires (clock q + grace) (clock p)) eqn:Ef.
  - left. split; [by apply Hr|done].
  - right. split; [intros H; apply Hr in H; done|]. eexists. split; [done|]. split; cbn; try done. intros _. exists i, q. done.
Qed.

(** * Runs *)

Lemma relay_run_snoc grace s l p :
  relay_run grace s (l ++ [p]) =
  let? r := relay_run grace s l in match r with inl n => Ok (inl n) | inr s => relay_poll grace s p end.
Proof.
  revert s; induction l as [|q l IH]; intros s; cbn [relay_run app res_bind].
  - by destruct (relay_poll grace s p) as [[?|?]| | |].
  - destruct (relay_poll grace s q) as [[?|s']| | |]; cbn [res_bind]; try done.
Qed.

Lemma relay_run_outcome grace start l :
  clock_ordered l -> (forall p, p ∈ l -> clock p + grace <= INSTANT_MAX) ->
  let run := relay_run grace (relay_new start grace) l in
  ((forall k, (k < length l)%nat -> goes_on grace l k) /\ exists s, run = Ok (inr s) /\ relay_inv grace l s) \/
  exists k p, l !! k = Some p /\ (forall j, (j < k)%nat -> goes_on grace l j) /\
    match copied p with
    | Some r => run = let? n := r in Ok (inl n)
    | None => reclaimable grace l k /\ run = Err half_close_timeout
    end.
Proof.
  induction l as [|p l IH] using rev_ind; intros Hc Hmax; cbv zeta.
  { left. split; [cbn; lia|]. exists (relay_new start grace). split; [done|]. by split. }
  destruct IH as [(Hgo & s & E & Hinv)|(k & q & Hq & Hgo & Hr)].
  - intros i j a b Hij Ha Hb. by apply (Hc i j); [done|apply lookup_app_l_Some..].
  - intros q Hq. apply Hmax, elem_of_app. by left.
  - assert (forall j, (j < length l)%nat -> goes_on grace (l ++ [p]) j) as Hgo' by (intros j Hj; by apply goes_on_app, Hgo).
    assert ((l ++ [p]) !! length l = Some p) as Hp by (by rewrite lookup_app_r, Nat.sub_diag).
    rewrite relay_run_snoc, E. cbn [res_bind]. destruct (copied p) as [r|] eqn:Ecp.
    + right. exists (length l), p. split; [done|]. split; [done|]. rewrite Ecp. unfold relay_poll. by rewrite Ecp.
    + destruct (relay_poll_step grace l s p Hinv Ecp Hc (Hmax p ltac:(apply elem_of_app; right; by left)))
        as [[Hr ->]|(Hr & s' & -> & Hinv')].
      * right. exists (length l), p. by rewrite Ecp.
      * left. split; [|by exists s']. intros k Hk. rewrite length_app in Hk. cbn in Hk.
        destruct (decide (k = length l)) as [->|]; [|apply Hgo'; lia]. split; [|done].
        intros q. rewrite Hp. by intros [= <-].
  - right. exists k, q. pose proof (lookup_lt_Some _ _ _ Hq) as Hk. split; [by apply lookup_app_l_Some|].
    split; [intros j Hj; apply goes_on_app; [lia|by apply Hgo]|]. rewrite relay_run_snoc. destruct (copied q) as [r|].
    + rewrite Hr. by destruct r.
    + destruct Hr as [Hr ->]. split; [by apply reclaimable_app|done].
Qed.

(** What tokio's copy can return: byte counts, or an error of the sockets. *)
Definition copy_lawful (l : list Polled) : Prop :=
  forall p r, p ∈ l -> copied p = Some r ->
  match r with Ok _ => True | Err err => is_half_close_timeout err = false | Panic | Diverge => False end.

Lemma copy_run_returns l : copy_lawful l -> returns (copy_run l).
Proof.
  induction l as [|p l IH]; intros Hl; [done|]. cbn [copy_run]. destruct (copied p) as [r|] eqn:E.
  - specialize (Hl p r ltac:(by left) E). by destruct r.
  - apply IH. intros q r Hq. apply Hl. by right.
Qed.

Lemma relay_tcp_streams_returns linger_ok start splice secs l e :
  clock_ordered l -> (forall p, p ∈ l -> clock p + secs * 1000000000 <= INSTANT_MAX) -> copy_lawful l ->
  returns (relay_tcp_streams linger_ok start splice (half_close_grace secs) l e).1.
Proof.
  intros Hc Hmax Hl. pose proof (copy_run_returns l Hl) as Hr. unfold relay_tcp_streams.
  destruct splice; [by destruct (copy_run l)|]. unfold half_close_grace, copy_bidirectional.
  destruct (Z.ltb_spec 0 secs).
  2: { destruct (copy_run l) as [?|err| |]; try done. by destruct (is_half_close_timeout err). }
  destruct (relay_run_outcome (secs * 1000000000) start l Hc Hmax) as [(_ & s & -> & _)|(k & p & Hp & _ & Ho)]; [done|].
  destruct (copied p) as [r|] eqn:Ecp.
  - specialize (Hl p r ltac:(by eapply list_elem_of_lookup_2) Ecp). rewrite Ho. destruct r as [?|err| |]; try done.
    cbn [res_bind]. by rewrite Hl.
  - by destruct Ho as [_ ->].
Qed.

(** C17: the relay reclaims exactly the half-closed, silent connections. With a
    grace period and without splicing, the outcome is that of the first poll
    that ends the relay, and nothing before it does: a copy that is done there
    wins over the timer, its end or its error being the relay's (only the error
    is counted, and no socket is reset); otherwise the poll found an end of file
    seen and no byte moved since a poll that lies the grace period back, and
    then the session is reclaimed, counted once, both sockets set to be reset.
    A connection that neither end closed is never reclaimed. *)
Theorem relay_reclaims_exactly linger_ok start secs l e :
  0 < secs -> clock_ordered l -> (forall p, p ∈ l -> clock p + secs * 1000000000 <= INSTANT_MAX) -> copy_lawful l ->
  let run := relay_tcp_streams linger_ok start false (half_close_grace secs) l e in
  let goes_on := goes_on (secs * 1000000000) l in
  ((forall k, (k < length l)%nat -> goes_on k) /\ run = (Ok None, e)) \/
  exists k p, l !! k = Some p /\ (forall j, (j < k)%nat -> goes_on j) /\
    match copied p with
    | Some (Ok (sent, recv)) => run = (Ok (Some (RelayEnd.Finished sent recv)), e)
    | Some (Err err) => run = (Err err, count_copy_error e)
    | Some _ => False
    | None => reclaimable (secs * 1000000000) l k /\
        run = (Ok (Some (RelayEnd.HalfCloseTimeout secs)), abort_with_rst linger_ok (count_timeout e))
    end.
Proof.
  intros Hs Hc Hmax Hl. cbv zeta. unfold relay_tcp_streams, half_close_grace, copy_bidirectional.
  rewrite (proj2 (Z.ltb_lt _ _)) by done.
  destruct (relay_run_outcome (secs * 1000000000) start l Hc Hmax) as [(Hgo & s & -> & _)|(k & p & Hp & Hgo & Hr)].
  - left. done.
  - right. exists k, p. split; [done|]. split; [done|]. destruct (copied p) as [r|] eqn:Ecp.
    + specialize (Hl p r ltac:(by eapply list_elem_of_lookup_2) Ecp). rewrite Hr. destruct r as [[sent recv]|err| |]; try done.
      cbn [res_bind]. by rewrite Hl.
    + destruct Hr as [Hr ->]. split; [done|]. cbn [res_bind]. change (is_half_close_timeout half_close_timeout) with true.
      change (default 0 (Some (secs * 1000000000))) with (secs * 1000000000). by rewrite Z.div_mul.
Qed.
End Timer.

(** * Instances *)

(** A timer of exact instants. *)
Definition exact_timer (d now : Z) : bool := d <=? now.

(** The client sends a byte and closes; the upstream stays silent. *)
Definition example_polls : list Polled :=
  [ {| calls := [PollRead 8192 (IoReady 1); PollWrite (IoReady 1); PollRead 8192 IoPending]; copied := None; clock := 0 |};
    {| calls := [PollRead 8192 (IoReady 0); PollShutdown]; copied := None; clock := 900000000000 |};
    {| calls := [PollRead 8192 IoPending]; copied := None; clock := 1500000000000 |} ].
Definition no_ends : Ends := {| timeouts := 0; copy_errors := 0; client_linger := false; upstream_linger := false |}.

Lemma example_polls_ordered : clock_ordered example_polls.
Proof. intros i j p q Hij Hp Hq. destruct i as [|[|[|i]]], j as [|[|[|j]]]; try lia; cbn in Hp, Hq; simplify_eq; cbn; lia. Qed.
Lemma example_polls_lawful p :
  p ∈ example_polls -> copied p = None /\ clock p + 600 * 1000000000 <= INSTANT_MAX.
Proof.
  unfold example_polls, INSTANT_MAX. intros Hp.
  repeat (apply elem_of_cons in Hp as [->|Hp]; [split; [done|cbn; lia]|]). by apply elem_of_nil in Hp.
Qed.
Lemma exact_timer_earlier d d' t : d <= d' -> exact_timer d' t = true -> exact_timer d t = true.
Proof. unfold exact_timer. rewrite !Z.leb_le. lia. Qed.

Lemma relay_reclaims_exactly_witness :
  relay_tcp_streams exact_timer (true, true) 0 false (half_close_grace 600) example_polls no_ends =
  (Ok (Some (RelayEnd.HalfCloseTimeout 600)),
   {| timeouts := 1; copy_errors := 0; client_linger := true; upstream_linger := true |}).
Proof.
  destruct (relay_reclaims_exactly exact_timer exact_timer_earlier (true, true) 0 600 example_polls no_ends)
    as [[_ E]|(k & p & Hp & _ & H)].
  - done.
  - apply example_polls_ordered.
  - intros p Hp. by apply example_polls_lawful.
  - intros p r Hp E. apply example_polls_lawful in Hp as [Hp _]. by rewrite Hp in E.
  - vm_compute in E. discriminate E.
  - destruct k as [|[|[|k]]]; cbn in Hp; simplify_eq; exact (proj2 H).
Defined.

(** A grace period past the end of the clock makes the arming poll panic. *)
Example relay_grace_overflow :
  relay_tcp_streams exact_timer (true, true) 0 false (half_close_grace (2 ^ 63 - 1)) (drop 1 example_polls) no_ends = (Panic, no_ends).
Proof. by vm_compute. Qed.
