(* ===== verification/Replies.v ===== *)
(** The replies of UDP sessions: the receive loops of [src/src/udp/mod.rs],
    [send_reply], and the way a reply takes through the spoofed sockets of
    [src/src/udp/fake.rs].

    A receive task is driven by the polls of its [select!]: a [Poll] is one of
    them, with what it finds ready, the two clocks (monotonic in nanoseconds,
    [now_secs] in seconds) and what the other tasks do to the shared table of
    spoofed sockets while a reply is under way. *)

From S2P Require Import Prelude Bytes Config Socks5 Udp Fake Relay.
#[local] Open Scope Z_scope.

(** An [io::Error], by its [raw_os_error()]. *)
Definition OsError := option Z.
(** Linux's number on x86, ARM and RISC-V; the program has it from [libc]. *)
Definition EMSGSIZE : Z := 90.
Definition is_io_emsgsize (e : OsError) : bool := bool_decide (e = Some EMSGSIZE).

(** * The spoofed socket of a reply *)

(** The other tasks act before the lookup (0), the second check (1) and the
    insertion (2); [creates] is the socket that [create_fake_udp_socket]
    returns. *)
Record Others := { interfere : nat -> fake_manager -> fake_manager; creates : option nat }.

Definition get_or_create (o : Others) (key : fake_key) (now : Z) (m : fake_manager) : res unit nat * fake_manager :=
  let m := interfere o 0 m in
  match fake_lookup m key now with
  | Ok (Some socket, m) => (Ok socket, m)
  | Ok (None, m) =>
      match creates o with
      | None => (Err tt, m)
      | Some socket =>
          let m := interfere o 1 m in
          match fake_check m with
          | Ok _ => let (existing, m) := fake_insert (interfere o 2 m) key socket now in (Ok existing, m)
          | _ => (Err tt, m)
          end
      end
  | _ => (Err tt, m)
  end.

(** * Receive tasks *)

Record Poll := {
  clock : Z;
  secs : Z;
  cancelled : bool;
  (** what [recv] wrote into the buffer *)
  received : option (OsError + bytes);
  others : Others;
}.

(** A call of [send_reply]: the socket that sends, [None] when the table
    refuses one. What becomes of the datagram then is only logged. *)
Inductive ReplySocket := Spoofed (socket : nat) | Listener (listen_sock : Z).
Record Reply := { via : option ReplySocket; src : SocketAddr; dst : SocketAddr; data : bytes }.

(** The state of a receive task, the table of spoofed sockets that it shares,
    and the replies it has made; its counters are only logged. *)
Record Receiver := {
  last_seen : Z;
  deadline : Z;
  manager : fake_manager;
  replies : list Reply;
}.

Definition touch (p : Poll) (t : Receiver) : Receiver := {|
  last_seen := secs p; deadline := deadline t; manager := manager t; replies := replies t |}.

Definition send_reply (mark : Z) (spec : session_spec) (p : Poll) (remote_src : SocketAddr) (payload : bytes) (t : Receiver) : Receiver :=
  let client := UdpSessionKey.client_addr (UdpSessionSpec.key spec) in
  let send via m := {|
    last_seen := last_seen t; deadline := deadline t; manager := m;
    replies := replies t ++ [{| via := via; src := remote_src; dst := client; data := payload |}] |} in
  match UdpSessionSpec.reply_path spec with
  | UdpReplyPath.Tproxy =>
      let (r, m) := get_or_create (others p) {| FakeUdpKey.src_addr := remote_src; FakeUdpKey.fwmark := mark |} (secs p) (manager t) in
      send (match r with Ok socket => Some (Spoofed socket) | _ => None end) m
  | UdpReplyPath.PortForward sock => send (Some (Listener sock)) (manager t)
  end.

(** Both are [Ok(())]; they are logged differently. *)
Inductive RecvEnd := Cancelled | IdleTimeout.

(** ** Direct sessions *)

(** One round of [run_direct_udp_recv_loop]; [inr] goes on. *)
Definition direct_round (mark : Z) (spec : session_spec) (p : Poll) (t : Receiver) : res OsError (RecvEnd + Receiver) :=
  if cancelled p then Ok (inl Cancelled)
  else match received p with
  | None => Ok (inr t)
  | Some r =>
      let? n := connected_udp_recv_result is_io_emsgsize (match r with inr d => inr (zlen d) | inl e => inl e end) in
      match n, r with
      | Some _, inr payload =>
          Ok (inr (send_reply mark spec p (UdpSessionKey.target_addr (UdpSessionSpec.key spec)) payload (touch p t)))
      | _, _ => Ok (inr t)
      end
  end.

(** ** Sessions through a relay *)

Definition FAR_SECS : Z := 30 * 365 * 24 * 3600.

(** [now.checked_add(..).unwrap_or(now + ..)]: the alternative is computed in
    any case. *)
Definition reset_idle_deadline {E} (now idle_timeout_secs deadline : Z) : res E Z :=
  if 0 <? idle_timeout_secs then
    let? far := instant_add now (FAR_SECS * SECOND) in
    Ok (if now + idle_timeout_secs * SECOND <=? INSTANT_MAX then now + idle_timeout_secs * SECOND else far)
  else Ok deadline.

Section Timer.
(** Tokio's timer: the deadline that [sleep] sets, and whether a poll finds a
    deadline passed. *)
Context (sleep : Z -> Z -> Z) (fires : Z -> Z -> bool).

Definition make_idle_deadline (now idle_timeout_secs : Z) : Z :=
  if 0 <? idle_timeout_secs then sleep now (idle_timeout_secs * SECOND) else sleep now (FAR_SECS * SECOND).

(** One round of [run_socks5_udp_recv_loop]. *)
Definition socks5_round (timeout mark : Z) (spec : session_spec) (p : Poll) (t : Receiver) : res OsError (RecvEnd + Receiver) :=
  if cancelled p then Ok (inl Cancelled)
  else if (0 <? timeout) && fires (deadline t) (clock p) then Ok (inl IdleTimeout)
  else match received p with
  | None => Ok (inr t)
  | Some r =>
      let? n := connected_udp_recv_result is_io_emsgsize (match r with inr d => inr (zlen d) | inl e => inl e end) in
      match n, r with
      | Some _, inr pkt =>
          let t := touch p t in
          let? deadline := reset_idle_deadline (clock p) timeout (deadline t) in
          let t := {| last_seen := last_seen t; deadline := deadline; manager := manager t; replies := replies t |} in
          match parse_socks5_udp_packet_with_fallback_src pkt (UdpSessionKey.target_addr (UdpSessionSpec.key spec)) with
          | Ok (remote_src, payload) => Ok (inr (send_reply mark spec p (client_visible_src spec remote_src) payload t))
          | Err _ => Ok (inr t)
          | Panic => Panic
          | Diverge => Diverge
          end
      | _, _ => Ok (inr t)
      end
  end.

(** ** The loop *)

(** The rounds until the task returns; [None] is a task that still runs. *)
Fixpoint recv_rounds (round : Poll -> Receiver -> res OsError (RecvEnd + Receiver)) (l : list Poll) (t : Receiver)
    : res OsError (option RecvEnd) * Receiver :=
  match l with
  | [] => (Ok None, t)
  | p :: l =>
      match round p t with
      | Ok (inl e) => (Ok (Some e), t)
      | Ok (inr t) => recv_rounds round l t
      | Err e => (Err e, t)
      | Panic => (Panic, t)
      | Diverge => (Diverge, t)
      end
  end.

(** [run_udp_session_recv_loop], of a session created at [start] and
    [start_secs]. *)
Definition run_udp_session_recv_loop (out : UdpOutbound.UdpOutbound) (timeout mark : Z) (spec : session_spec)
    (start start_secs : Z) (m : fake_manager) (l : list Poll) : res OsError (option RecvEnd) * Receiver :=
  let t := {| last_seen := start_secs; deadline := make_idle_deadline start timeout; manager := m; replies := [] |} in
  match out with
  | UdpOutbound.Direct _ => recv_rounds (direct_round mark spec) l t
  | UdpOutbound.Socks5 _ => recv_rounds (socks5_round timeout mark spec) l t
  end.
End Timer.

(** * The specification *)

(** What keeps a session alive: a datagram that is not empty. *)
Definition heard (p : Poll) : bool :=
  match received p with Some (inr d) => negb (bool_decide (d = [])) | _ => false end.
(** The clock [f] at the last such poll, or [x] before any. *)
Definition last_heard (f : Poll -> Z) (x : Z) (l : list Poll) : Z := foldl (fun x p => if heard p then f p else x) x l.

Section Spec.
(** The address that each spoofed socket is bound to, with its mark. *)
Context (bound : nat -> fake_key).
Context (fires : Z -> Z -> bool) (out : UdpOutbound.UdpOutbound) (timeout mark : Z) (spec : session_spec) (start start_secs : Z).
Abbreviation client := (UdpSessionKey.client_addr (UdpSessionSpec.key spec)).
Abbreviation target := (UdpSessionKey.target_addr (UdpSessionSpec.key spec)).

(** A datagram of the outbound socket carries a payload for the client, from
    an address: a reply of the target itself, or an unfragmented SOCKS5 UDP
    packet. A transparent client only knows the address it wrote to. *)
Definition answers (d : bytes) (remote_src : SocketAddr) (payload : bytes) : Prop :=
  match out with
  | UdpOutbound.Direct _ => remote_src = target /\ payload = d
  | UdpOutbound.Socks5 _ => exists w, wf_wire w /\ d = map byte_of_Z [0; 0; 0] ++ encode_wire w ++ payload /\
      remote_src = match UdpSessionSpec.reply_path spec with UdpReplyPath.Tproxy => target | UdpReplyPath.PortForward _ => wire_src w target end
  end.

(** The socket that sends: the listener of a forwarded port, or one that is
    bound to the address the reply comes from. *)
Definition sends_from (r : Reply) : Prop :=
  match UdpSessionSpec.reply_path spec, via r with
  | UdpReplyPath.PortForward sock, Some (Listener sock') => sock' = sock
  | UdpReplyPath.Tproxy, Some (Spoofed s) => bound s = {| FakeUdpKey.src_addr := src r; FakeUdpKey.fwmark := mark |}
  | UdpReplyPath.Tproxy, None => True
  | _, _ => False
  end.

(** The replies that a poll makes: one for a datagram that answers, else none. *)
Definition replies_of (p : Poll) (rs : list Reply) : Prop :=
  match rs with
  | [] => forall d s x, received p = Some (inr d) -> d <> [] -> ~ answers d s x
  | [r] => exists d, received p = Some (inr d) /\ d <> [] /\ answers d (src r) (data r) /\ dst r = client /\ sends_from r
  | _ => False
  end.

(** The relay of a SOCKS5 session has been silent for too long. *)
Definition idle (a : list Poll) (p : Poll) : Prop :=
  match out with
  | UdpOutbound.Direct _ => False
  | UdpOutbound.Socks5 _ => 0 < timeout /\ fires (last_heard clock start a + timeout * SECOND) (clock p) = true
  end.

(** How a poll ends a session that the polls [a] have not ended. *)
Inductive stops (a : list Poll) (p : Poll) : res OsError (option RecvEnd) -> Prop :=
  | stops_cancelled : cancelled p = true -> stops a p (Ok (Some Cancelled))
  | stops_idle : cancelled p = false -> idle a p -> stops a p (Ok (Some IdleTimeout))
  | stops_error e : cancelled p = false -> ~ idle a p -> received p = Some (inl e) -> e <> Some EMSGSIZE -> stops a p (Err e).

(** The other tasks keep the table, and a new socket is bound as asked. *)
Definition table_ok (m : fake_manager) : Prop := map_Forall (fun k e => bound (FakeUdpEntry.socket e) = k) (FakeUdpManager.sockets m).
Definition lawful (o : Others) : Prop :=
  (forall i m, table_ok m -> table_ok (interfere o i m)) /\
  forall s, creates o = Some s -> bound s = {| FakeUdpKey.src_addr := target; FakeUdpKey.fwmark := mark |}.
(** The manager stays open and sockets can be created. *)
Definition unhindered (o : Others) : Prop :=
  creates o <> None /\ forall i m, FakeUdpManager.closed m = false -> FakeUdpManager.closed (interfere o i m) = false.

(** * The spoofed sockets *)

Lemma table_ok_insert m key s now : table_ok m -> bound s = key ->
  bound (fst (fake_insert m key s now)) = key /\ table_ok (snd (fake_insert m key s now)).
Proof.
  intros Hm Hs. unfold fake_insert. cbn [fst snd].
  assert (bound (match FakeUdpManager.sockets m !! key with Some e => FakeUdpEntry.socket e | None => s end) = key) as Hb.
  { destruct (FakeUdpManager.sockets m !! key) as [e|] eqn:E; [by apply (Hm key e)|done]. }
  split; [done|]. by apply map_Forall_insert_2.
Qed.

Lemma table_ok_cleanup m now t : table_ok m -> table_ok (fake_cleanup_expired m now t).
Proof. intros Hm k e [He _]%fake_cleanup_spec. by apply Hm. Qed.

Lemma get_or_create_ok o now m :
  let key := {| FakeUdpKey.src_addr := target; FakeUdpKey.fwmark := mark |} in
  lawful o -> table_ok m ->
  let (r, m') := get_or_create o key now m in
  table_ok m' /\ (forall s, r = Ok s -> bound s = key) /\
  (unhindered o -> FakeUdpManager.closed m = false -> FakeUdpManager.closed m' = false /\ exists s, r = Ok s).
Proof.
  intros key [Hi Hc] Hm. unfold get_or_create, fake_lookup.
  pose proof (Hi 0%nat _ Hm) as Hm0. set (m0 := interfere o 0 m) in *.
  assert (unhindered o -> FakeUdpManager.closed m = false -> FakeUdpManager.closed m0 = false) as Ho by (intros [_ H] ?; by apply H).
  destruct (FakeUdpManager.closed m0) eqn:Ec0.
  { split; [done|]. split; [done|]. intros Hu Hcl. specialize (Ho Hu Hcl). congruence. }
  destruct (FakeUdpManager.sockets m0 !! key) as [e|] eqn:E.
  - pose proof (Hm0 key e E) as Hb. cbn in Hb. split; [by apply map_Forall_insert_2|]. split; [by intros s [= <-]|].
    intros Hu Hcl. split; [done|by eexists].
  - destruct (creates o) as [s|] eqn:Es; [|split; [done|]; split; [done|]; intros [Hu _]; congruence].
    unfold fake_check. pose proof (Hi 1%nat _ Hm0) as Hm1. set (m1 := interfere o 1 m0) in *.
    destruct (FakeUdpManager.closed m1) eqn:Ec1.
    { split; [done|]. split; [done|]. intros [_ Hu] Hcl. unfold m1 in Ec1. by rewrite Hu in Ec1. }
    destruct (table_ok_insert (interfere o 2 m1) key s now (Hi 2%nat _ Hm1) (Hc s eq_refl)) as [Hb Ht].
    destruct (fake_insert (interfere o 2 m1) key s now) as [s' m'] eqn:Ei. cbn [fst snd] in *.
    split; [done|]. split; [by intros ? [= <-]|]. intros [_ Hu] _. split; [|by eexists].
    injection Ei as <- <-. cbn. by apply Hu.
Qed.

Lemma send_reply_ok p remote_src payload t :
  lawful (others p) -> table_ok (manager t) ->
  (UdpSessionSpec.reply_path spec = UdpReplyPath.Tproxy -> remote_src = target) ->
  let t' := send_reply mark spec p remote_src payload t in
  last_seen t' = last_seen t /\ deadline t' = deadline t /\ table_ok (manager t') /\
  exists r, replies t' = replies t ++ [r] /\ src r = remote_src /\ data r = payload /\ dst r = client /\ sends_from r /\
    (unhindered (others p) -> FakeUdpManager.closed (manager t) = false -> FakeUdpManager.closed (manager t') = false /\ via r <> None).
Proof.
  intros Hl Hm Hsrc. unfold send_reply, sends_from. destruct (UdpSessionSpec.reply_path spec) as [|sock].
  - rewrite (Hsrc eq_refl). pose proof (get_or_create_ok (others p) (secs p) (manager t) Hl Hm) as H.
    destruct (get_or_create _ _ _ _) as [r m]. destruct H as (Ht & Hb & Hu). split_and!; try done.
    eexists. split; [reflexivity|]. cbn. split_and!; try done.
    + destruct r; try done. by apply Hb.
    + intros H1 H2. destruct (Hu H1 H2) as [? [s ->]]. done.
  - split_and!; try done. eexists. by split_and!.
Qed.

(** * Rounds *)

(** The state after polls that have not ended the task. *)
Record recv_inv (m0 : fake_manager) (a : list Poll) (t : Receiver) : Prop := {
  rv_seen : last_seen t = last_heard secs start_secs a;
  rv_deadline : 0 < timeout -> is_direct out = false -> deadline t = last_heard clock start a + timeout * SECOND;
  rv_table : table_ok (manager t);
  rv_replies : exists rs, Forall2 replies_of a rs /\ replies t = concat rs;
  rv_open : FakeUdpManager.closed m0 = false -> Forall (fun p => unhindered (others p)) a ->
    FakeUdpManager.closed (manager t) = false /\ Forall (fun r => via r <> None) (replies t);
}.

Lemma last_heard_snoc f x a p : last_heard f x (a ++ [p]) = if heard p then f p else last_heard f x a.
Proof. unfold last_heard. by rewrite foldl_app. Qed.

(** A poll without a reply that changes neither the table nor the replies. *)
Lemma recv_inv_quiet m0 a p t t' :
  recv_inv m0 a t -> replies_of p [] -> manager t' = manager t -> replies t' = replies t ->
  last_seen t' = last_heard secs start_secs (a ++ [p]) ->
  (0 < timeout -> is_direct out = false -> deadline t' = last_heard clock start (a ++ [p]) + timeout * SECOND) ->
  recv_inv m0 (a ++ [p]) t'.
Proof.
  intros [Hs Hd Ht (rs & Hrs & Hr) Ho] Hp Em Er Es Ed. split; rewrite ?Em, ?Er; try done.
  - exists (rs ++ [[]]). split; [by apply Forall2_app; [|constructor]|]. by rewrite concat_app, app_nil_r.
  - intros H0 [Ha _]%Forall_app. by apply Ho.
Qed.

Lemma recv_inv_silent m0 a p t : recv_inv m0 a t -> heard p = false -> recv_inv m0 (a ++ [p]) t.
Proof.
  intros Hi Hp. apply (recv_inv_quiet m0 a p t t Hi); rewrite ?last_heard_snoc, ?Hp; try done; [|apply Hi..].
  intros d s x Hr Hd _. apply Hd. unfold heard in Hp. rewrite Hr in Hp. by apply negb_false_iff, bool_decide_eq_true in Hp.
Qed.

(** A poll with a reply; [t] has been touched. *)
Lemma recv_inv_reply m0 a p t0 t d remote_src payload :
  recv_inv m0 a t0 -> lawful (others p) -> received p = Some (inr d) -> d <> [] -> answers d remote_src payload ->
  manager t = manager t0 -> replies t = replies t0 -> last_seen t = secs p ->
  (0 < timeout -> is_direct out = false -> deadline t = clock p + timeout * SECOND) ->
  recv_inv m0 (a ++ [p]) (send_reply mark spec p remote_src payload t).
Proof.
  intros [Hs Hd Ht (rs & Hrs & Hr) Ho] Hl Hrec Hne Hans Em Er Es Ed.
  assert (heard p = true) as Hh by (unfold heard; rewrite Hrec; by apply negb_true_iff, bool_decide_eq_false).
  destruct (send_reply_ok p remote_src payload t Hl) as (Es' & Ed' & Ht' & r & Er' & Hsrc & Hdata & Hdst & Hfrom & Hopen).
  { by rewrite Em. }
  { intros Hpath. unfold answers in Hans. destruct out as [s|up]; [by destruct Hans|]. destruct Hans as (w & _ & _ & ->). by rewrite Hpath. }
  split; rewrite ?last_heard_snoc, ?Hh, ?Es', ?Ed', ?Er'; try done.
  - exists (rs ++ [[r]]). split; [|by rewrite concat_app, Er, Hr].
    apply Forall2_app; [done|]. constructor; [|done]. exists d. by rewrite Hsrc, Hdata.
  - intros H0 [Ha Hp]%Forall_app. rewrite Forall_singleton in Hp. destruct (Ho H0 Ha) as [Hc Hv].
    destruct (Hopen Hp) as [Hc' Hvia]; [by rewrite Em|]. split; [done|]. rewrite Er. apply Forall_app. by split; [|apply Forall_singleton].
Qed.

(** What a round does, as the specification says it. *)
Definition round_ok (m0 : fake_manager) (a : list Poll) (p : Poll) (r : res OsError (RecvEnd + Receiver)) : Prop :=
  match r with
  | Ok (inr t) => recv_inv m0 (a ++ [p]) t /\ forall e, ~ stops a p e
  | Ok (inl e) => stops a p (Ok (Some e))
  | Err e => stops a p (Err e)
  | Panic | Diverge => False
  end.

Lemma not_stops a p : cancelled p = false -> ~ idle a p -> (forall e, received p = Some (inl e) -> e = Some EMSGSIZE) -> forall e, ~ stops a p e.
Proof. intros Hc Hi He e Hs. destruct Hs as [?|?|e ??? Hn]; [congruence|done|]. by apply Hn, He. Qed.

(** The part that both loops share: an error, an empty or no datagram. *)
Lemma round_received m0 a p t (deliver : bytes -> res OsError (RecvEnd + Receiver)) :
  recv_inv m0 a t -> cancelled p = false -> ~ idle a p ->
  (forall d, received p = Some (inr d) -> d <> [] -> round_ok m0 a p (deliver d)) ->
  round_ok m0 a p
    match received p with
    | None => Ok (inr t)
    | Some r =>
        let? n := connected_udp_recv_result is_io_emsgsize (match r with inr d => inr (zlen d) | inl e => inl e end) in
        match n, r with
        | Some _, inr d => deliver d
        | _, _ => Ok (inr t)
        end
    end.
Proof.
  intros Hi Hc Hidle Hdel. destruct (received p) as [[e|d]|] eqn:Er; cbn [connected_udp_recv_result].
  - unfold is_io_emsgsize. case_bool_decide as He; cbn.
    + split; [apply recv_inv_silent; [done|]; unfold heard; by rewrite Er|]. apply not_stops; try done. rewrite Er. by intros ? [= <-].
    + by constructor.
  - destruct d as [|b d].
    + split; [apply recv_inv_silent; [done|]; unfold heard; by rewrite Er|]. apply not_stops; try done. by rewrite Er.
    + pose proof (Hdel (b :: d) eq_refl ltac:(done)) as H. unfold connected_udp_recv_result.
      destruct (zlen (b :: d)) eqn:Ez; cbn; [zlen_lia|done|zlen_lia].
  - split; [apply recv_inv_silent; [done|]; unfold heard; by rewrite Er|]. apply not_stops; try done. by rewrite Er.
Qed.

Lemma direct_round_ok s m0 a p t :
  out = UdpOutbound.Direct s -> lawful (others p) -> recv_inv m0 a t -> round_ok m0 a p (direct_round mark spec p t).
Proof.
  intros Hout Hl Hi. unfold direct_round. destruct (cancelled p) eqn:Ec; [by constructor|].
  assert (~ idle a p) as Hidle by (unfold idle; rewrite Hout; tauto).
  apply round_received; try done. intros d Hr Hd. split.
  - apply (recv_inv_reply m0 a p t _ d); try done; [unfold answers|]; by rewrite Hout.
  - apply not_stops; try done. by rewrite Hr.
Qed.

Lemma reset_idle_deadline_ok {E} now deadline :
  0 <= timeout -> now + FAR_SECS * SECOND <= INSTANT_MAX -> now + timeout * SECOND <= INSTANT_MAX ->
  exists d, reset_idle_deadline (E := E) now timeout deadline = Ok d /\ (0 < timeout -> d = now + timeout * SECOND).
Proof.
  intros Ht Hf Hn. unfold reset_idle_deadline, instant_add. destruct (Z.ltb_spec 0 timeout).
  - rewrite (proj2 (Z.leb_le _ _)) by done. cbn [res_bind]. rewrite (proj2 (Z.leb_le _ _)) by done. by eexists.
  - eexists. split; [done|]. lia.
Qed.

(** The parser of relayed packets knows the answers. *)
Lemma answers_parse up d : out = UdpOutbound.Socks5 up ->
  match parse_socks5_udp_packet_with_fallback_src d target with
  | Ok (s, x) => answers d (client_visible_src spec s) x
  | Err _ => forall s x, ~ answers d s x
  | Panic | Diverge => False
  end.
Proof.
  intros Hout. pose proof (parse_udp_returns d target) as Hret. unfold answers. rewrite Hout.
  destruct (parse_socks5_udp_packet_with_fallback_src d target) as [[s x]|e| |] eqn:E; try done.
  - apply parse_udp_inv in E as (w & Hw & -> & ->). exists w. unfold client_visible_src. by destruct (UdpSessionSpec.reply_path spec).
  - intros s x (w & Hw & -> & _). by rewrite parse_udp_encode in E.
Qed.

Lemma socks5_round_ok up m0 a p t :
  out = UdpOutbound.Socks5 up -> 0 <= timeout ->
  clock p + FAR_SECS * SECOND <= INSTANT_MAX -> clock p + timeout * SECOND <= INSTANT_MAX ->
  lawful (others p) -> recv_inv m0 a t -> round_ok m0 a p (socks5_round fires timeout mark spec p t).
Proof.
  intros Hout Ht Hfar Hmax Hl Hi. unfold socks5_round. destruct (cancelled p) eqn:Ec; [by constructor|].
  assert (idle a p <-> (0 <? timeout) && fires (deadline t) (clock p) = true) as Hidle.
  { unfold idle. rewrite Hout, andb_true_iff, Z.ltb_lt. split; intros [H Hf]; (split; [done|]);
      [rewrite (rv_deadline _ _ _ Hi)|rewrite (rv_deadline _ _ _ Hi) in Hf]; rewrite ?Hout; done. }
  destruct ((0 <? timeout) && fires (deadline t) (clock p)) eqn:Ei; [constructor; [done|by apply Hidle]|].
  assert (~ idle a p) as Hni by (intros H%Hidle; congruence). clear Hidle Ei.
  apply round_received; try done. intros d Hr Hd.
  destruct (reset_idle_deadline_ok (E := OsError) (clock p) (deadline (touch p t)) Ht Hfar Hmax) as (dl & -> & Hdl). cbn [res_bind].
  assert (heard p = true) as Hh by (unfold heard; rewrite Hr; by apply negb_true_iff, bool_decide_eq_false).
  assert (forall e, ~ stops a p e) as Hns by (apply not_stops; try done; by rewrite Hr).
  pose proof (answers_parse up d Hout) as Hans.
  destruct (parse_socks5_udp_packet_with_fallback_src d target) as [[s x]|e| |]; try done; split; try done.
  - apply (recv_inv_reply m0 a p t _ d); try done. intros H _. by apply Hdl.
  - apply (recv_inv_quiet m0 a p t); try done; rewrite ?last_heard_snoc, ?Hh; try done.
    + intros d' s x. rewrite Hr. intros [= <-] _. apply Hans.
    + intros H _. by apply Hdl.
Qed.

(** * Runs *)

Lemma recv_rounds_ok round m0 :
  forall l a t, (forall a p t, p ∈ l -> recv_inv m0 a t -> round_ok m0 a p (round p t)) -> recv_inv m0 a t ->
  let (r, t') := recv_rounds round l t in
  exists l1 l2, l = l1 ++ l2 /\ recv_inv m0 (a ++ l1) t' /\
    (forall b p c, l1 = b ++ p :: c -> forall e, ~ stops (a ++ b) p e) /\
    match l2 with [] => r = Ok None | p :: _ => stops (a ++ l1) p r end.
Proof.
  induction l as [|p l IH]; intros a t Hround Hi; cbn [recv_rounds].
  { exists [], []. rewrite !(app_nil_r a). split_and!; try done. by intros [] ? ?. }
  pose proof (Hround a p t ltac:(by left) Hi) as Hp.
  destruct (round p t) as [[e|t1]|e| |]; try done.
  - exists [], (p :: l). rewrite !(app_nil_r a). split_and!; try done. by intros [] ? ?.
  - destruct Hp as [Hi1 Hns]. specialize (IH (a ++ [p]) t1 (fun a' p' t' Hin => Hround a' p' t' (list_elem_of_further _ _ _ Hin)) Hi1).
    destruct (recv_rounds round l t1) as [r t']. destruct IH as (l1 & l2 & -> & Hi' & Hs & Hend).
    rewrite <- app_assoc in Hi', Hend. exists (p :: l1), l2. split_and!; try done.
    intros [|q b] p' c; cbn; intros [= <- E]; [by rewrite (app_nil_r a)|]. rewrite cons_middle, app_assoc. by eapply Hs.
  - exists [], (p :: l). rewrite !(app_nil_r a). split_and!; try done. by intros [] ? ?.
Qed.
End Spec.

(** The monotonic clock can hold the deadlines of [now]. *)
Definition deadlines_fit (timeout now : Z) : Prop := now + FAR_SECS * SECOND <= INSTANT_MAX /\ now + timeout * SECOND <= INSTANT_MAX.

(** * Properties *)

(** C16: the replies of a UDP session: whatever arrives and whatever the other
    tasks do to the table of spoofed sockets, a receive task never panics, and
    it stops at the first poll that finds the session cancelled, the relay of a
    SOCKS5 session silent for the configured time since the last datagram that
    was not empty (never, when that is 0 or the session is direct), or an error
    other than EMSGSIZE. Until then each datagram that is a reply (of a relay:
    an unfragmented SOCKS5 packet) is sent to the client once and in order,
    with exactly its payload, from the listener of a forwarded port or, for a
    transparent flow, from a socket bound to the address the client had written
    to; only a closed table or a refused socket loses one. Each datagram that
    is not empty, a reply or not, keeps the session from the collector. *)
Theorem udp_replies_exact bound sleep fires out timeout mark spec start start_secs m0 l :
  (forall now d, now + d <= INSTANT_MAX -> sleep now d = now + d) ->
  0 <= timeout -> deadlines_fit timeout start -> Forall (fun p => deadlines_fit timeout (clock p)) l ->
  table_ok bound m0 -> Forall (fun p => lawful bound mark spec (others p)) l ->
  let (r, t) := run_udp_session_recv_loop sleep fires out timeout mark spec start start_secs m0 l in
  exists l1 l2 rs, l = l1 ++ l2 /\
    (forall a p c, l1 = a ++ p :: c -> forall e, ~ stops fires out timeout start a p e) /\
    match l2 with [] => r = Ok None | p :: _ => stops fires out timeout start l1 p r end /\
    Forall2 (replies_of bound out mark spec) l1 rs /\ replies t = concat rs /\
    (FakeUdpManager.closed m0 = false -> Forall (fun p => unhindered (others p)) l1 -> Forall (fun r => via r <> None) (replies t)) /\
    last_seen t = last_heard secs start_secs l1 /\ table_ok bound (manager t).
Proof.
  intros Hsleep Ht Hs Hl Hm Ho. rewrite Forall_forall in Hl, Ho. unfold run_udp_session_recv_loop.
  set (t0 := {| last_seen := start_secs |}).
  assert (recv_inv bound out timeout mark spec start start_secs m0 [] t0) as Hi.
  { split; [done|..|by exists []|by intros].
    - intros Hpos _. cbn. unfold make_idle_deadline. rewrite (proj2 (Z.ltb_lt _ _)) by done. by apply Hsleep, Hs.
    - done. }
  assert (exists round, (match out with
      | UdpOutbound.Direct _ => recv_rounds (direct_round mark spec) l t0
      | UdpOutbound.Socks5 _ => recv_rounds (socks5_round fires timeout mark spec) l t0 end) = recv_rounds round l t0 /\
    forall a p t, p ∈ l -> recv_inv bound out timeout mark spec start start_secs m0 a t ->
      round_ok bound fires out timeout mark spec start start_secs m0 a p (round p t)) as (round & -> & Hround).
  { destruct out as [s|up] eqn:Eout; eexists; (split; [reflexivity|]); intros a p t Hp Hr.
    - eapply direct_round_ok; [done|by apply Ho|done].
    - eapply socks5_round_ok; [done|done|by apply Hl|by apply Hl|by apply Ho|done]. }
  pose proof (recv_rounds_ok bound fires out timeout mark spec start start_secs round m0 l [] t0 Hround Hi) as H.
  destruct (recv_rounds round l t0) as [r t]. destruct H as (l1 & l2 & -> & [Hseen _ Htab (rs & Hrs & Hr) Hopen] & Hns & Hend).
  exists l1, l2, rs. split_and!; try done. intros Hc Hu. by apply Hopen.
Qed.

(** ** A session whose relay falls silent *)

Definition example_client : SocketAddr := {| sa_ip := V4 1; sa_port := 5000 |}.
Definition example_target : SocketAddr := {| sa_ip := V4 2; sa_port := 53 |}.
Definition example_key : fake_key := {| FakeUdpKey.src_addr := example_target; FakeUdpKey.fwmark := 1 |}.
Definition example_others : Others := {| interfere := fun _ m => fake_cleanup_expired m 40 60; creates := Some 5%nat |}.
Definition example_poll (now : Z) (r : option (OsError + bytes)) : Poll :=
  {| clock := now * SECOND; secs := now; cancelled := false; received := r; others := example_others |}.
Definition example_reply : bytes :=
  map byte_of_Z [0; 0; 0] ++ encode_wire (WireIp {| sa_ip := V4 9; sa_port := 53 |}) ++ map byte_of_Z [7; 8].
(** A reply, an ICMP "too big", a malformed datagram, and then nothing. *)
Definition example_polls : list Poll :=
  [example_poll 10 (Some (inr example_reply)); example_poll 20 (Some (inl (Some EMSGSIZE)));
   example_poll 30 (Some (inr (map byte_of_Z [1; 2]))); example_poll 60 None; example_poll 61 None; example_poll 62 None].
Definition example_assoc : Socks5UdpAssoc.Socks5UdpAssoc := {|
  Socks5UdpAssoc.control := {| rd := []; wr := []; writes_left := None |};
  Socks5UdpAssoc.relay_addr := {| sa_ip := V4 3; sa_port := 1081 |}; Socks5UdpAssoc.udp_socket := 0 |}.
Definition example_recv (timeout : Z) : res OsError (option RecvEnd) * Receiver :=
  run_udp_session_recv_loop Z.add Z.leb (UdpOutbound.Socks5 example_assoc) timeout 1 (for_tproxy example_client example_target) 0 0 fake_new example_polls.

Example recv_without_watchdog : fst (example_recv 0) = Ok None.
Proof. vm_compute. reflexivity. Qed.

Lemma udp_replies_exact_witness :
  fst (example_recv 31) = Ok (Some IdleTimeout) /\ last_seen (snd (example_recv 31)) = 30 /\
  replies (snd (example_recv 31)) =
    [{| via := Some (Spoofed 5); src := example_target; dst := example_client; data := map byte_of_Z [7; 8] |}] /\
  table_ok (fun _ => example_key) (manager (snd (example_recv 31))).
Proof.
  split; [vm_compute; reflexivity|]. split; [vm_compute; reflexivity|]. split; [vm_compute; reflexivity|].
  assert (lawful (fun _ => example_key) 1 (for_tproxy example_client example_target) example_others) as Hl.
  { split; [intros i m Hm; by apply table_ok_cleanup|by intros s [= <-]]. }
  assert (Forall (fun p => deadlines_fit 31 (clock p)) example_polls) as Hrange by (repeat constructor; vm_compute; done).
  pose proof (udp_replies_exact (fun _ => example_key) Z.add Z.leb (UdpOutbound.Socks5 example_assoc) 31 1 (for_tproxy example_client example_target)
    0 0 fake_new example_polls (fun _ _ _ => eq_refl) ltac:(lia) ltac:(vm_compute; done) Hrange ltac:(done) ltac:(repeat (apply Forall_cons_2; [exact Hl|]); constructor)) as H.
  fold (example_recv 31) in H. destruct (example_recv 31) as [r t]. by destruct H as (l1 & l2 & rs & _ & _ & _ & _ & _ & _ & _ & Ht).
Defined.
