(* ===== verification/Helpers.v ===== *)
(** The small helpers of [src/src/util.rs] and [src/src/main.rs]: hexadecimal
    dumps, the test for oversized datagrams behind an [anyhow] error, the receive
    buffer, and what the warnings about splicing depend on. *)

From Stdlib Require Import Strings.Byte Strings.String.
From S2P Require Import Prelude Bytes Config Replies.
#[local] Open Scope Z_scope.

(** * Hexadecimal *)

(** [{:02x}] *)
Definition hex_digit (n : Z) : byte := byte_of_Z (if n <? 10 then 48 + n else 87 + n).
Definition hex_encode (data : bytes) : bytes := flat_map (fun b => [hex_digit (u8 b / 16); hex_digit (u8 b mod 16)]) data.

Definition hex_value (c : byte) : option Z :=
  if in_range 48 57 c then Some (u8 c - 48) else if in_range 97 102 c then Some (u8 c - 87) else None.
Fixpoint hex_decode (s : bytes) : option bytes :=
  match s with
  | [] => Some []
  | h :: l :: s =>
      h ← hex_value h; l ← hex_value l; d ← hex_decode s; Some (byte_of_Z (16 * h + l) :: d)
  | [_] => None
  end.

Lemma hex_byte b : hex_value (hex_digit (u8 b / 16)) = Some (u8 b / 16) /\ hex_value (hex_digit (u8 b mod 16)) = Some (u8 b mod 16).
Proof. by destruct b; vm_compute. Qed.
(** A dump has two digits a byte, and says which bytes they were. *)
Theorem hex_roundtrip data : hex_decode (hex_encode data) = Some data /\ zlen (hex_encode data) = 2 * zlen data.
Proof.
  induction data as [|b data [IH Hl]]; [done|]. unfold hex_encode in *. cbn [flat_map app hex_decode]. destruct (hex_byte b) as [-> ->]. rewrite IH.
  cbn [mbind option_bind]. split; [|rewrite !zlen_cons, Hl; lia]. pose proof (Z.div_mod (u8 b) 16 ltac:(lia)) as E. rewrite <- E. by rewrite byte_of_Z_u8.
Qed.

(** * Errors *)

(** The chain of an [anyhow::Error]: each cause, if it is an [io::Error]. *)
Definition is_anyhow_emsgsize (chain : list (option OsError)) : bool :=
  existsb (fun cause => match cause with Some e => is_io_emsgsize e | None => false end) chain.
(** Contexts do not hide the error below them. *)
Lemma is_anyhow_emsgsize_context contexts e : Forall (fun c => c = None) contexts -> is_anyhow_emsgsize (contexts ++ [Some e]) = is_io_emsgsize e.
Proof. induction 1 as [|c l -> _ IH]; cbn; [by destruct (is_io_emsgsize e)|exact IH]. Qed.

(** * The receive buffer *)

Definition UDP_RECV_BUF_SIZE : nat := Z.to_nat 65536.
(** [BytesMut::resize] *)
Definition resize (n : nat) (buf : bytes) : bytes := take n buf ++ replicate (n - length buf) Byte.x00.
Definition new_udp_buf : bytes := resize UDP_RECV_BUF_SIZE [].
Definition reset_udp_buf (buf : bytes) : bytes := resize UDP_RECV_BUF_SIZE buf.
(** Whatever was split off, a receive has the whole buffer. *)
Lemma reset_udp_buf_length buf : length (reset_udp_buf buf) = UDP_RECV_BUF_SIZE /\ length new_udp_buf = UDP_RECV_BUF_SIZE.
Proof. unfold reset_udp_buf, new_udp_buf, resize. rewrite !length_app, !length_replicate, !length_take. cbn [length]. lia. Qed.

(** * Warnings *)

(** [str::parse::<i32>]: an optional sign and digits, within the range. *)
Definition i32 (z : Z) : option Z := if (- 2147483648 <=? z) && (z <=? 2147483647) then Some z else None.
Fixpoint parse_digits (sign acc : Z) (s : bytes) : option Z :=
  match s with
  | [] => Some acc
  | c :: s => if is_ascii_digit c then acc ← i32 (acc * 10); acc ← i32 (acc + sign * (u8 c - 48)); parse_digits sign acc s else None
  end.
Definition parse_i32 (s : bytes) : option Z :=
  match s with
  | [] => None
  | c :: rest =>
      if Byte.eqb c "-" then match rest with [] => None | _ => parse_digits (-1) 0 rest end
      else if Byte.eqb c "+" then match rest with [] => None | _ => parse_digits 1 0 rest end
      else parse_digits 1 0 s
  end.

Section Warnings.
(** The contents of the files below [/proc/sys/net], where they can be read. *)
Context (proc : bytes -> option bytes).
Definition read_proc (suffix : bytes) : bool :=
  match proc suffix with
  | Some s => match parse_i32 (trim s) with Some n => negb (n =? 0) | None => false end
  | None => false
  end.
(** What the warning says, if there is one. *)
Definition warn_if_splice_with_forwarding (splice_enabled : bool) : option (bool * bool) :=
  if negb splice_enabled then None
  else
    let v4 := read_proc (bs "ipv4/ip_forward") in
    let v6 := read_proc (bs "ipv6/conf/all/forwarding") in
    if v4 || v6 then Some (v4, v6) else None.
End Warnings.
Definition warn_if_half_close_timeout_disabled_by_splice (c : Config.Config) : bool := Config.splice c && (0 <? Config.half_close_timeout c).

Lemma i32_in z : - 2147483648 <= z <= 2147483647 -> i32 z = Some z.
Proof. intros H. unfold i32. by rewrite (proj2 (andb_true_iff _ _)) by lia. Qed.
Lemma i32_Some z r : i32 z = Some r -> r = z /\ - 2147483648 <= z <= 2147483647.
Proof. unfold i32. destruct (_ && _) eqn:E; [|done]. intros [= <-]. lia. Qed.
Lemma parse_digits_value s : forall acc, Forall (fun c => is_ascii_digit c = true) s -> 0 <= acc ->
  let v := foldl (fun acc c => acc * 10 + (u8 c - 48)) acc s in
  acc <= v /\ parse_digits 1 acc s = if v <=? 2147483647 then Some v else if bool_decide (s = []) then Some acc else None.
Proof.
  induction s as [|c s IH]; intros acc Hs H0 v; [split; [done|by destruct (v <=? _)]|]. apply Forall_cons in Hs as [Hc Hs].
  assert (0 <= u8 c - 48 <= 9) as Hd by (unfold is_ascii_digit, in_range in Hc; lia).
  destruct (IH (acc * 10 + (u8 c - 48)) Hs ltac:(lia)) as [Hle E]. fold (foldl (fun acc c => acc * 10 + (u8 c - 48)) (acc * 10 + (u8 c - 48)) s) in E.
  change (foldl _ (acc * 10 + (u8 c - 48)) s) with v in Hle, E. split; [lia|].
  cbn [parse_digits]. rewrite Hc. rewrite bool_decide_eq_false_2 by done. destruct (Z.leb_spec v 2147483647) as [Hv|Hv].
  - rewrite i32_in by lia. cbn [mbind option_bind]. rewrite Z.mul_1_l, i32_in by lia. exact E.
  - destruct (i32 (acc * 10)) as [a|] eqn:Ea; [|done]. apply i32_Some in Ea as [-> _]. cbn [mbind option_bind]. rewrite Z.mul_1_l.
    destruct (i32 (acc * 10 + _)) as [a|] eqn:Ea; [|done]. apply i32_Some in Ea as [-> Ha]. cbn [mbind option_bind]. rewrite E.
    destruct s; [|done]. assert (v = acc * 10 + (u8 c - 48)) as Ev by done. exfalso. lia.
Qed.
(** The kernel's decimal numbers are read as what they are. *)
Theorem parse_i32_digits s : s <> [] -> Forall (fun c => is_ascii_digit c = true) s ->
  let v := foldl (fun acc c => acc * 10 + (u8 c - 48)) 0 s in parse_i32 s = if v <=? 2147483647 then Some v else None.
Proof.
  intros Hne Hs v. destruct (parse_digits_value s 0 Hs ltac:(lia)) as [_ E]. rewrite bool_decide_eq_false_2 in E by done. fold v in E. rewrite <- E.
  unfold parse_i32. destruct s as [|c s]; [done|]. apply Forall_cons in Hs as [Hc _].
  rewrite !eqb_ne; [done|by intros ->|by intros ->].
Qed.

Example forwarding_seen :
  map (fun s => read_proc (fun _ => Some (bs s)) []) ["0"; " 1"; ""; "yes"; "2147483648"; "-1"]%string = [false; true; false; false; false; true] /\
  warn_if_splice_with_forwarding (fun suffix => if bool_decide (suffix = bs "ipv4/ip_forward") then Some (bs "1") else None) true = Some (true, false).
Proof. by vm_compute. Qed.
