(* ===== verification/Tcp.v ===== *)
(** TCP connections, [src/src/tcp.rs]: the decision to go direct, the sniffed
    name, the upstream and the retries, up to the relay.

    A handler is one task among many, in the surroundings [Runtime]: [env k] is
    what the other tasks do to the shared state before its [k]-th step,
    [now_ns k] and [now_secs k] are the clocks and [rand k] the random numbers
    of that step. Opening a connection is [dial] ([SocketFactory] and the
    network; [None] is a failure), [late k] says that [connect_timeout_secs]
    ran out first. Logging is left out; the accept loops are in [Listen]. *)

From Stdlib Require Import Strings.Byte Strings.String.
From S2P Require Import Prelude Bytes Ordered Domains Routes Rules Config Sniff TcpSniff Socks5 State Scores Stats Picks Relay.
#[local] Open Scope Z_scope.

Module TcpUpstreamTarget.
Inductive TcpUpstreamTarget :=
  | Direct (addr : SocketAddr)
  | Socks5Ip (addr : SocketAddr)
  | Socks5Domain (host : bytes) (port : Z).
End TcpUpstreamTarget.
Import TcpUpstreamTarget.

Definition decide_tcp_upstream_target (orig_dst : SocketAddr) (direct : bool) (sniffed_sni : option bytes)
    : TcpUpstreamTarget :=
  if direct then TcpUpstreamTarget.Direct orig_dst
  else match sniffed_sni with
       | Some host => Socks5Domain host (sa_port orig_dst)
       | None => Socks5Ip orig_dst
       end.

Module TcpError.
Inductive TcpError :=
  | ConnectFailed
  | ConnectTimeout
  | Socks5 (e : Socks5Error.Socks5Error)
  | AllUpstreamsFailed
  | RelayFailed (e : IoError).
End TcpError.
Abbreviation tcp_res := (res TcpError.TcpError).

Definition set_all_items (us : upstreams) (items : list upstream) : upstreams := {|
  UpstreamSet.groups := UpstreamSet.groups us;
  UpstreamSet.all_items := items;
  UpstreamSet.current := UpstreamSet.current us;
  UpstreamSet.tolerance := UpstreamSet.tolerance us;
  UpstreamSet.pick_stats := UpstreamSet.pick_stats us;
|}.
(** An operation on the upstream [i] of the set. *)
Definition on_upstream (i : nat) (f : upstream -> upstream) (us : upstreams) : upstreams :=
  set_all_items us (alter f i (UpstreamSet.all_items us)).

Section Tcp.
Context `{ops4 : !NetOps 32} `{ops6 : !NetOps 128} `{tries4 : !TrieOps 32} `{tries6 : !TrieOps 128}.
Abbreviation AppState := (AppState (Upstream := nat)).

(** The state that the connections share; an [Arc<Upstream>] is an index. *)
Record World := { app : AppState; set : upstreams; ends : Ends }.
Definition with_app (w : World) (st : AppState) : World := {| app := st; set := set w; ends := ends w |}.
Definition with_set (w : World) (us : upstreams) : World := {| app := app w; set := us; ends := ends w |}.
Definition with_ends (w : World) (e : Ends) : World := {| app := app w; set := set w; ends := e |}.

(** What surrounds a task. *)
Class Runtime := {
  (** what the other tasks do to the state before a step *)
  env : nat -> World -> World;
  now_ns : nat -> Z;
  now_secs : nat -> Z;
  rand : nat -> draw;
  dial : nat -> SocketAddr -> option conn;
  late : nat -> bool;
  (** the bytes that the client shows to [peek] *)
  peek : nat -> Z -> peek_outcome;
  (** the file descriptor and the [Arc] of [Upstream::track] *)
  fd : nat -> Z;
  token : nat -> Z;
  (** the relay of a connection: its timer, its sockets and its polls *)
  fires : Z -> Z -> bool;
  linger_ok : bool * bool;
  polls : conn -> list Polled;
}.
Context {runtime : Runtime}.

(** A task: its next step, the state it last saw, the addresses it dialled,
    and the connections it relayed, with their upstream. *)
Record Task := { at_step : nat; world : World; dialled : list SocketAddr; relayed : option (conn * option nat) }.

Definition task (A : Type) : Type := Task -> tcp_res A * Task.
Definition ret {A} (a : A) : task A := fun t => (Ok a, t).
Definition bind {A B} (m : task A) (f : A -> task B) : task B := fun t =>
  match m t with
  | (Ok a, t) => f a t
  | (Err e, t) => (Err e, t)
  | (Panic, t) => (Panic, t)
  | (Diverge, t) => (Diverge, t)
  end.
(** The result of [m] as a value, for the [match] on it. *)
Definition attempt {A} (m : task A) : task (A + TcpError.TcpError) := fun t =>
  match m t with
  | (Ok a, t) => (Ok (inl a), t)
  | (Err e, t) => (Ok (inr e), t)
  | (Panic, t) => (Panic, t)
  | (Diverge, t) => (Diverge, t)
  end.
Definition fail {A} (e : TcpError.TcpError) : task A := fun t => (Err e, t).
Notation "'run!' x := c1 'in' c2" := (bind c1 (fun x => c2))
  (at level 10, x pattern, c1 at level 100, c2 at level 200) : res_scope.

(** One step on the shared state. *)
Definition atomic {A} (f : nat -> World -> checked (A * World)) : task A := fun t =>
  let k := at_step t in
  let after w := {| at_step := S k; world := w; dialled := dialled t; relayed := relayed t |} in
  match f k (env k (world t)) with
  | Ok (a, w) => (Ok a, after w)
  | Err e => match e with end
  | Panic => (Panic, after (env k (world t)))
  | Diverge => (Diverge, after (env k (world t)))
  end.
Definition read {A} (f : World -> A) : task A := atomic (fun _ w => Ok (f w, w)).
Definition update (f : nat -> World -> World) : task unit := atomic (fun k w => Ok (tt, f k w)).

Definition config_of : World -> Config.Config := fun w => config (app w).

(** [timeout(connect_timeout_secs, ..)] around a connection and a handshake. *)
Definition connect (addr : SocketAddr) (handshake : io unit) : task conn := fun t =>
  let k := at_step t in
  let t := {| at_step := S k; world := env k (world t); dialled := dialled t ++ [addr]; relayed := relayed t |} in
  if late k then (Err TcpError.ConnectTimeout, t)
  else match dial k addr with
       | None => (Err TcpError.ConnectFailed, t)
       | Some c =>
           match handshake c with
           | (Ok _, c) => (Ok c, t)
           | (Err e, _) => (Err (TcpError.Socks5 e), t)
           | (Panic, _) => (Panic, t)
           | (Diverge, _) => (Diverge, t)
           end
       end.
Definition direct_connect (orig_dst : SocketAddr) : task conn := connect orig_dst (io_ret tt).

Definition connect_tcp_upstream (target : TcpUpstreamTarget) (socks5_addr : SocketAddr) (creds : option (bytes * bytes))
    : task conn :=
  match target with
  | TcpUpstreamTarget.Direct addr => direct_connect addr
  | Socks5Ip addr => connect socks5_addr (socks5_connect (TargetIp addr) creds)
  | Socks5Domain host port => connect socks5_addr (socks5_connect (TargetDomain host port) creds)
  end.

(** [up.penalize()], unless the scores are disabled. *)
Definition penalize_upstream (up : nat) : task unit :=
  update (fun k w =>
    if Config.disable_upstream_score (config_of w) then w
    else with_set w (on_upstream up (penalize (now_secs k)) (set w))).

(** The immutable parts of an upstream: its identifier and address. *)
Definition upstream_of (up : nat) : task upstream := atomic (fun _ w => let? u := get (set w) up in Ok (u, w)).

Definition pick_upstream (group : bytes) (failed : gset bytes) : task (option nat) :=
  atomic (fun k w =>
    let? (o, us) :=
      if bool_decide (failed = ∅) then pick_from_group (now_secs k) (rand k) (set w) group
      else pick_excluding_many_from_group (now_secs k) (rand k) (set w) group failed in
    Ok (o, with_set w us)).

(** The loop of [try_connect_socks5_group]. *)
Fixpoint try_loop (fuel : nat) (target : TcpUpstreamTarget) (group : bytes) (failed : gset bytes) : task (conn * nat) :=
  match fuel with
  | O => fun t => (Diverge, t)
  | S fuel =>
      run! up := pick_upstream group failed in
      match up with
      | None =>
          if bool_decide (group = bs "default") then fail TcpError.AllUpstreamsFailed
          else try_loop fuel target (bs "default") ∅
      | Some up =>
          run! u := upstream_of up in
          run! creds := read (fun w => socks5_credentials (config_of w)) in
          run! r := attempt (connect_tcp_upstream target (Upstream.addr u) creds) in
          match r with
          | inl s => ret (s, up)
          | inr _ =>
              run! _ := penalize_upstream up in
              try_loop fuel target group ({[Upstream.id u]} ∪ failed)
          end
      end
  end.

Definition try_connect_socks5_group (fuel : nat) (target : TcpUpstreamTarget) (group : bytes) (exclude : option bytes)
    : task (conn * nat) :=
  try_loop fuel target group (match exclude with Some id => {[id]} | None => ∅ end).

(** [relay_tcp]; [None] while the relay is running. *)
Definition relay_tcp (s : conn) (up : option nat) : task (option RelayEnd.RelayEnd) := fun t =>
  let k := at_step t in
  let w := env k (world t) in
  let c := config_of w in
  let (r, e) := relay_tcp_streams fires linger_ok (now_ns k) (Config.splice c)
                  (half_close_grace (Config.half_close_timeout c)) (polls s) (ends w) in
  let t := {| at_step := S k; world := with_ends w e; dialled := dialled t; relayed := Some (s, up) |} in
  match r with
  | Ok end_ => (Ok end_, t)
  | Err e => (Err (TcpError.RelayFailed e), t)
  | Panic => (Panic, t)
  | Diverge => (Diverge, t)
  end.

(** [AppState]'s operations on the shared state. *)
Definition ask_direct (ip : IpAddr) (domain : option bytes) : task bool :=
  atomic (fun k w => let (direct, st) := should_direct (now_ns k) (app w) ip domain in Ok (direct, with_app w st)).
Definition ask_cached (client_ip target_ip : IpAddr) (domain : option bytes) : task (option nat) :=
  atomic (fun k w => let (o, st) := get_cached_upstream (now_ns k) (app w) client_ip target_ip domain in Ok (o, with_app w st)).
Definition forget_cached (client_ip target_ip : IpAddr) (domain : option bytes) : task unit :=
  update (fun _ w => with_app w (remove_cached_upstream (app w) client_ip target_ip domain)).
Definition remember (client_ip target_ip : IpAddr) (domain : option bytes) (up : nat) : task unit :=
  update (fun k w => with_app w (cache_upstream (now_ns k) (app w) client_ip target_ip domain up)).
Definition track_upstream (up : nat) : task unit :=
  update (fun k w => with_set w (on_upstream up (fun u => track u (token k) (fd k)) (set w))).

Definition pick_and_connect (fuel : nat) (target : TcpUpstreamTarget) (client_ip dst_ip : IpAddr) (domain : option bytes)
    (exclude : option bytes) : task (conn * nat) :=
  run! group := read (fun w => lookup_upstream_group (tables (app w)) client_ip dst_ip domain) in
  try_connect_socks5_group fuel target group exclude.

(** [sniff_domain] with the sniffers of the configuration. *)
Definition sniff_client : task (option bytes) := fun t =>
  let k := at_step t in
  let w := env k (world t) in
  let t := {| at_step := S k; world := w; dialled := dialled t; relayed := relayed t |} in
  match sniff_domain peek (build_sniffers (config_of w)) (Config.tcp_peek_buffer_size (config_of w)) {| now := 0; asked := [] |} with
  | Ok (host, _) => (Ok host, t)
  | Err e => match e with end
  | Panic => (Panic, t)
  | Diverge => (Diverge, t)
  end.

(** The upstream and connection of a proxied connection. *)
Definition connect_proxied (fuel : nat) (target : TcpUpstreamTarget) (client_ip target_ip : IpAddr) (domain : option bytes)
    : task (conn * nat) :=
  run! cached := ask_cached client_ip target_ip domain in
  match cached with
  | Some cached_up =>
      run! u := upstream_of cached_up in
      run! creds := read (fun w => socks5_credentials (config_of w)) in
      run! r := attempt (connect_tcp_upstream target (Upstream.addr u) creds) in
      match r with
      | inl s => ret (s, cached_up)
      | inr _ =>
          run! _ := forget_cached client_ip target_ip domain in
          run! _ := penalize_upstream cached_up in
          pick_and_connect fuel target client_ip target_ip domain (Some (Upstream.id u))
      end
  | None => pick_and_connect fuel target client_ip target_ip domain None
  end.

Definition handle_tcp_connection (fuel : nat) (client_addr orig_dst : SocketAddr) : task (option RelayEnd.RelayEnd) :=
  run! direct_by_ip := ask_direct (sa_ip orig_dst) None in
  run! need_sniff_for_geosite := read (fun w => need_geosite_sniff (app w)) in
  run! need_sniff_for_upstream := read (fun w =>
    need_upstream_domain_sniff (config_of w) (tables (app w)) (sa_ip client_addr)) in
  if direct_by_ip && negb need_sniff_for_geosite && negb need_sniff_for_upstream then
    run! s := direct_connect orig_dst in
    relay_tcp s None
  else
    run! domain :=
      if need_sniff_for_geosite || (negb direct_by_ip && need_sniff_for_upstream) then sniff_client else ret None in
    run! direct := if need_sniff_for_geosite then ask_direct (sa_ip orig_dst) domain else ret direct_by_ip in
    match decide_tcp_upstream_target orig_dst direct domain with
    | TcpUpstreamTarget.Direct target_addr =>
        run! s := direct_connect target_addr in
        relay_tcp s None
    | target =>
        run! (s, up) := connect_proxied fuel target (sa_ip client_addr) (sa_ip orig_dst) domain in
        run! _ := remember (sa_ip client_addr) (sa_ip orig_dst) domain up in
        run! _ := track_upstream up in
        relay_tcp s (Some up)
    end.

(** The handler of [run_tcp_port_forward]; the error of a relay is logged. *)
Definition port_forward_connection (fuel : nat) (remote : SocketAddr) : task (option RelayEnd.RelayEnd) :=
  run! (s, up) := try_connect_socks5_group fuel (Socks5Ip remote) (bs "default") None in
  run! _ := track_upstream up in
  relay_tcp s (Some up).
End Tcp.
Notation "'run!' x := c1 'in' c2" := (bind c1 (fun x => c2))
  (at level 10, x pattern, c1 at level 100, c2 at level 200) : res_scope.
