(* ===== verification/TcpFlow.v ===== *)
(** What TCP connections get: the proof that the handler of [Tcp] decides,
    connects and retries as specified whatever the other tasks do meanwhile. *)

From Stdlib Require Import Strings.Byte Strings.String.
From S2P Require Import Prelude Bytes Ordered Domains Routes Rules Config Sniff TcpSniff Socks5 State Scores Stats Picks Relay Tcp.
Import TcpUpstreamTarget.
#[local] Open Scope Z_scope.

Section Flow.
Context `{ops4 : !NetOps 32} `{ops6 : !NetOps 128} `{tries4 : !TrieOps 32} `{tries6 : !TrieOps 128}.
Abbreviation AppState := (AppState (Upstream := nat)).

(** * What the tasks preserve *)

(** The state without its caches and its mode, which a signal changes. *)
Definition rules_of (st : AppState) : AppState := store_proxy_mode (set_upstream_cache (set_direct_cache st ∅) ∅) Smart.
Definition mode_of (w : World) : ProxyMode := proxy_mode_from_u8 (proxy_mode (app w)).

(** The identity of an upstream. *)
Definition identity (u : upstream) : bytes * SocketAddr := (Upstream.id u, Upstream.addr u).

(** The part of the shared state that is fixed between reloads. *)
Record frame (w w' : World) : Prop := {
  fr_rules : rules_of (app w') = rules_of (app w);
  fr_groups : UpstreamSet.groups (set w') = UpstreamSet.groups (set w);
  fr_items : map identity (UpstreamSet.all_items (set w')) = map identity (UpstreamSet.all_items (set w));
}.

(** The members of a group, and the upstreams that may carry a connection of
    it: its own, and those of the default group. *)
Definition members_in (w : World) (group : bytes) : list nat := default [] (UpstreamSet.groups (set w) !! group).
Definition eligible_in (w : World) (group : bytes) (i : nat) : Prop := i ∈ members_in w group \/ i ∈ members_in w (bs "default").

(** The invariant, of a set that has recorded at most [n] picks: a remembered
    upstream is one that its connection may use. *)
Record world_ok (n : Z) (w : World) : Prop := {
  wo_set : wf_set n (set w);
  wo_coherent : coherent (app w);
  wo_cached k e : upstream_cache (app w) !! k = Some e -> eligible_in w (lookup_upstream_group (tables (app w)) k.1.1 k.1.2 k.2) e.1;
}.

#[global] Instance frame_preorder : PreOrder frame.
Proof.
  split; [by split|]. intros w1 w2 w3 [? ? ?] [? ? ?]. split; congruence.
Qed.

Lemma wf_set_mono n m us : n <= m -> wf_set n us -> wf_set m us.
Proof.
  intros Hle [? ? ? ? Hs]. split; try done. intros ps Hps. destruct (Hs ps Hps) as (k & ? & ?). exists k. split; [done|lia].
Qed.
Lemma world_ok_mono n m w : n <= m -> world_ok n w -> world_ok m w.
Proof. intros Hle [? ? ?]. split; try done. by eapply wf_set_mono. Qed.

Lemma frame_config w w' : frame w w' -> config (app w') = config (app w).
Proof. intros [H _ _]. exact (f_equal config H). Qed.
Lemma frame_tables w w' : frame w w' -> tables (app w') = tables (app w).
Proof. intros [H _ _]. exact (f_equal tables H). Qed.
Lemma frame_eligible w w' g i : frame w w' -> eligible_in w' g i <-> eligible_in w g i.
Proof. intros [_ H _]. unfold eligible_in, members_in. by rewrite H. Qed.
(** The rules in the mode of the moment. *)
Lemma mode_stored (st : AppState) m : proxy_mode_from_u8 (proxy_mode (store_proxy_mode st m)) = m.
Proof. apply mode_roundtrip. Qed.
Lemma frame_decides w w' ip d : frame w w' -> decide_direct (app w') ip d = decide_direct (store_proxy_mode (app w) (mode_of w')) ip d.
Proof.
  intros [H _ _]. transitivity (decide_direct (store_proxy_mode (rules_of (app w')) (mode_of w')) ip d).
  - unfold decide_direct, mode_of. by rewrite mode_stored.
  - rewrite H. done.
Qed.
Lemma frame_geosite w w' : frame w w' -> need_geosite_sniff (app w') = need_geosite_sniff (store_proxy_mode (app w) (mode_of w')).
Proof.
  intros [H _ _]. transitivity (need_geosite_sniff (store_proxy_mode (rules_of (app w')) (mode_of w'))).
  - unfold need_geosite_sniff, mode_of. by rewrite mode_stored.
  - rewrite H. done.
Qed.
Lemma frame_length w w' : frame w w' -> length (UpstreamSet.all_items (set w')) = length (UpstreamSet.all_items (set w)).
Proof. intros [_ _ H]. apply (f_equal length) in H. by rewrite !length_map in H. Qed.

Definition ident_at (w : World) (i : nat) : option (bytes * SocketAddr) := identity <$> UpstreamSet.all_items (set w) !! i.
Lemma frame_ident w w' i : frame w w' -> ident_at w' i = ident_at w i.
Proof. intros [_ _ H]. unfold ident_at. rewrite <- !list_lookup_fmap. exact (f_equal (fun l => l !! i) H). Qed.
Lemma ident_Some w i u : UpstreamSet.all_items (set w) !! i = Some u -> ident_at w i = Some (Upstream.id u, Upstream.addr u).
Proof. intros H. unfold ident_at. by rewrite H. Qed.

Lemma eligible_bound n w g i : world_ok n w -> eligible_in w g i -> (i < length (UpstreamSet.all_items (set w)))%nat.
Proof.
  intros Hw [H|H]; unfold members_in in H; (destruct (_ !! _) as [items|] eqn:E; [|by apply elem_of_nil in H]);
    apply (ws_groups _ _ (wo_set _ _ Hw)) in E as [Hi _]; rewrite Forall_forall in Hi; by apply Hi.
Qed.
(** The group does not depend on the spelling of the name. *)
Lemma group_normalized (t : RouteTables) c ip d : lookup_upstream_group t c ip (normalize_domain d) = lookup_upstream_group t c ip d.
Proof.
  destruct d as [d|]; [|done]. unfold lookup_upstream_group, normalize_domain, option_map.
  assert (forall tab : DomainRouteTable, table_lookup tab (canonical_domain d) = table_lookup tab d) as E
    by (intros tab; unfold table_lookup; by rewrite canonical_domain_idem).
  assert (find_map_matching (client_domain_routes t) c (fun tab => table_lookup tab (canonical_domain d)) =
          find_map_matching (client_domain_routes t) c (fun tab => table_lookup tab d)) as ->; [|done].
  unfold find_map_matching. by destruct c; apply find_map_ext.
Qed.

Lemma ident_unique n w i j id a b :
  world_ok n w -> ident_at w i = Some (id, a) -> ident_at w j = Some (id, b) -> a = b.
Proof.
  intros Hw Hi Hj. pose proof (ws_ids _ _ (wo_set _ _ Hw)) as Hn. unfold ident_at in *.
  apply fmap_Some in Hi as (u & Hu & [= -> ->]). apply fmap_Some in Hj as (v & Hv & [= E ->]).
  assert (i = j) as ->; [|congruence]. eapply NoDup_lookup; [exact Hn|..]; apply list_lookup_fmap_Some; [by exists u|by exists v].
Qed.

(** ** The operations keep the invariant *)

Lemma on_upstream_ok n w i (f : upstream -> upstream) :
  world_ok n w -> (forall u, wf_upstream u -> wf_upstream (f u)) -> (forall u, identity (f u) = identity u) ->
  world_ok n (with_set w (on_upstream i f (set w))) /\ frame w (with_set w (on_upstream i f (set w))).
Proof.
  intros [[Hu Hid Hg Ht Hs] Hc Hk] Hf Hi.
  assert (forall l, map identity (alter f i l) = map identity l) as Hmap.
  { intros l. revert i; induction l as [|u l IH]; intros [|i]; cbn; [done..|by rewrite Hi|]. f_equal. apply IH. }
  assert (forall l, map Upstream.id (alter f i l) = map Upstream.id l) as Hids.
  { intros l. pose proof (f_equal (map fst) (Hmap l)) as E. by rewrite !map_map in E. }
  split; [|split; cbn; [done|done|apply Hmap]]. split; [|done|exact Hk].
  split; cbn; rewrite ?Hids, ?length_alter; try done.
  apply Forall_alter; [done|]. intros u _. apply Hf.
Qed.

Lemma ask_direct_ok n w now ip domain :
  world_ok n w ->
  let w' := with_app w (should_direct now (app w) ip domain).2 in
  (should_direct now (app w) ip domain).1 = decide_direct (app w) ip domain /\ world_ok n w' /\ frame w w'.
Proof.
  intros [Hs Hc Hk]. destruct (should_direct_decides now (app w) ip domain Hc) as (Hd & Hc' & E). cbv zeta.
  split; [done|]. split; [split; cbn; [done|done|by rewrite E]|split; cbn; [by rewrite E|done..]].
Qed.

Lemma upstream_cache_ok (n : Z) (w : World) (c : gmap (IpAddr * IpAddr * option bytes) (nat * Z)) :
  world_ok n w -> (forall k e, c !! k = Some e -> eligible_in w (lookup_upstream_group (tables (app w)) k.1.1 k.1.2 k.2) e.1) ->
  world_ok n (with_app w (set_upstream_cache (app w) c)) /\ frame w (with_app w (set_upstream_cache (app w) c)).
Proof. intros [Hs Hc Hk] H. split; [split; [exact Hs|exact Hc|exact H]|by split]. Qed.

Lemma get_cached_ok n w now client_ip target_ip domain :
  world_ok n w ->
  let w' := with_app w (get_cached_upstream now (app w) client_ip target_ip domain).2 in
  world_ok n w' /\ frame w w' /\
  forall up, (get_cached_upstream now (app w) client_ip target_ip domain).1 = Some up ->
    eligible_in w (lookup_upstream_group (tables (app w)) client_ip target_ip domain) up.
Proof.
  intros Hw. cbv zeta. assert (world_ok n (with_app w (app w)) /\ frame w (with_app w (app w))) as [H1 H2] by (by destruct w).
  unfold get_cached_upstream. destruct (_ =? 0); [done|]. destruct (upstream_cache (app w) !! _) as [[up t]|] eqn:E; [|done].
  destruct (fresh _ _ _); cbn [fst snd].
  - split; [done|]. split; [done|]. intros ? [= <-]. apply (wo_cached _ _ Hw) in E. cbn in E. by rewrite group_normalized in E.
  - destruct (upstream_cache_ok n w (delete (client_ip, target_ip, normalize_domain domain) (upstream_cache (app w))) Hw);
      [|by split_and!].
    intros k e [_ He]%lookup_delete_Some. by apply (wo_cached _ _ Hw) in He.
Qed.

Lemma cache_upstream_ok n w now client_ip target_ip domain up :
  world_ok n w -> eligible_in w (lookup_upstream_group (tables (app w)) client_ip target_ip domain) up ->
  let w' := with_app w (cache_upstream now (app w) client_ip target_ip domain up) in world_ok n w' /\ frame w w'.
Proof.
  intros Hw Hup. cbv zeta. unfold cache_upstream. destruct (_ =? 0); [by destruct w|]. apply upstream_cache_ok; [done|].
  intros k e. rewrite cache_insert_lookup. destruct (decide _) as [<-|]; [intros [= <-]; cbn; by rewrite group_normalized|].
  destruct (upstream_cache (app w) !! k) as [[u t]|] eqn:E; [|done]. destruct (_ && _); [done|].
  intros [= <-]. by apply (wo_cached _ _ Hw) in E.
Qed.

Lemma remove_cached_ok n w client_ip target_ip domain :
  world_ok n w ->
  let w' := with_app w (remove_cached_upstream (app w) client_ip target_ip domain) in world_ok n w' /\ frame w w'.
Proof.
  intros Hw. apply upstream_cache_ok; [done|]. intros k e [_ He]%lookup_delete_Some. by apply (wo_cached _ _ Hw) in He.
Qed.

(** Without rules on domains the name does not matter to going direct. *)
Lemma unsniffed_decides (st : AppState) ip d : need_geosite_sniff st = false -> decide_direct st ip d = decide_direct st ip None.
Proof.
  unfold need_geosite_sniff, decide_direct. destruct (proxy_mode_from_u8 (proxy_mode st)) eqn:Em; try done.
  destruct (negb (domain_set_is_empty (force_direct_domains st)) || negb (domain_set_is_empty (force_socks5_domains st))) eqn:E; [done|].
  apply orb_false_iff in E as [E1 E2]. apply negb_false_iff in E1, E2.
  assert (forall s, domain_set_is_empty s = true -> forall c, bool_decide (matches_canonical s c = Some true) = false) as Hempty.
  { intros s [He Hs]%andb_true_iff c. apply bool_decide_eq_true in He, Hs. apply bool_decide_eq_false.
    unfold matches_canonical. rewrite He, bool_decide_eq_false_2 by set_solver. rewrite Hs.
    destruct (suffix_loop_spec ∅ (S (length c)) c) as (b & -> & Hb); [lia|]. intros [= ->].
    destruct (proj1 Hb eq_refl) as (s' & Hs' & _). set_solver. }
  intros Hg. unfold domain_rules. destruct d as [d|]; [|done]. rewrite !Hempty by done.
  destruct (compiled_geosite st) as [compiled|]; [|done]. cbn [is_some andb] in Hg.
  destruct (Config.proxy_geosite_tags (config st)), (Config.direct_geosite_tags (config st)); done.
Qed.

(** * Surroundings *)

Context {runtime : Runtime}.
(** The state at the beginning, the picks recorded by then, the most that the
    other tasks record between two steps, and the number of steps. *)
Context (w0 : World) (n0 others : Z) (horizon : nat).
(** The mode in force at each step, which the user changes by a signal. *)
Context (mode_at : nat -> ProxyMode).

(** The other tasks keep the invariant and what is fixed between reloads; the
    clocks, the random numbers, the timer and tokio's copy are lawful, and
    fewer than 2^64 picks are recorded in all. *)
Record lawful : Prop := {
  law_env k n w : world_ok n w -> world_ok (n + others) (env k w) /\ frame w (env k w) /\ mode_of (env k w) = mode_at k;
  law_rand k : draw_lawful (rand k);
  law_secs k : 0 <= now_secs k <= U64_MAX;
  law_count : 0 <= others /\ n0 + Z.of_nat horizon * (others + 1) < U64_MAX;
  law_cap : Config.tcp_peek_buffer_size (config (app w0)) <= USIZE_MAX;
  law_peek n len : match peek n len with PeekBuf d _ | PeekErr d => 0 <= d | PeekNever => True end;
  law_fires d d' t : d <= d' -> fires d' t = true -> fires d t = true;
  law_polls s : clock_ordered (polls s) /\ copy_lawful (polls s) /\
    forall p, p ∈ polls s -> clock p + Config.half_close_timeout (config (app w0)) * 1000000000 <= INSTANT_MAX;
}.
Context (laws : lawful).

Definition picks_by (k : nat) : Z := n0 + Z.of_nat k * (others + 1).

Record task_ok (t : Task) : Prop := {
  to_world : world_ok (picks_by (at_step t)) (world t);
  to_frame : frame w0 (world t);
}.

(** [m] run at [t] returns within [c] steps, with the invariant and [Q]. *)
Definition wp (c : nat) {A} (m : task A) (t : Task) (Q : tcp_res A -> Task -> Prop) : Prop :=
  exists r t', m t = (r, t') /\ returns r /\ task_ok t' /\ (at_step t' <= at_step t + c)%nat /\ Q r t'.

(** Nothing was dialled or relayed. *)
Definition same_net (t t' : Task) : Prop := dialled t' = dialled t /\ relayed t' = relayed t.

Lemma wp_ret {A} (a : A) t (Q : tcp_res A -> Task -> Prop) : task_ok t -> Q (Ok a) t -> wp 0 (ret a) t Q.
Proof. intros Ht HQ. exists (Ok a), t. by split_and!; [| | |lia|]. Qed.

Lemma wp_fail {A} e t (Q : tcp_res A -> Task -> Prop) : task_ok t -> Q (Err e) t -> wp 0 (fail e) t Q.
Proof. intros Ht HQ. exists (Err e), t. by split_and!; [| | |lia|]. Qed.

Lemma wp_bind {A B} c1 c2 (m : task A) (f : A -> task B) t (Q1 : tcp_res A -> Task -> Prop) (Q : tcp_res B -> Task -> Prop) :
  wp c1 m t Q1 ->
  (forall a t1, task_ok t1 -> (at_step t1 <= at_step t + c1)%nat -> Q1 (Ok a) t1 -> wp c2 (f a) t1 Q) ->
  (forall e t1, Q1 (Err e) t1 -> Q (Err e) t1) -> wp (c1 + c2) (bind m f) t Q.
Proof.
  intros (r & t1 & E & Hr & Ht1 & Hc & HQ1) Hf He. unfold wp, bind. rewrite E. destruct r as [a|e| |]; try done.
  - destruct (Hf a t1 Ht1 Hc HQ1) as (r & t2 & E2 & Hr2 & Ht2 & Hc2 & HQ). exists r, t2. split_and!; try done. lia.
  - exists (Err e), t1. split_and!; try done; [lia|]. by apply He.
Qed.

Lemma wp_weaken {A} c c' (m : task A) t (Q Q' : tcp_res A -> Task -> Prop) :
  (c <= c')%nat -> wp c m t Q -> (forall r t', returns r -> task_ok t' -> Q r t' -> Q' r t') -> wp c' m t Q'.
Proof.
  intros Hc (r & t' & E & Hr & Ht & Hs & HQ) H. exists r, t'. split_and!; try done; [lia|]. by apply H.
Qed.

Lemma wp_attempt {A} c (m : task A) t (Q : tcp_res A -> Task -> Prop) :
  wp c m t Q ->
  wp c (attempt m) t (fun r t' => match r with Ok (inl a) => Q (Ok a) t' | Ok (inr e) => Q (Err e) t' | _ => False end).
Proof.
  intros (r & t' & E & Hr & Ht & Hs & HQ). unfold wp, attempt. rewrite E. destruct r as [a|e| |]; try done.
  - by exists (Ok (inl a)), t'.
  - by exists (Ok (inr e)), t'.
Qed.

(** One step: it runs after the other tasks. *)
Lemma step_ok t (after : Task) w' :
  task_ok t -> (at_step t < horizon)%nat -> at_step after = S (at_step t) -> world after = w' ->
  (world_ok (picks_by (at_step t) + others) (env (at_step t) (world t)) -> frame w0 (env (at_step t) (world t)) ->
   world_ok (picks_by (at_step t) + others + 1) w' /\ frame (env (at_step t) (world t)) w') ->
  task_ok after.
Proof.
  intros [Hw Hf] Hk Ek Ew H. destruct (law_env laws (at_step t) _ _ Hw) as (Hwe & Hfe & _).
  destruct (H Hwe ltac:(by etransitivity)) as [Hw' Hf']. subst w'. split.
  - rewrite Ek. unfold picks_by in *. eapply world_ok_mono; [|exact Hw']. lia.
  - etransitivity; [|exact Hf']. by etransitivity.
Qed.

(** The rules in force at a step. *)
Definition rules_at (k : nat) : AppState := store_proxy_mode (app w0) (mode_at k).

Lemma wp_atomic_at {A} (f : nat -> World -> checked (A * World)) t (Q : tcp_res A -> Task -> Prop) :
  task_ok t -> (at_step t < horizon)%nat ->
  (forall n w, n < U64_MAX -> world_ok n w -> frame w0 w -> mode_of w = mode_at (at_step t) ->
     exists a w', f (at_step t) w = Ok (a, w') /\ world_ok (n + 1) w' /\ frame w w' /\
       forall t', same_net t t' -> at_step t' = S (at_step t) -> Q (Ok a) t') ->
  wp 1 (atomic f) t Q.
Proof.
  intros Ht Hk H. destruct (law_env laws (at_step t) _ _ (to_world _ Ht)) as (Hwe & Hfe & Hm). destruct (law_count laws) as [Ho Hn].
  assert (frame w0 (env (at_step t) (world t))) as Hf0 by (etransitivity; [exact (to_frame _ Ht)|done]).
  destruct (H (picks_by (at_step t) + others) (env (at_step t) (world t))) as (a & w' & E & Hw' & Hf' & HQ); [unfold picks_by; nia|done..|].
  unfold wp, atomic. rewrite E. eexists (Ok a), _. split; [done|]. split; [done|].
  split; [by eapply step_ok|]. split; [cbn; lia|]. by apply HQ.
Qed.
Lemma wp_atomic {A} (f : nat -> World -> checked (A * World)) t (Q : tcp_res A -> Task -> Prop) :
  task_ok t -> (at_step t < horizon)%nat ->
  (forall n w, n < U64_MAX -> world_ok n w -> frame w0 w -> exists a w', f (at_step t) w = Ok (a, w') /\
     world_ok (n + 1) w' /\ frame w w' /\ forall t', same_net t t' -> Q (Ok a) t') ->
  wp 1 (atomic f) t Q.
Proof.
  intros Ht Hk H. apply wp_atomic_at; [done..|]. intros n w Hn Hw Hf _. destruct (H n w Hn Hw Hf) as (a & w' & ? & ? & ? & HQ).
  exists a, w'. split_and!; auto.
Qed.

Lemma wp_read_at {A} (f : World -> A) t (Q : tcp_res A -> Task -> Prop) :
  task_ok t -> (at_step t < horizon)%nat ->
  (forall w t', frame w0 w -> mode_of w = mode_at (at_step t) -> same_net t t' -> at_step t' = S (at_step t) -> Q (Ok (f w)) t') ->
  wp 1 (read f) t Q.
Proof.
  intros Ht Hk HQ. apply wp_atomic_at; [done..|]. intros n w Hn Hw Hf Hm. exists (f w), w. split; [done|].
  split; [eapply world_ok_mono; [|done]; lia|]. split; [done|]. auto.
Qed.
Lemma wp_read {A} (f : World -> A) t (Q : tcp_res A -> Task -> Prop) :
  task_ok t -> (at_step t < horizon)%nat ->
  (forall w t', frame w0 w -> same_net t t' -> Q (Ok (f w)) t') -> wp 1 (read f) t Q.
Proof. intros Ht Hk HQ. apply wp_read_at; auto. Qed.

Lemma wp_update (f : nat -> World -> World) t (Q : tcp_res unit -> Task -> Prop) :
  task_ok t -> (at_step t < horizon)%nat ->
  (forall n w, world_ok n w -> frame w0 w -> world_ok n (f (at_step t) w) /\ frame w (f (at_step t) w)) ->
  (forall t', same_net t t' -> Q (Ok tt) t') -> wp 1 (update f) t Q.
Proof.
  intros Ht Hk Hf HQ. apply wp_atomic; [done..|]. intros n w Hn Hw Hfr. exists tt, (f (at_step t) w). split; [done|].
  destruct (Hf n w Hw Hfr). split; [eapply world_ok_mono; [|done]; lia|]. auto.
Qed.

(** * Connections *)

(** The connection [s] to [addr] after the handshake [hs]. *)
Definition opened (addr : SocketAddr) (hs : io unit) (s : conn) : Prop :=
  exists k c, late k = false /\ dial k addr = Some c /\ hs c = (Ok tt, s).

Lemma wp_connect addr hs t (Q : tcp_res conn -> Task -> Prop) :
  task_ok t -> (at_step t < horizon)%nat -> (forall c, returns (fst (hs c))) ->
  (forall r t', dialled t' = dialled t ++ [addr] -> relayed t' = relayed t ->
     match r with Ok s => opened addr hs s | _ => True end -> Q r t') ->
  wp 1 (connect addr hs) t Q.
Proof.
  intros Ht Hk Hhs HQ. unfold wp, connect.
  set (t1 := {| at_step := S (at_step t); world := _; dialled := _; relayed := _ |}).
  assert (task_ok t1) as Ht1.
  { eapply step_ok; [exact Ht|done|done|done|]. intros Hw _. split; [|done]. eapply world_ok_mono; [|exact Hw]. lia. }
  assert (forall r, returns r -> match r with Ok s => opened addr hs s | _ => True end ->
    exists r' t', (r, t1) = (r', t') /\ returns r' /\ task_ok t' /\ (at_step t' <= at_step t + 1)%nat /\ Q r' t') as Hend.
  { intros r Hr Ho. exists r, t1. split_and!; try done; [cbn; lia|by apply HQ]. }
  destruct (late (at_step t)) eqn:El; [by apply Hend|]. destruct (dial (at_step t) addr) as [c|] eqn:Ed; [|by apply Hend].
  pose proof (Hhs c) as Hc. destruct (hs c) as [[[]|e| |] s] eqn:Eh; try done; [|by apply Hend].
  apply Hend; [done|]. by exists (at_step t), c.
Qed.

Definition creds0 : option (bytes * bytes) := socks5_credentials (config (app w0)).
(** The handshake that asks the proxy for a target. *)
Definition handshake (target : TcpUpstreamTarget) : io unit :=
  match target with
  | TcpUpstreamTarget.Direct _ => io_ret tt
  | Socks5Ip addr => socks5_connect (TargetIp addr) creds0
  | Socks5Domain host port => socks5_connect (TargetDomain host port) creds0
  end.
Definition proxied (target : TcpUpstreamTarget) : Prop := match target with TcpUpstreamTarget.Direct _ => False | _ => True end.

Definition addr_at (i : nat) : option SocketAddr := snd <$> ident_at w0 i.
(** The target, reached through upstream [i]. *)
Definition through (target : TcpUpstreamTarget) (i : nat) (s : conn) : Prop :=
  exists a, addr_at i = Some a /\ opened a (handshake target) s.

Lemma handshake_returns target c : returns (fst (handshake target c)).
Proof. destruct target; [done|apply socks5_connect_returns..]. Qed.

Lemma wp_connect_upstream target i u t (Q : tcp_res conn -> Task -> Prop) :
  proxied target -> task_ok t -> (at_step t < horizon)%nat -> ident_at w0 i = Some (identity u) ->
  (forall r t', dialled t' = dialled t ++ [Upstream.addr u] -> relayed t' = relayed t ->
     match r with Ok s => through target i s | _ => True end -> Q r t') ->
  wp 1 (connect_tcp_upstream target (Upstream.addr u) creds0) t Q.
Proof.
  intros Hp Ht Hk Hi HQ.
  assert (connect_tcp_upstream target (Upstream.addr u) creds0 = connect (Upstream.addr u) (handshake target)) as ->
    by (by destruct target).
  apply wp_connect; [done..|apply handshake_returns|]. intros r t' Hd Hr Ho. apply HQ; [done..|].
  destruct r as [s| | |]; try done. exists (Upstream.addr u). split; [|done]. unfold addr_at. by rewrite Hi.
Qed.

(** * Retries *)

Abbreviation members := (members_in w0).
(** The members of a group that have not failed. *)
Definition free (group : bytes) (failed : gset bytes) : list nat :=
  filter (fun i => excluded (set w0) failed i = false) (members group).
(** The upstreams that the retry loop can still try. *)
Definition tries (group : bytes) (failed : gset bytes) : nat :=
  (length (free group failed) + (if bool_decide (group = bs "default") then 0 else S (length (members (bs "default")))))%nat.
Abbreviation eligible := (eligible_in w0).

Lemma excluded_ident w failed i :
  excluded (set w) failed i = match ident_at w i with Some (id, _) => bool_decide (id ∈ failed) | None => true end.
Proof. unfold excluded, ident_at. by destruct (_ !! i). Qed.
Lemma excluded_frame w failed i : frame w0 w -> excluded (set w) failed i = excluded (set w0) failed i.
Proof. intros H. by rewrite !excluded_ident, (frame_ident _ _ _ H). Qed.

Lemma free_less group failed i id a :
  i ∈ members group -> ident_at w0 i = Some (id, a) -> id ∉ failed ->
  (length (free group ({[id]} ∪ failed)) < length (free group failed))%nat.
Proof.
  intros Hi Hid Hf.
  assert (forall j, excluded (set w0) ({[id]} ∪ failed) j = false -> excluded (set w0) failed j = false) as Himp.
  { intros j. rewrite !excluded_ident. destruct (ident_at w0 j) as [[id' a']|]; [|done].
    rewrite !bool_decide_eq_false. set_solver. }
  unfold free. revert Hi. generalize (members group).
  assert (forall l, (length (filter (fun j => excluded (set w0) ({[id]} ∪ failed) j = false) l) <=
     length (filter (fun j => excluded (set w0) failed j = false) l))%nat) as Hle.
  { intros l. induction l as [|j l IH]; [done|]. rewrite !filter_cons. specialize (Himp j).
    repeat destruct (decide _); cbn; try lia; tauto. }
  intros l. induction l as [|j l IH]; intros Hin; [by apply elem_of_nil in Hin|].
  rewrite !filter_cons. apply elem_of_cons in Hin as [<-|Hin].
  - rewrite decide_False, decide_True; [cbn; specialize (Hle l); lia|..]; rewrite excluded_ident, Hid.
    + by apply bool_decide_eq_false.
    + apply not_false_iff_true, bool_decide_eq_true. set_solver.
  - specialize (IH Hin). specialize (Himp j). repeat destruct (decide _); cbn; try lia; tauto.
Qed.

(** What a pick answers, within the group as it was at the beginning. *)
Lemma wp_pick group failed t (Q : tcp_res (option nat) -> Task -> Prop) :
  task_ok t -> (at_step t < horizon)%nat ->
  (forall o t', same_net t t' ->
     match o with
     | None => free group failed = []
     | Some i => i ∈ members group /\ exists id a, ident_at w0 i = Some (id, a) /\ id ∉ failed
     end -> Q (Ok o) t') ->
  wp 1 (pick_upstream group failed) t Q.
Proof.
  intros Ht Hk HQ. apply wp_atomic; [done..|]. intros n w Hn Hw Hf. pose proof (wo_set _ _ Hw) as Hs.
  assert ((if bool_decide (failed = ∅) then pick_from_group (now_secs (at_step t)) (rand (at_step t)) (set w) group
           else pick_excluding_many_from_group (now_secs (at_step t)) (rand (at_step t)) (set w) group failed) =
          pick_excluding_many_from_group (now_secs (at_step t)) (rand (at_step t)) (set w) group failed) as ->.
  { destruct (bool_decide _) eqn:E; [|done]. apply bool_decide_eq_true in E as ->. by eapply pick_excluding_none. }
  destruct (pick_excluding_ok n _ (set w) (rand (at_step t)) group failed Hs Hn (law_secs laws (at_step t)) (law_rand laws _))
    as (o & us & -> & Hus & Ho). cbn [res_bind].
  assert (UpstreamSet.groups (set w) !! group = UpstreamSet.groups (set w0) !! group) as Eg by (by rewrite (fr_groups _ _ Hf)).
  rewrite Eg in Ho. fold (members group) in Ho.
  assert (frame w (with_set w us) /\ UpstreamSet.all_items us = UpstreamSet.all_items (set w)) as [Hfr Eitems].
  { destruct o as [i|]; cbv zeta in Ho; [destruct Ho as (u & _ & _ & _ & (E1 & E2 & _) & _)|destruct Ho as [-> _]]; [|by destruct w].
    split; [|done]. split; cbn; congruence. }
  exists o, (with_set w us). split; [done|]. split; [|split; [done|]].
  - destruct Hw as [_ Hc Hck]. split; [done|done|]. intros k e He. apply (frame_eligible _ _ _ _ Hfr). by apply (Hck k e).
  - intros t' Hnet. apply HQ; [done|]. destruct o as [i|]; cbv zeta in Ho.
    + destruct Ho as (u & Hi & Hu & Hex & _). split; [done|]. exists (Upstream.id u), (Upstream.addr u).
      split; [|done]. rewrite <- (frame_ident _ _ i Hf). by apply ident_Some.
    + destruct Ho as [_ Hall]. unfold free.
      destruct (filter _ (members group)) as [|j l] eqn:E; [done|exfalso].
      assert (j ∈ filter (fun i => excluded (set w0) failed i = false) (members group)) as Hj by (rewrite E; by left).
      apply list_elem_of_filter in Hj as [Hj Hm]. rewrite <- (excluded_frame w) in Hj by done. unfold excluded in Hj.
      destruct (_ !! j) as [u|] eqn:Eu; [|done]. apply bool_decide_eq_false in Hj. by apply Hj, (Hall j u).
Qed.

Lemma wp_upstream i t (Q : tcp_res upstream -> Task -> Prop) :
  task_ok t -> (at_step t < horizon)%nat -> (i < length (UpstreamSet.all_items (set w0)))%nat ->
  (forall u t', same_net t t' -> ident_at w0 i = Some (identity u) -> Q (Ok u) t') -> wp 1 (upstream_of i) t Q.
Proof.
  intros Ht Hk Hi HQ. apply wp_atomic; [done..|]. intros n w Hn Hw Hf. rewrite <- (frame_length _ _ Hf) in Hi.
  apply lookup_lt_is_Some_2 in Hi as [u Hu]. unfold get. rewrite Hu. cbn [or_panic res_bind]. exists u, w. split; [done|].
  split; [eapply world_ok_mono; [|done]; lia|]. split; [done|]. intros t' Hnet. apply HQ; [done|].
  rewrite <- (frame_ident _ _ i Hf). by apply ident_Some.
Qed.

Lemma wp_creds t (Q : tcp_res (option (bytes * bytes)) -> Task -> Prop) :
  task_ok t -> (at_step t < horizon)%nat -> (forall t', same_net t t' -> Q (Ok creds0) t') ->
  wp 1 (read (fun w => socks5_credentials (config_of w))) t Q.
Proof.
  intros Ht Hk HQ. apply wp_read; [done..|]. intros w t' Hf Hnet. unfold config_of. rewrite (frame_config _ _ Hf). by apply HQ.
Qed.

Lemma wp_penalize i t (Q : tcp_res unit -> Task -> Prop) :
  task_ok t -> (at_step t < horizon)%nat -> (forall t', same_net t t' -> Q (Ok tt) t') -> wp 1 (penalize_upstream i) t Q.
Proof.
  intros Ht Hk HQ. apply wp_update; [done..| |done]. intros n w Hw Hf. destruct (Config.disable_upstream_score _); [done|].
  apply on_upstream_ok; [done| |done]. intros u. apply penalize_wf. apply law_secs; exact laws.
Qed.

(** Trying upstream [i]: one address is dialled, and the target is reached
    through it or not. *)
Lemma wp_try_upstream {A} target i c (K : upstream -> conn + TcpError.TcpError -> task A) t (Q : tcp_res A -> Task -> Prop) :
  proxied target -> task_ok t -> (at_step t + 3 <= horizon)%nat -> (i < length (UpstreamSet.all_items (set w0)))%nat ->
  (forall u r t', task_ok t' -> (at_step t' <= at_step t + 3)%nat -> ident_at w0 i = Some (identity u) ->
     dialled t' = dialled t ++ [Upstream.addr u] -> relayed t' = relayed t ->
     match r with inl s => through target i s | inr _ => True end -> wp c (K u r) t' Q) ->
  wp (3 + c)
    (run! u := upstream_of i in
     run! creds := read (fun w => socks5_credentials (config_of w)) in
     run! r := attempt (connect_tcp_upstream target (Upstream.addr u) creds) in
     K u r) t Q.
Proof.
  intros Hp Ht Hk Hi HK.
  apply (wp_bind 1 (2 + c) _ _ t (fun r t' => match r with Ok u => same_net t t' /\ ident_at w0 i = Some (identity u) | _ => False end)).
  { apply wp_upstream; [done|lia|done|]. done. }
  2: done. intros u t1 Ht1 Hk1 [[Hd1 Hr1] Hu].
  apply (wp_bind 1 (1 + c) _ _ t1 (fun r t' => match r with Ok creds => same_net t1 t' /\ creds = creds0 | _ => False end)).
  { apply wp_creds; [done|lia|done]. }
  2: done. intros creds t2 Ht2 Hk2 [[Hd2 Hr2] ->].
  eapply (wp_bind 1 c).
  - apply wp_attempt. apply (wp_connect_upstream target i u t2 (fun r t' => dialled t' = dialled t2 ++ [Upstream.addr u] /\
      relayed t' = relayed t2 /\ match r with Ok s => through target i s | _ => True end)); [done|done|lia|done|done].
  - intros r t3 Ht3 Hk3 Hr. assert (dialled t3 = dialled t2 ++ [Upstream.addr u] /\ relayed t3 = relayed t2 /\
      match r with inl s => through target i s | inr _ => True end) as (Hd3 & Hr3 & Hth) by (by destruct r).
    apply HK; [done|lia|done|by rewrite Hd3, Hd2, Hd1|congruence|done].
  - done.
Qed.

(** The outcome of looking for an upstream: the addresses dialled are those of
    eligible upstreams; the target is reached through one of them, or every
    one of them was dialled in vain. *)
Definition connects (target : TcpUpstreamTarget) (group : bytes) (ok : nat -> Prop) (limit : nat) (t : Task)
    (r : tcp_res (conn * nat)) (t' : Task) : Prop :=
  relayed t' = relayed t /\
  (exists new, dialled t' = dialled t ++ new /\ (length new <= limit)%nat /\
     forall a, a ∈ new -> exists i, addr_at i = Some a /\ ok i) /\
  match r with
  | Ok (s, i) => ok i /\ through target i s
  | Err e => e = TcpError.AllUpstreamsFailed /\ forall i a, eligible group i -> addr_at i = Some a -> a ∈ dialled t'
  | _ => False
  end.

(** The failed upstreams were dialled. *)
Definition failed_dialled (group : bytes) (failed : gset bytes) (t : Task) : Prop :=
  forall i a, i ∈ members group -> excluded (set w0) failed i = true -> addr_at i = Some a -> a ∈ dialled t.
(** Every member of the group was dialled before a fallback. *)
Definition group_dialled (group : bytes) (t : Task) : Prop :=
  forall i a, i ∈ members group -> addr_at i = Some a -> a ∈ dialled t.

Lemma free_nil_dialled group failed t :
  free group failed = [] -> failed_dialled group failed t -> group_dialled group t.
Proof.
  intros Hnil Hf i a Hi Ha. apply (Hf i a Hi); [|done]. destruct (excluded (set w0) failed i) eqn:E; [done|].
  assert (i ∈ free group failed) as H by (by apply list_elem_of_filter). rewrite Hnil in H. by apply elem_of_nil in H.
Qed.

Lemma tries_default group failed :
  group <> bs "default" -> (tries (bs "default") ∅ < tries group failed)%nat.
Proof.
  intros Hg. unfold tries. rewrite bool_decide_eq_true_2, bool_decide_eq_false_2 by done.
  pose proof (length_filter (fun i => excluded (set w0) ∅ i = false) (members (bs "default"))) as Hl.
  fold (free (bs "default") ∅) in Hl. lia.
Qed.

Lemma connects_more target group ok ok' limit limit' t t1 r t' new :
  relayed t1 = relayed t -> dialled t1 = dialled t ++ new ->
  (forall a, a ∈ new -> exists i, addr_at i = Some a /\ ok' i) -> (length new + limit <= limit')%nat ->
  (forall i, ok i -> ok' i) ->
  connects target group ok limit t1 r t' -> connects target group ok' limit' t r t'.
Proof.
  intros Hr Hd Hn Hl Hok (Hr' & (new' & Hd' & Hl' & Hn') & H). split; [congruence|]. split.
  - exists (new ++ new'). rewrite Hd', Hd, <- app_assoc, length_app. split; [done|]. split; [lia|].
    intros a [Ha|Ha]%elem_of_app; [by apply Hn|]. destruct (Hn' a Ha) as (i & ? & ?). eauto.
  - destruct r as [[s i]|e| |]; try done. destruct H as [Hi ?]. split; [by apply Hok|done].
Qed.

Lemma try_loop_ok target : proxied target -> forall fuel group failed t,
  task_ok t -> (tries group failed < fuel)%nat -> (at_step t + 5 * S (tries group failed) <= horizon)%nat ->
  failed_dialled group failed t ->
  wp (5 * S (tries group failed)) (try_loop fuel target group failed) t
    (connects target group (eligible group) (tries group failed) t).
Proof.
  intros Hp fuel. induction fuel as [|fuel IH]; intros group failed t Ht Hfuel Hk Hfd; [lia|]. cbn [try_loop].
  replace (5 * S (tries group failed))%nat with (1 + (3 + (1 + 5 * tries group failed)))%nat by lia.
  apply (wp_bind 1 _ _ _ t (fun r t' => same_net t t' /\ match r with
    | Ok None => free group failed = []
    | Ok (Some i) => i ∈ members group /\ exists id a, ident_at w0 i = Some (id, a) /\ id ∉ failed
    | _ => False end)); [| |intros e t1 [_ []]].
  { apply wp_pick; [done|lia|]. intros o t' Hnet Ho. split; [done|]. by destruct o. }
  intros o t1 Ht1 Hk1 [[Hd1 Hr1] Ho]. destruct o as [i|].
  - destruct Ho as (Hi & id & a & Hid & Hf). assert (eligible group i) as He by (by left).
    apply wp_try_upstream; [done|done|lia| |].
    { unfold ident_at in Hid. apply fmap_Some in Hid as (u & Hu & _). by eapply lookup_lt_Some. }
    intros u r t2 Ht2 Hk2 Hu Hd2 Hr2 Hth. rewrite Hu in Hid. injection Hid as Eid Eaddr. subst id a.
    pose proof (free_less group failed i _ _ Hi Hu Hf) as Hless.
    assert (forall a, a ∈ [Upstream.addr u] -> exists i, addr_at i = Some a /\ eligible group i) as Hnew.
    { intros a ->%list_elem_of_singleton. exists i. split; [|done]. unfold addr_at. by rewrite Hu. }
    destruct r as [s|e].
    + eapply wp_weaken; [|apply (wp_ret (s, i) t2 (connects target group (eligible group) (tries group failed) t)); [done|]|done]; [lia|].
      split; [congruence|]. split; [|done]. exists [Upstream.addr u]. split; [congruence|]. split; [unfold tries; cbn; lia|done].
    + apply (wp_bind 1 _ _ _ t2 (fun r t' => match r with Ok _ => same_net t2 t' | _ => False end)); [| |done].
      { by apply wp_penalize; [done|lia|]. }
      intros [] t3 Ht3 Hk3 [Hd3 Hr3]. set (failed' := {[Upstream.id u]} ∪ failed) in *.
      assert (tries group failed' < tries group failed)%nat as Htries by (unfold tries; lia).
      eapply wp_weaken; [|apply (IH group failed' t3); [done|lia|lia|]|]; [lia| |].
      * intros j b Hj Hex Hb. rewrite Hd3, Hd2, Hd1. apply elem_of_app. rewrite excluded_ident in Hex.
        unfold addr_at in Hb. destruct (ident_at w0 j) as [[idj aj]|] eqn:Ej; [|done]. injection Hb as <-.
        apply bool_decide_eq_true in Hex. destruct (decide (idj ∈ failed)) as [Hin|Hout].
        -- left. apply (Hfd j); [done| |by unfold addr_at; rewrite Ej]. rewrite excluded_ident, Ej. by apply bool_decide_eq_true.
        -- right. apply elem_of_union in Hex as [->%elem_of_singleton|]; [|done]. apply list_elem_of_singleton.
           rewrite <- (frame_ident _ _ _ (to_frame _ Ht)) in Hu. rewrite <- (frame_ident _ _ _ (to_frame _ Ht)) in Ej.
           by apply (ident_unique _ _ _ _ _ _ _ (to_world _ Ht) Ej Hu).
      * intros r t' _ _. apply (connects_more _ _ _ _ _ _ _ _ _ _ [Upstream.addr u]); [congruence|congruence|done|cbn; lia|done].
  - pose proof (free_nil_dialled group failed t Ho Hfd) as Hall.
    assert (group_dialled group t1) as Hall1 by (intros i a Hi Ha; rewrite Hd1; by apply (Hall i)).
    destruct (bool_decide (group = bs "default")) eqn:Eg.
    + apply bool_decide_eq_true in Eg as Eg'. eapply wp_weaken; [|apply (wp_fail _ t1 (connects target group (eligible group) (tries group failed) t)); [done|]|done]; [lia|].
      split; [done|]. split; [exists []; rewrite app_nil_r; split; [done|]; split; [cbn; lia|by intros a ?%elem_of_nil]|].
      split; [done|]. intros i a [Hi|Hi] Ha; apply (Hall1 i); try done. by rewrite Eg'.
    + apply bool_decide_eq_false in Eg. pose proof (tries_default group failed Eg).
      eapply wp_weaken; [|apply (IH (bs "default") ∅ t1); [done|lia|lia|]|]; [lia| |].
      * intros i a _ Hex Ha. rewrite excluded_ident in Hex. unfold addr_at in Ha. destruct (ident_at w0 i) as [[]|]; [|done].
        by apply bool_decide_eq_true, elem_of_empty in Hex.
      * intros r t' _ _ Hc. apply (connects_more _ (bs "default") (eligible (bs "default")) (eligible group) _ (tries group failed) t _ _ _ [])
          in Hc; [|congruence|by rewrite app_nil_r|by intros a ?%elem_of_nil|change (0 + tries (bs "default") ∅ <= tries group failed)%nat; lia|by intros i [?|?]; right].
        destruct Hc as (Hr & (new & Hd & Hl & Hn) & He). split; [done|]. split; [by exists new|].
        destruct r as [[s i]|e| |]; try done. destruct He as [-> He]. split; [done|]. intros i a [Hi|Hi] Ha.
        -- rewrite Hd. apply elem_of_app. left. by apply (Hall i).
        -- apply (He i); [by left|done].
Qed.

(** * The handler *)

(** The name that sniffing the client yields. *)
Definition sniffed : option bytes :=
  match sniff_domain peek (build_sniffers (config (app w0))) (Config.tcp_peek_buffer_size (config (app w0)))
          {| now := 0; asked := [] |} with
  | Ok (host, _) => host
  | _ => None
  end.

Lemma wp_sniff t (Q : tcp_res (option bytes) -> Task -> Prop) :
  task_ok t -> (at_step t < horizon)%nat -> (forall t', same_net t t' -> at_step t' = S (at_step t) -> Q (Ok sniffed) t') -> wp 1 sniff_client t Q.
Proof.
  intros Ht Hk HQ. unfold wp, sniff_client. set (t1 := {| at_step := S (at_step t); world := _; dialled := _; relayed := _ |}).
  assert (task_ok t1) as Ht1.
  { eapply step_ok; [exact Ht|done|done|done|]. intros Hw _. split; [|done]. eapply world_ok_mono; [|exact Hw]. lia. }
  pose proof (frame_config _ _ (to_frame _ Ht1)) as E. cbn [world t1] in E. unfold config_of. rewrite E.
  destruct (sniff_domain_ok peek (build_sniffers (config (app w0))) (Config.tcp_peek_buffer_size (config (app w0)))
    {| now := 0; asked := [] |} (law_peek laws) (build_sniffers_laws _) (law_cap laws)) as (found & st & Es & _).
  assert (sniffed = found) as <- by (unfold sniffed; by rewrite Es). rewrite Es.
  exists (Ok sniffed), t1. split_and!; try done; [cbn; lia|]. by apply HQ.
Qed.

Lemma wp_relay s up t (Q : tcp_res (option RelayEnd.RelayEnd) -> Task -> Prop) :
  task_ok t -> (at_step t < horizon)%nat ->
  (forall r t', dialled t' = dialled t -> relayed t' = Some (s, up) -> Q r t') -> wp 1 (relay_tcp s up) t Q.
Proof.
  intros Ht Hk HQ. unfold wp, relay_tcp. set (w := env (at_step t) (world t)).
  destruct (law_env laws (at_step t) _ _ (to_world _ Ht)) as (Hwe & Hfe & _). fold w in Hwe, Hfe.
  assert (config_of w = config (app w0)) as -> by (unfold config_of; rewrite (frame_config _ _ Hfe); apply frame_config, Ht).
  destruct (law_polls laws s) as (Hc & Hl & Hmax).
  pose proof (relay_tcp_streams_returns fires (law_fires laws) linger_ok (now_ns (at_step t)) (Config.splice (config (app w0)))
    (Config.half_close_timeout (config (app w0))) (polls s) (ends w) Hc Hmax Hl) as Hr.
  destruct (relay_tcp_streams _ _ _ _ _ _ _) as [r e]. cbn [fst] in Hr.
  set (t1 := {| at_step := S (at_step t); world := _; dialled := _; relayed := _ |}).
  assert (task_ok t1) as Ht1.
  { eapply step_ok; [exact Ht|done|done|done|]. intros [? ? ?] _. split; [|by split]. eapply world_ok_mono; [|by split]. lia. }
  destruct r as [end_|err| |]; try done; (eexists _, t1; split; [done|]; split_and!; try done; [cbn; lia|by apply HQ]).
Qed.

Lemma wp_track_relay s up t (Q : tcp_res (option RelayEnd.RelayEnd) -> Task -> Prop) :
  task_ok t -> (at_step t + 2 <= horizon)%nat ->
  (forall r t', dialled t' = dialled t -> relayed t' = Some (s, Some up) -> Q r t') ->
  wp 2 (run! _ := track_upstream up in relay_tcp s (Some up)) t Q.
Proof.
  intros Ht Hk HQ. apply (wp_bind 1 1 _ _ t (fun r t' => match r with Ok _ => same_net t t' | _ => False end)); [| |done].
  - apply wp_update; [done|lia| |done]. intros n w Hw _. apply on_upstream_ok; [done| |done].
    intros u Hu. unfold track. wf_update.
  - intros [] t1 Ht1 Hk1 [Hd1 _]. apply wp_relay; [done|lia|]. intros r t' Hd Hr. apply HQ; [congruence|done].
Qed.

(** A connection relayed with the target itself. *)
Definition direct_outcome (orig_dst : SocketAddr) (r : tcp_res (option RelayEnd.RelayEnd)) (t' : Task) : Prop :=
  match relayed t' with
  | Some (s, up) => up = None /\ opened orig_dst (io_ret tt) s
  | None => exists e, r = Err e
  end.

Lemma wp_direct orig_dst t :
  task_ok t -> (at_step t + 2 <= horizon)%nat -> relayed t = None ->
  wp 2 (run! s := direct_connect orig_dst in relay_tcp s None) t
    (fun r t' => dialled t' = dialled t ++ [orig_dst] /\ direct_outcome orig_dst r t').
Proof.
  intros Ht Hk Hrel. apply (wp_bind 1 1 _ _ t (fun r t' => dialled t' = dialled t ++ [orig_dst] /\ relayed t' = relayed t /\
    match r with Ok s => opened orig_dst (io_ret tt) s | _ => True end)).
  - by apply wp_connect; [done|lia|done|].
  - intros s t1 Ht1 Hk1 (Hd1 & Hr1 & Ho). apply wp_relay; [done|lia|]. intros r t' Hd Hr. split; [congruence|].
    unfold direct_outcome. by rewrite Hr.
  - intros e t1 (Hd1 & Hr1 & _). split; [done|]. unfold direct_outcome. rewrite Hr1, Hrel. eauto.
Qed.

(** A connection relayed through an upstream. *)
Definition proxied_outcome (target : TcpUpstreamTarget) (group : bytes)
    (r : tcp_res (option RelayEnd.RelayEnd)) (t' : Task) : Prop :=
  (forall a, a ∈ dialled t' -> exists i, addr_at i = Some a /\ eligible group i) /\
  match relayed t' with
  | Some (s, Some i) => eligible group i /\ through target i s
  | Some (_, None) => False
  | None => r = Err TcpError.AllUpstreamsFailed /\ forall i a, eligible group i -> addr_at i = Some a -> a ∈ dialled t'
  end.

Section Handler.
Context (client_addr orig_dst : SocketAddr).
Abbreviation client_ip := (sa_ip client_addr).
Abbreviation dst_ip := (sa_ip orig_dst).

Definition group_of (domain : option bytes) : bytes := lookup_upstream_group (tables (app w0)) client_ip dst_ip domain.
(** The most upstreams that one look-up tries. *)
Definition most_tries (group : bytes) : nat :=
  (length (members group) + (if bool_decide (group = bs "default") then 0 else S (length (members (bs "default")))))%nat.

Lemma tries_most group failed : (tries group failed <= most_tries group)%nat.
Proof.
  unfold tries, most_tries. pose proof (length_filter (fun i => excluded (set w0) failed i = false) (members group)) as Hl.
  fold (free group failed) in Hl. lia.
Qed.

Lemma pick_and_connect_ok target fuel domain exclude t :
  proxied target -> task_ok t -> (most_tries (group_of domain) < fuel)%nat ->
  (at_step t + (1 + 5 * S (most_tries (group_of domain))) <= horizon)%nat ->
  (forall id, exclude = Some id -> exists i a, ident_at w0 i = Some (id, a) /\ a ∈ dialled t) ->
  wp (1 + 5 * S (most_tries (group_of domain))) (pick_and_connect fuel target client_ip dst_ip domain exclude) t
    (connects target (group_of domain) (eligible (group_of domain)) (most_tries (group_of domain)) t).
Proof.
  intros Hp Ht Hfuel Hk Hex. unfold pick_and_connect, try_connect_socks5_group.
  apply (wp_bind 1 _ _ _ t (fun r t' => match r with Ok g => same_net t t' /\ g = group_of domain | _ => False end)); [| |done].
  { apply wp_read; [done|lia|]. intros w t' Hf Hnet. split; [done|]. by rewrite (frame_tables _ _ Hf). }
  intros g t1 Ht1 Hk1 [[Hd1 Hr1] ->]. set (group := group_of domain) in *.
  set (failed := match exclude with Some id => {[id]} | None => ∅ end). pose proof (tries_most group failed) as Hm.
  eapply wp_weaken; [|apply (try_loop_ok target Hp fuel group failed t1); [done|lia|lia|]|]; [lia| |].
  - intros i a Hi Hx Ha. rewrite Hd1. rewrite excluded_ident in Hx. unfold addr_at in Ha.
    destruct (ident_at w0 i) as [[id b]|] eqn:Ei; [|done]. injection Ha as <-. apply bool_decide_eq_true in Hx.
    unfold failed in Hx. destruct exclude as [id'|]; [|by apply elem_of_empty in Hx]. apply elem_of_singleton in Hx as ->.
    destruct (Hex id' eq_refl) as (j & b' & Hj & Hin). rewrite <- (frame_ident _ _ _ (to_frame _ Ht)) in Ei.
    rewrite <- (frame_ident _ _ _ (to_frame _ Ht)) in Hj.
    by rewrite (ident_unique _ _ _ _ _ _ _ (to_world _ Ht) Ei Hj).
  - intros r t' _ _. apply (connects_more _ _ _ _ _ _ _ _ _ _ []); [done|by rewrite app_nil_r|by intros a ?%elem_of_nil|cbn; lia|done].
Qed.

Lemma connect_proxied_ok target fuel domain t :
  proxied target -> task_ok t -> (most_tries (group_of domain) < fuel)%nat ->
  (at_step t + (8 + 5 * S (most_tries (group_of domain))) <= horizon)%nat ->
  wp (8 + 5 * S (most_tries (group_of domain))) (connect_proxied fuel target client_ip dst_ip domain) t
    (connects target (group_of domain) (eligible (group_of domain)) (S (most_tries (group_of domain))) t).
Proof.
  intros Hp Ht Hfuel Hk. unfold connect_proxied. set (group := group_of domain) in *. set (C := (1 + 5 * S (most_tries group))%nat).
  replace (8 + 5 * S (most_tries group))%nat with (1 + (3 + (1 + (1 + (1 + C)))))%nat by (unfold C; lia).
  apply (wp_bind 1 _ _ _ t (fun r t' => match r with
    | Ok (Some up) => same_net t t' /\ eligible group up /\ (up < length (UpstreamSet.all_items (set w0)))%nat
    | Ok None => same_net t t' | _ => False end)); [| |done].
  { apply wp_atomic; [done|lia|]. intros n w Hn Hw Hf.
    destruct (get_cached_ok n w (now_ns (at_step t)) client_ip dst_ip domain Hw) as (Hw' & Hf' & Hup).
    destruct (get_cached_upstream _ _ _ _ _) as [o st] eqn:E. cbn [fst snd] in *. exists o, (with_app w st).
    split; [done|]. split; [eapply world_ok_mono; [|done]; lia|]. split; [done|]. intros t' Hnet.
    destruct o as [up|]; [|done]. specialize (Hup up eq_refl). split; [done|].
    split; [|rewrite <- (frame_length _ _ Hf); by eapply eligible_bound]. rewrite (frame_tables _ _ Hf) in Hup. by apply (frame_eligible _ _ _ _ Hf). }
  intros [up|] t1 Ht1 Hk1 Hc.
  2: { destruct Hc as [Hd1 Hr1]. eapply wp_weaken; [|apply pick_and_connect_ok; [done|done|done|fold group; lia|done]|]; [fold group C; lia|].
       intros r t' _ _. apply (connects_more _ _ _ _ _ _ _ _ _ _ []); [done|by rewrite app_nil_r|by intros a ?%elem_of_nil| |done].
       change (0 + most_tries group <= S (most_tries group))%nat. lia. }
  destruct Hc as ([Hd1 Hr1] & Hhit & Hup). apply wp_try_upstream; [done|done|lia|done|].
  intros u r t2 Ht2 Hk2 Hu Hd2 Hr2 Hth.
  assert (forall a, a ∈ [Upstream.addr u] -> exists i, addr_at i = Some a /\ eligible group i) as Hnew.
  { intros a ->%list_elem_of_singleton. exists up. split; [unfold addr_at; by rewrite Hu|done]. }
  destruct r as [s|e].
  { eapply wp_weaken; [|apply (wp_ret (s, up) t2 (connects target group (eligible group) (S (most_tries group)) t)); [done|]|done]; [lia|].
    split; [congruence|]. split; [|done]. exists [Upstream.addr u]. split; [congruence|].
    split; [change (1 <= S (most_tries group))%nat; lia|done]. }
  apply (wp_bind 1 _ _ _ t2 (fun r t' => match r with Ok _ => same_net t2 t' | _ => False end)); [| |done].
  { apply wp_update; [done|lia| |done]. intros n w Hw _. by apply remove_cached_ok. }
  intros [] t3 Ht3 Hk3 [Hd3 Hr3].
  apply (wp_bind 1 _ _ _ t3 (fun r t' => match r with Ok _ => same_net t3 t' | _ => False end)); [| |done].
  { by apply wp_penalize; [done|lia|]. }
  intros [] t4 Ht4 Hk4 [Hd4 Hr4].
  assert (dialled t4 = dialled t ++ [Upstream.addr u]) as Hd by congruence.
  eapply wp_weaken; [|apply pick_and_connect_ok; [done|done|done|fold group; lia|]|]; [fold group C; lia| |].
  - intros id [= <-]. exists up, (Upstream.addr u). split; [done|]. rewrite Hd. apply elem_of_app. right. by left.
  - intros r t' _ _. apply (connects_more _ _ _ _ _ _ _ _ _ _ [Upstream.addr u]); [congruence|done|done|done|done].
Qed.

(** ** What the handler decides *)

(** The mode is read at the first step, for the address; at the second, for
    whether a name may matter; and at the fifth, for the name. *)
Definition direct_by_ip : bool := decide_direct (rules_at 0) dst_ip None.
Definition name_decides : bool := need_geosite_sniff (rules_at 1).
Definition need_name : bool :=
  name_decides || (negb direct_by_ip && need_upstream_domain_sniff (config (app w0)) (tables (app w0)) client_ip).
(** The name it uses, and whether the connection goes direct. *)
Definition name : option bytes := if need_name then sniffed else None.
Definition goes_direct : bool := if name_decides then decide_direct (rules_at 4) dst_ip sniffed else direct_by_ip.

Lemma wp_ask_direct d t (Q : tcp_res bool -> Task -> Prop) :
  task_ok t -> (at_step t < horizon)%nat ->
  (forall t', same_net t t' -> at_step t' = S (at_step t) -> Q (Ok (decide_direct (rules_at (at_step t)) dst_ip d)) t') ->
  wp 1 (ask_direct dst_ip d) t Q.
Proof.
  intros Ht Hk HQ. apply wp_atomic_at; [done..|]. intros n w Hn Hw Hf Hm.
  destruct (ask_direct_ok n w (now_ns (at_step t)) dst_ip d Hw) as (Hd & Hw' & Hf'). rewrite (frame_decides _ _ _ _ Hf), Hm in Hd.
  destruct (should_direct _ _ _ _) as [b st]. cbn [fst snd] in *. subst b. exists (decide_direct (rules_at (at_step t)) dst_ip d), (with_app w st).
  split; [done|]. split; [eapply world_ok_mono; [|done]; lia|]. split; [done|]. exact HQ.
Qed.

Lemma wp_proxied target fuel domain t :
  proxied target -> task_ok t -> relayed t = None -> dialled t = [] -> (most_tries (group_of domain) < fuel)%nat ->
  (at_step t + (11 + 5 * S (most_tries (group_of domain))) <= horizon)%nat ->
  wp (11 + 5 * S (most_tries (group_of domain)))
    (run! (s, up) := connect_proxied fuel target client_ip dst_ip domain in
     run! _ := remember client_ip dst_ip domain up in
     run! _ := track_upstream up in
     relay_tcp s (Some up)) t
    (fun r t' => (length (dialled t') <= S (most_tries (group_of domain)))%nat /\
       proxied_outcome target (group_of domain) r t').
Proof.
  intros Hp Ht Hrel Hdial Hfuel Hk.
  replace (11 + 5 * S (most_tries (group_of domain)))%nat with ((8 + 5 * S (most_tries (group_of domain))) + (1 + 2))%nat by lia.
  eapply wp_bind; [apply (connect_proxied_ok target fuel domain t Hp Ht Hfuel); lia|..].
  - intros [s up] t1 Ht1 Hk1 (Hr1 & (new & Hd1 & Hl & Hn) & Hok & Hth). rewrite Hdial, app_nil_l in Hd1.
    apply (wp_bind 1 2 _ _ t1 (fun r t' => match r with Ok _ => same_net t1 t' | _ => False end)); [| |done].
    { apply wp_update; [done|lia| |done]. intros n w Hw Hf. apply cache_upstream_ok; [done|].
      rewrite (frame_tables _ _ Hf). by apply (frame_eligible _ _ _ _ Hf). }
    intros [] t2 Ht2 Hk2 [Hd2 _]. apply wp_track_relay; [done|lia|]. intros r t' Hd Hr.
    assert (dialled t' = new) as Hdn by congruence. split; [by rewrite Hdn|]. unfold proxied_outcome. by rewrite Hr, Hdn.
  - intros e t1 (Hr1 & (new & Hd1 & Hl & Hn) & -> & Hall). rewrite Hdial, app_nil_l in Hd1.
    split; [by rewrite Hd1|]. unfold proxied_outcome. rewrite Hr1, Hrel. split; [by rewrite Hd1|done].
Qed.

(** Where the mode stays, the decision is that of the rules on the sniffed
    name, whether it was needed or not. *)
Lemma steady_decision m : (forall k, (k < 5)%nat -> mode_at k = m) ->
  goes_direct = decide_direct (store_proxy_mode (app w0) m) dst_ip sniffed.
Proof.
  intros Hm. unfold goes_direct, name_decides, direct_by_ip, rules_at. rewrite !Hm by lia.
  destruct (need_geosite_sniff _) eqn:E; [done|]. symmetry. by apply unsniffed_decides.
Qed.

Definition start : Task := {| at_step := 0; world := w0; dialled := []; relayed := None |}.
Definition target : TcpUpstreamTarget := decide_tcp_upstream_target orig_dst goes_direct name.
Definition handler_steps : nat := (16 + 5 * S (most_tries (group_of name)))%nat.

(** What the theorem below says of the end of the handler. *)
Definition handled (r : tcp_res (option RelayEnd.RelayEnd)) (t' : Task) : Prop :=
  if goes_direct then dialled t' = [orig_dst] /\ direct_outcome orig_dst r t'
  else (length (dialled t') <= S (most_tries (group_of name)))%nat /\
       proxied_outcome target (group_of name) r t'.

Lemma handle_ok fuel :
  world_ok n0 w0 -> (most_tries (group_of name) < fuel)%nat -> (handler_steps <= horizon)%nat ->
  wp handler_steps (handle_tcp_connection fuel client_addr orig_dst) start handled.
Proof.
  intros Hw0 Hfuel Hk. unfold handler_steps in *. set (C := (11 + 5 * S (most_tries (group_of name)))%nat) in *.
  assert (task_ok start) as Ht by (split; [unfold picks_by; cbn; by rewrite Z.add_0_r|done]).
  assert (at_step start = 0%nat) as Hs0 by done. unfold handle_tcp_connection. replace (16 + _)%nat with (1 + (1 + (1 + (1 + (1 + C)))))%nat by (unfold C; lia).
  apply (wp_bind 1 _ _ _ start (fun r t' => match r with Ok b => same_net start t' /\ at_step t' = 1%nat /\ b = direct_by_ip | _ => False end));
    [apply wp_ask_direct; [done|lia|]; by intros t' ? ->| |done].
  intros ? t1 Ht1 _ ([Hd1 Hr1] & Hk1 & ->).
  apply (wp_bind 1 _ _ _ t1 (fun r t' => match r with Ok b => same_net t1 t' /\ at_step t' = 2%nat /\ b = name_decides | _ => False end)); [| |done].
  { apply wp_read_at; [done|lia|]. intros w t' Hf Hm Hnet Hs. split; [done|]. split; [by rewrite Hs, Hk1|].
    unfold name_decides, rules_at. rewrite <- Hk1, <- Hm. by apply frame_geosite. }
  intros ? t2 Ht2 _ ([Hd2 Hr2] & Hk2 & ->).
  apply (wp_bind 1 _ _ _ t2 (fun r t' => match r with
    | Ok b => same_net t2 t' /\ at_step t' = 3%nat /\ b = need_upstream_domain_sniff (config (app w0)) (tables (app w0)) client_ip
    | _ => False end)); [| |done].
  { apply wp_read_at; [done|lia|]. intros w t' Hf _ Hnet Hs. split; [done|]. split; [by rewrite Hs, Hk2|]. unfold config_of.
    by rewrite (frame_config _ _ Hf), (frame_tables _ _ Hf). }
  intros ? t3 Ht3 _ ([Hd3 Hr3] & Hk3 & ->).
  assert (dialled t3 = []) as Hd by (change [] with (dialled start); congruence).
  assert (relayed t3 = None) as Hr by (change None with (relayed start); congruence).
  destruct (_ && negb name_decides && _) eqn:Efast.
  { apply andb_true_iff in Efast as [[Hby Hg%negb_true_iff]%andb_true_iff _].
    eapply wp_weaken; [|apply (wp_direct orig_dst t3 Ht3); [lia|done]|]; [lia|]. intros r t' _ _ [Hdd Ho].
    unfold handled, goes_direct. rewrite Hg, Hby. by rewrite Hdd, Hd. }
  apply (wp_bind 1 _ _ _ t3 (fun r t' => match r with
    | Ok d => same_net t3 t' /\ (name_decides = true -> at_step t' = 4%nat) /\ d = name | _ => False end)); [| |done].
  { unfold name. fold need_name. destruct need_name eqn:En.
    - apply wp_sniff; [done|lia|]. intros t' Hnet Hs. split; [done|]. split; [by rewrite Hs, Hk3|done].
    - eapply wp_weaken; [|apply (wp_ret None t3 (fun r t' => r = Ok None /\ t' = t3)); done|]; [lia|]. intros r t' _ _ [-> ->].
      split; [done|]. split; [|done]. intros Hg. unfold need_name in En. by rewrite Hg in En. }
  intros ? t4 Ht4 Hk4 ([Hd4 Hr4] & Hk4' & ->).
  apply (wp_bind 1 _ _ _ t4 (fun r t' => match r with Ok b => same_net t4 t' /\ b = goes_direct | _ => False end)); [| |done].
  { unfold goes_direct. destruct name_decides eqn:Hg.
    - apply wp_ask_direct; [done|lia|]. intros t' Hnet _. split; [done|]. rewrite (Hk4' eq_refl). unfold name, need_name. by rewrite Hg.
    - eapply wp_weaken; [|apply (wp_ret direct_by_ip t4 (fun r t' => r = Ok direct_by_ip /\ t' = t4)); [done|]|];
        [lia|done|]. by intros r t' _ _ [-> ->]. }
  intros ? t5 Ht5 Hk5 [[Hd5 Hr5] ->].
  unfold handled, target, decide_tcp_upstream_target. destruct goes_direct.
  - eapply wp_weaken; [|apply (wp_direct orig_dst t5 Ht5); [lia|congruence]|]; [lia|]. intros r t' _ _ [Hdd Ho].
    split; [|done]. by rewrite Hdd, Hd5, Hd4, Hd.
  - destruct name as [host|] eqn:En; (eapply wp_weaken; [|apply wp_proxied; [done|done|congruence|congruence|done|lia]|]; [done|done]).
Qed.

(** A port forward goes through the default group. *)
Lemma port_forward_ok fuel remote :
  world_ok n0 w0 -> (most_tries (bs "default") < fuel)%nat -> (5 * S (most_tries (bs "default")) + 2 <= horizon)%nat ->
  wp (5 * S (most_tries (bs "default")) + 2) (port_forward_connection fuel remote) start
    (fun r t' => (length (dialled t') <= most_tries (bs "default"))%nat /\
       proxied_outcome (Socks5Ip remote) (bs "default") r t').
Proof.
  intros Hw0 Hfuel Hk. assert (task_ok start) as Ht by (split; [unfold picks_by; cbn; by rewrite Z.add_0_r|done]).
  assert (at_step start = 0%nat) as Hs0 by done. pose proof (tries_most (bs "default") ∅) as Hm.
  unfold port_forward_connection, try_connect_socks5_group. eapply wp_bind.
  - eapply wp_weaken; [|apply (try_loop_ok (Socks5Ip remote) I fuel (bs "default") ∅ start Ht); [lia|lia|]|]; [lia| |].
    + intros i a _ Hex Ha. rewrite excluded_ident in Hex. unfold addr_at in Ha. destruct (ident_at w0 i) as [[]|]; [|done].
      by apply bool_decide_eq_true, elem_of_empty in Hex.
    + intros r t' _ _ H. exact H.
  - intros [s up] t1 Ht1 Hk1 (Hr1 & (new & Hd1 & Hl & Hn) & Hok & Hth). change (dialled start ++ new) with new in Hd1.
    apply wp_track_relay; [done|lia|]. intros r t' Hd Hr. assert (dialled t' = new) as Hdn by congruence.
    split; [rewrite Hdn; lia|]. unfold proxied_outcome. by rewrite Hr, Hdn.
  - intros e t1 (Hr1 & (new & Hd1 & Hl & Hn) & -> & Hall). change (dialled start ++ new) with new in Hd1.
    split; [rewrite Hd1; lia|]. unfold proxied_outcome. rewrite Hr1. split; [by rewrite Hd1|done].
Qed.

(** C2: a TCP connection is routed as configured. Whatever the other tasks do
    between its steps, a change of the mode included, whatever the client shows,
    whichever upstreams fail or time out, the handler returns, within a number
    of steps that depends on the groups only. It goes direct if the rules, in
    the modes in force when it asks, say so; where the mode stays the same
    meanwhile, that is the decision of the rules on the name that sniffing
    yields, even when it does not sniff. If it goes direct, it dials the
    destination once, and relays that connection or fails. Otherwise it dials
    upstreams only, never the destination itself, and only members of the group
    that the routes give to the client, the destination and the name, or of the
    default group, a remembered upstream included; at most one more than these
    groups have; it relays a connection on which that upstream accepted the
    request for the target, by name if one was sniffed; and it gives up only
    when every member of both groups was dialled in vain. *)
Theorem tcp_connection_routed fuel :
  world_ok n0 w0 -> (most_tries (group_of name) < fuel)%nat -> (handler_steps <= horizon)%nat ->
  (forall m, (forall k, (k < 5)%nat -> mode_at k = m) -> goes_direct = decide_direct (store_proxy_mode (app w0) m) dst_ip sniffed) /\
  exists r t', handle_tcp_connection fuel client_addr orig_dst start = (r, t') /\ returns r /\
    (at_step t' <= handler_steps)%nat /\ world_ok (picks_by (at_step t')) (world t') /\ frame w0 (world t') /\ handled r t'.
Proof.
  intros Hw Hfuel Hk. split; [apply steady_decision|].
  destruct (handle_ok fuel Hw Hfuel Hk) as (r & t' & E & Hr & [? ?] & Hs & Hh). exists r, t'. by split_and!.
Qed.
End Handler.
End Flow.

(** * An instance *)

#[local] Existing Instances pair_net pair_trie.

Definition example_world (st : AppState (Upstream := nat)) (us : upstreams) : World := {| app := st; set := us; ends := no_ends |}.

(** Two upstreams, the first of which refuses; the second accepts. *)
Definition example_conn : conn :=
  {| rd := map byte_of_Z [5; 0; 5; 0; 0; 1; 0; 0; 0; 0; 0; 0]; wr := []; writes_left := None |}.
(** Meanwhile the user changes the mode. *)
Definition example_modes (k : nat) : ProxyMode := if (k <? 6)%nat then Smart else Bypass.
Definition example_runtime_with (example_dial : nat -> SocketAddr -> option conn) : Runtime := {|
  env := fun k w => with_app w (store_proxy_mode (app w) (example_modes k));
  now_ns := fun k => Z.of_nat k;
  now_secs := fun _ => 100;
  rand := fun _ => example_draw;
  dial := example_dial;
  late := fun _ => false;
  peek := example_http_stream;
  fd := fun _ => 5;
  token := fun k => Z.of_nat k;
  fires := exact_timer;
  linger_ok := (true, true);
  polls := fun _ => example_polls;
|}.
Definition example_runtime : Runtime := example_runtime_with (fun k _ => if (k <? 10)%nat then None else Some example_conn).
Definition example_build_app : res BuildError (AppState (Upstream := nat)) :=
  app_state_build (fun _ => None) (fun _ => None) (fun _ => None) example_nets (fun _ => None) (fun _ _ => None)
    (fun _ => net4 0 0 0 0 0) (fun s => s) (fun V m => map_to_list m) example_state_config.
Lemma example_build_app_ok :
  match example_build_app with
  | Ok st => config st = example_state_config /\ direct_cache st = ∅ /\ upstream_cache st = ∅
  | _ => False
  end.
Proof.
  assert (match example_build_app with Ok _ => true | _ => false end = true) as Hok by (vm_compute; reflexivity).
  destruct example_build_app as [st|e| |] eqn:E; [clear Hok|done..]. unfold example_build_app in E.
  pose proof (pair_net_laws 32 ltac:(lia)). pose proof (pair_net_laws 128 ltac:(lia)).
  pose proof (pair_trie_laws 32 ltac:(lia)). pose proof (pair_trie_laws 128 ltac:(lia)). apply build_inv in E; [|typeclasses eauto..].
  by destruct E as (? & ? & ? & _ & _ & _ & _ & Hc & _ & _ & Hd & Hu & _).
Qed.
Definition client : SocketAddr := {| sa_ip := localhost; sa_port := 4000 |}.
Definition destination : SocketAddr := {| sa_ip := V4 (from_be_bytes (map byte_of_Z [8; 8; 8; 8])); sa_port := 80 |}.

Definition example_run (st : AppState (Upstream := nat)) (us : upstreams) :=
  handle_tcp_connection (runtime := example_runtime) 4 client destination (start {| app := st; set := us; ends := no_ends |}).

Lemma example_lawful d st us :
  config st = example_state_config ->
  lawful (runtime := example_runtime_with d) (example_world st us) 0 0 100 example_modes.
Proof.
  intros Hc. split; cbn [env rand now_secs peek fires polls example_runtime_with app example_world].
  - intros k n w [Hs Hco Hca]. rewrite Z.add_0_r. split; [by split|]. split; [by split|]. apply mode_stored.
  - intros k. split; intros n Hn; cbn; lia.
  - done.
  - done.
  - by rewrite Hc.
  - intros n len. change (0 <= 1). lia.
  - apply exact_timer_earlier.
  - intros s. split; [apply example_polls_ordered|]. split.
    + intros p r Hp E. apply example_polls_lawful in Hp as [Hp _]. by rewrite Hp in E.
    + intros p Hp. rewrite Hc. by apply example_polls_lawful.
Qed.

(** The first upstream is dialled in vain, the second carries the connection. *)
Lemma tcp_connection_routed_witness :
  match example_build_app, upstream_set_new example_items 10 40 180 60 with
  | Ok st, Ok us =>
      exists t', example_run st us = (Ok (Some (RelayEnd.HalfCloseTimeout 600)), t') /\
        length (dialled t') = 2%nat /\ snd <$> relayed t' = Some (Some 1%nat) /\
        handled (runtime := example_runtime) (example_world st us) example_modes client destination
          (Ok (Some (RelayEnd.HalfCloseTimeout 600))) t'
  | _, _ => False
  end.
Proof.
  destruct (upstream_set_new_exact example_items 10 40 180 60 example_items_new example_items_ids example_items_groups)
    as [[? _]|(us & _ & E & Hwf & _ & _ & _ & _)]; [by unfold U32_MAX|done|done|].
  pose proof example_build_app_ok as Hst.
  assert (match example_build_app, upstream_set_new example_items 10 40 180 60 with
    | Ok st, Ok us => (fst (example_run st us), length (dialled (snd (example_run st us))), snd <$> relayed (snd (example_run st us)),
        most_tries (example_world st us) (group_of (example_world st us) client destination
          (name (runtime := example_runtime) (example_world st us) example_modes client destination)))
      = (Ok (Some (RelayEnd.HalfCloseTimeout 600)), 2%nat, Some (Some 1%nat), 2%nat)
    | _, _ => False end) as H by (vm_compute; reflexivity).
  rewrite E in H. rewrite E. destruct example_build_app as [st|e| |]; [|exact H..]. destruct Hst as (Hc & Hdc & Huc).
  injection H as Hr Hl Hs Hm. fold (example_world st us) in Hm.
  destruct (tcp_connection_routed (runtime := example_runtime) (example_world st us) 0 0 100 example_modes (example_lawful _ st us Hc)
    client destination 4) as (_ & r & t' & Et & _ & _ & _ & _ & Hh).
  - split; cbn; [done|..].
    + unfold coherent. rewrite Hdc. apply map_Forall_empty.
    + intros k e. by rewrite Huc, lookup_empty.
  - rewrite Hm. lia.
  - unfold handler_steps. rewrite Hm. lia.
  - change (example_run st us = (r, t')) in Et. rewrite Et in *. cbn [fst snd] in *. subst r. by exists t'.
Defined.
