(* ===== verification/UdpSession.v ===== *)
(** What a UDP session is and sends: [create_udp_session] and
    [connect_socks5_udp] of [src/src/udp/mod.rs], with the control connection of
    [socks5.rs], as a task in the monad of [Tcp], so that any other task of a
    connection or a session runs between its steps on the same state; and
    [send_payload] of [udp/session.rs].

    Of the errors of [Tcp], [AllUpstreamsFailed] is here that no upstream is
    available and [ConnectFailed] also that a socket cannot be made
    ([SocketCalls]) or that the receive task ends at once. *)

From Stdlib Require Import Strings.Byte Strings.String.
From S2P Require Import Prelude Bytes Ordered Domains Routes Rules Config Sniff TcpSniff Socks5 State Scores Stats Picks Relay Tcp TcpFlow Udp.
#[local] Open Scope Z_scope.

(** * Creating a session *)

(** What a session meets besides the [Runtime] of a task: the resolver, the
    connected UDP socket that a step gets, and whether the receive task becomes
    ready. *)
Class UdpNet := {
  lookup_host : bytes -> Z -> option SocketAddr;
  connected_udp : nat -> SocketAddr -> option nat;
  ready : nat -> bool;
}.

Module UdpSession.
Record UdpSession := { spec : session_spec; outbound : UdpOutbound.UdpOutbound; last_seen_secs : Z; cancelled : bool }.
End UdpSession.

Section Session.
Context `{ops4 : !NetOps 32} `{ops6 : !NetOps 128} `{tries4 : !TrieOps 32} `{tries6 : !TrieOps 128}.
Context {runtime : Runtime} {udp : UdpNet}.

(** A step of the task that uses the network; [addr] is what it connects to. *)
Definition dialling {A} (addr : SocketAddr) (f : nat -> tcp_res A) : task A := fun t =>
  let k := at_step t in
  (f k, {| at_step := S k; world := env k (world t); dialled := dialled t ++ [addr]; relayed := relayed t |}).

Definition direct_udp_socket (target_addr : SocketAddr) : task nat :=
  dialling target_addr (fun k => ok_or TcpError.ConnectFailed (connected_udp k target_addr)).

(** [timeout(connect_timeout_secs, socks5_udp_associate_for_client(..))] *)
Definition associate (socks5_addr : SocketAddr) (creds : option (bytes * bytes)) : task Socks5UdpAssoc.Socks5UdpAssoc :=
  dialling socks5_addr (fun k =>
    if late k then Err TcpError.ConnectTimeout
    else
      let? control := ok_or TcpError.ConnectFailed (dial k socks5_addr) in
      let (r, control) := socks5_udp_associate_for_client lookup_host socks5_addr creds control in
      let? relay_addr := res_map_err TcpError.Socks5 r in
      let? udp_socket := ok_or TcpError.ConnectFailed (connected_udp k relay_addr) in
      Ok {| Socks5UdpAssoc.control := control; Socks5UdpAssoc.relay_addr := relay_addr; Socks5UdpAssoc.udp_socket := udp_socket |}).

Definition connect_socks5_udp (spec : session_spec) : task Socks5UdpAssoc.Socks5UdpAssoc :=
  let key := UdpSessionSpec.key spec in
  run! group := read (fun w => lookup_upstream_group (tables (app w)) (sa_ip (UdpSessionKey.client_addr key))
    (sa_ip (UdpSessionKey.target_addr key)) (UdpSessionSpec.sniffed_host spec)) in
  run! up := pick_upstream group ∅ in
  run! up := match up with Some up => Tcp.ret (Some up) | None => pick_upstream (bs "default") ∅ end in
  match up with
  | None => fail TcpError.AllUpstreamsFailed
  | Some up =>
      run! u := upstream_of up in
      run! creds := read (fun w => socks5_credentials (config_of w)) in
      associate (Upstream.addr u) creds
  end.

Definition create_udp_session (spec : session_spec) : task UdpSession.UdpSession :=
  let key := UdpSessionSpec.key spec in
  let socks5 := run! assoc := connect_socks5_udp spec in Tcp.ret (UdpOutbound.Socks5 assoc) in
  run! outbound :=
    match UdpSessionSpec.routing spec with
    | Auto =>
        run! direct := ask_direct (sa_ip (UdpSessionKey.target_addr key)) (UdpSessionSpec.sniffed_host spec) in
        if direct then
          run! socket := direct_udp_socket (UdpSessionKey.target_addr key) in
          Tcp.ret (UdpOutbound.Direct socket)
        else socks5
    | ForceSocks5 => socks5
    end in
  run! now := atomic (fun k w => Ok (now_secs k, w)) in
  run! is_ready := atomic (fun k w => Ok (ready k, w)) in
  if is_ready then Tcp.ret {| UdpSession.spec := spec; UdpSession.outbound := outbound; UdpSession.last_seen_secs := now; UdpSession.cancelled := false |}
  else fail TcpError.ConnectFailed.
End Session.

(** * Sending *)

Inductive SendError (E : Type) := Cancelled | SendFailed (e : E).
Arguments Cancelled {E}.
Arguments SendFailed {E} e.

Section Send.
(** What the kernel answers to a datagram on a socket: the bytes it took, or an
    error, of which one is "message too long". *)
Context {E : Type} (is_emsgsize : E -> bool) (send : nat -> bytes -> Z + E).

Definition send_on (socket : nat) (datagram : bytes) : res (SendError E) Z * list (nat * bytes) :=
  (match send socket datagram with
   | inl sent => Ok sent
   | inr e => if is_emsgsize e then Ok 0 else Err (SendFailed e)
   end, [(socket, datagram)]).

(** The address that [send_payload] asks the relay to send to. *)
Definition udp_target (spec : session_spec) : Socks5Target :=
  let target_addr := UdpSessionKey.target_addr (UdpSessionSpec.key spec) in
  match UdpSessionSpec.sniffed_host spec with
  | Some host => TargetDomain host (sa_port target_addr)
  | None => TargetIp target_addr
  end.

(** [UdpSession::send_payload], and what it hands to which socket. *)
Definition send_payload (s : UdpSession.UdpSession) (payload : bytes) : res (SendError E) Z * list (nat * bytes) :=
  if UdpSession.cancelled s then (Err Cancelled, [])
  else
    match UdpSession.outbound s with
    | UdpOutbound.Direct socket => send_on socket payload
    | UdpOutbound.Socks5 assoc =>
        match build_socks5_udp_packet (udp_target (UdpSession.spec s)) payload with
        | Ok pkt => send_on (Socks5UdpAssoc.udp_socket assoc) pkt
        | _ => (Ok 0, [])
        end
    end.

(** [send_udp_payload] of [udp/pending.rs]: an error is logged. *)
Definition send_udp_payload (now : Z) (s : UdpSession.UdpSession) (payload : bytes) : UdpSession.UdpSession * list (nat * bytes) :=
  let s := {| UdpSession.spec := UdpSession.spec s; UdpSession.outbound := UdpSession.outbound s;
              UdpSession.last_seen_secs := now; UdpSession.cancelled := UdpSession.cancelled s |} in
  (s, snd (send_payload s payload)).
End Send.

(** * The outbound that a session gets *)

Section Flow.
Context `{ops4 : !NetOps 32} `{ops6 : !NetOps 128} `{tries4 : !TrieOps 32} `{tries6 : !TrieOps 128}.
Context {runtime : Runtime} {udp : UdpNet}.
Context (w0 : World) (n0 others : Z) (horizon : nat) (mode_at : nat -> ProxyMode) (laws : lawful w0 n0 others horizon mode_at).
Abbreviation task_ok := (task_ok w0 n0 others).
Abbreviation wp := (wp w0 n0 others).

Lemma wp_dialling {A} addr (f : nat -> tcp_res A) t (Q : tcp_res A -> Task -> Prop) :
  task_ok t -> (at_step t < horizon)%nat -> (forall k, returns (f k)) ->
  (forall k t', dialled t' = dialled t ++ [addr] -> relayed t' = relayed t -> Q (f k) t') -> wp 1 (dialling addr f) t Q.
Proof.
  intros Ht Hk Hf HQ. unfold TcpFlow.wp, dialling. eexists _, _. split; [done|]. split; [apply Hf|].
  split; [|split; [cbn; lia|by apply HQ]]. eapply step_ok; [exact laws|exact Ht|done|done|done|].
  intros Hw _. split; [|done]. eapply world_ok_mono; [|exact Hw]. lia.
Qed.

Section Spec.
Context (spec : session_spec).
Abbreviation client := (UdpSessionKey.client_addr (UdpSessionSpec.key spec)).
Abbreviation target := (UdpSessionKey.target_addr (UdpSessionSpec.key spec)).
Abbreviation host := (UdpSessionSpec.sniffed_host spec).

(** The rules, in the mode of the first step, send the session direct; the upstreams that may carry it: those
    of its group, or the default ones if that group is empty. *)
Definition session_direct : bool :=
  match UdpSessionSpec.routing spec with Auto => decide_direct (rules_at w0 mode_at 0) (sa_ip target) host | ForceSocks5 => false end.
Definition session_group : bytes := lookup_upstream_group (tables (app w0)) (sa_ip client) (sa_ip target) host.
Definition candidate (i : nat) : Prop :=
  i ∈ members_in w0 session_group \/ members_in w0 session_group = [] /\ i ∈ members_in w0 (bs "default").

(** The association that the proxy at [a] granted, and its socket. *)
Definition associated (a : SocketAddr) (assoc : Socks5UdpAssoc.Socks5UdpAssoc) : Prop :=
  exists k c, late k = false /\ dial k a = Some c /\
    socks5_udp_associate_for_client lookup_host a (creds0 w0) c = (Ok (Socks5UdpAssoc.relay_addr assoc), Socks5UdpAssoc.control assoc) /\
    connected_udp k (Socks5UdpAssoc.relay_addr assoc) = Some (Socks5UdpAssoc.udp_socket assoc).

(** The one address that is connected to. *)
Definition connected_to (a : SocketAddr) (t : Task) : Prop := dialled t = [a] /\ relayed t = None.
Definition proxied_via (a : SocketAddr) : Prop := exists i, candidate i /\ addr_at w0 i = Some a.

Definition associated_outcome (r : tcp_res Socks5UdpAssoc.Socks5UdpAssoc) (t : Task) : Prop :=
  match r with
  | Ok assoc => exists a, proxied_via a /\ connected_to a t /\ associated a assoc
  | Err TcpError.AllUpstreamsFailed => dialled t = [] /\ relayed t = None /\ forall i, ~ candidate i
  | Err _ => exists a, proxied_via a /\ connected_to a t
  | _ => False
  end.

Lemma wp_associate i u t :
  candidate i -> task_ok t -> (at_step t < horizon)%nat -> dialled t = [] -> relayed t = None ->
  ident_at w0 i = Some (identity u) -> wp 1 (associate (Upstream.addr u) (creds0 w0)) t associated_outcome.
Proof.
  intros Hc Ht Hk Hd Hr Hi. assert (proxied_via (Upstream.addr u)) as Hp by (exists i; split; [done|]; unfold addr_at; by rewrite Hi).
  apply wp_dialling; [done|done| |].
  - intros k. pose proof (socks5_udp_associate_returns lookup_host (Upstream.addr u) (creds0 w0)) as Hret. destruct (late k); [done|].
    destruct (dial k (Upstream.addr u)) as [c|]; [|done]. cbn. specialize (Hret c).
    destruct (socks5_udp_associate_for_client _ _ _ c) as [[] c']; try done. cbn. by destruct (connected_udp _ _).
  - intros k t' Hd' Hr'. assert (connected_to (Upstream.addr u) t') as Ht' by (split; [by rewrite Hd', Hd|congruence]).
    pose proof (socks5_udp_associate_returns lookup_host (Upstream.addr u) (creds0 w0)) as Hret.
    destruct (late k) eqn:El; [by exists (Upstream.addr u)|]. destruct (dial k (Upstream.addr u)) as [c|] eqn:Ed; [|by exists (Upstream.addr u)].
    specialize (Hret c). cbn. destruct (socks5_udp_associate_for_client _ _ _ c) as [[] c'] eqn:Es; try done; cbn; [|by exists (Upstream.addr u)].
    destruct (connected_udp _ _) eqn:Eu; cbn; [|by exists (Upstream.addr u)]. exists (Upstream.addr u). split; [done|]. split; [done|].
    by exists k, c.
Qed.

Context (Hw0 : world_ok n0 w0).

Lemma free_all group : free w0 group ∅ = members_in w0 group.
Proof.
  apply filter_all. intros i Hi. unfold members_in in Hi.
  destruct (UpstreamSet.groups (set w0) !! group) as [items|] eqn:E; [|by apply elem_of_nil in Hi].
  apply (ws_groups _ _ (wo_set _ _ Hw0)) in E as [E _]. rewrite Forall_forall in E.
  destruct (lookup_lt_is_Some_2 _ _ (E i Hi)) as [up Hup]. unfold excluded. rewrite Hup. apply bool_decide_eq_false. set_solver.
Qed.

(** What a pick answers: a member, unless the group is empty. *)
Definition picked_from (group : bytes) (o : option nat) : Prop :=
  match o with
  | Some i => i ∈ members_in w0 group /\ (i < length (UpstreamSet.all_items (set w0)))%nat
  | None => members_in w0 group = []
  end.
Lemma wp_pick_from group t : task_ok t -> (at_step t < horizon)%nat ->
  wp 1 (pick_upstream group ∅) t (fun r t' => same_net t t' /\ match r with Ok o => picked_from group o | _ => False end).
Proof.
  intros Ht Hk. eapply wp_pick; [exact laws|done..|]. intros [i|] t' Hn H; (split; [done|]).
  - destruct H as (Hi & id & a & Ha & _). split; [done|]. unfold ident_at in Ha. destruct (_ !! i) eqn:E; [|done]. by eapply lookup_lt_Some.
  - by rewrite free_all in H.
Qed.

Lemma connect_socks5_ok t : task_ok t -> (at_step t + 6 <= horizon)%nat -> dialled t = [] -> relayed t = None ->
  wp 6 (connect_socks5_udp spec) t associated_outcome.
Proof.
  intros Ht Hk Hd Hr. unfold connect_socks5_udp.
  apply (wp_bind w0 n0 others 1 5 _ _ t (fun r t' => match r with Ok g => same_net t t' /\ g = session_group | _ => False end)); [| |done].
  { eapply wp_read; [exact laws|done|lia|]. intros w t' Hf Hn. split; [done|]. by rewrite (frame_tables _ _ Hf). }
  intros ? t1 Ht1 Hk1 [[Hd1 Hr1] ->].
  eapply (wp_bind w0 n0 others 1 4); [apply (wp_pick_from session_group); [done|lia]| |].
  2: { intros e t2 [_ []]. }
  intros o1 t2 Ht2 Hk2 [[Hd2 Hr2] Ho1].
  apply (wp_bind w0 n0 others 1 3 _ _ t2 (fun r t' => same_net t2 t' /\ match r with
    | Ok (Some i) => candidate i /\ (i < length (UpstreamSet.all_items (set w0)))%nat
    | Ok None => forall i, ~ candidate i | _ => False end)).
  { destruct o1 as [i|].
    - eapply wp_weaken; [|apply (wp_ret w0 n0 others (Some i) t2 (fun r t' => r = Ok (Some i) /\ t' = t2)); done|]; [lia|].
      intros r t' _ _ [-> ->]. split; [done|]. destruct Ho1. split; [by left|done].
    - eapply wp_weaken; [|apply (wp_pick_from (bs "default")); [done|lia]|]; [done|]. intros r t' _ _ [Hn Ho]. split; [done|].
      destruct r as [[i|]| | |]; try done.
      + destruct Ho. split; [by right|done].
      + unfold picked_from in Ho1, Ho. intros i [Hi|[_ Hi]]; [rewrite Ho1 in Hi|rewrite Ho in Hi]; by apply elem_of_nil in Hi. }
  2: { intros e t3 [_ []]. }
  intros o t3 Ht3 Hk3 [[Hd3 Hr3] Ho]. destruct o as [i|].
  2: { eapply wp_weaken; [|apply (wp_fail w0 n0 others TcpError.AllUpstreamsFailed t3 associated_outcome); [done|]|]; [lia| |done].
       split_and!; [congruence|congruence|done]. }
  destruct Ho as [Hc Hi].
  apply (wp_bind w0 n0 others 1 2 _ _ t3 (fun r t' => match r with Ok u => same_net t3 t' /\ ident_at w0 i = Some (identity u) | _ => False end)); [| |done].
  { eapply wp_upstream; [exact laws|done|lia|done|done]. }
  intros u t4 Ht4 Hk4 [[Hd4 Hr4] Hu].
  apply (wp_bind w0 n0 others 1 1 _ _ t4 (fun r t' => match r with Ok creds => same_net t4 t' /\ creds = creds0 w0 | _ => False end)); [| |done].
  { eapply wp_creds; [exact laws|done|lia|done]. }
  intros creds t5 Ht5 Hk5 [[Hd5 Hr5] ->]. eapply wp_associate; [done|done|lia|congruence|congruence|done].
Qed.

Definition session_outcome (r : tcp_res UdpSession.UdpSession) (t : Task) : Prop :=
  match r with
  | Ok s => UdpSession.spec s = spec /\ UdpSession.cancelled s = false /\
      match UdpSession.outbound s with
      | UdpOutbound.Direct socket => session_direct = true /\ connected_to target t /\ exists k, connected_udp k target = Some socket
      | UdpOutbound.Socks5 assoc => session_direct = false /\ exists a, proxied_via a /\ connected_to a t /\ associated a assoc
      end
  | Err TcpError.AllUpstreamsFailed => session_direct = false /\ dialled t = [] /\ relayed t = None /\ forall i, ~ candidate i
  | Err _ => if session_direct then connected_to target t else exists a, proxied_via a /\ connected_to a t
  | _ => False
  end.

(** The outbound is there. *)
Definition outbound_outcome (r : tcp_res UdpOutbound.UdpOutbound) (t : Task) : Prop :=
  session_outcome (let? out := r in
    Ok {| UdpSession.spec := spec; UdpSession.outbound := out; UdpSession.last_seen_secs := 0; UdpSession.cancelled := false |}) t.

Lemma wp_socks5_outbound t : session_direct = false -> task_ok t -> (at_step t + 6 <= horizon)%nat -> dialled t = [] -> relayed t = None ->
  wp 6 (run! assoc := connect_socks5_udp spec in Tcp.ret (UdpOutbound.Socks5 assoc)) t outbound_outcome.
Proof.
  intros Hdir Ht Hk Hd Hr. eapply (wp_bind w0 n0 others 6 0); [by apply connect_socks5_ok| |].
  - intros assoc t1 Ht1 _ Ha. apply wp_ret; [done|]. unfold outbound_outcome. cbn. by rewrite Hdir.
  - intros e t1 Ha. unfold outbound_outcome. cbn. rewrite Hdir. by destruct e.
Qed.

Lemma wp_direct_outbound t : session_direct = true -> task_ok t -> (at_step t < horizon)%nat -> dialled t = [] -> relayed t = None ->
  wp 1 (run! socket := direct_udp_socket target in Tcp.ret (UdpOutbound.Direct socket)) t outbound_outcome.
Proof.
  intros Hdir Ht Hk Hd Hr. eapply (wp_bind w0 n0 others 1 0 _ _ t (fun r t' => match r with
    | Ok socket => connected_to target t' /\ exists k, connected_udp k target = Some socket
    | Err e => connected_to target t' /\ e = TcpError.ConnectFailed | _ => False end)).
  - apply wp_dialling; [done|done| |].
    + intros k. by destruct (connected_udp k target).
    + intros k t' Hd' Hr'. assert (connected_to target t') as Hc by (split; [by rewrite Hd', Hd|congruence]).
      destruct (connected_udp k target) eqn:E; (split; [done|]); [by exists k|done].
  - intros socket t1 Ht1 _ [Hc Hs]. apply wp_ret; [done|]. unfold outbound_outcome. cbn. by rewrite Hdir.
  - intros e t1 [Hc ->]. unfold outbound_outcome. cbn. by rewrite Hdir.
Qed.

(** A step that reads something else than the state. *)
Lemma wp_observe {A} (f : nat -> A) t (Q : tcp_res A -> Task -> Prop) :
  task_ok t -> (at_step t < horizon)%nat -> (forall t', same_net t t' -> Q (Ok (f (at_step t))) t') ->
  wp 1 (atomic (fun k w => Ok (f k, w))) t Q.
Proof.
  intros Ht Hk HQ. eapply wp_atomic; [exact laws|done..|]. intros n w Hn Hw Hf. exists (f (at_step t)), w. split; [done|].
  split; [eapply world_ok_mono; [|done]; lia|]. by split.
Qed.

Lemma create_ok : (9 <= horizon)%nat -> wp 9 (create_udp_session spec) (start w0) session_outcome.
Proof.
  intros Hk. assert (task_ok (start w0)) as Ht by (split; [unfold picks_by; cbn; by rewrite Z.add_0_r|done]). unfold create_udp_session.
  eapply (wp_bind w0 n0 others 7 2 _ _ _ outbound_outcome).
  - destruct (UdpSessionSpec.routing spec) eqn:Er.
    + eapply (wp_bind w0 n0 others 1 6 _ _ _ (fun r t' => match r with Ok b => same_net (start w0) t' /\ b = session_direct | _ => False end)); [| |done].
      { eapply wp_ask_direct; [exact laws|done|cbn; lia|]. intros t' Hn _. split; [done|]. unfold session_direct. by rewrite Er. }
      intros ? t1 Ht1 Hk1 [[Hd Hr] ->]. cbn in Hk1. destruct session_direct eqn:Hdir.
      * eapply wp_weaken; [|apply (wp_direct_outbound t1 Hdir); [done|lia|done|done]|]; [lia|done].
      * apply wp_socks5_outbound; [done|done|lia|done|done].
    + eapply wp_weaken; [|apply (wp_socks5_outbound (start w0)); [|done|cbn; lia|done|done]|]; [lia|unfold session_direct; by rewrite Er|done].
  - intros out t1 Ht1 Hk1 Hout. cbn in Hk1.
    apply (wp_bind w0 n0 others 1 1 _ _ t1 (fun r t' => match r with Ok _ => same_net t1 t' | _ => False end)); [|intros now t2 Ht2 Hk2 Hn2|done].
    { by apply wp_observe; [done|lia|]. }
    eapply (wp_bind w0 n0 others 1 0 _ _ t2 (fun r t' => match r with Ok _ => same_net t2 t' | _ => False end)); [|intros b t3 Ht3 Hk3 Hn3|done].
    { by apply wp_observe; [done|lia|]. }
    assert (forall a, connected_to a t1 -> connected_to a t3) as Hc.
    { intros a [? ?]. destruct Hn2, Hn3. split; congruence. }
    unfold outbound_outcome in Hout. cbn in Hout. destruct b.
    + apply wp_ret; [done|]. cbn. destruct Hout as (_ & _ & Hout). split; [done|]. split; [done|].
      destruct out; [destruct Hout as (? & ? & ?); auto|destruct Hout as (? & a & ? & ? & ?); eauto 10].
    + apply wp_fail; [done|]. cbn. destruct Hout as (_ & _ & Hout).
      destruct out; [destruct Hout as (-> & ? & ?); auto|destruct Hout as (-> & a & ? & ? & ?); eauto 10].
  - intros e t1 Hout. by unfold outbound_outcome in Hout.
Qed.

(** What a session hands to its sockets for a payload: the payload itself, or
    the SOCKS5 packet for the target, by name if the session has one; nothing
    for a name that no packet can hold. *)
Definition representable (target : Socks5Target) : Prop :=
  match target with TargetDomain host _ => 0 < zlen host <= 255 | TargetIp _ => True end.
Definition carries (s : UdpSession.UdpSession) (payload : bytes) (sent : list (nat * bytes)) : Prop :=
  match UdpSession.outbound s with
  | UdpOutbound.Direct socket => sent = [(socket, payload)]
  | UdpOutbound.Socks5 assoc =>
      (representable (udp_target spec) /\
       sent = [(Socks5UdpAssoc.udp_socket assoc, map byte_of_Z [0; 0; 0] ++ encode_wire (target_wire (udp_target spec)) ++ payload)]) \/
      (~ representable (udp_target spec) /\ sent = [])
  end.

Lemma send_payload_carries {E} is_emsgsize (send : nat -> bytes -> Z + E) s payload :
  UdpSession.spec s = spec -> UdpSession.cancelled s = false -> carries s payload (send_payload is_emsgsize send s payload).2.
Proof.
  intros Hs Hc. unfold carries, send_payload. rewrite Hc, Hs. destruct (UdpSession.outbound s) as [socket|assoc]; [done|].
  unfold build_socks5_udp_packet. pose proof (push_target_returns (udp_target spec)) as Hr.
  pose proof (push_target_ok (udp_target spec)) as Hok. fold (representable (udp_target spec)) in Hok.
  destruct (push_target (udp_target spec)) as [addr|e| |]; [| |done|done].
  - left. destruct (proj1 (Hok addr) eq_refl) as [-> Hrep]. by split.
  - right. split; [|done]. intros Hrep. by discriminate (proj2 (Hok _) (conj eq_refl Hrep)).
Qed.

(** C8: a UDP session gets the outbound that the rules give it. Whatever the
    other tasks do between its steps and however the network behaves, the
    creation returns within nine steps; it connects to the target itself if
    the session may go direct and the rules in the mode of the moment, on its
    address and sniffed host,
    say so, and otherwise to exactly one upstream, of the client's group or, if
    that is empty, of the default group, and only if both are empty to none.
    The session it returns has its specification, a socket connected to the
    target, or the association that this upstream granted with a socket
    connected to its relay; and every payload then leaves as it is through the
    former, and as an unfragmented SOCKS5 packet for the target, by its sniffed
    host if it has one, through the latter. *)
Theorem udp_session_carries :
  (9 <= horizon)%nat ->
  exists r t, create_udp_session spec (start w0) = (r, t) /\ returns r /\ (at_step t <= 9)%nat /\
    world_ok (picks_by n0 others (at_step t)) (world t) /\ frame w0 (world t) /\ session_outcome r t /\
    forall s, r = Ok s -> forall E is_emsgsize (send : nat -> bytes -> Z + E) payload,
      carries s payload (send_payload is_emsgsize send s payload).2.
Proof.
  intros Hk. destruct (create_ok Hk) as (r & t & E & Hr & [Hw Hf] & Hs & Ho). exists r, t. split_and!; try done.
  intros s -> A is_emsgsize send payload. destruct Ho as (? & ? & _). by apply send_payload_carries.
Qed.
End Spec.
End Flow.

(** * An instance *)

#[local] Existing Instances pair_net pair_trie.
#[local] Instance example_net : Runtime := example_runtime_with (fun _ _ => Some example_conn).
#[local] Instance example_udp : UdpNet := {| lookup_host := fun _ _ => None; connected_udp := fun _ _ => Some 7%nat; ready := fun _ => true |}.
Definition example_spec : session_spec := with_host (for_tproxy client destination) (bs "a.example").
Definition example_create (st : AppState (Upstream := nat)) (us : upstreams) := create_udp_session example_spec (start (example_world st us)).

(** A session through the first upstream, whose relay is at the address of the
    proxy itself. *)
Lemma udp_session_carries_witness :
  match example_build_app, upstream_set_new example_items 10 40 180 60 with
  | Ok st, Ok us =>
      exists s t assoc, example_create st us = (Ok s, t) /\ UdpSession.outbound s = UdpOutbound.Socks5 assoc /\
        session_outcome (example_world st us) example_modes example_spec (Ok s) t /\
        (send_payload (fun _ : unit => true) (fun _ d => inl (zlen d)) s (bs "x")).2 =
          [(7%nat, map byte_of_Z [0; 0; 0; 3; 9] ++ bs "a.example" ++ map byte_of_Z [0; 80] ++ bs "x")]
  | _, _ => False
  end.
Proof.
  destruct (upstream_set_new_exact example_items 10 40 180 60 example_items_new example_items_ids example_items_groups)
    as [[? _]|(us & _ & E & Hwf & _ & _ & _ & _)]; [by unfold U32_MAX|done|done|].
  pose proof example_build_app_ok as Hst.
  assert (match example_build_app, upstream_set_new example_items 10 40 180 60 with
    | Ok st, Ok us => match fst (example_create st us) with
        | Ok s => match UdpSession.outbound s with UdpOutbound.Socks5 assoc => Some (Socks5UdpAssoc.udp_socket assoc) | _ => None end
        | _ => None end
    | _, _ => None end = Some 7%nat) as Hs by (vm_compute; reflexivity).
  rewrite E in Hs. rewrite E. destruct example_build_app as [st|e| |]; [|done..]. destruct Hst as (Hc & Hdc & Huc).
  assert (world_ok 0 (example_world st us)) as Hw.
  { split; cbn; [done|unfold coherent; rewrite Hdc; apply map_Forall_empty|]. intros k e. by rewrite Huc, lookup_empty. }
  destruct (udp_session_carries (example_world st us) 0 0 100 example_modes (example_lawful (fun _ _ => Some example_conn) st us Hc) example_spec Hw) as (r & t & Er & _ & _ & _ & _ & Ho & Hsend); [lia|].
  change (example_create st us = (r, t)) in Er. rewrite Er in *. cbn [fst] in Hs. destruct r as [s|e| |]; [|done..].
  destruct (UdpSession.outbound s) as [socket|assoc] eqn:Eout; [done|]. exists s, t, assoc. split; [done|]. split; [done|]. split; [done|].
  specialize (Hsend s eq_refl unit (fun _ => true) (fun _ d => inl (zlen d)) (bs "x")). unfold carries in Hsend. rewrite Eout in Hsend.
  destruct Hsend as [[_ ->]|[Hn _]]; [|by destruct Hn]. injection Hs as ->. by vm_compute.
Defined.
