(* ===== verification/Lifecycle.v ===== *)
(** Tasks and generations: [TaskGuard] of [src/src/util.rs], the start and the
    shutdown of an [AppState] ([src/src/state.rs]), and reloading ([main.rs]).

    A generation is an [AppState]: its configuration, its mode and its guards.
    Tasks are numbers; [tasks] holds those that run. A task that is cancelled
    ends at the instant [exits] gives, if any; aborting takes no time. Times
    are nanoseconds. Binding sockets, reading and decoding the configuration
    are parameters. *)

From coqutil Require Import Datatypes.RecordSetters.
From Stdlib Require Import Strings.String.
From S2P Require Import Prelude Bytes Config Cli.
Import OCamlLikeNotations.
#[local] Open Scope Z_scope.

(** * Guards and tasks *)

(** The guards of a generation, and the receive tasks of its [UdpRuntime]. *)
Inductive Guard :=
  | tcp_listeners | udp_listeners | port_forwards | udp_gc | udp_recv_tasks | upstream_scores | health_check
  | tcp_handlers | relative_score | score_debug_printer.
#[global] Instance Guard_eq_dec : EqDecision Guard.
Proof. solve_decision. Defined.

Record TaskGuard := { cancel : bool; handles : list nat }.
Definition guard_new : TaskGuard := {| cancel := false; handles := [] |}.

Record Generation := { config : Config.Config; proxy_mode : ProxyMode; guards : Guard -> TaskGuard }.
Definition with_guard (gen : Generation) (g : Guard) (tg : TaskGuard) : Generation := {|
  config := config gen;
  proxy_mode := proxy_mode gen;
  guards := fun g' => if decide (g' = g) then tg else guards gen g';
|}.
(** The part of [AppState::build] that concerns tasks. *)
Definition generation_new (c : Config.Config) : Generation :=
  {| config := c; proxy_mode := Config.proxy_mode c; guards := fun _ => guard_new |}.

(** A task belongs to a guard of a generation. *)
Record Owner := { generation : nat; guard : Guard }.
#[global] Instance Owner_eq_dec : EqDecision Owner.
Proof. solve_decision. Defined.

(** Whether the tasks of a guard hold an [Arc] of their [AppState]: score tasks
    hold their upstream, the printer the upstreams. *)
Definition holds_state (g : Guard) : bool :=
  match g with upstream_scores | score_debug_printer => false | _ => true end.
(** Whether they end only when cancelled: the others also end on errors. *)
Definition only_cancelled (g : Guard) : bool :=
  match g with
  | tcp_listeners | udp_gc | upstream_scores | health_check | relative_score | score_debug_printer => true
  | udp_listeners | port_forwards | udp_recv_tasks | tcp_handlers => false
  end.

(** The tasks that run, the next task, and the clock. *)
Record Tasks := { tasks : gmap nat Owner; next_task : nat; clock : Z }.
Definition end_task (ts : Tasks) (h : nat) : Tasks :=
  {| tasks := delete h (tasks ts); next_task := next_task ts; clock := clock ts |}.
Definition wait_until (ts : Tasks) (t : Z) : Tasks :=
  {| tasks := tasks ts; next_task := next_task ts; clock := Z.max (clock ts) t |}.

(** [TaskGuard::spawn] *)
Definition spawn (k : nat) (g : Guard) (s : Generation * Tasks) : Generation * Tasks :=
  let '(gen, ts) := s in
  let tg := guards gen g in
  let live := filter (fun h => is_Some (tasks ts !! h)) (handles tg) in
  (with_guard gen g {| cancel := cancel tg; handles := live ++ [next_task ts] |},
   {| tasks := <[next_task ts := {| generation := k; guard := g |}]> (tasks ts);
      next_task := S (next_task ts); clock := clock ts |}).

Section Shutdown.
(** When a cancelled task ends by itself. *)
Context (exits : nat -> option Z).

Definition finished (ts : Tasks) (h : nat) : bool := bool_decide (tasks ts !! h = None).

(** [timeout_at(deadline, handle)]; a task that has ended wins over the
    deadline, which otherwise aborts it. *)
Definition await_handle (deadline : Z) (ts : Tasks) (h : nat) : bool * Tasks :=
  if finished ts h then (true, ts)
  else match exits h with
       | Some e => if e <=? Z.max deadline (clock ts) then (true, end_task (wait_until ts e) h)
                   else (false, end_task (wait_until ts deadline) h)
       | None => (false, end_task (wait_until ts deadline) h)
       end.

(** The loop of [TaskGuard::shutdown]. *)
Fixpoint shutdown_loop (deadline : Z) (ok : bool) (hs : list nat) (ts : Tasks) : bool * Tasks :=
  match hs with
  | [] => (ok, ts)
  | h :: hs =>
      if deadline <=? clock ts then shutdown_loop deadline false hs (end_task ts h)
      else
        let (r, ts) := await_handle deadline ts h in
        shutdown_loop deadline (ok && r) hs ts
  end.

(** [TaskGuard::shutdown] *)
Definition shutdown (g : Guard) (timeout : Z) (s : Generation * Tasks) : bool * (Generation * Tasks) :=
  let '(gen, ts) := s in
  let hs := handles (guards gen g) in
  let gen := with_guard gen g {| cancel := true; handles := [] |} in
  let (ok, ts) := shutdown_loop (clock ts + timeout) true hs ts in
  (ok, (gen, ts)).

(** The loop of [UdpRuntime::shutdown] does not look at the clock first. *)
Fixpoint recv_loop (deadline : Z) (ok : bool) (hs : list nat) (ts : Tasks) : bool * Tasks :=
  match hs with
  | [] => (ok, ts)
  | h :: hs =>
      let (r, ts) := await_handle deadline ts h in
      recv_loop deadline (ok && r) hs ts
  end.
Definition udp_shutdown (timeout : Z) (s : Generation * Tasks) : bool * (Generation * Tasks) :=
  let '(gen, ts) := s in
  let hs := handles (guards gen udp_recv_tasks) in
  let gen := with_guard gen udp_recv_tasks {| cancel := true; handles := [] |} in
  let (ok, ts) := recv_loop (clock ts + timeout) true hs ts in
  (ok, (gen, ts)).

Definition shutdown_one (g : Guard) : Z -> Generation * Tasks -> bool * (Generation * Tasks) :=
  if decide (g = udp_recv_tasks) then udp_shutdown else shutdown g.
(** [ok &= guard.shutdown(timeout)], one guard after the other. *)
Fixpoint shutdown_all (gs : list Guard) (timeout : Z) (ok : bool) (s : Generation * Tasks) : bool * (Generation * Tasks) :=
  match gs with
  | [] => (ok, s)
  | g :: gs => let (r, s) := shutdown_one g timeout s in shutdown_all gs timeout (ok && r) s
  end.

Definition reload_order : list Guard :=
  [tcp_listeners; udp_listeners; port_forwards; udp_gc; udp_recv_tasks; upstream_scores; health_check].
Definition shutdown_for_reload (timeout : Z) (s : Generation * Tasks) : bool * (Generation * Tasks) :=
  shutdown_all reload_order timeout true s.
Definition shutdown_for_exit (timeout : Z) (s : Generation * Tasks) : bool * (Generation * Tasks) :=
  let (ok, s) := shutdown_for_reload timeout s in
  let (r, s) := shutdown tcp_handlers timeout s in
  (ok && r, s).
End Shutdown.

(** * Starting a generation *)

(** What the system grants a new generation: the listen address parses, the
    IPv4 and IPv6 sockets of [create_tproxy_tcp_listeners] and
    [create_tproxy_udp_sockets] (or an error), the port forwards that parse and
    bind, and whether debug logging is on. *)
Record Sockets := {
  listen_parses : bool;
  tproxy_tcp : option (bool * bool);
  tproxy_udp : option (bool * bool);
  forward_binds : PortForward.PortForward -> bool;
  debug_enabled : bool;
}.

(** [if let Some(socket) = .. { guard.spawn(..) }] *)
Definition spawn_if (b : bool) (k : nat) (g : Guard) (s : Generation * Tasks) : Generation * Tasks :=
  if b then spawn k g s else s.
Fixpoint spawn_n (n : nat) (k : nat) (g : Guard) (s : Generation * Tasks) : Generation * Tasks :=
  match n with O => s | S n => spawn_n n k g (spawn k g s) end.

(** The first component is [is_ok()]. *)
Definition spawn_listener_tasks (k : nat) (env : Sockets) (s : Generation * Tasks) : bool * (Generation * Tasks) :=
  if negb (listen_parses env) then (false, s)
  else match tproxy_tcp env with
       | None => (false, s)
       | Some (v4, v6) =>
           let s := spawn_if v6 k tcp_listeners (spawn_if v4 k tcp_listeners s) in
           if Config.udp (config s.1) then
             match tproxy_udp env with
             | None => (false, s)
             | Some (v4, v6) => (true, spawn_if v6 k udp_listeners (spawn_if v4 k udp_listeners s))
             end
           else (true, s)
       end.

(** A forward of both protocols has two tasks. *)
Definition forward_tasks (pf : PortForward.PortForward) : nat :=
  match PortForward.network pf with PortForwardProto.Both => 2 | _ => 1 end.
Definition spawn_port_forward_tasks (k : nat) (env : Sockets) (s : Generation * Tasks) : bool * (Generation * Tasks) :=
  let pfs := Config.port_forward (config s.1) in
  if forallb (forward_binds env) pfs then (true, foldl (fun s pf => spawn_n (forward_tasks pf) k port_forwards s) s pfs)
  else (false, s).

(** [spawn_all_tasks]; the set has one upstream per table of the configuration. *)
Definition spawn_all_tasks (k : nat) (env : Sockets) (s : Generation * Tasks) : bool * (Generation * Tasks) :=
  let (ok, s) := spawn_listener_tasks k env s in
  if negb ok then (false, s)
  else
    let (ok, s) := spawn_port_forward_tasks k env s in
    if negb ok then (false, s)
    else
      let c := config s.1 in
      let s := spawn_if (0 <? Config.health_check_interval_secs c) k health_check s in
      let s :=
        if Config.disable_upstream_score c then s
        else
          let s := spawn_n (length (Config.upstream c)) k upstream_scores s in
          let s := spawn_if (Config.enable_relative_scoring c) k relative_score s in
          spawn_if ((0 <? Config.upstream_score_debug_interval_secs c) && debug_enabled env) k score_debug_printer s in
      (true, spawn k udp_gc s).

(** * The program *)

(** The generations that exist, by number; [active] is the one in the
    [ArcSwap]. *)
Record Program := { gens : gmap nat Generation; active : nat; next_gen : nat; ts : Tasks }.

(** [reload_config]; [loaded] is [None] when reading, decoding, validating or
    building the new state or its log filter fails. *)
Definition reload_config (exits : nat -> option Z) (loaded : option Config.Config) (env : Sockets) (p : Program)
    : bool * Program :=
  match loaded with
  | None => (false, p)
  | Some c =>
      let k := next_gen p in
      let (ok, s) := spawn_all_tasks k env (generation_new c, ts p) in
      if negb ok then
        let (_, s) := shutdown_for_exit exits (1 * SECOND) s in
        (false, {| gens := gens p; active := active p; next_gen := S k; ts := s.2 |})
      else
        match gens p !! active p with
        | None => (false, p)
        | Some old =>
            let (_, s_old) := shutdown_for_reload exits (2 * SECOND) (old, s.2) in
            (true, {| gens := <[active p := s_old.1]> (<[k := s.1]> (gens p)); active := k; next_gen := S k; ts := s_old.2 |})
        end
  end.

(** The handler of SIGUSR1. *)
Definition rotate_mode (p : Program) : Program := {|
  gens := alter (fun gen => {| config := config gen; proxy_mode := proxy_mode_next (proxy_mode gen); guards := guards gen |}) (active p) (gens p);
  active := active p; next_gen := next_gen p; ts := ts p |}.

(** [Drop] of the guards of a state that nobody holds. *)
Definition drop_generation (gen : Generation) : Generation := {|
  config := config gen; proxy_mode := proxy_mode gen;
  guards := fun g => {| cancel := true; handles := handles (guards gen g) |} |}.

(** What tasks do, besides what the process does on signals. *)
Inductive background_step (p : Program) : Program -> Prop :=
  (** an accepted connection, or a UDP session *)
  | step_spawn k gen g :
      gens p !! k = Some gen -> g = tcp_handlers \/ g = udp_recv_tasks ->
      (exists h o, tasks (ts p) !! h = Some o /\ generation o = k /\ holds_state (guard o) = true) ->
      background_step p
        (let (gen, ts) := spawn k g (gen, ts p) in
         {| gens := <[k := gen]> (gens p); active := active p; next_gen := next_gen p; ts := ts |})
  (** a task that ends, of itself or cancelled *)
  | step_end h o gen :
      tasks (ts p) !! h = Some o -> gens p !! generation o = Some gen ->
      only_cancelled (guard o) = false \/ cancel (guards gen (guard o)) = true ->
      background_step p {| gens := gens p; active := active p; next_gen := next_gen p; ts := end_task (ts p) h |}
  (** the last [Arc] of a replaced state goes *)
  | step_drop k gen :
      k <> active p -> gens p !! k = Some gen ->
      (forall h o, tasks (ts p) !! h = Some o -> generation o = k -> holds_state (guard o) = false) ->
      background_step p {| gens := <[k := drop_generation gen]> (gens p); active := active p; next_gen := next_gen p; ts := ts p |}.

(** What happens between the start and the exit of the process. *)
Inductive program_step (p : Program) : Program -> Prop :=
  | step_reload exits loaded env : program_step p (reload_config exits loaded env p).2
  | step_rotate : program_step p (rotate_mode p)
  | step_task p' : background_step p p' -> program_step p p'.

(** * Shutting down ends the tasks in time *)

Section ShutdownLemmas.
Context (exits : nat -> option Z).

(** [ts'] is [ts] without the tasks [hs], at most [limit] later. *)
Record ended (hs : list nat) (limit : Z) (ts ts' : Tasks) : Prop := {
  en_tasks h : tasks ts' !! h = if decide (h ∈ hs) then None else tasks ts !! h;
  en_next : next_task ts' = next_task ts;
  en_clock : clock ts <= clock ts' <= Z.max (clock ts) limit;
}.

Lemma ended_nil limit ts : ended [] limit ts ts.
Proof. split; [|done|lia]. intros h. by rewrite decide_False by apply not_elem_of_nil. Qed.

Lemma ended_app hs hs' limit limit' ts ts1 ts2 :
  ended hs limit ts ts1 -> ended hs' limit' ts1 ts2 -> ended (hs ++ hs') (Z.max limit limit') ts ts2.
Proof.
  intros [E1 N1 C1] [E2 N2 C2]. split; [|congruence|lia]. intros h. rewrite E2, E1.
  destruct (decide (h ∈ hs')), (decide (h ∈ hs)), (decide (h ∈ hs ++ hs')); try done; exfalso; rewrite elem_of_app in *; tauto.
Qed.

Lemma ended_one ts t h limit : t <= Z.max (clock ts) limit -> ended [h] limit ts (end_task (wait_until ts t) h).
Proof.
  intros Ht. split; cbn; [|done|lia]. intros h'. destruct (decide (h' ∈ [h])) as [->%list_elem_of_singleton|Hn].
  - by rewrite lookup_delete_eq.
  - rewrite lookup_delete_ne; [done|]. intros ->. by apply Hn, list_elem_of_singleton.
Qed.
Lemma ended_now ts h limit : ended [h] limit ts (end_task ts h).
Proof.
  pose proof (ended_one ts (clock ts) h limit ltac:(lia)) as [E N C]. split; [exact E|exact N|cbn; lia].
Qed.

Lemma await_ended deadline ts h : ended [h] deadline ts (await_handle exits deadline ts h).2.
Proof.
  unfold await_handle, finished. destruct (bool_decide _) eqn:E.
  - apply bool_decide_eq_true in E. pose proof (ended_now ts h deadline) as [Et N C]. split; [|done|exact C].
    intros h'. rewrite <- Et. cbn [tasks end_task snd]. destruct (decide (h = h')) as [<-|]; [by rewrite lookup_delete_eq|by rewrite lookup_delete_ne].
  - destruct (exits h) as [e|]; [destruct (Z.leb_spec e (Z.max deadline (clock ts)))|]; apply ended_one; lia.
Qed.

Lemma shutdown_loop_ended deadline ok hs ts : ended hs deadline ts (shutdown_loop exits deadline ok hs ts).2.
Proof.
  revert ok ts; induction hs as [|h hs IH]; intros ok ts; cbn [shutdown_loop]; [apply ended_nil|].
  replace deadline with (Z.max deadline deadline) at 1 by lia. destruct (deadline <=? clock ts).
  - eapply (ended_app [h]); [apply ended_now|apply IH].
  - pose proof (await_ended deadline ts h). destruct (await_handle _ _ _ _) as [r ts1]. by eapply (ended_app [h]); [|apply IH].
Qed.
Lemma recv_loop_ended deadline ok hs ts : ended hs deadline ts (recv_loop exits deadline ok hs ts).2.
Proof.
  revert ok ts; induction hs as [|h hs IH]; intros ok ts; cbn [recv_loop]; [apply ended_nil|].
  replace deadline with (Z.max deadline deadline) at 1 by lia.
  pose proof (await_ended deadline ts h). destruct (await_handle _ _ _ _) as [r ts1]. by eapply (ended_app [h]); [|apply IH].
Qed.

(** A task among the handles of the guards [gs]. *)
Definition guarded (gs : list Guard) (gen : Generation) (h : nat) : Prop := Exists (fun g => h ∈ handles (guards gen g)) gs.

(** Every guard of [gs] is cancelled and emptied, and its tasks ended. *)
Record stopped (gs : list Guard) (timeout : Z) (s s' : Generation * Tasks) : Prop := {
  st_config : config s'.1 = config s.1;
  st_mode : proxy_mode s'.1 = proxy_mode s.1;
  st_guards g : guards s'.1 g = if decide (g ∈ gs) then {| cancel := true; handles := [] |} else guards s.1 g;
  st_tasks h : tasks s'.2 !! h = if decide (guarded gs s.1 h) then None else tasks s.2 !! h;
  st_next : next_task s'.2 = next_task s.2;
  st_clock : clock s.2 <= clock s'.2 <= clock s.2 + Z.of_nat (length gs) * timeout;
}.

Lemma shutdown_one_stopped g timeout s : 0 <= timeout -> stopped [g] timeout s (shutdown_one exits g timeout s).2.
Proof.
  intros Ht. destruct s as [gen ts].
  assert (forall r : bool * Tasks, ended (handles (guards gen g)) (clock ts + timeout) ts r.2 ->
    stopped [g] timeout (gen, ts) (with_guard gen g {| cancel := true; handles := [] |}, r.2)) as H.
  { intros r [E N C]. split; cbn; try done; [| |lia].
    - intros g'. destruct (decide (g' = g)) as [->|Hn]; [by rewrite decide_True by by left|].
      by rewrite decide_False by by intros ?%list_elem_of_singleton.
    - intros h. rewrite E. unfold guarded. destruct (decide (h ∈ _)) as [Hh|Hh], (decide (Exists _ _)) as [Hx|Hx]; try done; exfalso.
      + by apply Hx, Exists_cons_hd.
      + apply Exists_cons in Hx as [Hx|Hx%Exists_nil]; done. }
  unfold shutdown_one. destruct (decide (g = udp_recv_tasks)) as [->|]; cbn [shutdown udp_shutdown].
  - pose proof (H _ (recv_loop_ended (clock ts + timeout) true (handles (guards gen udp_recv_tasks)) ts)). unfold udp_shutdown.
    by destruct (recv_loop _ _ _ _ _).
  - pose proof (H _ (shutdown_loop_ended (clock ts + timeout) true (handles (guards gen g)) ts)). unfold shutdown.
    by destruct (shutdown_loop _ _ _ _ _).
Qed.

Lemma stopped_nil timeout s : stopped [] timeout s s.
Proof.
  split; [done|done| | |done|cbn; lia].
  - intros g. by rewrite decide_False by apply not_elem_of_nil.
  - intros h. rewrite decide_False; [done|]. by intros ?%Exists_nil.
Qed.

Lemma stopped_app gs gs' timeout s s1 s2 :
  (forall g, g ∈ gs -> g ∉ gs') -> stopped gs timeout s s1 -> stopped gs' timeout s1 s2 -> stopped (gs ++ gs') timeout s s2.
Proof.
  intros Hd [C1 M1 G1 T1 N1 K1] [C2 M2 G2 T2 N2 K2]. split; try congruence; [| |rewrite length_app; lia].
  - intros g. rewrite G2, G1. destruct (decide (g ∈ gs')), (decide (g ∈ gs)), (decide (g ∈ gs ++ gs')) as [H|H];
      rewrite ?elem_of_app in H; try done; tauto.
  - intros h. rewrite T2, T1. assert (guarded gs' s1.1 h <-> guarded gs' s.1 h) as Hiff.
    { unfold guarded. rewrite !Exists_exists. split; intros (g & Hg & Hh); exists g; (split; [done|]).
      - rewrite G1 in Hh. by destruct (decide (g ∈ gs)) as [?%Hd|]; [|].
      - rewrite G1. by destruct (decide (g ∈ gs)) as [?%Hd|]; [|]. }
    destruct (decide (guarded gs' s1.1 h)) as [H1|H1], (decide (guarded gs s.1 h)) as [H2|H2], (decide (guarded (gs ++ gs') s.1 h)) as [H3|H3];
      try done; exfalso; unfold guarded in *; rewrite Exists_app in *; tauto.
Qed.

Lemma shutdown_all_stopped gs timeout ok s :
  0 <= timeout -> NoDup gs -> stopped gs timeout s (shutdown_all exits gs timeout ok s).2.
Proof.
  intros Ht Hn. revert ok s; induction Hn as [|g gs Hg Hn IH]; intros ok s; cbn [shutdown_all]; [apply stopped_nil|].
  pose proof (shutdown_one_stopped g timeout s Ht). destruct (shutdown_one _ _ _ _) as [r s1].
  eapply (stopped_app [g]); [|done|apply IH]. by intros ? ->%list_elem_of_singleton.
Qed.

Lemma reload_order_NoDup : NoDup reload_order.
Proof. apply (bool_decide_unpack _); vm_compute; exact I. Qed.

Lemma shutdown_for_reload_stopped timeout s :
  0 <= timeout -> stopped reload_order timeout s (shutdown_for_reload exits timeout s).2.
Proof. intros. by apply shutdown_all_stopped, reload_order_NoDup. Qed.

Lemma shutdown_for_exit_stopped timeout s :
  0 <= timeout -> stopped (reload_order ++ [tcp_handlers]) timeout s (shutdown_for_exit exits timeout s).2.
Proof.
  intros Ht. unfold shutdown_for_exit. pose proof (shutdown_for_reload_stopped timeout s Ht) as H1.
  destruct (shutdown_for_reload _ _ _) as [ok s1]. pose proof (shutdown_one_stopped tcp_handlers timeout s1 Ht) as H2.
  change (shutdown_one exits tcp_handlers timeout s1) with (shutdown exits tcp_handlers timeout s1) in H2.
  destruct (shutdown _ _ _ _) as [r s2]. eapply stopped_app; [|done|done]. intros g Hg. rewrite list_elem_of_singleton. intros ->.
  revert Hg. apply (bool_decide_unpack _). by vm_compute.
Qed.
End ShutdownLemmas.

(** * Starting tasks *)

Definition tasks_ok (ts : Tasks) : Prop := forall h o, tasks ts !! h = Some o -> (h < next_task ts)%nat.

(** The handles of generation [k] are its tasks and no others. *)
Record gen_wf (k : nat) (gen : Generation) (ts : Tasks) : Prop := {
  gw_handles g h : h ∈ handles (guards gen g) ->
    (h < next_task ts)%nat /\ forall o, tasks ts !! h = Some o -> o = {| generation := k; guard := g |};
  gw_covered h o : tasks ts !! h = Some o -> generation o = k -> h ∈ handles (guards gen (guard o));
}.

(** From [s] to [s'], generation [k] has started tasks under the guards [gs]. *)
Record spawns (k : nat) (gs : list Guard) (s s' : Generation * Tasks) : Prop := {
  sp_config : config s'.1 = config s.1;
  sp_mode : proxy_mode s'.1 = proxy_mode s.1;
  sp_cancel g : cancel (guards s'.1 g) = cancel (guards s.1 g);
  sp_next : (next_task s.2 <= next_task s'.2)%nat;
  sp_clock : clock s'.2 = clock s.2;
  sp_old h : (h < next_task s.2)%nat -> tasks s'.2 !! h = tasks s.2 !! h;
  sp_new h o : (next_task s.2 <= h)%nat -> tasks s'.2 !! h = Some o ->
    (h < next_task s'.2)%nat /\ generation o = k /\ guard o ∈ gs;
  sp_wf : gen_wf k s.1 s.2 -> gen_wf k s'.1 s'.2;
}.

Lemma spawns_refl k gs s : tasks_ok s.2 -> spawns k gs s s.
Proof. intros Hok. split; try done. intros h o Hh Ho. apply Hok in Ho. lia. Qed.

Lemma spawns_trans k gs s s1 s2 : spawns k gs s s1 -> spawns k gs s1 s2 -> spawns k gs s s2.
Proof.
  intros [C1 M1 G1 N1 K1 O1 W1 F1] [C2 M2 G2 N2 K2 O2 W2 F2]. split; [congruence|congruence| |lia|congruence| | |by auto].
  - intros g. by rewrite G2.
  - intros h Hh. rewrite O2 by lia. by apply O1.
  - intros h o Hh Ho. destruct (decide (h < next_task s1.2)%nat) as [Hlt|Hge].
    + rewrite O2 in Ho by done. destruct (W1 h o Hh Ho) as (? & ? & ?). split; [lia|done].
    + apply (W2 h o); [lia|done].
Qed.

Lemma spawns_ok k gs s s' : tasks_ok s.2 -> spawns k gs s s' -> tasks_ok s'.2.
Proof.
  intros Hok H h o Ho. destruct (decide (h < next_task s.2)%nat) as [Hlt|Hge].
  - rewrite (sp_old _ _ _ _ H) in Ho by done. pose proof (sp_next _ _ _ _ H). lia.
  - apply (sp_new _ _ _ _ H) in Ho as (? & _); [done|lia].
Qed.

Lemma spawns_weaken k gs gs' s s' : (forall g, g ∈ gs -> g ∈ gs') -> spawns k gs s s' -> spawns k gs' s s'.
Proof. intros Hg [? ? ? ? ? ? H ?]. split; try done. intros h o Hh Ho. destruct (H h o Hh Ho) as (? & ? & ?). auto. Qed.

Lemma spawn_spawns k gs g s :
  tasks_ok s.2 -> g ∈ gs ->
  spawns k gs s (spawn k g s) /\ tasks (spawn k g s).2 !! next_task s.2 = Some {| generation := k; guard := g |}.
Proof.
  intros Hok Hg. destruct s as [gen ts]. cbn [spawn fst snd]. split; [|by cbn; rewrite lookup_insert_eq].
  split; cbn; try done; [|lia| | |].
  - intros g'. by destruct (decide (g' = g)) as [->|].
  - intros h Hh. rewrite lookup_insert_ne; [done|lia].
  - intros h o Hh. destruct (decide (h = next_task ts)) as [->|Hn].
    + rewrite lookup_insert_eq. intros [= <-]. cbn. split; [lia|done].
    + rewrite lookup_insert_ne by done. intros Ho. apply Hok in Ho. cbn in Ho, Hh. lia.
  - intros [Hh Hc]. split; cbn.
    + intros g' h Hin. assert (h ∈ handles (guards gen g') \/ h = next_task ts /\ g' = g) as [Hin'|[-> ->]].
      { destruct (decide (g' = g)) as [->|]; [|by left]. cbn in Hin. apply elem_of_app in Hin as [Hin|Hin%list_elem_of_singleton];
          [|by right]. left. by apply list_elem_of_filter in Hin as [_ ?]. }
      * destruct (Hh g' h Hin') as [Hlt Ho]. split; [lia|]. intros o. rewrite lookup_insert_ne by lia. apply Ho.
      * split; [lia|]. intros o. rewrite lookup_insert_eq. by intros [= <-].
    + intros h o. destruct (decide (h = next_task ts)) as [->|Hn].
      * rewrite lookup_insert_eq. intros [= <-] _. cbn. rewrite decide_True by done. cbn. apply elem_of_app. right. by left.
      * rewrite lookup_insert_ne by done. intros Ho Hk. specialize (Hc h o Ho Hk). destruct (decide (guard o = g)) as [E|]; [|done].
        cbn. apply elem_of_app. left. apply list_elem_of_filter. rewrite <- E. split; [by rewrite Ho|done].
Qed.

Lemma spawns_if k gs g b s s1 :
  tasks_ok s.2 -> g ∈ gs -> spawns k gs s s1 -> spawns k gs s (spawn_if b k g s1).
Proof.
  intros Hok Hg H. destruct b; [|done]. eapply spawns_trans; [exact H|]. apply spawn_spawns; [by eapply spawns_ok|done].
Qed.
Lemma spawns_n k gs g n s s1 : tasks_ok s.2 -> g ∈ gs -> spawns k gs s s1 -> spawns k gs s (spawn_n n k g s1).
Proof.
  intros Hok Hg. revert s1; induction n as [|n IH]; intros s1 H; [done|]. apply IH. by apply (spawns_if k gs g true).
Qed.

Definition listener_guards : list Guard := [tcp_listeners; udp_listeners].
Definition start_guards : list Guard :=
  [tcp_listeners; udp_listeners; port_forwards; health_check; upstream_scores; relative_score; score_debug_printer; udp_gc].
(** Membership in a closed list. *)
Ltac in_list := apply (bool_decide_unpack _); vm_compute; exact I.
Lemma listeners_start g : g ∈ listener_guards -> g ∈ start_guards.
Proof. destruct g; intros H; try in_list; exfalso; revert H; in_list. Qed.
Lemma listeners_stop g : g ∈ listener_guards -> g ∈ reload_order ++ [tcp_handlers].
Proof. destruct g; intros H; try in_list; exfalso; revert H; in_list. Qed.

Lemma spawn_listeners_spawns k env s :
  tasks_ok s.2 -> spawns k listener_guards s (spawn_listener_tasks k env s).2.
Proof.
  intros Hok. unfold spawn_listener_tasks. destruct (negb _); [by apply spawns_refl|].
  destruct (tproxy_tcp env) as [[v4 v6]|]; [|by apply spawns_refl].
  assert (spawns k listener_guards s (spawn_if v6 k tcp_listeners (spawn_if v4 k tcp_listeners s))) as H
    by (do 2 (apply spawns_if; [done|by left|]); by apply spawns_refl).
  destruct (Config.udp _); [|done]. destruct (tproxy_udp env) as [[u4 u6]|]; [|done].
  do 2 (apply spawns_if; [done|by right; left|]). done.
Qed.

Lemma spawn_forwards_spawns k env s s1 :
  tasks_ok s.2 -> spawns k start_guards s s1 -> spawns k start_guards s (spawn_port_forward_tasks k env s1).2.
Proof.
  intros Hok H. unfold spawn_port_forward_tasks. destruct (forallb _ _); [|done]. cbn [snd].
  generalize (Config.port_forward (config s1.1)). intros pfs. revert s1 H; induction pfs as [|pf pfs IH]; intros s1 H; [done|].
  cbn [foldl]. apply IH. apply spawns_n; [done|by right; right; left|done].
Qed.

Lemma spawn_forwards_fails k env s : (spawn_port_forward_tasks k env s).1 = false -> (spawn_port_forward_tasks k env s).2 = s.
Proof. unfold spawn_port_forward_tasks. by destruct (forallb _ _). Qed.

(** A start that fails has started listeners only. *)
Lemma spawn_all_spawns k env s :
  tasks_ok s.2 ->
  let r := spawn_all_tasks k env s in
  spawns k (if r.1 then start_guards else listener_guards) s r.2 /\
  (r.1 = true -> Config.disable_upstream_score (config s.1) = false -> Config.enable_relative_scoring (config s.1) = true ->
   exists h, (next_task s.2 <= h)%nat /\ tasks r.2.2 !! h = Some {| generation := k; guard := relative_score |}).
Proof.
  intros Hok. cbv zeta. unfold spawn_all_tasks. pose proof (spawn_listeners_spawns k env s Hok) as H1.
  destruct (spawn_listener_tasks k env s) as [[|] s1]; [|done]. cbn [negb snd] in *.
  assert (spawns k start_guards s s1) as H1'.
  { eapply spawns_weaken; [|exact H1]. apply listeners_start. }
  pose proof (spawn_forwards_spawns k env s s1 Hok H1') as H2. pose proof (spawn_forwards_fails k env s1) as Hf.
  destruct (spawn_port_forward_tasks k env s1) as [[|] s2]; cbn [negb fst snd] in *; [|by rewrite Hf].
  assert (forall s', spawns k start_guards s s' -> spawns k start_guards s (spawn k udp_gc s')) as Hgc.
  { intros s' H. apply (spawns_if k start_guards udp_gc true); [done| |done]. in_list. }
  set (s3 := spawn_if _ k health_check s2).
  assert (spawns k start_guards s s3) as H3 by (apply spawns_if; [done|in_list|done]).
  rewrite (sp_config _ _ _ _ H2). destruct (Config.disable_upstream_score _); [by split; [apply Hgc|]|].
  set (s4 := spawn_n _ k upstream_scores s3).
  assert (spawns k start_guards s s4) as H4 by (apply spawns_n; [done|in_list|done]).
  destruct (Config.enable_relative_scoring _); cbn [spawn_if].
  2: { split; [|done]. apply Hgc, spawns_if; [done|in_list|done]. }
  pose proof (spawns_ok _ _ _ _ Hok H4) as Hok4.
  destruct (spawn_spawns k start_guards relative_score s4 Hok4) as [H5 Hr]; [in_list|].
  pose proof (spawns_ok _ _ _ _ Hok4 H5) as Hok5. set (s5 := spawn k relative_score s4) in *.
  set (s6 := spawn_if (_ && _) k score_debug_printer s5).
  assert (spawns k start_guards s5 (spawn k udp_gc s6)) as H6.
  { apply (spawns_if k start_guards udp_gc true); [done|in_list|].
    apply spawns_if; [done|in_list|by apply spawns_refl]. }
  split; [eapply spawns_trans; [exact H4|]; by eapply spawns_trans|]. intros _ _ _. exists (next_task s4.2).
  split; [exact (sp_next _ _ _ _ H4)|]. rewrite (sp_old _ _ _ _ H6); [done|]. apply Hok5 in Hr. exact Hr.
Qed.

(** * The invariant of the program *)

Record program_ok (p : Program) : Prop := {
  po_tasks h o : tasks (ts p) !! h = Some o -> (h < next_task (ts p))%nat /\ is_Some (gens p !! generation o);
  po_gens k gen : gens p !! k = Some gen -> (k < next_gen p)%nat /\ gen_wf k gen (ts p);
  po_active : is_Some (gens p !! active p);
}.

Lemma po_tasks_ok p : program_ok p -> tasks_ok (ts p).
Proof. intros Hp h o Ho. exact (proj1 (po_tasks _ Hp h o Ho)). Qed.

(** Ending tasks, and tasks that other generations start, keep [gen_wf]. *)
Lemma gen_wf_less k gen ts ts' :
  gen_wf k gen ts -> (next_task ts <= next_task ts')%nat ->
  (forall h o, tasks ts' !! h = Some o -> tasks ts !! h = Some o) -> gen_wf k gen ts'.
Proof.
  intros [Hh Hc] Hn Hs. split.
  - intros g h Hin. destruct (Hh g h Hin) as [Hlt Ho]. split; [lia|]. intros o ?%Hs. auto.
  - intros h o ?%Hs. auto.
Qed.
Lemma gen_wf_spawns k k' gs gen gen0 ts s' :
  gen_wf k gen ts -> k <> k' -> spawns k' gs (gen0, ts) s' -> gen_wf k gen s'.2.
Proof.
  intros [Hh Hc] Hne H. split.
  - intros g h Hin. destruct (Hh g h Hin) as [Hlt Ho]. pose proof (sp_next _ _ _ _ H). cbn [snd] in *. split; [lia|].
    intros o. rewrite (sp_old _ _ _ _ H) by done. apply Ho.
  - intros h o Ho Hk. destruct (decide (h < next_task ts)%nat) as [Hlt|Hge].
    + rewrite (sp_old _ _ _ _ H) in Ho by done. by apply (Hc h o).
    + destruct (sp_new _ _ _ _ H h o) as (_ & E & _); [cbn; lia|done|congruence].
Qed.

Lemma guarded_owner k gen ts gs h o :
  gen_wf k gen ts -> tasks ts !! h = Some o -> guarded gs gen h <-> generation o = k /\ guard o ∈ gs.
Proof.
  intros [Hh Hc] Ho. unfold guarded. rewrite Exists_exists. split.
  - intros (g & Hg & Hin). destruct (Hh g h Hin) as [_ E]. rewrite (E o Ho). done.
  - intros [Hk Hg]. exists (guard o). split; [done|]. by apply Hc.
Qed.

Lemma stopped_wf k gs timeout s s' : gen_wf k s.1 s.2 -> stopped gs timeout s s' -> gen_wf k s'.1 s'.2.
Proof.
  intros Hw H. pose proof Hw as [Hh Hc]. split.
  - intros g h Hin. rewrite (st_guards _ _ _ _ H) in Hin. destruct (decide (g ∈ gs)); [by apply not_elem_of_nil in Hin|].
    destruct (Hh g h Hin) as [Hlt Ho]. rewrite (st_next _ _ _ _ H). split; [done|]. intros o. rewrite (st_tasks _ _ _ _ H).
    destruct (decide _); [done|apply Ho].
  - intros h o Ho Hk. rewrite (st_tasks _ _ _ _ H) in Ho. destruct (decide (guarded gs s.1 h)) as [|Hng]; [done|].
    rewrite (st_guards _ _ _ _ H), decide_False; [by apply Hc|]. intros Hg. apply Hng. by eapply guarded_owner.
Qed.
Lemma stopped_sub gs timeout s s' h o : stopped gs timeout s s' -> tasks s'.2 !! h = Some o -> tasks s.2 !! h = Some o.
Proof. intros H. rewrite (st_tasks _ _ _ _ H). by destruct (decide _). Qed.

Lemma generation_new_wf k c ts : (forall h o, tasks ts !! h = Some o -> generation o <> k) -> gen_wf k (generation_new c) ts.
Proof.
  intros Hn. split; cbn.
  - intros g h Hin. by apply not_elem_of_nil in Hin.
  - intros h o Ho Hk. by apply Hn in Ho.
Qed.

Lemma fresh_generation p h o : program_ok p -> tasks (ts p) !! h = Some o -> generation o <> next_gen p.
Proof. intros Hp [_ [gen Hg]]%(po_tasks _ Hp) E. apply (po_gens _ Hp) in Hg as [Hlt _]. lia. Qed.

(** A failed start, once rolled back, leaves the tasks as they were. *)
Lemma rollback_ok k exits timeout c ts s :
  tasks_ok ts -> (forall h o, tasks ts !! h = Some o -> generation o <> k) -> 0 <= timeout ->
  spawns k listener_guards (generation_new c, ts) s -> tasks (shutdown_for_exit exits timeout s).2.2 = tasks ts.
Proof.
  intros Hok Hk Ht H. pose proof (shutdown_for_exit_stopped exits timeout s Ht) as Hs.
  destruct (shutdown_for_exit _ _ _) as [r s1]. cbn [snd] in *. pose proof (sp_wf _ _ _ _ H (generation_new_wf k c ts Hk)) as Hw.
  apply map_eq. intros h. rewrite (st_tasks _ _ _ _ Hs). destruct (decide (h < next_task ts)%nat) as [Hlt|Hge].
  - rewrite (sp_old _ _ _ _ H) by done. cbn [snd]. destruct (decide _) as [Hg|]; [|done].
    destruct (tasks ts !! h) as [o|] eqn:Ho; [exfalso|done]. rewrite <- (sp_old _ _ _ _ H) in Ho by done.
    pose proof Ho as Ho'. rewrite (sp_old _ _ _ _ H) in Ho' by done. apply (Hk h o Ho').
    eapply guarded_owner in Hg as [E _]; [exact E|exact Hw|exact Ho].
  - destruct (tasks ts !! h) as [o|] eqn:Ho; [apply Hok in Ho; lia|]. destruct (decide _) as [|Hng]; [done|].
    destruct (tasks s.2 !! h) as [o|] eqn:Hn; [exfalso|done]. apply Hng. eapply guarded_owner; [exact Hw|exact Hn|].
    destruct (sp_new _ _ _ _ H h o) as (_ & E & Hg); [cbn; lia|done|]. split; [done|]. by apply listeners_stop.
Qed.

(** * Reloading *)

(** What a reload did. *)
Inductive reloaded (loaded : option Config.Config) (p p' : Program) : bool -> Prop :=
  | reload_kept :
      gens p' = gens p -> active p' = active p -> tasks (ts p') = tasks (ts p) ->
      reloaded loaded p p' false
  | reload_done c old new :
      loaded = Some c -> gens p !! active p = Some old -> active p' = next_gen p ->
      (** the new generation *)
      gens p' !! active p' = Some new -> config new = c -> proxy_mode new = Config.proxy_mode c ->
      (forall g, cancel (guards new g) = false) ->
      (** its tasks, and those that go on *)
      (forall h o, (next_task (ts p) <= h)%nat -> tasks (ts p') !! h = Some o -> generation o = active p' /\ guard o ∈ start_guards) ->
      (forall h o, (h < next_task (ts p))%nat ->
         tasks (ts p') !! h = Some o <-> tasks (ts p) !! h = Some o /\ ~ (generation o = active p /\ guard o ∈ reload_order)) ->
      (** the generation it replaces, and the others *)
      (exists old', gens p' !! active p = Some old' /\ config old' = config old /\ proxy_mode old' = proxy_mode old /\
         forall g, guards old' g = if decide (g ∈ reload_order) then {| cancel := true; handles := [] |} else guards old g) ->
      (forall k, k <> active p -> k <> next_gen p -> gens p' !! k = gens p !! k) ->
      reloaded loaded p p' true.

(** A reload whose tasks all start. *)
Lemma reload_success exits p c old s :
  program_ok p -> gens p !! active p = Some old -> spawns (next_gen p) start_guards (generation_new c, ts p) s ->
  let s_old := (shutdown_for_reload exits (2 * SECOND) (old, s.2)).2 in
  let p' := {| gens := <[active p := s_old.1]> (<[next_gen p := s.1]> (gens p)); active := next_gen p;
               next_gen := S (next_gen p); ts := s_old.2 |} in
  program_ok p' /\ reloaded (Some c) p p' true /\ clock (ts p) <= clock (ts p') <= clock (ts p) + 14 * SECOND /\
  forall h o, tasks s.2 !! h = Some o -> guard o ∉ reload_order -> tasks (ts p') !! h = Some o.
Proof.
  intros Hp Eold Hsp. cbv zeta. set (k := next_gen p) in *. pose proof (po_tasks_ok p Hp) as Hok.
  assert (gen_wf k (generation_new c) (ts p)) as Hnew by (apply generation_new_wf; intros h o; by apply fresh_generation).
  pose proof (po_gens _ Hp _ _ Eold) as [Hold Hwold].
  assert (active p <> k) as Hne by (unfold k; lia).
  assert (gen_wf (active p) old s.2) as Hwold' by exact (gen_wf_spawns _ _ _ _ _ _ _ Hwold Hne Hsp).
  pose proof (shutdown_for_reload_stopped exits (2 * SECOND) (old, s.2) ltac:(done)) as Hst.
  pose proof (stopped_wf _ _ _ (old, s.2) _ Hwold' Hst) as Hws. pose proof (sp_wf _ _ _ _ Hsp Hnew) as Hwk.
  destruct (shutdown_for_reload _ _ _) as [r [old' ts']]. cbn [fst snd] in *.
  pose proof (st_clock _ _ _ _ Hst) as Hc. change (Z.of_nat (length reload_order)) with 7 in Hc.
  pose proof (sp_clock _ _ _ _ Hsp) as Hck. pose proof (st_next _ _ _ _ Hst) as Hn. pose proof (sp_next _ _ _ _ Hsp) as Hn'.
  assert (forall h o, tasks ts' !! h = Some o -> tasks s.2 !! h = Some o) as Hsub by (intros h o; exact (stopped_sub _ _ _ _ h o Hst)).
  assert (forall h o, tasks s.2 !! h = Some o -> ~ (generation o = active p /\ guard o ∈ reload_order) -> tasks ts' !! h = Some o) as Hkeep.
  { intros h o Ho Hno. pose proof (st_tasks _ _ _ _ Hst h) as E. cbn [fst snd] in E. rewrite E, decide_False; [done|].
    intros Hg. exact (Hno (proj1 (guarded_owner _ _ _ _ _ _ Hwold' Ho) Hg)). }
  assert (forall h o, tasks ts' !! h = Some o -> ~ (generation o = active p /\ guard o ∈ reload_order)) as Hgone.
  { intros h o Ho Hyes. pose proof (st_tasks _ _ _ _ Hst h) as E. cbn [fst snd] in E. rewrite Ho in E.
    destruct (decide _) as [|Hng] in E; [done|]. exact (Hng (proj2 (guarded_owner _ _ _ _ _ _ Hwold' (Hsub _ _ Ho)) Hyes)). }
  assert (forall h o, (next_task (ts p) <= h)%nat -> tasks ts' !! h = Some o -> generation o = k /\ guard o ∈ start_guards) as Hnewt.
  { intros h o Hh Ho%Hsub. by destruct (sp_new _ _ _ _ Hsp h o Hh Ho) as (_ & ? & ?). }
  cbn [fst snd] in Hn, Hn'. cbn [ts next_task clock gens active next_gen] in *. split; [split; cbn|split; [|split; [cbn; cbn in Hc, Hck; unfold SECOND in *; lia|]]].
  + intros h o Ho. destruct (decide (h < next_task (ts p))%nat) as [Hlt|Hge].
    * apply Hsub in Ho. rewrite (sp_old _ _ _ _ Hsp) in Ho by done. apply (po_tasks _ Hp) in Ho as [? [gen Hg]].
      split; [lia|]. destruct (decide (generation o = active p)) as [->|]; [by rewrite lookup_insert_eq|].
      rewrite lookup_insert_ne by done. destruct (decide (generation o = k)) as [->|]; [by rewrite lookup_insert_eq|].
      by rewrite lookup_insert_ne, Hg by done.
    * pose proof (Hsub _ _ Ho) as Hos. destruct (sp_new _ _ _ _ Hsp h o) as (Hlt & -> & _); [cbn; lia|done|]. split; [lia|].
      by rewrite lookup_insert_ne, lookup_insert_eq by done.
  + intros k' gen. destruct (decide (k' = active p)) as [->|Hna]; [rewrite lookup_insert_eq; intros [= <-]; split; [lia|done]|].
    rewrite lookup_insert_ne by done. destruct (decide (k' = k)) as [->|Hnk].
    * rewrite lookup_insert_eq. intros [= <-]. split; [lia|]. eapply gen_wf_less; [exact Hwk|lia|done].
    * rewrite lookup_insert_ne by done. intros [Hlt Hw]%(po_gens _ Hp). split; [lia|].
      eapply gen_wf_less; [exact (gen_wf_spawns _ _ _ _ _ _ _ Hw Hnk Hsp)|lia|done].
  + rewrite lookup_insert_ne, lookup_insert_eq by done. done.
  + apply (reload_done _ _ _ c old s.1); cbn; try done.
    * by rewrite lookup_insert_ne, lookup_insert_eq by done.
    * exact (sp_config _ _ _ _ Hsp).
    * exact (sp_mode _ _ _ _ Hsp).
    * intros g. exact (sp_cancel _ _ _ _ Hsp g).
    * intros h o Hh. split.
      -- intros Ho. split; [|by eapply Hgone]. apply Hsub in Ho. by rewrite (sp_old _ _ _ _ Hsp) in Ho.
      -- intros [Ho Hno]. apply Hkeep; [|done]. by rewrite (sp_old _ _ _ _ Hsp).
    * exists old'. rewrite lookup_insert_eq. split; [done|]. split; [exact (st_config _ _ _ _ Hst)|].
      split; [exact (st_mode _ _ _ _ Hst)|exact (st_guards _ _ _ _ Hst)].
    * intros k' Hna Hnk. by rewrite !lookup_insert_ne by done.
  + intros h o Ho Hn0. apply Hkeep; [done|]. by intros [_ ?].
Qed.

Lemma reload_ok exits loaded env p :
  program_ok p ->
  let r := reload_config exits loaded env p in
  program_ok r.2 /\ reloaded loaded p r.2 r.1 /\ clock (ts p) <= clock (ts r.2) <= clock (ts p) + 14 * SECOND /\
  (r.1 = true -> forall c, loaded = Some c -> Config.disable_upstream_score c = false -> Config.enable_relative_scoring c = true ->
   exists h, (next_task (ts p) <= h)%nat /\ tasks (ts r.2) !! h = Some {| generation := active r.2; guard := relative_score |}).
Proof.
  intros Hp. cbv zeta. unfold reload_config. destruct loaded as [c|].
  2: { split; [done|]. split; [by constructor|]. split; [cbn; unfold SECOND; lia|done]. }
  set (k := next_gen p). pose proof (po_tasks_ok p Hp) as Hok.
  destruct (spawn_all_spawns k env (generation_new c, ts p) Hok) as [Hsp Hrel].
  destruct (spawn_all_tasks k env (generation_new c, ts p)) as [[|] s]; cbn [negb fst snd] in *.
  - destruct (po_active _ Hp) as [old Eold]. rewrite Eold. destruct (reload_success exits p c old s Hp Eold Hsp) as (H1 & H2 & H3 & Hkeep).
    destruct (shutdown_for_reload _ _ _) as [r s_old]. cbn [fst snd] in *. split; [done|]. split; [done|]. split; [done|].
    intros _ c' [= <-] Hd He. destruct (Hrel eq_refl Hd He) as (h & Hh & Ho). exists h. split; [done|]. apply Hkeep; [done|]. in_list.
  - pose proof (rollback_ok k exits (1 * SECOND) c (ts p) s Hok ltac:(intros h o; by apply fresh_generation) ltac:(done) Hsp) as Ets.
    pose proof (shutdown_for_exit_stopped exits (1 * SECOND) s ltac:(done)) as Hst.
    destruct (shutdown_for_exit _ _ _) as [r s1]. cbn [snd fst] in *. pose proof (st_clock _ _ _ _ Hst) as Hc.
    pose proof (st_next _ _ _ _ Hst) as Hn. pose proof (sp_next _ _ _ _ Hsp) as Hn'. rewrite (sp_clock _ _ _ _ Hsp) in Hc.
    change (Z.of_nat (length (reload_order ++ [tcp_handlers]))) with 8 in Hc. cbn [snd] in *.
    split; [|split; [by constructor|split; [cbn; unfold SECOND in *; lia|done]]].
    split; cbn.
    + intros h o. rewrite Ets. intros Ho. apply (po_tasks _ Hp) in Ho as [? ?]. split; [lia|done].
    + intros k' gen Hg. apply (po_gens _ Hp) in Hg as [Hlt Hw]. split; [lia|]. eapply gen_wf_less; [exact Hw|lia|]. by rewrite Ets.
    + apply Hp.
Qed.

(** The program after [main] has started its first generation. *)
Definition start_program (c : Config.Config) (env : Sockets) : bool * Program :=
  let (ok, s) := spawn_all_tasks 0 env (generation_new c, {| tasks := ∅; next_task := 0; clock := 0 |}) in
  (ok, {| gens := {[0%nat := s.1]}; active := 0; next_gen := 1; ts := s.2 |}).

(** A task of relative scoring belongs to a guard that was never cancelled. *)
Definition relative_ok (p : Program) : Prop :=
  forall h o gen, tasks (ts p) !! h = Some o -> guard o = relative_score -> gens p !! generation o = Some gen ->
    cancel (guards gen relative_score) = false.

Lemma start_ok c env : let p := (start_program c env).2 in program_ok p /\ relative_ok p.
Proof.
  cbv zeta. unfold start_program. set (ts0 := {| tasks := ∅; next_task := 0; clock := 0 |}).
  assert (tasks_ok ts0) as Hok by (intros h o; cbn; by rewrite lookup_empty).
  destruct (spawn_all_spawns 0 env (generation_new c, ts0) Hok) as [Hsp _].
  destruct (spawn_all_tasks 0 env _) as [ok s]. cbn [fst snd] in *.
  assert (gen_wf 0 s.1 s.2) as Hw.
  { apply (sp_wf _ _ _ _ Hsp), generation_new_wf. intros h o. cbn. by rewrite lookup_empty. }
  split; [split; cbn|].
  - intros h o Ho. destruct (sp_new _ _ _ _ Hsp h o) as (Hlt & -> & _); [cbn; lia|done|]. split; [done|]. by rewrite lookup_singleton_eq.
  - intros k gen [<- <-]%lookup_singleton_Some. split; [lia|done].
  - by rewrite lookup_singleton_eq.
  - intros h o gen _ _. cbn. intros [_ <-]%lookup_singleton_Some. exact (sp_cancel _ _ _ _ Hsp relative_score).
Qed.

(** Gens that keep the guards of a generation up to its cancelled flags. *)
Lemma gen_wf_handles k gen gen' ts :
  (forall g, handles (guards gen' g) = handles (guards gen g)) -> gen_wf k gen ts -> gen_wf k gen' ts.
Proof.
  intros E [Hh Hc]. split.
  - intros g h. rewrite E. apply Hh.
  - intros h o Ho Hk. rewrite E. by apply Hc.
Qed.

Lemma rotate_lookup p k : gens (rotate_mode p) !! k =
  if decide (k = active p) then (fun gen => {| config := config gen; proxy_mode := proxy_mode_next (proxy_mode gen); guards := guards gen |}) <$> gens p !! k
  else gens p !! k.
Proof.
  cbn. destruct (decide (k = active p)) as [->|]; [apply lookup_alter_eq|by apply lookup_alter_ne].
Qed.

Definition inv (p : Program) : Prop := program_ok p /\ relative_ok p.

Lemma reload_step_ok exits loaded env p : inv p -> inv (reload_config exits loaded env p).2.
Proof.
  intros [Hp Hr].
  destruct (reload_ok exits loaded env p Hp) as (Hp' & Hrel & _). split; [done|].
  destruct (reload_config exits loaded env p) as [b p']. cbn [fst snd] in *.
  destruct Hrel as [Eg Ea Et|c old new _ Hold Eact Hnew _ _ Hcancel Hnewt Holdt (old' & Hold' & _ & _ & Hguards) Hothers].
  { intros h o gen. rewrite Et, Eg. apply Hr. }
  intros h o gen Ho Hg Hgen. destruct (decide (h < next_task (ts p))%nat) as [Hlt|Hge].
  2: { destruct (Hnewt h o) as [E _]; [lia|done|]. rewrite E, Hnew in Hgen. injection Hgen as <-. apply Hcancel. }
  apply Holdt in Ho as [Ho _]; [|done]. destruct (decide (generation o = active p)) as [E|Hne].
  + rewrite E, Hold' in Hgen. injection Hgen as <-. rewrite Hguards, decide_False by in_list.
    apply (Hr h o); [done|done|by rewrite E].
  + rewrite Hothers in Hgen; [by apply (Hr h o)|done|by eapply fresh_generation].
Qed.

Lemma rotate_ok p : inv p -> inv (rotate_mode p).
Proof.
  intros [Hp Hr].
  split; [split|].
  + intros h o [? [gen Hgen]]%(po_tasks _ Hp). split; [done|]. rewrite rotate_lookup, Hgen. by destruct (decide _).
  + intros k gen. rewrite rotate_lookup. destruct (decide _); [|apply (po_gens _ Hp)].
    intros (gen0 & [Hlt Hw]%(po_gens _ Hp) & ->)%fmap_Some_1. split; [done|]. by eapply gen_wf_handles; [|exact Hw].
  + destruct (po_active _ Hp) as [gen Hgen]. change (active (rotate_mode p)) with (active p). rewrite rotate_lookup, Hgen.
    by destruct (decide _).
  + intros h o gen Ho Hg. rewrite rotate_lookup. destruct (decide _); [|exact (Hr h o gen Ho Hg)].
    intros (gen0 & Hgen0 & ->)%fmap_Some_1. exact (Hr h o gen0 Ho Hg Hgen0).
Qed.

Lemma spawn_ok p k gen g :
  inv p -> gens p !! k = Some gen -> g = tcp_handlers \/ g = udp_recv_tasks ->
  inv (let (gen, ts) := spawn k g (gen, ts p) in
       {| gens := <[k := gen]> (gens p); active := active p; next_gen := next_gen p; ts := ts |}).
Proof.
  intros [Hp Hr] Hk Hg.
  pose proof (po_tasks_ok p Hp) as Hok. destruct (po_gens _ Hp _ _ Hk) as [Hlt Hw].
  destruct (spawn_spawns k [g] g (gen, ts p) Hok ltac:(by left)) as [Hsp _]. destruct (spawn k g (gen, ts p)) as [gen' ts'] eqn:Es.
  pose proof (spawns_ok k [g] (gen, ts p) (gen', ts') Hok Hsp) as Hok'. pose proof (sp_wf _ _ _ _ Hsp Hw) as Hw'. cbn [fst snd] in *.
  assert (forall h o, tasks ts' !! h = Some o -> tasks (ts p) !! h = Some o \/ generation o = k /\ guard o = g) as Hcase.
  { intros h o Ho. destruct (decide (h < next_task (ts p))%nat) as [Hl|Hge].
    - left. by rewrite (sp_old _ _ _ _ Hsp) in Ho.
    - right. destruct (sp_new _ _ _ _ Hsp h o) as (_ & ? & ->%list_elem_of_singleton); [cbn; lia|done|done]. }
  split; [split; cbn|].
  + intros h o Ho. split; [by apply (Hok' h o)|]. destruct (Hcase h o Ho) as [[_ [gen0 Hg0]]%(po_tasks _ Hp)|[-> _]].
    * destruct (decide (generation o = k)) as [->|]; [by rewrite lookup_insert_eq|by rewrite lookup_insert_ne, Hg0].
    * by rewrite lookup_insert_eq.
  + intros k' gen0. destruct (decide (k' = k)) as [->|Hne].
    * rewrite lookup_insert_eq. by intros [= <-].
    * rewrite lookup_insert_ne by done. intros [? Hw0]%(po_gens _ Hp). split; [done|].
      exact (gen_wf_spawns _ _ _ _ _ _ _ Hw0 Hne Hsp).
  + destruct (po_active _ Hp) as [gen0 Hg0]. destruct (decide (active p = k)) as [->|]; [by rewrite lookup_insert_eq|by rewrite lookup_insert_ne, Hg0].
  + intros h o gen0 Ho Hrel. cbn. destruct (Hcase h o Ho) as [Ho'|[_ E]]; [|exfalso; destruct Hg; congruence].
    destruct (decide (generation o = k)) as [E|Hne]; [|rewrite lookup_insert_ne by done; by apply (Hr h o)].
    rewrite E, lookup_insert_eq. intros [= <-]. pose proof (sp_cancel _ _ _ _ Hsp relative_score) as Ec. cbn [fst] in Ec. rewrite Ec.
    apply (Hr h o); [done|done|by rewrite E].
Qed.

Lemma end_ok p h : inv p -> inv {| gens := gens p; active := active p; next_gen := next_gen p; ts := end_task (ts p) h |}.
Proof.
  intros [Hp Hr].
  split; [split; cbn|].
  + intros h' o' [_ Ho']%lookup_delete_Some. by apply (po_tasks _ Hp).
  + intros k gen0 [? Hw]%(po_gens _ Hp). split; [done|]. eapply gen_wf_less; [exact Hw|done|].
    intros h' o'. cbn. by intros [_ ?]%lookup_delete_Some.
  + apply Hp.
  + intros h' o' gen0. cbn. intros [_ Ho']%lookup_delete_Some. by apply (Hr h').
Qed.

Lemma drop_ok p k gen :
  inv p -> k <> active p -> gens p !! k = Some gen ->
  (forall h o, tasks (ts p) !! h = Some o -> generation o = k -> holds_state (guard o) = false) ->
  inv {| gens := <[k := drop_generation gen]> (gens p); active := active p; next_gen := next_gen p; ts := ts p |}.
Proof.
  intros [Hp Hr] Hk Hgen Hh.
  split; [split; cbn|].
  + intros h o [? [gen0 Hg0]]%(po_tasks _ Hp). split; [done|].
    destruct (decide (generation o = k)) as [->|]; [by rewrite lookup_insert_eq|by rewrite lookup_insert_ne, Hg0].
  + intros k' gen0. destruct (decide (k' = k)) as [->|].
    * rewrite lookup_insert_eq. intros [= <-]. apply (po_gens _ Hp) in Hgen as [? Hw]. split; [done|]. by eapply gen_wf_handles; [|exact Hw].
    * rewrite lookup_insert_ne by done. apply (po_gens _ Hp).
  + destruct (po_active _ Hp) as [gen0 Hg0]. by rewrite lookup_insert_ne, Hg0.
  + intros h o gen0 Ho Hrel. destruct (decide (generation o = k)) as [E|Hne].
    * exfalso. specialize (Hh h o Ho E). by rewrite Hrel in Hh.
    * cbn. rewrite lookup_insert_ne by done. by apply (Hr h o).
Qed.

Lemma program_step_ok p p' : inv p -> program_step p p' -> inv p'.
Proof.
  intros Hi Hs. destruct Hs as [| |p' []]; [by apply reload_step_ok|by apply rotate_ok|by apply spawn_ok|by apply end_ok|by apply drop_ok].
Qed.

Lemma step_keeps_relative p p' h o :
  program_ok p -> relative_ok p -> program_step p p' ->
  tasks (ts p) !! h = Some o -> guard o = relative_score -> tasks (ts p') !! h = Some o.
Proof.
  intros Hp Hr Hs Ho Hg. pose proof (po_tasks_ok p Hp h o Ho) as Hlt.
  destruct Hs as [exits loaded env| |p' [k gen g Hk _ _|h' o' gen Ho' Hgen Hend|k gen _ _ _]]; [|exact Ho| | |exact Ho].
  - destruct (reload_ok exits loaded env p Hp) as (_ & Hrel & _). destruct (reload_config exits loaded env p) as [b p'].
    cbn [fst snd] in *. destruct Hrel as [_ _ Et|c old new _ _ _ _ _ _ _ _ Holdt _ _]; [by rewrite Et|].
    apply Holdt; [done|]. split; [done|]. rewrite Hg. intros [_ Hin]. revert Hin. in_list.
  - destruct (spawn_spawns k [g] g (gen, ts p) (po_tasks_ok p Hp) ltac:(by left)) as [Hsp _].
    destruct (spawn k g (gen, ts p)) as [gen' ts']. cbn. by rewrite (sp_old _ _ _ _ Hsp).
  - cbn. destruct (decide (h' = h)) as [->|]; [exfalso|by rewrite lookup_delete_ne]. rewrite Ho' in Ho. injection Ho as ->.
    rewrite Hg in Hend. rewrite (Hr h o gen) in Hend by done. by destruct Hend.
Qed.

(** The states of a run of the process, before its exit. *)
Definition reachable (c : Config.Config) (env : Sockets) (p : Program) : Prop :=
  rtc program_step (start_program c env).2 p.

Lemma reachable_ok c env p : reachable c env p -> program_ok p /\ relative_ok p.
Proof.
  unfold reachable. generalize (start_ok c env). generalize (start_program c env).2. intros p0 H0 Hr.
  induction Hr as [p|p p1 p2 Hs _ IH]; [done|]. apply IH. by apply (program_step_ok p).
Qed.

(** C18: a reload takes effect completely or not at all. In every state the
    process can reach, and whatever the system grants, a reload that fails
    leaves the generations as they were and exactly the tasks that were
    running; one that succeeds makes a new generation active, with the mode of
    its configuration, stops the listeners, port forwards, collector, UDP
    sessions, score and health tasks of the one it replaces and of no other,
    and lets its accepted connections go on. Either way it ends within the
    timeouts of the guards it waits for, 14 seconds at most. *)
Theorem reload_transactional c env p exits loaded env' :
  reachable c env p ->
  let r := reload_config exits loaded env' p in
  reloaded loaded p r.2 r.1 /\ clock (ts p) <= clock (ts r.2) <= clock (ts p) + 14 * SECOND.
Proof.
  intros [Hp _]%reachable_ok. destruct (reload_ok exits loaded env' p Hp) as (_ & H1 & H2 & _). by split.
Qed.

(** C20: the task of relative scoring outlives its generation. No reload, no
    end of other tasks and no drop of a state ever ends it: once it runs, it
    runs until the process exits, since it is never cancelled and keeps its own
    state alive; and every reload to a configuration with relative scoring
    starts another one. *)
Theorem relative_score_leaks c env p :
  reachable c env p ->
  (forall h o p', tasks (ts p) !! h = Some o -> guard o = relative_score -> rtc program_step p p' -> tasks (ts p') !! h = Some o) /\
  forall exits c' env', Config.disable_upstream_score c' = false -> Config.enable_relative_scoring c' = true ->
    let r := reload_config exits (Some c') env' p in
    r.1 = true ->
    exists h, tasks (ts p) !! h = None /\ tasks (ts r.2) !! h = Some {| generation := active r.2; guard := relative_score |}.
Proof.
  intros [Hp Hr]%reachable_ok. split.
  - intros h o p' Ho Hg Hs. induction Hs as [p|p p1 p2 Hs _ IH]; [done|]. destruct (program_step_ok _ _ (conj Hp Hr) Hs).
    apply IH; [done|done|]. exact (step_keeps_relative _ _ _ _ Hp Hr Hs Ho Hg).
  - intros exits c' env' Hd He. cbv zeta. intros Hok. destruct (reload_ok exits (Some c') env' p Hp) as (_ & _ & _ & H).
    destruct (H Hok c' eq_refl Hd He) as (h & Hh & Ho). exists h. split; [|done].
    destruct (tasks (ts p) !! h) as [o|] eqn:E; [|done]. apply (po_tasks_ok p Hp) in E. lia.
Qed.

(** * Instances *)

Definition relative_config : Config.Config :=
  let c := file_config [example_upstream (bs "u") None] false false in { c with Config.enable_relative_scoring := true }.
Definition example_sockets : Sockets := {|
  listen_parses := true; tproxy_tcp := Some (true, false); tproxy_udp := Some (true, false);
  forward_binds := fun _ => true; debug_enabled := false |}.
(** No IPv4 or IPv6 UDP socket. *)
Definition busy_sockets : Sockets := {|
  listen_parses := true; tproxy_tcp := Some (true, false); tproxy_udp := None;
  forward_binds := fun _ => true; debug_enabled := false |}.
(** Every task ends when cancelled, task 1 never does. *)
Definition example_exits (h : nat) : option Z := if (h =? 1)%nat then None else Some 5.

(** The owners of the running tasks. *)
Definition running (p : Program) : list (nat * Guard) :=
  omap (fun h => (fun o => (h, guard o)) <$> tasks (ts p) !! h) (seq 0 (next_task (ts p))).

(** The UDP listener is aborted after two seconds; the relative scoring task of
    the first generation goes on. *)
Lemma reload_transactional_witness :
  let p := (start_program relative_config example_sockets).2 in
  let r := reload_config example_exits (Some relative_config) example_sockets p in
  let f := reload_config example_exits (Some relative_config) busy_sockets p in
  (r.1 = true /\ clock (ts r.2) = 2 * SECOND + 5 /\ reloaded (Some relative_config) p r.2 r.1 /\
   f.1 = false /\ running f.2 = running p /\ reloaded (Some relative_config) p f.2 f.1).
Proof.
  intros p r f. assert (reachable relative_config example_sockets p) as Hp by apply rtc_refl.
  destruct (reload_transactional relative_config example_sockets p example_exits (Some relative_config) example_sockets Hp) as [H1 _].
  destruct (reload_transactional relative_config example_sockets p example_exits (Some relative_config) busy_sockets Hp) as [H2 _].
  split_and!; [by vm_compute|by vm_compute|exact H1|by vm_compute|by vm_compute|exact H2].
Defined.

Lemma relative_score_leaks_witness :
  let p := (start_program relative_config example_sockets).2 in
  let r := reload_config example_exits (Some relative_config) example_sockets p in
  (exists h, tasks (ts p) !! h = None /\ tasks (ts r.2) !! h = Some {| generation := 1; guard := relative_score |}) /\
  length (filter (fun e => e.2 = relative_score) (running r.2)) = 2%nat.
Proof.
  intros p r. assert (reachable relative_config example_sockets p) as Hp by apply rtc_refl.
  destruct (relative_score_leaks relative_config example_sockets p Hp) as [_ H].
  split; [|by vm_compute]. apply (H example_exits relative_config example_sockets); by vm_compute.
Defined.
