(* ===== verification/Process.v ===== *)
(** The life of the process, [main] of [src/src/main.rs]: reading the
    configuration, [--check], the start, the tasks that handle reports and
    signals, and the exit. The generations and their tasks are those of
    [Lifecycle].

    Reading the file, decoding and printing it, the log filter and
    [AppState::build] ([State] has it) are parameters. A signal without a
    handler kills the process, as SIGTERM always does. *)

From coqutil Require Import Datatypes.RecordSetters.
From Stdlib Require Import Strings.Byte Strings.String.
From S2P Require Import Prelude Bytes Config Cli ConfigKeys Lifecycle.
Import OCamlLikeNotations.
#[local] Open Scope Z_scope.

(** * The tasks of the process *)

(** The tasks that live as long as the process, each with a guard of its own. *)
Inductive Global := stats_listener | sighup_handler | usr1_handler.
#[global] Instance Global_eq_dec : EqDecision Global.
Proof. solve_decision. Defined.

(** What [main] waits for each of them. *)
Definition stop_timeout (g : Global) : Z :=
  match g with stats_listener => 1 | sighup_handler => 10 | usr1_handler => 2 end * SECOND.

(** Where [main] is: waiting for Ctrl-C, for the end of one of these tasks, or
    at its end; or killed by a signal. *)
Inductive Phase := Serving | Stopping (g : Global) (deadline : Z) | Exited | Killed.

(** [report_file]: whether the socket of the listener is in the file system. *)
Record Process := { program : Program; alive : Global -> bool; report_file : bool; phase : Phase }.
Definition with_program (q : Process) (p : Program) : Process :=
  {| program := p; alive := alive q; report_file := report_file q; phase := phase q |}.
Definition with_phase (q : Process) (ph : Phase) : Process :=
  {| program := program q; alive := alive q; report_file := report_file q; phase := ph |}.
Definition dead (q : Process) (g : Global) (file : bool) : Process :=
  {| program := program q; alive := fun g' => alive q g' && negb (bool_decide (g' = g)); report_file := file; phase := phase q |}.
Definition at_time (p : Program) (t : Z) : Program :=
  {| gens := gens p; active := active p; next_gen := next_gen p; ts := wait_until (ts p) t |}.

Definition set_time (p : Program) (t : Z) : Program :=
  {| gens := gens p; active := active p; next_gen := next_gen p; ts := {| tasks := tasks (ts p); next_task := next_task (ts p); clock := t |} |}.

(** * Start *)

(** What [main] and [reload_config] call: the address parsers and the map
    traversal of [validate], [str::to_lowercase], [toml::from_str] for a
    [Config] and for a [toml::Value], [to_string] and [to_string_pretty],
    [EnvFilter::try_new], and whether [AppState::build] succeeds. *)
Class Loader := {
  parse_ip_or_cidr : bytes -> bool;
  parse_socket_addr : bytes -> option SocketAddr;
  hash_iter : forall V, gmap bytes V -> list (bytes * V);
  to_lowercase : bytes -> bytes;
  from_str : bytes -> option Config.Config;
  value_from_str : bytes -> option Value;
  to_string : Config.Config -> option bytes;
  to_string_pretty : Config.Config -> option bytes;
  try_new : bytes -> bool;
  builds : Config.Config -> bool;
}.

Section Start.
Context `{Loader}.

Definition normalized (c : Config.Config) : Config.Config :=
  let (proxy, direct) := normalize_geosite_tags to_lowercase (Config.proxy_geosite_tags c) (Config.direct_geosite_tags c) in
  { c with Config.proxy_geosite_tags := proxy; Config.direct_geosite_tags := direct }.

(** How [main] and [reload_config] begin. *)
Definition load_config (config_str : bytes) : option Config.Config :=
  match from_str config_str with
  | None => None
  | Some c =>
      let c := normalized c in
      match validate parse_ip_or_cidr parse_socket_addr hash_iter c with Ok _ => Some c | _ => None end
  end.

Definition build_env_filter (c : Config.Config) : bool :=
  match Config.log_level c with Some level => try_new level | None => true end.

(** What [reload_config] has before it starts the new generation; the
    parameter [loaded] of [Lifecycle.reload_config]. *)
Definition loaded (file : option bytes) : option Config.Config :=
  config_str ← file; c ← load_config config_str;
  if build_env_filter c && builds c then Some c else None.

Inductive Outcome :=
  | Fails
  | Prints (warnings : list bytes) (output : bytes)
  | Runs (q : Process).

(** [left_over]: an earlier run left its socket behind. *)
Definition main (check left_over : bool) (file : option bytes) (env : Sockets) : Outcome :=
  match file with
  | None => Fails
  | Some config_str =>
      match load_config config_str with
      | None => Fails
      | Some c =>
          if check then
            match to_string_pretty c with
            | None => Fails
            | Some output => Prints (unknown_config_keys value_from_str to_string config_str c) output
            end
          else if negb (build_env_filter c) then Fails
          else if negb (builds c) then Fails
          else
            let (ok, p) := start_program c env in
            if negb ok then Fails
            else Runs {| program := p; alive := fun _ => true; report_file := left_over; phase := Serving |}
      end
  end.
End Start.

(** * Run and exit *)

Definition running (q : Process) : Prop := match phase q with Serving | Stopping _ _ => True | Exited | Killed => False end.
(** Nothing lasts past the deadline that [main] waits for. *)
Definition in_time (q : Process) (t : Z) : Prop := match phase q with Stopping _ d => t <= d | _ => running q end.

(** A shutdown of the guards [gs] in order that is dropped at an await: the
    guards up to the one at hand are cancelled and have given their handles
    away, and the tasks of those before it have ended. *)
Record partly_stopped (gs : list Guard) (s s' : Generation * Tasks) : Prop := {
  ps_split : exists gs1 g gs2, gs = gs1 ++ g :: gs2 /\
    (forall g', guards s'.1 g' = if decide (g' ∈ gs1 ++ [g]) then {| cancel := true; handles := [] |} else guards s.1 g') /\
    (forall h, guarded gs1 s.1 h -> tasks s'.2 !! h = None) /\
    (forall h, ~ guarded (gs1 ++ [g]) s.1 h -> tasks s'.2 !! h = tasks s.2 !! h);
  ps_sub h o : tasks s'.2 !! h = Some o -> tasks s.2 !! h = Some o;
  ps_next : next_task s'.2 = next_task s.2;
}.

(** The handler of SIGHUP is aborted at [d]: between two reloads or before one
    starts tasks, in the rollback of a failed start, or while the old
    generation shuts down. *)
Inductive aborted (p : Program) (d : Z) : Program -> Prop :=
  | aborted_idle : aborted p d (at_time p d)
  | aborted_rollback c env s s' :
      spawn_all_tasks (next_gen p) env (generation_new c, ts p) = (false, s) ->
      partly_stopped (reload_order ++ [tcp_handlers]) s s' ->
      aborted p d (set_time {| gens := gens p; active := active p; next_gen := S (next_gen p); ts := s'.2 |} d)
  | aborted_stop c env old s s_old :
      spawn_all_tasks (next_gen p) env (generation_new c, ts p) = (true, s) ->
      gens p !! active p = Some old -> partly_stopped reload_order (old, s.2) s_old ->
      aborted p d (set_time {| gens := <[active p := s_old.1]> (<[next_gen p := s.1]> (gens p)); active := next_gen p;
                              next_gen := S (next_gen p); ts := s_old.2 |} d).

(** The last lines of [main]: the active generation is shut down. *)
Definition exit_timeout : Z := 2 * SECOND.
Definition finish (exits : nat -> option Z) (p : Program) : Program :=
  match gens p !! active p with
  | None => p
  | Some current =>
      let (_, s) := shutdown_for_exit exits exit_timeout (current, ts p) in
      {| gens := <[active p := s.1]> (gens p); active := active p; next_gen := next_gen p; ts := s.2 |}
  end.

(** From one wait to the next. *)
Definition wait_for (q : Process) (g : Global) : Process := with_phase q (Stopping g (clock (ts (program q)) + stop_timeout g)).
Definition after_stop (exits : nat -> option Z) (g : Global) (q : Process) : Process :=
  match g with
  | stats_listener => wait_for q sighup_handler
  | sighup_handler => wait_for q usr1_handler
  | usr1_handler => with_phase (with_program q (finish exits (program q))) Exited
  end.

Inductive process_step (q : Process) : Process -> Prop :=
  (** time passes, and the tasks of the generations go on *)
  | q_time t : in_time q t -> process_step q (with_program q (at_time (program q) t))
  | q_task p : running q -> background_step (program q) p -> process_step q (with_program q p)
  (** the listener removes an old socket and binds its own, or gives up *)
  | q_bind (ok : bool) : running q -> alive q stats_listener = true ->
      process_step q (if ok then {| program := program q; alive := alive q; report_file := true; phase := phase q |} else dead q stats_listener false)
  (** SIGHUP, whose reload ends at [t] and may have begun during an earlier
      wait, and SIGUSR1; a handler that cannot be installed ends *)
  | q_reload exits loaded env t :
      alive q sighup_handler = true -> running q -> in_time q t -> clock (ts (program q)) <= t ->
      process_step q (with_program q (set_time (reload_config exits loaded env (program q)).2 t))
  | q_rotate : running q -> alive q usr1_handler = true -> process_step q (with_program q (rotate_mode (program q)))
  | q_no_handler g : running q -> g <> stats_listener -> process_step q (dead q g (report_file q))
  (** SIGINT, and SIGTERM *)
  | q_sigint : phase q = Serving -> process_step q (wait_for q stats_listener)
  | q_sigterm : running q ->
      process_step q (with_phase (with_program q {| gens := gens (program q); active := active (program q); next_gen := next_gen (program q);
        ts := {| tasks := ∅; next_task := next_task (ts (program q)); clock := clock (ts (program q)) |} |}) Killed)
  (** the task that [main] waits for has ended, or the wait is over *)
  | q_ended exits g d : phase q = Stopping g d ->
      process_step q (after_stop exits g (dead q g (if g is stats_listener then report_file q && negb (alive q g) else report_file q)))
  | q_timeout exits g d p : phase q = Stopping g d -> alive q g = true ->
      (if g is sighup_handler then aborted (program q) d p else p = at_time (program q) d) ->
      process_step q (after_stop exits g (dead (with_program q p) g (report_file q))).

(** ** The active generation *)

(** What the exit needs of the generations, and an abort leaves of their
    invariant. *)
Definition active_ok (p : Program) : Prop :=
  tasks_ok (ts p) /\ exists gen, gens p !! active p = Some gen /\ gen_wf (active p) gen (ts p).

Lemma inv_active p : inv p -> active_ok p.
Proof.
  intros [Hp _]. split; [by apply po_tasks_ok|]. destruct (po_active _ Hp) as [gen Hg]. exists gen. split; [done|]. by apply (po_gens _ Hp).
Qed.

(** Only the clock is another. *)
Definition retimed (p p' : Program) : Prop :=
  gens p' = gens p /\ active p' = active p /\ next_gen p' = next_gen p /\ tasks (ts p') = tasks (ts p) /\ next_task (ts p') = next_task (ts p).
Lemma retimed_at p t : retimed p (at_time p t).
Proof. by split_and!. Qed.
Lemma retimed_set p t : retimed p (set_time p t).
Proof. by split_and!. Qed.
Lemma retimed_wf p p' k gen : retimed p p' -> gen_wf k gen (ts p) -> gen_wf k gen (ts p').
Proof. intros (_ & _ & _ & Et & En) Hw. eapply gen_wf_less; [exact Hw|lia|]. by rewrite Et. Qed.
Lemma retimed_active p p' : retimed p p' -> active_ok p -> active_ok p'.
Proof.
  intros Hr [Hok (gen & Hg & Hw)]. pose proof Hr as (Eg & Ea & _ & Et & En). split.
  - intros h o. rewrite Et, En. apply Hok.
  - exists gen. rewrite Eg, Ea. split; [done|by eapply retimed_wf].
Qed.
Lemma retimed_inv p p' : retimed p p' -> inv p -> inv p'.
Proof.
  intros Hr [[Ht Hg Ha] Hrel]. pose proof Hr as (Eg & Ea & Eng & Et & En). split; [split|].
  - intros h o. rewrite Et, En, Eg. apply Ht.
  - intros k gen. rewrite Eg, Eng. intros [? Hw]%Hg. split; [done|by eapply retimed_wf].
  - by rewrite Eg, Ea.
  - intros h o gen. rewrite Et, Eg. apply Hrel.
Qed.

Lemma task_step_active p p' : active_ok p -> background_step p p' -> active_ok p'.
Proof.
  intros [Hok (cur & Hcur & Hw)] Hs. destruct Hs as [k gen g Hk _ _|h o gen Ho Hgen _|k gen Hk Hgen _].
  - destruct (spawn_spawns k [g] g (gen, ts p) Hok ltac:(by left)) as [Hsp _]. destruct (spawn k g (gen, ts p)) as [gen' ts'].
    split; [exact (spawns_ok k [g] (gen, ts p) _ Hok Hsp)|]. cbn. destruct (decide (active p = k)) as [<-|Hne].
    + exists gen'. rewrite lookup_insert_eq. split; [done|]. apply (sp_wf _ _ _ _ Hsp). by simplify_eq.
    + exists cur. rewrite lookup_insert_ne by done. split; [done|]. exact (gen_wf_spawns _ _ _ _ _ _ _ Hw Hne Hsp).
  - split; cbn [ts gens active]; [intros h' o'; cbn; intros [_ ?]%lookup_delete_Some; by eapply Hok|]. exists cur. split; [done|].
    eapply gen_wf_less; [exact Hw|done|]. cbn. by intros h' o' [_ ?]%lookup_delete_Some.
  - split; [exact Hok|]. exists cur. cbn. by rewrite lookup_insert_ne.
Qed.
Lemma rotate_active p : active_ok p -> active_ok (rotate_mode p).
Proof.
  intros [Hok (cur & Hcur & Hw)]. split; [exact Hok|]. eexists. change (active (rotate_mode p)) with (active p).
  rewrite rotate_lookup, Hcur, decide_True by done. split; [done|]. by eapply gen_wf_handles; [|exact Hw].
Qed.

Lemma aborted_active p d p' : inv p -> aborted p d p' -> active_ok p'.
Proof.
  intros Hi Ha. pose proof (inv_active p Hi) as Hact. pose proof Hact as [Hok (cur & Hcur & Hw)]. destruct Hi as [Hp _].
  destruct Ha as [|c env s s' E Hs|c env old s s_old E Hold Hs].
  - by eapply retimed_active; [apply retimed_at|].
  - destruct (spawn_all_spawns (next_gen p) env (generation_new c, ts p) Hok) as [Hsp _]. rewrite E in Hsp. cbn [snd] in Hsp.
    eapply retimed_active; [apply retimed_set|]. split; cbn.
    + intros h o Ho%(ps_sub _ _ _ Hs). rewrite (ps_next _ _ _ Hs). exact (spawns_ok (next_gen p) _ (generation_new c, ts p) _ Hok Hsp h o Ho).
    + exists cur. split; [done|]. assert (active p <> next_gen p) as Hne by (apply (po_gens _ Hp) in Hcur as [? _]; lia).
      eapply gen_wf_less; [exact (gen_wf_spawns _ _ _ _ _ _ _ Hw Hne Hsp)|by rewrite (ps_next _ _ _ Hs)|apply (ps_sub _ _ _ Hs)].
  - destruct (spawn_all_spawns (next_gen p) env (generation_new c, ts p) Hok) as [Hsp _]. rewrite E in Hsp. cbn [snd] in Hsp.
    eapply retimed_active; [apply retimed_set|]. split; cbn.
    + intros h o Ho%(ps_sub _ _ _ Hs). rewrite (ps_next _ _ _ Hs). exact (spawns_ok (next_gen p) _ (generation_new c, ts p) _ Hok Hsp h o Ho).
    + assert (active p <> next_gen p) as Hne by (apply (po_gens _ Hp) in Hcur as [? _]; lia).
      exists s.1. rewrite lookup_insert_ne, lookup_insert_eq by done. split; [done|].
      eapply gen_wf_less; [apply (sp_wf _ _ _ _ Hsp), generation_new_wf; intros h o; by apply fresh_generation
        |by rewrite (ps_next _ _ _ Hs)|apply (ps_sub _ _ _ Hs)].
Qed.

(** ** What holds of a run *)

Definition process_ok (q : Process) : Prop :=
  running q -> active_ok (program q) /\ (alive q sighup_handler = true -> inv (program q)).

Lemma start_process_ok c env alive file : process_ok {| program := (start_program c env).2; alive := alive; report_file := file; phase := Serving |}.
Proof. intros _. pose proof (start_ok c env) as Hi. by split; [apply inv_active|]. Qed.

(** Ending a task of the process, and waiting for the next. *)
Lemma dead_ok q g file : process_ok q -> process_ok (dead q g file).
Proof. intros Hq Hr. destruct (Hq Hr) as [Ha Hi]. split; [done|]. cbn. intros [? _]%andb_prop. by apply Hi. Qed.
Lemma after_stop_ok exits g q : process_ok q -> running q -> process_ok (after_stop exits g q).
Proof. intros Hq Hr. destruct g; intros H; [by apply Hq|by apply Hq|done]. Qed.

Lemma timeout_ok q g d p :
  process_ok q -> phase q = Stopping g d -> alive q g = true -> clock (ts (program q)) <= d ->
  (if g is sighup_handler then aborted (program q) d p else p = at_time (program q) d) ->
  running q /\ active_ok p /\ clock (ts p) <= d /\ process_ok (dead (with_program q p) g (report_file q)).
Proof.
  intros Hq Hph Hal Hc Ha. assert (running q) as Hr by (unfold running; by rewrite Hph). destruct (Hq Hr) as [Hact Hi].
  destruct (decide (g = sighup_handler)) as [->|Hne].
  - assert (active_ok p) as Hp by (eapply aborted_active; [by apply Hi|done]). split_and!; [done|done|destruct Ha; cbn; lia|].
    intros _. split; [done|]. cbn. by rewrite andb_false_r.
  - assert (p = at_time (program q) d) as -> by (by destruct g).
    assert (active_ok (at_time (program q) d)) as Hp by (by eapply retimed_active; [apply retimed_at|]).
    split_and!; [done|done|cbn; lia|]. apply dead_ok. intros _. split; [done|]. intros ?%Hi. by eapply retimed_inv; [apply retimed_at|].
Qed.

(** Every wait of [main] has a deadline ahead. *)
Definition on_time (q : Process) : Prop := match phase q with Stopping _ d => clock (ts (program q)) <= d | _ => True end.

Lemma process_step_ok q q' : process_ok q -> on_time q -> process_step q q' -> process_ok q'.
Proof.
  intros Hq Ho Hs. destruct Hs as [t Ht|p Hr Hs|ok Hr Hal|exits loaded env t Hal Hr _ _|Hr _|g Hr _|Hph|Hr|exits g d Hph|exits g d p Hph Hal Ha].
  - intros Hr. destruct (Hq Hr) as [Ha Hi]. split; [by eapply retimed_active; [apply retimed_at|]|].
    intros ?%Hi. by eapply retimed_inv; [apply retimed_at|].
  - intros _. destruct (Hq Hr) as [Ha Hi]. split; [by eapply task_step_active|].
    intros ?%Hi. eapply program_step_ok; [done|by apply step_task].
  - destruct ok; [exact Hq|by apply dead_ok].
  - intros _. destruct (Hq Hr) as [_ Hi]. assert (inv (set_time (reload_config exits loaded env (program q)).2 t)) as Hi'
      by (eapply retimed_inv; [apply retimed_set|apply reload_step_ok; auto]). by split; [apply inv_active|].
  - intros _. destruct (Hq Hr) as [Ha Hi]. split; [by apply rotate_active|]. intros ?%Hi. by apply rotate_ok.
  - by apply dead_ok.
  - intros _. apply Hq. unfold running. by rewrite Hph.
  - intros [].
  - assert (running q) as Hr by (unfold running; by rewrite Hph). by apply after_stop_ok; [apply dead_ok|].
  - unfold on_time in Ho. rewrite Hph in Ho. destruct (timeout_ok q g d p) as (Hr & _ & _ & H); [done..|]. by apply after_stop_ok.
Qed.

(** The time that is left for the exit once a wait is over. *)
Definition exit_time : Z := Z.of_nat (length (reload_order ++ [tcp_handlers])) * exit_timeout.
Definition rest (g : Global) : Z :=
  match g with
  | stats_listener => stop_timeout sighup_handler + stop_timeout usr1_handler
  | sighup_handler => stop_timeout usr1_handler
  | usr1_handler => 0
  end + exit_time.

(** The exit is over by [limit], and then the active generation is empty but
    for the tasks that nothing stops. *)
Record exiting (limit : Z) (q : Process) : Prop := {
  ex_time : match phase q with
    | Serving => False
    | Stopping g d => clock (ts (program q)) <= d /\ d + rest g <= limit
    | Exited | Killed => clock (ts (program q)) <= limit
    end;
  ex_tasks h o : phase q = Exited -> tasks (ts (program q)) !! h = Some o -> generation o = active (program q) ->
    guard o = relative_score \/ guard o = score_debug_printer;
}.

Lemma finish_ok exits p : active_ok p ->
  let p' := finish exits p in
  clock (ts p') <= clock (ts p) + exit_time /\ active p' = active p /\
  forall h o, tasks (ts p') !! h = Some o <-> tasks (ts p) !! h = Some o /\
    ~ (generation o = active p /\ guard o <> relative_score /\ guard o <> score_debug_printer).
Proof.
  intros [Hok (gen & Hg & Hw)]. unfold finish. rewrite Hg.
  pose proof (shutdown_for_exit_stopped exits exit_timeout (gen, ts p) ltac:(done)) as Hs.
  destruct (shutdown_for_exit _ _ _) as [r s]. cbn [snd fst] in Hs. cbv zeta. cbn [ts active].
  split; [apply (st_clock _ _ _ _ Hs)|]. split; [done|]. intros h o. rewrite (st_tasks _ _ _ _ Hs). cbn [fst snd].
  assert (tasks (ts p) !! h = Some o -> guarded (reload_order ++ [tcp_handlers]) gen h <->
    generation o = active p /\ guard o <> relative_score /\ guard o <> score_debug_printer) as Hiff.
  { intros Ho. rewrite (guarded_owner _ _ _ _ _ _ Hw Ho). apply and_iff_compat_l.
    destruct (guard o); split; try done; try (by intros [? ?]); try (by intros; split); try in_list; intros H; exfalso; revert H; in_list. }
  destruct (decide _) as [Hin|Hout]; split; try done; [|tauto|tauto].
  intros [Ho Hn]. by apply Hiff in Hin.
Qed.

Lemma stop_timeout_pos g : 0 < stop_timeout g.
Proof. by destruct g. Qed.

Lemma after_stop_exiting exits limit g d q :
  active_ok (program q) -> clock (ts (program q)) <= d -> d + rest g <= limit -> exiting limit (after_stop exits g q).
Proof.
  intros Ha Hc Hl. unfold rest in Hl. pose proof (stop_timeout_pos sighup_handler). pose proof (stop_timeout_pos usr1_handler).
  destruct g; cbn [after_stop].
  - split; cbn [wait_for with_phase phase program]; [unfold rest; lia|done].
  - split; cbn [wait_for with_phase phase program]; [unfold rest; lia|done].
  - destruct (finish_ok exits (program q) Ha) as (Ht & Hact & Htasks). split; cbn [with_phase with_program phase program]; [lia|].
    intros h o _ [_ Ho]%Htasks. rewrite Hact. intros Hg. destruct (decide (guard o = relative_score)); [by left|].
    destruct (decide (guard o = score_debug_printer)); [by right|]. by destruct Ho.
Qed.

Lemma exiting_step limit q q' : process_ok q -> exiting limit q -> process_step q q' -> exiting limit q'.
Proof.
  intros Hq He Hs. pose proof He as [Htime _].
  assert (forall p', running q -> in_time q (clock (ts p')) -> exiting limit (with_program q p')) as Hgo.
  { intros p' Hr Ht. unfold running, in_time in *. split; cbn; destruct (phase q); try done. lia. }
  assert (forall t, running q -> t <= clock (ts (program q)) -> in_time q t) as Hnow.
  { intros t Hr Ht. unfold running, in_time in *. destruct (phase q); try done. lia. }
  destruct Hs as [t Ht|p Hr Hs|ok Hr Hal|exits loaded env t Hal Hr Ht _|Hr _|g Hr _|Hph|Hr|exits g d Hph|exits g d p Hph Hal Ha].
  - assert (running q) as Hr by (unfold in_time, running in *; by destruct (phase q)). apply Hgo; [done|].
    cbn. unfold running, in_time in *. destruct (phase q); try done; lia.
  - apply Hgo; [done|]. apply Hnow; [done|]. destruct Hs as [k gen g|h o gen|k gen]; cbn; lia.
  - unfold running in Hr. destruct ok; (split; cbn; [exact Htime|intros h o E; by rewrite E in Hr]).
  - by apply Hgo.
  - apply Hgo; [done|]. by apply Hnow.
  - unfold running in Hr. split; cbn; [exact Htime|]. intros h o E. by rewrite E in Hr.
  - by rewrite Hph in Htime.
  - split; cbn; [|done]. unfold running in Hr. destruct (phase q) as [|g d| |]; try done. destruct Htime as [? Hl]. revert Hl.
    unfold rest, stop_timeout, exit_time, exit_timeout, SECOND. destruct g; lia.
  - assert (running q) as Hr by (unfold running; by rewrite Hph). rewrite Hph in Htime. destruct Htime.
    eapply after_stop_exiting; [by apply Hq|done|done].
  - rewrite Hph in Htime. destruct Htime as [Hc Hl]. destruct (timeout_ok q g d p) as (_ & Hp & Ht & _); [done..|].
    by eapply after_stop_exiting.
Qed.

(** The time that the whole exit may take. *)
Definition exit_limit : Z := stop_timeout stats_listener + rest stats_listener.
Lemma exit_limit_eq : exit_limit = 29 * SECOND.
Proof. by vm_compute. Qed.

Lemma serving_step q q' : phase q = Serving -> process_step q q' ->
  phase q' = Serving \/ exiting (clock (ts (program q)) + exit_limit) q'.
Proof.
  intros Hph Hs. pose proof exit_limit_eq as El. pose proof (stop_timeout_pos stats_listener).
  destruct Hs as [| |[] ?| | | |_|Hr|? ? ? E|? ? ? ? E]; try (by left); try (by rewrite Hph in E); right.
  - split; [|done]. cbn [wait_for with_phase phase program]. unfold exit_limit. lia.
  - split; [|done]. cbn. unfold SECOND in El. lia.
Qed.

(** What holds throughout. *)
Definition run_inv (q : Process) : Prop := process_ok q /\ (phase q = Serving \/ exists limit, exiting limit q).
Lemma run_inv_step q q' : run_inv q -> process_step q q' -> run_inv q'.
Proof.
  intros [Hq Hcase] Hs. assert (on_time q) as Ht.
  { unfold on_time. destruct Hcase as [->|[limit [He _]]]; [done|]. destruct (phase q); [done|apply He|done|done]. }
  split; [by eapply process_step_ok|]. destruct Hcase as [Hser|[limit He]].
  - destruct (serving_step q q' Hser Hs) as [|He]; [by left|right; by eexists].
  - right. exists limit. by eapply exiting_step.
Qed.

(** From every wait the end can be reached. *)
Lemma stop_one q g d : phase q = Stopping g d -> exists q', process_step q q' /\
  match g with
  | stats_listener => exists d', phase q' = Stopping sighup_handler d'
  | sighup_handler => exists d', phase q' = Stopping usr1_handler d'
  | usr1_handler => phase q' = Exited
  end.
Proof.
  intros E. eexists. split; [exact (q_ended q (fun _ => None) g d E)|]. destruct g; by try eexists.
Qed.
Lemma can_exit q g d : phase q = Stopping g d -> exists q', rtc process_step q q' /\ phase q' = Exited.
Proof.
  assert (forall q d, phase q = Stopping usr1_handler d -> exists q', rtc process_step q q' /\ phase q' = Exited) as H1.
  { intros q1 d1 (q2 & Hs & E)%stop_one. exists q2. by split; [apply rtc_once|]. }
  assert (forall q d, phase q = Stopping sighup_handler d -> exists q', rtc process_step q q' /\ phase q' = Exited) as H2.
  { intros q1 d1 (q2 & Hs & d2 & (q3 & Hr & E)%H1)%stop_one. exists q3. by split; [eapply rtc_l|]. }
  destruct g; [|apply H2|apply H1]. intros (q2 & Hs & d2 & (q3 & Hr & E)%H2)%stop_one. exists q3. by split; [eapply rtc_l|].
Qed.

(** * Theorems *)

Section Main.
Context `{Loader}.

Lemma main_runs left_over file env q : main false left_over file env = Runs q <->
  exists c p, loaded file = Some c /\ start_program c env = (true, p) /\
    q = {| program := p; alive := fun _ => true; report_file := left_over; phase := Serving |}.
Proof.
  unfold Process.main, Process.loaded. destruct file as [s|]; cbn; [|by split; [|intros (? & ? & ? & _)]].
  destruct (load_config s) as [c|]; cbn; [|by split; [|intros (? & ? & ? & _)]].
  destruct (build_env_filter c), (builds c); cbn; try (by split; [|intros (? & ? & ? & _)]).
  destruct (start_program c env) as [[|] p] eqn:E; cbn.
  - split; [intros [= <-]; by exists c, p|]. intros (c' & p' & [= <-] & E' & ->). rewrite E in E'. by injection E' as <-.
  - split; [done|]. intros (c' & p' & [= <-] & E' & _). by rewrite E in E'.
Qed.

(** What [--check] turns down, neither a start nor a reload takes. *)
Theorem check_sound left_over file env :
  (forall c, to_string_pretty c <> None) -> main true left_over file env = Fails ->
  loaded file = None /\ forall q, main false left_over file env <> Runs q.
Proof.
  intros Hp Hf. assert (loaded file = None) as E.
  { unfold Process.main, Process.loaded in *. destruct file as [s|]; [|done]. cbn in *. destruct (load_config s) as [c|]; [|done].
    specialize (Hp c). by destruct (to_string_pretty c). }
  split; [done|]. intros q (c & p & E' & _)%main_runs. congruence.
Qed.

(** C19: the exit. From the moment of Ctrl-C, in any state of any run that [main]
    has started, and whatever the tasks, the signals and the system do
    meanwhile (a reload under way finishes, or is cut off at any await), the
    process is gone within 29 seconds; its end can be reached from every state
    on the way; and when [main] returns, no task of the generation then active
    runs but those of relative scoring and of the debug printer, which nothing
    stops. *)
Theorem exit_exact left_over file env q0 q q' :
  main false left_over file env = Runs q0 -> rtc process_step q0 q -> phase q = Serving ->
  rtc process_step (wait_for q stats_listener) q' ->
  clock (ts (program q')) <= clock (ts (program q)) + 29 * SECOND /\
  (phase q' = Killed \/ exists q2, rtc process_step q' q2 /\ phase q2 = Exited) /\
  (phase q' = Exited -> forall h o, tasks (ts (program q')) !! h = Some o -> generation o = active (program q') ->
     guard o = relative_score \/ guard o = score_debug_printer).
Proof.
  intros (c & p & _ & Es & ->)%main_runs Hr Hph He. pose proof (start_process_ok c env (fun _ => true) left_over) as H0. rewrite Es in H0.
  assert (run_inv q) as [Hq _] by (refine (rtc_ind_r run_inv _ _ _ q Hr); [by split; [|left]|intros ? ? _ ? ?; by eapply run_inv_step]).
  assert (process_ok q' /\ exiting (clock (ts (program q)) + exit_limit) q') as [Hq' [Ht Hx]].
  { refine (rtc_ind_r (fun q' => process_ok q' /\ exiting _ q') _ _ _ q' He).
    - destruct (serving_step q _ Hph (q_sigint q Hph)); [done|]. split; [|done]. eapply process_step_ok; [done|by unfold on_time; rewrite Hph|by apply q_sigint].
    - intros q1 q2 _ Hs [Hq1 He1]. split; [|by eapply exiting_step]. eapply process_step_ok; [done| |done]. unfold on_time.
      destruct He1 as [Ht _]. by destruct (phase q1); [|apply Ht| |]. }
  rewrite exit_limit_eq in Ht. split; [|split; [|intros ? h o; by apply Hx]].
  - destruct (phase q') as [|g d| |]; try done. pose proof (stop_timeout_pos sighup_handler). pose proof (stop_timeout_pos usr1_handler).
    destruct Ht as [? Hl]. revert Hl. unfold rest, exit_time, exit_timeout. destruct g; cbn [length reload_order app]; unfold SECOND in *; lia.
  - destruct (phase q') as [|g d| |] eqn:E; [done|right; by eapply can_exit|right; by exists q'|by left].
Qed.
End Main.

(** ** A run *)

#[local] Instance example_loader : Loader := {|
  parse_ip_or_cidr := fun _ => true; parse_socket_addr := example_listen; hash_iter := fun V m => map_to_list m; to_lowercase := fun s => s;
  from_str := fun _ => Some relative_config; value_from_str := fun _ => None; to_string := fun _ => None;
  to_string_pretty := fun _ => Some []; try_new := fun _ => true; builds := fun _ => true |}.

(** A connection is accepted, the configuration is reloaded, Ctrl-C. *)
Definition example_started : Program := (start_program relative_config example_sockets).2.
Definition example_connection : Program :=
  match gens example_started !! 0%nat with
  | Some gen => let (gen, ts) := spawn 0 tcp_handlers (gen, ts example_started) in
      {| gens := <[0%nat := gen]> (gens example_started); active := active example_started; next_gen := next_gen example_started; ts := ts |}
  | None => example_started
  end.
Definition serving (p : Program) : Process := {| program := p; alive := fun _ => true; report_file := true; phase := Serving |}.
Definition example_serving : Process :=
  with_program (serving example_connection) (set_time (reload_config example_exits (Some relative_config) example_sockets example_connection).2 (3 * SECOND)).
Definition stop (g : Global) (q : Process) : Process :=
  after_stop example_exits g (dead q g (if g is stats_listener then report_file q && negb (alive q g) else report_file q)).
Definition example_exited : Process := stop usr1_handler (stop sighup_handler (stop stats_listener (wait_for example_serving stats_listener))).

Lemma example_run : rtc process_step (serving example_started) example_serving /\
  rtc process_step (wait_for example_serving stats_listener) example_exited.
Proof.
  split.
  - eapply rtc_l; [apply (q_task (serving example_started) example_connection I)|].
    + assert (is_Some (gens example_started !! 0%nat)) as [gen Hg] by (by vm_compute; eexists).
      unfold example_connection. rewrite Hg. apply (step_spawn _ 0 gen tcp_handlers Hg); [by left|].
      exists 0%nat, {| generation := 0; guard := tcp_listeners |}. split; [by vm_compute|done].
    + eapply rtc_l; [|apply rtc_refl]. apply (q_reload (serving example_connection) example_exits (Some relative_config) example_sockets); [done..|].
      vm_compute. discriminate.
  - set (q1 := wait_for example_serving stats_listener). set (q2 := stop stats_listener q1). set (q3 := stop sighup_handler q2).
    eapply rtc_l; [exact (q_ended q1 example_exits stats_listener _ eq_refl)|].
    eapply rtc_l; [exact (q_ended q2 example_exits sighup_handler _ eq_refl)|].
    apply rtc_once. exact (q_ended q3 example_exits usr1_handler _ eq_refl).
Qed.

(** The connection that the replaced generation had accepted is still there:
    the exit shuts down the handlers of the active generation only. *)
Lemma exit_exact_witness :
  main false true (Some []) example_sockets = Runs (serving example_started) /\
  phase example_exited = Exited /\ report_file example_exited = false /\
  (exists h, tasks (ts (program example_exited)) !! h = Some {| generation := 0; guard := tcp_handlers |}) /\
  clock (ts (program example_exited)) <= clock (ts (program example_serving)) + 29 * SECOND.
Proof.
  destruct example_run as [H1 H2]. assert (main false true (Some []) example_sockets = Runs (serving example_started)) as Hm by (by vm_compute).
  split; [done|]. split; [by vm_compute|]. split; [by vm_compute|]. split.
  - exists 5%nat. by vm_compute.
  - by apply (exit_exact true (Some []) example_sockets (serving example_started) example_serving example_exited Hm H1).
Defined.
